(** * Flappy-bird: a shallow embedding of the game simulation

    The repository holds two versions of the same game:
    - [src/unnamed/part_000], the frame-rate independent version (delta time,
      pause, difficulty ramp), embedded in module [Enhanced];
    - [src/game.js], the fixed-step version, embedded in module [Legacy].

    Conventions of the embedding.
    - JavaScript numbers are IEEE doubles. Counters ([score], [frame],
      [bestScore]) are modelled as [Z]; every other number is modelled as an
      exact rational [Q], compared with [==]. Rounding, infinities and NaN
      are not represented, except where the source turns NaN into a value
      ([parseInt(...) || 0], a comparison with a non-numeric string).
    - Global variables of the script are the fields of one record [Game];
      a function of the script that mutates globals is a function
      [Game -> Game] (or [Game -> A * Game] when it also returns a value).
    - [Math.random()] is a stream [Math_random : nat -> Q]; the field
      [draws] counts how many values have been consumed.
    - [localStorage] holds at most the key ['bestScore'].
    - Canvas drawing and DOM updates ([draw], [drawPipe], the overlay
      panels, [updateScore]) do not feed back into the simulation and are
      left out. *)

From Stdlib Require Import QArith Qround Qminmax ZArith List String Ascii Lia Lqa Bool.
From Stdlib Require Import DecimalString.
From Stdlib Require DecimalPos.
From stdpp Require Import base list.

#[local] Open Scope Q_scope.

(** ** JavaScript numbers *)

(** [a < b] on numbers. *)
Definition Qltb (a b : Q) : bool := negb (Qle_bool b a).

(** Truncation toward zero. *)
Definition Qtrunc (q : Q) : Z :=
  if Qle_bool 0 q then Qfloor q else Qceiling q.

(** The [%] operator: the remainder has the sign of the dividend.
    ([a % 0] is NaN in JavaScript; the divisors of the source are 3, 20 and
    the width of the canvas.) *)
Definition JS_rem (a b : Q) : Q := a - b * inject_Z (Qtrunc (a / b)).

Definition Math_min (a b : Q) : Q := Qmin a b.
Definition Math_max (a b : Q) : Q := Qmax a b.

(** ** Strings and [parseInt] *)

(** A string is a sequence of code units below 256. *)

Definition isStrWhiteSpaceChar (c : ascii) : bool :=
  let n := nat_of_ascii c in
  ((n =? 9) || (n =? 10) || (n =? 11) || (n =? 12) || (n =? 13)
   || (n =? 32) || (n =? 160))%nat.

Fixpoint trimStart (s : string) : string :=
  match s with
  | String c r => if isStrWhiteSpaceChar c then trimStart r else s
  | EmptyString => EmptyString
  end.

(** The value of [c] as a digit of radix [R], if it is one. *)
Definition digitValue (R : Z) (c : ascii) : option Z :=
  let n := Z.of_nat (nat_of_ascii c) in
  let v :=
    if ((48 <=? n) && (n <=? 57))%Z then Some (n - 48)%Z
    else if ((97 <=? n) && (n <=? 122))%Z then Some (n - 87)%Z
    else if ((65 <=? n) && (n <=? 90))%Z then Some (n - 55)%Z
    else None in
  match v with
  | Some d => if (d <? R)%Z then Some d else None
  | None => None
  end.

(** Reads the longest prefix of radix-[R] digits; [acc] is [Some] of the
    value read so far once a digit has been seen. *)
Fixpoint parseDigits (R : Z) (acc : option Z) (s : string) : option Z :=
  match s with
  | String c r =>
      match digitValue R c with
      | Some d =>
          parseDigits R (Some (match acc with Some a => a * R + d | None => d end)%Z) r
      | None => acc
      end
  | EmptyString => acc
  end.

(** [parseInt(string)] with no radix argument: [None] is NaN. A negative
    zero is not distinguished from zero. *)
Definition parseInt (inputString : string) : option Z :=
  let S0 := trimStart inputString in
  let '(sign, S1) :=
    match S0 with
    | String "-" r => ((-1)%Z, r)
    | String "+" r => (1%Z, r)
    | _ => (1%Z, S0)
    end in
  let '(R, S2) :=
    match S1 with
    | String "0" (String "x" r) => (16%Z, r)
    | String "0" (String "X" r) => (16%Z, r)
    | _ => (10%Z, S1)
    end in
  match parseDigits R None S2 with
  | Some mathInt => Some (sign * mathInt)%Z
  | None => None
  end.

(** [String(v)] for the result of [localStorage.getItem]: [null] prints as
    ["null"]. *)
Definition ToString_item (v : option string) : string :=
  match v with
  | Some s => s
  | None => "null"
  end.

(** [String(n)] for an integer-valued number. *)
Definition Number_toString (n : Z) : string :=
  NilZero.string_of_int (Z.to_int n).

(** ** The game states *)

Inductive GameState := START | PLAYING | PAUSED | GAME_OVER.

Definition GameState_eqb (a b : GameState) : bool :=
  match a, b with
  | START, START | PLAYING, PLAYING | PAUSED, PAUSED | GAME_OVER, GAME_OVER => true
  | _, _ => false
  end.

(** ** The objects of the game

    Both scripts declare the same classes and the same [bird] object; the
    records below list their fields. *)

Module Particle.
Record t := mk {
  x : Q; y : Q; vx : Q; vy : Q; gravity : Q;
  life : Q; decay : Q; size : Q; color : string
}.
End Particle.

Module Bird.
Record t := mk {
  x : Q; y : Q; width : Q; height : Q; velocity : Q; gravity : Q;
  jumpStrength : Q; rotation : Q; wingFrame : Q;
  maxVelocity : Q; terminalVelocity : Q
}.
Definition set_y (v : Q) (b : t) : t :=
  {| x := x b; y := v; width := width b; height := height b;
     velocity := velocity b; gravity := gravity b;
     jumpStrength := jumpStrength b; rotation := rotation b;
     wingFrame := wingFrame b; maxVelocity := maxVelocity b;
     terminalVelocity := terminalVelocity b |}.
Definition set_velocity (v : Q) (b : t) : t :=
  {| x := x b; y := y b; width := width b; height := height b; velocity := v;
     gravity := gravity b; jumpStrength := jumpStrength b;
     rotation := rotation b; wingFrame := wingFrame b;
     maxVelocity := maxVelocity b; terminalVelocity := terminalVelocity b |}.
Definition set_rotation (v : Q) (b : t) : t :=
  {| x := x b; y := y b; width := width b; height := height b;
     velocity := velocity b; gravity := gravity b;
     jumpStrength := jumpStrength b; rotation := v; wingFrame := wingFrame b;
     maxVelocity := maxVelocity b; terminalVelocity := terminalVelocity b |}.
Definition set_wingFrame (v : Q) (b : t) : t :=
  {| x := x b; y := y b; width := width b; height := height b;
     velocity := velocity b; gravity := gravity b;
     jumpStrength := jumpStrength b; rotation := rotation b; wingFrame := v;
     maxVelocity := maxVelocity b; terminalVelocity := terminalVelocity b |}.
End Bird.

Module Pipe.
Record t := mk {
  x : Q; width : Q; gap : Q; minHeight : Q; maxHeight : Q;
  topHeight : Q; scored : bool; speed : Q; highlightOffset : Q
}.
Definition set_x (v : Q) (p : t) : t :=
  {| x := v; width := width p; gap := gap p; minHeight := minHeight p;
     maxHeight := maxHeight p; topHeight := topHeight p; scored := scored p;
     speed := speed p; highlightOffset := highlightOffset p |}.
Definition set_scored (v : bool) (p : t) : t :=
  {| x := x p; width := width p; gap := gap p; minHeight := minHeight p;
     maxHeight := maxHeight p; topHeight := topHeight p; scored := v;
     speed := speed p; highlightOffset := highlightOffset p |}.
Definition set_highlightOffset (v : Q) (p : t) : t :=
  {| x := x p; width := width p; gap := gap p; minHeight := minHeight p;
     maxHeight := maxHeight p; topHeight := topHeight p; scored := scored p;
     speed := speed p; highlightOffset := v |}.
End Pipe.

Module Cloud.
Record t := mk {
  x : Q; y : Q; layer : Q; speed : Q; size : Q; opacity : Q
}.
End Cloud.

Module Mountain.
Record t := mk { layer : Q; speed : Q; offset : Q; color : string }.
End Mountain.

(** * The frame-rate independent game ([src/unnamed/part_000]) *)

Module Enhanced.

(** [CONFIG]: "all tunable values in one place". The field
    [CONFIG.debug.showHitboxes] is toggled at run time and lives in the
    game state instead. *)
Record Config := {
  canvas_width : Q;
  canvas_height : Q;
  bird_x : Q;
  bird_width : Q;
  bird_height : Q;
  bird_gravity : Q;
  bird_jumpStrength : Q;
  bird_maxVelocity : Q;
  bird_terminalVelocity : Q;
  bird_hitboxPadding : Q;
  pipe_width : Q;
  pipe_gap : Q;
  pipe_minHeight : Q;
  pipe_baseSpeed : Q;
  pipe_spawnInterval : Z;
  ground_height : Q;
  ground_scrollSpeed : Q;
  physics_targetFPS : Q;
  physics_rotationEasing : Q;
  difficulty_enabled : bool;
  difficulty_speedIncreasePerScore : Q;
  difficulty_maxSpeedMultiplier : Q;
  difficulty_gapDecreasePerScore : Q;
  difficulty_minGap : Q
}.

Definition CONFIG : Config := {|
  canvas_width := 400;
  canvas_height := 600;
  bird_x := 80;
  bird_width := 34;
  bird_height := 24;
  bird_gravity := 0.6;
  bird_jumpStrength := -10;
  bird_maxVelocity := 12;
  bird_terminalVelocity := 10;
  bird_hitboxPadding := 5;
  pipe_width := 60;
  pipe_gap := 150;
  pipe_minHeight := 50;
  pipe_baseSpeed := 2.5;
  pipe_spawnInterval := 120;
  ground_height := 100;
  ground_scrollSpeed := 2.5;
  physics_targetFPS := 60;
  physics_rotationEasing := 0.15;
  difficulty_enabled := true;
  difficulty_speedIncreasePerScore := 0.05;
  difficulty_maxSpeedMultiplier := 1.8;
  difficulty_gapDecreasePerScore := 2;
  difficulty_minGap := 120
|}.

(** The global variables of the script. *)
Record Game := mkGame {
  gameState : GameState;
  score : Z;
  bestScore : Z;
  frame : Z;
  particles : list Particle.t;
  groundOffset : Q;
  lastFrameTime : Q;
  deltaTime : Q;
  difficultyMultiplier : Q;
  currentPipeGap : Q;
  bird : Bird.t;
  pipes : list Pipe.t;
  clouds : list Cloud.t;
  mountains : list Mountain.t;
  lastJumpTime : Q;
  showHitboxes : bool;
  localStorage : option string;
  draws : nat
}.

Definition set_gameState (v : GameState) (g : Game) : Game :=
  {| gameState := v; score := score g; bestScore := bestScore g;
     frame := frame g; particles := particles g;
     groundOffset := groundOffset g; lastFrameTime := lastFrameTime g;
     deltaTime := deltaTime g; difficultyMultiplier := difficultyMultiplier g;
     currentPipeGap := currentPipeGap g; bird := bird g; pipes := pipes g;
     clouds := clouds g; mountains := mountains g;
     lastJumpTime := lastJumpTime g; showHitboxes := showHitboxes g;
     localStorage := localStorage g; draws := draws g |}.
Definition set_score (v : Z) (g : Game) : Game :=
  {| gameState := gameState g; score := v; bestScore := bestScore g;
     frame := frame g; particles := particles g;
     groundOffset := groundOffset g; lastFrameTime := lastFrameTime g;
     deltaTime := deltaTime g; difficultyMultiplier := difficultyMultiplier g;
     currentPipeGap := currentPipeGap g; bird := bird g; pipes := pipes g;
     clouds := clouds g; mountains := mountains g;
     lastJumpTime := lastJumpTime g; showHitboxes := showHitboxes g;
     localStorage := localStorage g; draws := draws g |}.
Definition set_bestScore (v : Z) (g : Game) : Game :=
  {| gameState := gameState g; score := score g; bestScore := v;
     frame := frame g; particles := particles g;
     groundOffset := groundOffset g; lastFrameTime := lastFrameTime g;
     deltaTime := deltaTime g; difficultyMultiplier := difficultyMultiplier g;
     currentPipeGap := currentPipeGap g; bird := bird g; pipes := pipes g;
     clouds := clouds g; mountains := mountains g;
     lastJumpTime := lastJumpTime g; showHitboxes := showHitboxes g;
     localStorage := localStorage g; draws := draws g |}.
Definition set_frame (v : Z) (g : Game) : Game :=
  {| gameState := gameState g; score := score g; bestScore := bestScore g;
     frame := v; particles := particles g; groundOffset := groundOffset g;
     lastFrameTime := lastFrameTime g; deltaTime := deltaTime g;
     difficultyMultiplier := difficultyMultiplier g;
     currentPipeGap := currentPipeGap g; bird := bird g; pipes := pipes g;
     clouds := clouds g; mountains := mountains g;
     lastJumpTime := lastJumpTime g; showHitboxes := showHitboxes g;
     localStorage := localStorage g; draws := draws g |}.
Definition set_particles (v : list Particle.t) (g : Game) : Game :=
  {| gameState := gameState g; score := score g; bestScore := bestScore g;
     frame := frame g; particles := v; groundOffset := groundOffset g;
     lastFrameTime := lastFrameTime g; deltaTime := deltaTime g;
     difficultyMultiplier := difficultyMultiplier g;
     currentPipeGap := currentPipeGap g; bird := bird g; pipes := pipes g;
     clouds := clouds g; mountains := mountains g;
     lastJumpTime := lastJumpTime g; showHitboxes := showHitboxes g;
     localStorage := localStorage g; draws := draws g |}.
Definition set_groundOffset (v : Q) (g : Game) : Game :=
  {| gameState := gameState g; score := score g; bestScore := bestScore g;
     frame := frame g; particles := particles g; groundOffset := v;
     lastFrameTime := lastFrameTime g; deltaTime := deltaTime g;
     difficultyMultiplier := difficultyMultiplier g;
     currentPipeGap := currentPipeGap g; bird := bird g; pipes := pipes g;
     clouds := clouds g; mountains := mountains g;
     lastJumpTime := lastJumpTime g; showHitboxes := showHitboxes g;
     localStorage := localStorage g; draws := draws g |}.
Definition set_lastFrameTime (v : Q) (g : Game) : Game :=
  {| gameState := gameState g; score := score g; bestScore := bestScore g;
     frame := frame g; particles := particles g;
     groundOffset := groundOffset g; lastFrameTime := v;
     deltaTime := deltaTime g; difficultyMultiplier := difficultyMultiplier g;
     currentPipeGap := currentPipeGap g; bird := bird g; pipes := pipes g;
     clouds := clouds g; mountains := mountains g;
     lastJumpTime := lastJumpTime g; showHitboxes := showHitboxes g;
     localStorage := localStorage g; draws := draws g |}.
Definition set_deltaTime (v : Q) (g : Game) : Game :=
  {| gameState := gameState g; score := score g; bestScore := bestScore g;
     frame := frame g; particles := particles g;
     groundOffset := groundOffset g; lastFrameTime := lastFrameTime g;
     deltaTime := v; difficultyMultiplier := difficultyMultiplier g;
     currentPipeGap := currentPipeGap g; bird := bird g; pipes := pipes g;
     clouds := clouds g; mountains := mountains g;
     lastJumpTime := lastJumpTime g; showHitboxes := showHitboxes g;
     localStorage := localStorage g; draws := draws g |}.
Definition set_difficultyMultiplier (v : Q) (g : Game) : Game :=
  {| gameState := gameState g; score := score g; bestScore := bestScore g;
     frame := frame g; particles := particles g;
     groundOffset := groundOffset g; lastFrameTime := lastFrameTime g;
     deltaTime := deltaTime g; difficultyMultiplier := v;
     currentPipeGap := currentPipeGap g; bird := bird g; pipes := pipes g;
     clouds := clouds g; mountains := mountains g;
     lastJumpTime := lastJumpTime g; showHitboxes := showHitboxes g;
     localStorage := localStorage g; draws := draws g |}.
Definition set_currentPipeGap (v : Q) (g : Game) : Game :=
  {| gameState := gameState g; score := score g; bestScore := bestScore g;
     frame := frame g; particles := particles g;
     groundOffset := groundOffset g; lastFrameTime := lastFrameTime g;
     deltaTime := deltaTime g; difficultyMultiplier := difficultyMultiplier g;
     currentPipeGap := v; bird := bird g; pipes := pipes g;
     clouds := clouds g; mountains := mountains g;
     lastJumpTime := lastJumpTime g; showHitboxes := showHitboxes g;
     localStorage := localStorage g; draws := draws g |}.
Definition set_bird (v : Bird.t) (g : Game) : Game :=
  {| gameState := gameState g; score := score g; bestScore := bestScore g;
     frame := frame g; particles := particles g;
     groundOffset := groundOffset g; lastFrameTime := lastFrameTime g;
     deltaTime := deltaTime g; difficultyMultiplier := difficultyMultiplier g;
     currentPipeGap := currentPipeGap g; bird := v; pipes := pipes g;
     clouds := clouds g; mountains := mountains g;
     lastJumpTime := lastJumpTime g; showHitboxes := showHitboxes g;
     localStorage := localStorage g; draws := draws g |}.
Definition set_pipes (v : list Pipe.t) (g : Game) : Game :=
  {| gameState := gameState g; score := score g; bestScore := bestScore g;
     frame := frame g; particles := particles g;
     groundOffset := groundOffset g; lastFrameTime := lastFrameTime g;
     deltaTime := deltaTime g; difficultyMultiplier := difficultyMultiplier g;
     currentPipeGap := currentPipeGap g; bird := bird g; pipes := v;
     clouds := clouds g; mountains := mountains g;
     lastJumpTime := lastJumpTime g; showHitboxes := showHitboxes g;
     localStorage := localStorage g; draws := draws g |}.
Definition set_clouds (v : list Cloud.t) (g : Game) : Game :=
  {| gameState := gameState g; score := score g; bestScore := bestScore g;
     frame := frame g; particles := particles g;
     groundOffset := groundOffset g; lastFrameTime := lastFrameTime g;
     deltaTime := deltaTime g; difficultyMultiplier := difficultyMultiplier g;
     currentPipeGap := currentPipeGap g; bird := bird g; pipes := pipes g;
     clouds := v; mountains := mountains g; lastJumpTime := lastJumpTime g;
     showHitboxes := showHitboxes g; localStorage := localStorage g;
     draws := draws g |}.
Definition set_mountains (v : list Mountain.t) (g : Game) : Game :=
  {| gameState := gameState g; score := score g; bestScore := bestScore g;
     frame := frame g; particles := particles g;
     groundOffset := groundOffset g; lastFrameTime := lastFrameTime g;
     deltaTime := deltaTime g; difficultyMultiplier := difficultyMultiplier g;
     currentPipeGap := currentPipeGap g; bird := bird g; pipes := pipes g;
     clouds := clouds g; mountains := v; lastJumpTime := lastJumpTime g;
     showHitboxes := showHitboxes g; localStorage := localStorage g;
     draws := draws g |}.
Definition set_lastJumpTime (v : Q) (g : Game) : Game :=
  {| gameState := gameState g; score := score g; bestScore := bestScore g;
     frame := frame g; particles := particles g;
     groundOffset := groundOffset g; lastFrameTime := lastFrameTime g;
     deltaTime := deltaTime g; difficultyMultiplier := difficultyMultiplier g;
     currentPipeGap := currentPipeGap g; bird := bird g; pipes := pipes g;
     clouds := clouds g; mountains := mountains g; lastJumpTime := v;
     showHitboxes := showHitboxes g; localStorage := localStorage g;
     draws := draws g |}.
Definition set_showHitboxes (v : bool) (g : Game) : Game :=
  {| gameState := gameState g; score := score g; bestScore := bestScore g;
     frame := frame g; particles := particles g;
     groundOffset := groundOffset g; lastFrameTime := lastFrameTime g;
     deltaTime := deltaTime g; difficultyMultiplier := difficultyMultiplier g;
     currentPipeGap := currentPipeGap g; bird := bird g; pipes := pipes g;
     clouds := clouds g; mountains := mountains g;
     lastJumpTime := lastJumpTime g; showHitboxes := v;
     localStorage := localStorage g; draws := draws g |}.
Definition set_localStorage (v : option string) (g : Game) : Game :=
  {| gameState := gameState g; score := score g; bestScore := bestScore g;
     frame := frame g; particles := particles g;
     groundOffset := groundOffset g; lastFrameTime := lastFrameTime g;
     deltaTime := deltaTime g; difficultyMultiplier := difficultyMultiplier g;
     currentPipeGap := currentPipeGap g; bird := bird g; pipes := pipes g;
     clouds := clouds g; mountains := mountains g;
     lastJumpTime := lastJumpTime g; showHitboxes := showHitboxes g;
     localStorage := v; draws := draws g |}.
Definition set_draws (v : nat) (g : Game) : Game :=
  {| gameState := gameState g; score := score g; bestScore := bestScore g;
     frame := frame g; particles := particles g;
     groundOffset := groundOffset g; lastFrameTime := lastFrameTime g;
     deltaTime := deltaTime g; difficultyMultiplier := difficultyMultiplier g;
     currentPipeGap := currentPipeGap g; bird := bird g; pipes := pipes g;
     clouds := clouds g; mountains := mountains g;
     lastJumpTime := lastJumpTime g; showHitboxes := showHitboxes g;
     localStorage := localStorage g; draws := v |}.

Section Script.

(** The configuration object and the values [Math.random()] returns, in
    the order of the calls. *)
Variable cfg : Config.
Variable Math_random : nat -> Q.

(** [dt / (1000 / CONFIG.physics.targetFPS)], computed by every [update]. *)
Definition normalizedDt (dt : Q) : Q := dt / (1000 / physics_targetFPS cfg).

(** One call of [Math.random()]. *)
Definition random (g : Game) : Q * Game :=
  (Math_random (draws g), set_draws (S (draws g)) g).

(** *** Particle *)

(** [new Particle(x, y, color)]. *)
Definition new_Particle (x y : Q) (color : string) (g : Game) : Particle.t * Game :=
  let '(r1, g1) := random g in
  let '(r2, g2) := random g1 in
  let '(r3, g3) := random g2 in
  ({| Particle.x := x;
      Particle.y := y;
      Particle.vx := (r1 - 0.5) * 4;
      Particle.vy := (r2 - 0.5) * 4 - 2;
      Particle.gravity := 0.3;
      Particle.life := 1;
      Particle.decay := 0.02;
      Particle.size := r3 * 4 + 2;
      Particle.color := if String.eqb color "" then "#FFD700" else color |}, g3).

Definition Particle_update (dt : Q) (p : Particle.t) : Particle.t :=
  let n := normalizedDt dt in
  let vy := Particle.vy p + Particle.gravity p * n in
  {| Particle.x := Particle.x p + Particle.vx p * n;
     Particle.y := Particle.y p + vy * n;
     Particle.vx := Particle.vx p;
     Particle.vy := vy;
     Particle.gravity := Particle.gravity p;
     Particle.life := Particle.life p - Particle.decay p * n;
     Particle.decay := Particle.decay p;
     Particle.size := Particle.size p;
     Particle.color := Particle.color p |}.

Definition Particle_isDead (p : Particle.t) : bool :=
  Qle_bool (Particle.life p) 0.

(** [for (let i = 0; i < n; i++) particles.push(new Particle(x, y, color))]. *)
Fixpoint emit (n : nat) (x y : Q) (color : string) (g : Game) : Game :=
  match n with
  | O => g
  | S k =>
      let '(p, g1) := new_Particle x y color g in
      emit k x y color (set_particles (particles g1 ++ [p]) g1)
  end.

(** *** Difficulty, score and game over *)

Definition updateDifficulty (g : Game) : Game :=
  if negb (difficulty_enabled cfg) then g
  else
    let g1 :=
      set_difficultyMultiplier
        (Math_min (1 + inject_Z (score g) * difficulty_speedIncreasePerScore cfg)
                  (difficulty_maxSpeedMultiplier cfg)) g in
    set_currentPipeGap
      (Math_max (pipe_gap cfg - inject_Z (score g1) * difficulty_gapDecreasePerScore cfg)
                (difficulty_minGap cfg)) g1.

Definition gameOver (g : Game) : Game :=
  let g1 := set_gameState GAME_OVER g in
  if (bestScore g1 <? score g1)%Z then
    let g2 := set_bestScore (score g1) g1 in
    set_localStorage (Some (Number_toString (bestScore g2))) g2
  else g1.

(** *** The bird *)

Definition bird_jump (g : Game) : Game :=
  let b := bird g in
  let g1 := set_bird (Bird.set_velocity (Bird.jumpStrength b) b) g in
  let b1 := bird g1 in
  emit 5 (Bird.x b1) (Bird.y b1 + Bird.height b1 / 2) "#FFFFFF" g1.

(** The first half of [bird.update]: gravity, terminal velocity, position,
    rotation and wing animation. *)
Definition bird_integrate (dt : Q) (b : Bird.t) : Bird.t :=
  let n := normalizedDt dt in
  let b := Bird.set_velocity (Bird.velocity b + Bird.gravity b * n) b in
  let b := Bird.set_velocity (Math_min (Bird.velocity b) (Bird.terminalVelocity b)) b in
  let b := Bird.set_y (Bird.y b + Bird.velocity b * n) b in
  let targetRotation := Math_min (Math_max (Bird.velocity b * 4) (-30)) 90 in
  let b := Bird.set_rotation
             (Bird.rotation b
              + (targetRotation - Bird.rotation b) * physics_rotationEasing cfg) b in
  Bird.set_wingFrame (JS_rem (Bird.wingFrame b + 0.2 * n) 3) b.

(** [bird.update(dt)]: integration, then the ground and the ceiling. *)
Definition bird_update (dt : Q) (g : Game) : Game :=
  let b := bird_integrate dt (bird g) in
  let g := set_bird b g in
  let g :=
    if Qltb (canvas_height cfg - ground_height cfg) (Bird.y b + Bird.height b) then
      let b := Bird.set_y (canvas_height cfg - ground_height cfg - Bird.height b) b in
      let b := Bird.set_velocity 0 b in
      let g := set_bird b g in
      if GameState_eqb (gameState g) PLAYING then
        gameOver (emit 10 (Bird.x b + Bird.width b / 2) (Bird.y b + Bird.height b)
                       "#DEB887" g)
      else g
    else g in
  let b := bird g in
  if Qltb (Bird.y b) 0 then
    set_bird (Bird.set_velocity 0 (Bird.set_y 0 b)) g
  else g.

Definition bird_reset (g : Game) : Game :=
  let b := bird g in
  let b := Bird.set_y (canvas_height cfg / 2) b in
  let b := Bird.set_velocity 0 b in
  let b := Bird.set_rotation 0 b in
  let b := Bird.set_wingFrame 0 b in
  set_bird b g.

(** *** Pipes *)

(** [new Pipe()]. *)
Definition new_Pipe (g : Game) : Pipe.t * Game :=
  let gap := currentPipeGap g in
  let minHeight := pipe_minHeight cfg in
  let maxHeight := canvas_height cfg - gap - ground_height cfg - 50 in
  let '(r, g1) := random g in
  ({| Pipe.x := canvas_width cfg;
      Pipe.width := pipe_width cfg;
      Pipe.gap := gap;
      Pipe.minHeight := minHeight;
      Pipe.maxHeight := maxHeight;
      Pipe.topHeight := r * (maxHeight - minHeight) + minHeight;
      Pipe.scored := false;
      Pipe.speed := pipe_baseSpeed cfg * difficultyMultiplier g;
      Pipe.highlightOffset := 0 |}, g1).

(** The part of [Pipe.update] that touches the pipe only. *)
Definition Pipe_move (dt : Q) (p : Pipe.t) : Pipe.t :=
  let n := normalizedDt dt in
  let p := Pipe.set_x (Pipe.x p - Pipe.speed p * n) p in
  Pipe.set_highlightOffset (JS_rem (Pipe.highlightOffset p + 0.5 * n) 20) p.

(** The test [!this.scored && this.x + this.width < bird.x]. *)
Definition Pipe_passed (p : Pipe.t) (g : Game) : bool :=
  negb (Pipe.scored p) && Qltb (Pipe.x p + Pipe.width p) (Bird.x (bird g)).

(** [pipe.update(dt)]: the updated pipe and the updated globals. *)
Definition Pipe_update (dt : Q) (p : Pipe.t) (g : Game) : Pipe.t * Game :=
  let p := Pipe_move dt p in
  if Pipe_passed p g then
    let p := Pipe.set_scored true p in
    let g := set_score (score g + 1)%Z g in
    let g := updateDifficulty g in
    let b := bird g in
    (p, emit 15 (Bird.x b + Bird.width b) (Bird.y b + Bird.height b / 2) "#FFD700" g)
  else (p, g).

(** [pipe.collidesWith(bird)]: the verdict and the updated globals. *)
Definition Pipe_collidesWith (p : Pipe.t) (b : Bird.t) (g : Game) : bool * Game :=
  let padding := bird_hitboxPadding cfg in
  let birdLeft := Bird.x b + padding in
  let birdRight := Bird.x b + Bird.width b - padding in
  let birdTop := Bird.y b + padding in
  let birdBottom := Bird.y b + Bird.height b - padding in
  if Qltb (Pipe.x p) birdRight && Qltb birdLeft (Pipe.x p + Pipe.width p) then
    if Qltb birdTop (Pipe.topHeight p)
       || Qltb (Pipe.topHeight p + Pipe.gap p) birdBottom then
      (true, emit 15 (Bird.x b + Bird.width b / 2) (Bird.y b + Bird.height b / 2)
                  "#FF0000" g)
    else (false, g)
  else (false, g).

(** *** Background *)

(** [new Cloud(layer)]. *)
Definition new_Cloud (layer : Q) (g : Game) : Cloud.t * Game :=
  let '(r1, g1) := random g in
  let '(r2, g2) := random g1 in
  let '(r3, g3) := random g2 in
  let '(r4, g4) := random g3 in
  ({| Cloud.x := r1 * canvas_width cfg;
      Cloud.y := r2 * (canvas_height cfg - 200);
      Cloud.layer := layer;
      Cloud.speed := (0.2 + r3 * 0.4) * layer;
      Cloud.size := (15 + r4 * 25) / layer;
      Cloud.opacity := 0.3 + 0.3 * layer |}, g4).

Definition Cloud_update (dt : Q) (c : Cloud.t) (g : Game) : Cloud.t * Game :=
  let n := normalizedDt dt in
  let x := Cloud.x c - Cloud.speed c * n in
  if Qltb (x + Cloud.size c * 2) 0 then
    let '(r, g1) := random g in
    ({| Cloud.x := canvas_width cfg + Cloud.size c;
        Cloud.y := r * (canvas_height cfg - 200);
        Cloud.layer := Cloud.layer c;
        Cloud.speed := Cloud.speed c;
        Cloud.size := Cloud.size c;
        Cloud.opacity := Cloud.opacity c |}, g1)
  else
    ({| Cloud.x := x;
        Cloud.y := Cloud.y c;
        Cloud.layer := Cloud.layer c;
        Cloud.speed := Cloud.speed c;
        Cloud.size := Cloud.size c;
        Cloud.opacity := Cloud.opacity c |}, g).

(** [new Mountain(layer)]. *)
Definition new_Mountain (layer : Q) : Mountain.t :=
  {| Mountain.layer := layer;
     Mountain.speed := 0.3 * layer;
     Mountain.offset := 0;
     Mountain.color :=
       if Qeq_bool layer 1 then "rgba(76, 150, 76, 0.3)"
       else "rgba(102, 178, 102, 0.5)" |}.

Definition Mountain_update (dt : Q) (m : Mountain.t) : Mountain.t :=
  let n := normalizedDt dt in
  {| Mountain.layer := Mountain.layer m;
     Mountain.speed := Mountain.speed m;
     Mountain.offset :=
       JS_rem (Mountain.offset m + Mountain.speed m * n) (canvas_width cfg);
     Mountain.color := Mountain.color m |}.

(** [clouds.forEach(cloud => cloud.update(deltaTime))], over the clouds
    not yet visited; [done] holds the clouds already updated. *)
Fixpoint clouds_forEach (dt : Q) (todo done : list Cloud.t) (g : Game) : Game :=
  match todo with
  | [] => set_clouds done g
  | c :: rest =>
      let '(c1, g1) := Cloud_update dt c g in
      clouds_forEach dt rest (done ++ [c1]) g1
  end.

(** *** Game functions *)

Definition startGame (g : Game) : Game :=
  let g := set_gameState PLAYING g in
  let g := set_score 0%Z g in
  let g := set_pipes [] g in
  let g := set_particles [] g in
  let g := set_frame 0%Z g in
  let g := set_difficultyMultiplier 1 g in
  let g := set_currentPipeGap (pipe_gap cfg) g in
  bird_reset g.

(** [now] is the value of [performance.now()] read on resume. *)
Definition pauseGame (now : Q) (g : Game) : Game :=
  match gameState g with
  | PLAYING => set_gameState PAUSED g
  | PAUSED => set_lastFrameTime now (set_gameState PLAYING g)
  | _ => g
  end.

(** One iteration of the loop over the pipes, at index [i]. The index is
    always in range (see [pipesLoop_in_range]); out of range the loop body
    would raise a [TypeError], which the model renders as leaving the
    state alone. *)
Definition pipesLoop_body (i : nat) (g : Game) : Game :=
  match pipes g !! i with
  | None => g
  | Some pipe =>
      let '(pipe, g) := Pipe_update (deltaTime g) pipe g in
      let g := set_pipes (<[i := pipe]> (pipes g)) g in
      let '(hit, g) := Pipe_collidesWith pipe (bird g) g in
      let g := if hit then gameOver g else g in
      if Qltb (Pipe.x pipe + Pipe.width pipe) 0 then
        set_pipes (delete i (pipes g)) g
      else g
  end.

(** [for (let i = pipes.length - 1; i >= 0; i--) { ... }], with [n = i + 1]. *)
Fixpoint pipesLoop (n : nat) (g : Game) : Game :=
  match n with
  | O => g
  | S i => pipesLoop i (pipesLoop_body i g)
  end.

(** [particles.slice(-100)]. *)
Definition slice_last100 (l : list Particle.t) : list Particle.t :=
  drop (length l - 100) l.

(** The callback of [particles.filter]: update, then keep the living. *)
Definition particles_filter (dt : Q) (l : list Particle.t) : list Particle.t :=
  List.filter (fun p => negb (Particle_isDead p)) (List.map (Particle_update dt) l).

(** The blocks of [gameLoop], in the order of the source. First the clock:
    the delta since the last frame, capped at 100 ms. *)
Definition gameLoop_clock (currentTime : Q) (g : Game) : Game :=
  let g := set_deltaTime (currentTime - lastFrameTime g) g in
  let g := set_lastFrameTime currentTime g in
  set_deltaTime (Math_min (deltaTime g) 100) g.

(** The clouds and the mountains, which "always animate". *)
Definition gameLoop_background (g : Game) : Game :=
  let g := clouds_forEach (deltaTime g) (clouds g) [] g in
  set_mountains (List.map (Mountain_update (deltaTime g)) (mountains g)) g.

(** The start of the [PLAYING] branch: frame counter, ground offset and
    spawn. ([frame % 0] is NaN, which is not [0].) *)
Definition gameLoop_spawn (g : Game) : Game :=
  let g := set_frame (frame g + 1)%Z g in
  let normalizedDt := normalizedDt (deltaTime g) in
  let g := set_groundOffset (groundOffset g + ground_scrollSpeed cfg * normalizedDt) g in
  if negb (pipe_spawnInterval cfg =? 0)%Z
     && (Z.rem (frame g) (pipe_spawnInterval cfg) =? 0)%Z then
    let '(p, g) := new_Pipe g in
    set_pipes (pipes g ++ [p]) g
  else g.

(** The end of the [PLAYING] branch: the particles. *)
Definition gameLoop_particles (g : Game) : Game :=
  let g :=
    if (200 <? length (particles g))%nat then
      set_particles (slice_last100 (particles g)) g
    else g in
  set_particles (particles_filter (deltaTime g) (particles g)) g.

(** [gameLoop(currentTime)]: one animation frame. In the [PAUSED] state the
    pipes are drawn and nothing else happens. *)
Definition gameLoop (currentTime : Q) (g : Game) : Game :=
  let g := gameLoop_clock currentTime g in
  let g := gameLoop_background g in
  match gameState g with
  | PLAYING =>
      let g := gameLoop_spawn g in
      let g := bird_update (deltaTime g) g in
      let g := pipesLoop (length (pipes g)) g in
      gameLoop_particles g
  | _ => g
  end.

(** *** Input *)

Definition jumpCooldown : Q := 100.

(** [now] is the value of [performance.now()]. *)
Definition handleJump (now : Q) (g : Game) : Game :=
  if Qltb (now - lastJumpTime g) jumpCooldown then g
  else
    let g := set_lastJumpTime now g in
    match gameState g with
    | START => bird_jump (startGame g)
    | PLAYING => bird_jump g
    | GAME_OVER => startGame g
    | PAUSED => g
    end.

(** The events the script listens to: an animation frame, a click, touch
    or Space key, an Escape or P key, and Ctrl/Cmd+D. *)
Inductive Event :=
| Frame (currentTime : Q)
| Jump (now : Q)
| PauseKey (now : Q)
| DebugKey.

Definition handle (e : Event) (g : Game) : Game :=
  match e with
  | Frame currentTime => gameLoop currentTime g
  | Jump now => handleJump now g
  | PauseKey now =>
      match gameState g with
      | PLAYING | PAUSED => pauseGame now g
      | _ => g
      end
  | DebugKey => set_showHitboxes (negb (showHitboxes g)) g
  end.

(** *** Start-up *)

(** [parseInt(localStorage.getItem('bestScore')) || 0]. *)
Definition initial_bestScore (stored : option string) : Z :=
  match parseInt (ToString_item stored) with
  | Some n => if (n =? 0)%Z then 0%Z else n
  | None => 0%Z
  end.

(** [for (let i = 0; i < n; i++) clouds.push(new Cloud(layer))]. *)
Fixpoint push_clouds (n : nat) (layer : Q) (g : Game) : Game :=
  match n with
  | O => g
  | S k =>
      let '(c, g1) := new_Cloud layer g in
      push_clouds k layer (set_clouds (clouds g1 ++ [c]) g1)
  end.

(** The globals once the script has been evaluated; [stored] is the
    content of [localStorage] and [t0] the value of [performance.now()].
    (The script ends with a call [gameLoop()] that passes no time stamp:
    it leaves [lastFrameTime] undefined, and the delta of that call and of
    the first frame that carries a time stamp is NaN. The clouds and the
    mountains see it at once, see [NaN.gameLoop_head] and [scenery_loaded]
    below; the bird and the particles see it only if a jump is accepted
    before the first frame that carries a time stamp. The states of this
    model hold numbers: it describes the script from the clock of that
    frame on, and its clouds and mountains are those of a clock that was a
    number from the start.) *)
Definition initialGame (stored : option string) (t0 : Q) : Game :=
  let g :=
    {| gameState := START;
       score := 0;
       bestScore := initial_bestScore stored;
       frame := 0;
       particles := [];
       groundOffset := 0;
       lastFrameTime := t0;
       deltaTime := 0;
       difficultyMultiplier := 1;
       currentPipeGap := pipe_gap cfg;
       bird :=
         {| Bird.x := bird_x cfg;
            Bird.y := canvas_height cfg / 2;
            Bird.width := bird_width cfg;
            Bird.height := bird_height cfg;
            Bird.velocity := 0;
            Bird.gravity := bird_gravity cfg;
            Bird.jumpStrength := bird_jumpStrength cfg;
            Bird.rotation := 0;
            Bird.wingFrame := 0;
            Bird.maxVelocity := bird_maxVelocity cfg;
            Bird.terminalVelocity := bird_terminalVelocity cfg |};
       pipes := [];
       clouds := [];
       mountains := [new_Mountain 1; new_Mountain 2];
       lastJumpTime := 0;
       showHitboxes := false;
       localStorage := stored;
       draws := 0 |} in
  push_clouds 4 2 (push_clouds 4 1 g).

(** The states the script can be in: the initial one, and any state an
    event leads to whose time stamp is not earlier than the last frame
    time (the clock is monotonic). *)
Inductive reachable (stored : option string) (t0 : Q) : Game -> Prop :=
| reachable_init : reachable stored t0 (initialGame stored t0)
| reachable_frame g t :
    reachable stored t0 g -> lastFrameTime g <= t ->
    reachable stored t0 (handle (Frame t) g)
| reachable_jump g now :
    reachable stored t0 g -> reachable stored t0 (handle (Jump now) g)
| reachable_pause g now :
    reachable stored t0 g -> reachable stored t0 (handle (PauseKey now) g)
| reachable_debug g :
    reachable stored t0 g -> reachable stored t0 (handle DebugKey g).

End Script.

End Enhanced.


(** * The fixed-step game ([src/game.js]) *)

Module Legacy.

(** The value of the global [bestScore]: the script reads it from
    [localStorage] without converting it, so it is a string until the first
    assignment [bestScore = score]. *)
Inductive JSValue :=
| JSNumber (n : Z)
| JSString (s : string).

(** The global variables of the script. There is no [PAUSED] state in this
    version: no function ever assigns it. *)
Record Game := mkGame {
  gameState : GameState;
  score : Z;
  bestScore : JSValue;
  frame : Z;
  particles : list Particle.t;
  groundOffset : Q;
  bird : Bird.t;
  pipes : list Pipe.t;
  clouds : list Cloud.t;
  mountains : list Mountain.t;
  localStorage : option string;
  draws : nat
}.

Definition set_gameState (v : GameState) (g : Game) : Game :=
  {| gameState := v; score := score g; bestScore := bestScore g;
     frame := frame g; particles := particles g;
     groundOffset := groundOffset g; bird := bird g; pipes := pipes g;
     clouds := clouds g; mountains := mountains g;
     localStorage := localStorage g; draws := draws g |}.
Definition set_score (v : Z) (g : Game) : Game :=
  {| gameState := gameState g; score := v; bestScore := bestScore g;
     frame := frame g; particles := particles g;
     groundOffset := groundOffset g; bird := bird g; pipes := pipes g;
     clouds := clouds g; mountains := mountains g;
     localStorage := localStorage g; draws := draws g |}.
Definition set_bestScore (v : JSValue) (g : Game) : Game :=
  {| gameState := gameState g; score := score g; bestScore := v;
     frame := frame g; particles := particles g;
     groundOffset := groundOffset g; bird := bird g; pipes := pipes g;
     clouds := clouds g; mountains := mountains g;
     localStorage := localStorage g; draws := draws g |}.
Definition set_frame (v : Z) (g : Game) : Game :=
  {| gameState := gameState g; score := score g; bestScore := bestScore g;
     frame := v; particles := particles g; groundOffset := groundOffset g;
     bird := bird g; pipes := pipes g; clouds := clouds g;
     mountains := mountains g; localStorage := localStorage g;
     draws := draws g |}.
Definition set_particles (v : list Particle.t) (g : Game) : Game :=
  {| gameState := gameState g; score := score g; bestScore := bestScore g;
     frame := frame g; particles := v; groundOffset := groundOffset g;
     bird := bird g; pipes := pipes g; clouds := clouds g;
     mountains := mountains g; localStorage := localStorage g;
     draws := draws g |}.
Definition set_groundOffset (v : Q) (g : Game) : Game :=
  {| gameState := gameState g; score := score g; bestScore := bestScore g;
     frame := frame g; particles := particles g; groundOffset := v;
     bird := bird g; pipes := pipes g; clouds := clouds g;
     mountains := mountains g; localStorage := localStorage g;
     draws := draws g |}.
Definition set_bird (v : Bird.t) (g : Game) : Game :=
  {| gameState := gameState g; score := score g; bestScore := bestScore g;
     frame := frame g; particles := particles g;
     groundOffset := groundOffset g; bird := v; pipes := pipes g;
     clouds := clouds g; mountains := mountains g;
     localStorage := localStorage g; draws := draws g |}.
Definition set_pipes (v : list Pipe.t) (g : Game) : Game :=
  {| gameState := gameState g; score := score g; bestScore := bestScore g;
     frame := frame g; particles := particles g;
     groundOffset := groundOffset g; bird := bird g; pipes := v;
     clouds := clouds g; mountains := mountains g;
     localStorage := localStorage g; draws := draws g |}.
Definition set_clouds (v : list Cloud.t) (g : Game) : Game :=
  {| gameState := gameState g; score := score g; bestScore := bestScore g;
     frame := frame g; particles := particles g;
     groundOffset := groundOffset g; bird := bird g; pipes := pipes g;
     clouds := v; mountains := mountains g; localStorage := localStorage g;
     draws := draws g |}.
Definition set_mountains (v : list Mountain.t) (g : Game) : Game :=
  {| gameState := gameState g; score := score g; bestScore := bestScore g;
     frame := frame g; particles := particles g;
     groundOffset := groundOffset g; bird := bird g; pipes := pipes g;
     clouds := clouds g; mountains := v; localStorage := localStorage g;
     draws := draws g |}.
Definition set_localStorage (v : option string) (g : Game) : Game :=
  {| gameState := gameState g; score := score g; bestScore := bestScore g;
     frame := frame g; particles := particles g;
     groundOffset := groundOffset g; bird := bird g; pipes := pipes g;
     clouds := clouds g; mountains := mountains g; localStorage := v;
     draws := draws g |}.
Definition set_draws (v : nat) (g : Game) : Game :=
  {| gameState := gameState g; score := score g; bestScore := bestScore g;
     frame := frame g; particles := particles g;
     groundOffset := groundOffset g; bird := bird g; pipes := pipes g;
     clouds := clouds g; mountains := mountains g;
     localStorage := localStorage g; draws := v |}.

Definition canvas_width : Q := 400.
Definition canvas_height : Q := 600.
Definition pipeInterval : Z := 120.

Section Script.

(** The values [Math.random()] returns, and the conversion of a string to
    a number ([None] is NaN) that the comparison [score > bestScore] applies
    to a string operand. *)
Variable Math_random : nat -> Q.
Variable StringToNumber : string -> option Q.

Definition random (g : Game) : Q * Game :=
  (Math_random (draws g), set_draws (S (draws g)) g).

(** *** Particle *)

Definition new_Particle (x y : Q) (color : string) (g : Game) : Particle.t * Game :=
  let '(r1, g1) := random g in
  let '(r2, g2) := random g1 in
  let '(r3, g3) := random g2 in
  ({| Particle.x := x;
      Particle.y := y;
      Particle.vx := (r1 - 0.5) * 4;
      Particle.vy := (r2 - 0.5) * 4 - 2;
      Particle.gravity := 0.3;
      Particle.life := 1;
      Particle.decay := 0.02;
      Particle.size := r3 * 4 + 2;
      Particle.color := if String.eqb color "" then "#FFD700" else color |}, g3).

Definition Particle_update (p : Particle.t) : Particle.t :=
  let vy := Particle.vy p + Particle.gravity p in
  {| Particle.x := Particle.x p + Particle.vx p;
     Particle.y := Particle.y p + vy;
     Particle.vx := Particle.vx p;
     Particle.vy := vy;
     Particle.gravity := Particle.gravity p;
     Particle.life := Particle.life p - Particle.decay p;
     Particle.decay := Particle.decay p;
     Particle.size := Particle.size p;
     Particle.color := Particle.color p |}.

Definition Particle_isDead (p : Particle.t) : bool :=
  Qle_bool (Particle.life p) 0.

Fixpoint emit (n : nat) (x y : Q) (color : string) (g : Game) : Game :=
  match n with
  | O => g
  | S k =>
      let '(p, g1) := new_Particle x y color g in
      emit k x y color (set_particles (particles g1 ++ [p]) g1)
  end.

(** *** Game over *)

(** The numeric value of [bestScore] ([None] is NaN). *)
Definition ToNumber (v : JSValue) : option Q :=
  match v with
  | JSNumber n => Some (inject_Z n)
  | JSString s => StringToNumber s
  end.

(** [score > bestScore]: both operands are converted to numbers, and a
    comparison with NaN is false. *)
Definition score_gt_bestScore (g : Game) : bool :=
  match ToNumber (bestScore g) with
  | Some q => Qltb q (inject_Z (score g))
  | None => false
  end.

Definition gameOver (g : Game) : Game :=
  let g1 := set_gameState GAME_OVER g in
  if score_gt_bestScore g1 then
    let g2 := set_bestScore (JSNumber (score g1)) g1 in
    set_localStorage (Some (Number_toString (score g1))) g2
  else g1.

(** *** The bird *)

Definition bird_jump (g : Game) : Game :=
  let b := bird g in
  let g1 := set_bird (Bird.set_velocity (Bird.jumpStrength b) b) g in
  let b1 := bird g1 in
  emit 5 (Bird.x b1) (Bird.y b1 + Bird.height b1 / 2) "#FFFFFF" g1.

(** The first half of [bird.update]. *)
Definition bird_integrate (b : Bird.t) : Bird.t :=
  let b := Bird.set_velocity (Bird.velocity b + Bird.gravity b) b in
  let b := Bird.set_velocity (Math_min (Bird.velocity b) (Bird.terminalVelocity b)) b in
  let b := Bird.set_y (Bird.y b + Bird.velocity b) b in
  let targetRotation := Math_min (Math_max (Bird.velocity b * 4) (-30)) 90 in
  let b := Bird.set_rotation
             (Bird.rotation b + (targetRotation - Bird.rotation b) * 0.15) b in
  Bird.set_wingFrame (JS_rem (Bird.wingFrame b + 0.2) 3) b.

(** [bird.update()]: integration, then the ground and the ceiling. *)
Definition bird_update (g : Game) : Game :=
  let b := bird_integrate (bird g) in
  let g := set_bird b g in
  let g :=
    if Qltb (canvas_height - 100) (Bird.y b + Bird.height b) then
      let b := Bird.set_y (canvas_height - 100 - Bird.height b) b in
      let b := Bird.set_velocity 0 b in
      let g := set_bird b g in
      if GameState_eqb (gameState g) PLAYING then
        gameOver (emit 10 (Bird.x b + Bird.width b / 2) (Bird.y b + Bird.height b)
                       "#DEB887" g)
      else g
    else g in
  let b := bird g in
  if Qltb (Bird.y b) 0 then
    set_bird (Bird.set_velocity 0 (Bird.set_y 0 b)) g
  else g.

Definition bird_reset (g : Game) : Game :=
  let b := bird g in
  let b := Bird.set_y (canvas_height / 2) b in
  let b := Bird.set_velocity 0 b in
  let b := Bird.set_rotation 0 b in
  let b := Bird.set_wingFrame 0 b in
  set_bird b g.

(** *** Pipes *)

Definition new_Pipe (g : Game) : Pipe.t * Game :=
  let gap := 150 in
  let minHeight := 50 in
  let maxHeight := canvas_height - gap - 150 in
  let '(r, g1) := random g in
  ({| Pipe.x := canvas_width;
      Pipe.width := 60;
      Pipe.gap := gap;
      Pipe.minHeight := minHeight;
      Pipe.maxHeight := maxHeight;
      Pipe.topHeight := r * (maxHeight - minHeight) + minHeight;
      Pipe.scored := false;
      Pipe.speed := 2.5;
      Pipe.highlightOffset := 0 |}, g1).

Definition Pipe_move (p : Pipe.t) : Pipe.t :=
  let p := Pipe.set_x (Pipe.x p - Pipe.speed p) p in
  Pipe.set_highlightOffset (JS_rem (Pipe.highlightOffset p + 0.5) 20) p.

Definition Pipe_passed (p : Pipe.t) (g : Game) : bool :=
  negb (Pipe.scored p) && Qltb (Pipe.x p + Pipe.width p) (Bird.x (bird g)).

Definition Pipe_update (p : Pipe.t) (g : Game) : Pipe.t * Game :=
  let p := Pipe_move p in
  if Pipe_passed p g then
    let p := Pipe.set_scored true p in
    let g := set_score (score g + 1)%Z g in
    let b := bird g in
    (p, emit 8 (Bird.x b + Bird.width b) (Bird.y b + Bird.height b / 2) "#FFD700" g)
  else (p, g).

Definition Pipe_collidesWith (p : Pipe.t) (b : Bird.t) (g : Game) : bool * Game :=
  let birdLeft := Bird.x b + 5 in
  let birdRight := Bird.x b + Bird.width b - 5 in
  let birdTop := Bird.y b + 5 in
  let birdBottom := Bird.y b + Bird.height b - 5 in
  if Qltb (Pipe.x p) birdRight && Qltb birdLeft (Pipe.x p + Pipe.width p) then
    if Qltb birdTop (Pipe.topHeight p)
       || Qltb (Pipe.topHeight p + Pipe.gap p) birdBottom then
      (true, emit 15 (Bird.x b + Bird.width b / 2) (Bird.y b + Bird.height b / 2)
                  "#FF0000" g)
    else (false, g)
  else (false, g).

(** *** Background *)

Definition new_Cloud (layer : Q) (g : Game) : Cloud.t * Game :=
  let '(r1, g1) := random g in
  let '(r2, g2) := random g1 in
  let '(r3, g3) := random g2 in
  let '(r4, g4) := random g3 in
  ({| Cloud.x := r1 * canvas_width;
      Cloud.y := r2 * (canvas_height - 200);
      Cloud.layer := layer;
      Cloud.speed := (0.2 + r3 * 0.4) * layer;
      Cloud.size := (15 + r4 * 25) / layer;
      Cloud.opacity := 0.3 + 0.3 * layer |}, g4).

Definition Cloud_update (c : Cloud.t) (g : Game) : Cloud.t * Game :=
  let x := Cloud.x c - Cloud.speed c in
  if Qltb (x + Cloud.size c * 2) 0 then
    let '(r, g1) := random g in
    ({| Cloud.x := canvas_width + Cloud.size c;
        Cloud.y := r * (canvas_height - 200);
        Cloud.layer := Cloud.layer c;
        Cloud.speed := Cloud.speed c;
        Cloud.size := Cloud.size c;
        Cloud.opacity := Cloud.opacity c |}, g1)
  else
    ({| Cloud.x := x;
        Cloud.y := Cloud.y c;
        Cloud.layer := Cloud.layer c;
        Cloud.speed := Cloud.speed c;
        Cloud.size := Cloud.size c;
        Cloud.opacity := Cloud.opacity c |}, g).

Definition new_Mountain (layer : Q) : Mountain.t :=
  {| Mountain.layer := layer;
     Mountain.speed := 0.3 * layer;
     Mountain.offset := 0;
     Mountain.color :=
       if Qeq_bool layer 1 then "rgba(76, 150, 76, 0.3)"
       else "rgba(102, 178, 102, 0.5)" |}.

Definition Mountain_update (m : Mountain.t) : Mountain.t :=
  {| Mountain.layer := Mountain.layer m;
     Mountain.speed := Mountain.speed m;
     Mountain.offset := JS_rem (Mountain.offset m + Mountain.speed m) canvas_width;
     Mountain.color := Mountain.color m |}.

Fixpoint clouds_forEach (todo done : list Cloud.t) (g : Game) : Game :=
  match todo with
  | [] => set_clouds done g
  | c :: rest =>
      let '(c1, g1) := Cloud_update c g in
      clouds_forEach rest (done ++ [c1]) g1
  end.

(** *** Game functions *)

Definition startGame (g : Game) : Game :=
  let g := set_gameState PLAYING g in
  let g := set_score 0%Z g in
  let g := set_pipes [] g in
  bird_reset g.

(** The callback of [pipes.forEach], called with [pipes[index]]. *)
Definition pipes_callback (pipe : Pipe.t) (index : nat) (g : Game) : Game :=
  let '(pipe, g) := Pipe_update pipe g in
  let g := set_pipes (<[index := pipe]> (pipes g)) g in
  let '(hit, g) := Pipe_collidesWith pipe (bird g) g in
  let g := if hit then gameOver g else g in
  if Qltb (Pipe.x pipe + Pipe.width pipe) 0 then
    set_pipes (delete index (pipes g)) g
  else g.

(** [pipes.forEach(...)]: the indices [k], [k + 1], ... up to the length the
    array had when the call started ([todo] of them are left); an index
    that is no longer in the array is skipped. *)
Fixpoint pipes_forEach (todo k : nat) (g : Game) : Game :=
  match todo with
  | O => g
  | S todo' =>
      pipes_forEach todo' (S k)
        match pipes g !! k with
        | Some pipe => pipes_callback pipe k g
        | None => g
        end
  end.

Definition particles_filter (l : list Particle.t) : list Particle.t :=
  List.filter (fun p => negb (Particle_isDead p)) (List.map Particle_update l).

(** The blocks of [gameLoop], in the order of the source. *)
Definition gameLoop_background (g : Game) : Game :=
  let g := clouds_forEach (clouds g) [] g in
  set_mountains (List.map Mountain_update (mountains g)) g.

Definition gameLoop_spawn (g : Game) : Game :=
  let g := set_frame (frame g + 1)%Z g in
  let g := set_groundOffset (groundOffset g + 2.5) g in
  if (Z.rem (frame g) pipeInterval =? 0)%Z then
    let '(p, g) := new_Pipe g in
    set_pipes (pipes g ++ [p]) g
  else g.

(** [gameLoop()]: one animation frame. *)
Definition gameLoop (g : Game) : Game :=
  let g := gameLoop_background g in
  match gameState g with
  | PLAYING =>
      let g := gameLoop_spawn g in
      let g := bird_update g in
      let g := pipes_forEach (length (pipes g)) 0 g in
      set_particles (particles_filter (particles g)) g
  | _ => g
  end.

(** *** Input *)

Definition handleJump (g : Game) : Game :=
  match gameState g with
  | START => bird_jump (startGame g)
  | PLAYING => bird_jump g
  | GAME_OVER => startGame g
  | PAUSED => g
  end.

(** *** Start-up *)

(** [localStorage.getItem('bestScore') || 0]: [null] and the empty string
    are falsy. *)
Definition initial_bestScore (stored : option string) : JSValue :=
  match stored with
  | Some s => if String.eqb s "" then JSNumber 0 else JSString s
  | None => JSNumber 0
  end.

Fixpoint push_clouds (n : nat) (layer : Q) (g : Game) : Game :=
  match n with
  | O => g
  | S k =>
      let '(c, g1) := new_Cloud layer g in
      push_clouds k layer (set_clouds (clouds g1 ++ [c]) g1)
  end.

Definition initialGame (stored : option string) : Game :=
  let g :=
    {| gameState := START;
       score := 0;
       bestScore := initial_bestScore stored;
       frame := 0;
       particles := [];
       groundOffset := 0;
       bird :=
         {| Bird.x := 80;
            Bird.y := canvas_height / 2;
            Bird.width := 34;
            Bird.height := 24;
            Bird.velocity := 0;
            Bird.gravity := 0.6;
            Bird.jumpStrength := -10;
            Bird.rotation := 0;
            Bird.wingFrame := 0;
            Bird.maxVelocity := 12;
            Bird.terminalVelocity := 10 |};
       pipes := [];
       clouds := [];
       mountains := [new_Mountain 1; new_Mountain 2];
       localStorage := stored;
       draws := 0 |} in
  push_clouds 4 2 (push_clouds 4 1 g).

End Script.

End Legacy.


(** * Vocabulary of the statements *)

(** ** The padded bounding box of the bird *)

Definition birdLeft (padding : Q) (b : Bird.t) : Q := Bird.x b + padding.
Definition birdRight (padding : Q) (b : Bird.t) : Q := Bird.x b + Bird.width b - padding.
Definition birdTop (padding : Q) (b : Bird.t) : Q := Bird.y b + padding.
Definition birdBottom (padding : Q) (b : Bird.t) : Q := Bird.y b + Bird.height b - padding.

(** The padded box overlaps the horizontal band of the pipe. *)
Definition in_x_band (padding : Q) (p : Pipe.t) (b : Bird.t) : Prop :=
  Pipe.x p < birdRight padding b /\ birdLeft padding b < Pipe.x p + Pipe.width p.

(** The padded box lies between the two halves of the pipe. *)
Definition inside_gap (padding : Q) (p : Pipe.t) (b : Bird.t) : Prop :=
  Pipe.topHeight p <= birdTop padding b
  /\ birdBottom padding b <= Pipe.topHeight p + Pipe.gap p.

(** The padded box crosses the upper or the lower bound of the gap. *)
Definition breaches_gap (padding : Q) (p : Pipe.t) (b : Bird.t) : Prop :=
  birdTop padding b < Pipe.topHeight p
  \/ Pipe.topHeight p + Pipe.gap p < birdBottom padding b.

(** ** What a part of a frame may do to the globals

    [frame_effect cfg g g'] relates the globals before and after a piece of
    the body of [gameLoop] that leaves the clock, the counters of the frame
    and the background alone: the score does not decrease; either the game
    did not end and the best score and the stored value are unchanged, or
    the game ended at some score [S] reached in between and the best score
    is the maximum of the previous one and [S]; with the difficulty ramp
    disabled, the multiplier and the gap are unchanged. *)
Definition frame_effect (cfg : Enhanced.Config) (g g' : Enhanced.Game) : Prop :=
  Enhanced.frame g' = Enhanced.frame g
  /\ Enhanced.groundOffset g' = Enhanced.groundOffset g
  /\ Enhanced.lastFrameTime g' = Enhanced.lastFrameTime g
  /\ Enhanced.deltaTime g' = Enhanced.deltaTime g
  /\ Enhanced.lastJumpTime g' = Enhanced.lastJumpTime g
  /\ (Enhanced.score g <= Enhanced.score g')%Z
  /\ ((Enhanced.gameState g' = Enhanced.gameState g
       /\ Enhanced.bestScore g' = Enhanced.bestScore g
       /\ Enhanced.localStorage g' = Enhanced.localStorage g)
      \/ (Enhanced.gameState g' = GAME_OVER
          /\ exists S : Z,
               (Enhanced.score g <= S <= Enhanced.score g')%Z
               /\ Enhanced.bestScore g' = Z.max (Enhanced.bestScore g) S))
  /\ (Enhanced.difficulty_enabled cfg = false ->
      Enhanced.difficultyMultiplier g' = Enhanced.difficultyMultiplier g
      /\ Enhanced.currentPipeGap g' = Enhanced.currentPipeGap g).

(** ** The pass over the pipes *)

(** What [pipe.update(dt)] does to the pipe itself, given the x position
    of the bird. *)
Definition Pipe_tick (cfg : Enhanced.Config) (dt birdx : Q) (p : Pipe.t) : Pipe.t :=
  let p := Enhanced.Pipe_move cfg dt p in
  if negb (Pipe.scored p) && Qltb (Pipe.x p + Pipe.width p) birdx
  then Pipe.set_scored true p
  else p.

(** The pipe, once moved, is counted: it was not scored and its right edge
    is now strictly left of the bird. *)
Definition newly_passed (cfg : Enhanced.Config) (dt birdx : Q) (p : Pipe.t) : bool :=
  negb (Pipe.scored p)
  && Qltb (Pipe.x (Enhanced.Pipe_move cfg dt p) + Pipe.width (Enhanced.Pipe_move cfg dt p))
          birdx.

(** The pipe has not left the screen: the negation of the removal test
    [pipe.x + pipe.width < 0]. *)
Definition on_screen (p : Pipe.t) : bool :=
  negb (Qltb (Pipe.x p + Pipe.width p) 0).

(** ** The bird *)

(** The ground and ceiling tests of [bird.update], on the bird alone. *)
Definition bird_bounds (cfg : Enhanced.Config) (b : Bird.t) : Bird.t :=
  let ground := Enhanced.canvas_height cfg - Enhanced.ground_height cfg in
  let b :=
    if Qltb ground (Bird.y b + Bird.height b)
    then Bird.set_velocity 0 (Bird.set_y (ground - Bird.height b) b)
    else b in
  if Qltb (Bird.y b) 0 then Bird.set_velocity 0 (Bird.set_y 0 b) else b.

(** The constants of the bird are those of the configuration, and its
    velocity is not below the jump impulse. *)
Definition bird_ok (cfg : Enhanced.Config) (b : Bird.t) : Prop :=
  Bird.gravity b = Enhanced.bird_gravity cfg
  /\ Bird.jumpStrength b = Enhanced.bird_jumpStrength cfg
  /\ Bird.terminalVelocity b = Enhanced.bird_terminalVelocity cfg
  /\ Enhanced.bird_jumpStrength cfg <= Bird.velocity b.

(** ** The life of a pipe *)

Section Lifetime.

(** The globals, [pipe.update] on them, the score and the x position of the
    bird they hold. *)
Variable G : Type.
Variable update : Q -> Pipe.t -> G -> Pipe.t * G.
Variable score : G -> Z.
Variable birdx : G -> Q.

(** The successive calls of [pipe.update] on one pipe: call number [k] is
    made with the delta and in the globals of [ticks !! k] (whatever else
    happened in between). The trace lists, for each call, the pipe when the
    call returns and the change of the score during the call. *)
Fixpoint lifetime (ticks : list (Q * G)) (p : Pipe.t) : list (Pipe.t * Z) :=
  match ticks with
  | [] => []
  | (dt, g) :: rest =>
      (fst (update dt p g), (score (snd (update dt p g)) - score g)%Z)
      :: lifetime rest (fst (update dt p g))
  end.

(** In call [k] the right edge of the pipe, once moved, is strictly left of
    the bird. *)
Definition passed_at (ticks : list (Q * G)) (tr : list (Pipe.t * Z)) (k : nat) : Prop :=
  exists dt g p inc,
    ticks !! k = Some (dt, g) /\ tr !! k = Some (p, inc)
    /\ Pipe.x p + Pipe.width p < birdx g.

(** The flag [scored] is set in call [k] exactly when the pipe has passed
    the bird in call [k] or before; the score grows, by exactly 1, in the
    first call in which the pipe has passed the bird and in no other. *)
Definition latches_once (ticks : list (Q * G)) (tr : list (Pipe.t * Z)) : Prop :=
  forall k p inc,
    tr !! k = Some (p, inc) ->
    (Pipe.scored p = true <-> exists j, (j <= k)%nat /\ passed_at ticks tr j)
    /\ (inc = 1%Z <->
        passed_at ticks tr k /\ forall j, (j < k)%nat -> ~ passed_at ticks tr j)
    /\ (inc = 0%Z \/ inc = 1%Z).

End Lifetime.

(** ** The pass over the pipes in [src/game.js] *)

(** What [pipe.update()] does to the pipe itself in [src/game.js]. *)
Definition Legacy_Pipe_tick (birdx : Q) (p : Pipe.t) : Pipe.t :=
  let p := Legacy.Pipe_move p in
  if negb (Pipe.scored p) && Qltb (Pipe.x p + Pipe.width p) birdx
  then Pipe.set_scored true p
  else p.

(** What [pipes.forEach] with its [splice] leaves of the pipes: a pipe is
    updated and, if it has left the screen, removed; the pipe that follows
    a removed pipe takes its index and is not visited in this frame. *)
Fixpoint Legacy_pass (birdx : Q) (l : list Pipe.t) : list Pipe.t :=
  match l with
  | [] => []
  | p :: rest =>
      if on_screen (Legacy_Pipe_tick birdx p)
      then Legacy_Pipe_tick birdx p :: Legacy_pass birdx rest
      else
        match rest with
        | [] => []
        | q :: rest' => q :: Legacy_pass birdx rest'
        end
  end.

(** ** Example runs *)

(** A source of random values that always answers one half. *)
Definition Math_random_half : nat -> Q := fun _ => 0.5.

(** A conversion of strings to numbers with which [Legacy] is run on
    examples. It agrees with the conversion of JavaScript on the strings the
    examples use: the decimal integers the game itself stores, and strings
    such as ["abc"], which are NaN. *)
Definition StringToNumber_int (s : string) : option Q :=
  match parseInt s with
  | Some n => Some (inject_Z n)
  | None => None
  end.

(** [CONFIG] with the difficulty ramp switched off. *)
Definition CONFIG_no_ramp : Enhanced.Config := {|
  Enhanced.canvas_width := 400;
  Enhanced.canvas_height := 600;
  Enhanced.bird_x := 80;
  Enhanced.bird_width := 34;
  Enhanced.bird_height := 24;
  Enhanced.bird_gravity := 0.6;
  Enhanced.bird_jumpStrength := -10;
  Enhanced.bird_maxVelocity := 12;
  Enhanced.bird_terminalVelocity := 10;
  Enhanced.bird_hitboxPadding := 5;
  Enhanced.pipe_width := 60;
  Enhanced.pipe_gap := 150;
  Enhanced.pipe_minHeight := 50;
  Enhanced.pipe_baseSpeed := 2.5;
  Enhanced.pipe_spawnInterval := 120;
  Enhanced.ground_height := 100;
  Enhanced.ground_scrollSpeed := 2.5;
  Enhanced.physics_targetFPS := 60;
  Enhanced.physics_rotationEasing := 0.15;
  Enhanced.difficulty_enabled := false;
  Enhanced.difficulty_speedIncreasePerScore := 0.05;
  Enhanced.difficulty_maxSpeedMultiplier := 1.8;
  Enhanced.difficulty_gapDecreasePerScore := 2;
  Enhanced.difficulty_minGap := 120
|}.

(** The game just loaded, with nothing stored, at time 0. *)
Definition game_loaded : Enhanced.Game :=
  Enhanced.initialGame Enhanced.CONFIG Math_random_half None 0.

(** The same game after a first click at time 1000: the bird has jumped. *)
Definition game_started : Enhanced.Game :=
  Enhanced.handle Enhanced.CONFIG Math_random_half (Enhanced.Jump 1000) game_loaded.

(** A game in progress in which the bird, falling at its terminal velocity
    (10 per frame), is 10 above its resting position on the ground
    (476 = 600 - 100 - 24). *)
Definition game_above_ground : Enhanced.Game :=
  Enhanced.set_bird
    (Bird.set_velocity 10 (Bird.set_y 466 (Enhanced.bird game_started)))
    game_started.


(** [src/game.js] just loaded with nothing stored, after a first click, with
    the bird falling at its terminal velocity 10 above its resting position. *)
Definition legacy_above_ground : Legacy.Game :=
  let g := Legacy.handleJump Math_random_half (Legacy.initialGame Math_random_half None) in
  Legacy.set_bird (Bird.set_velocity 10 (Bird.set_y 466 (Legacy.bird g))) g.

(** [game_above_ground] one slow frame (100 ms) later: the bird has hit the
    ground and the game is over. *)
Definition game_ended : Enhanced.Game :=
  Enhanced.handle Enhanced.CONFIG Math_random_half (Enhanced.Frame 100) game_above_ground.

(** The same in [src/game.js], six frames later. *)
Definition legacy_ended : Legacy.Game :=
  let step := Legacy.gameLoop Math_random_half StringToNumber_int in
  step (step (step (step (step (step legacy_above_ground))))).

(** A pipe of [CONFIG] whose right edge (25 + 60) is 5 to the right of the
    bird, moving at the base speed. *)
Definition pipe_near_bird : Pipe.t :=
  {| Pipe.x := 25; Pipe.width := 60; Pipe.gap := 150; Pipe.minHeight := 50;
     Pipe.maxHeight := 300; Pipe.topHeight := 175; Pipe.scored := false;
     Pipe.speed := 2.5; Pipe.highlightOffset := 0 |}.

(** A pipe in front of the bird of [game_started] (which is at x = 80,
    y = 300): its gap, from 310 to 460, starts below the top of the bird. *)
Definition pipe_too_low : Pipe.t :=
  {| Pipe.x := 100; Pipe.width := 60; Pipe.gap := 150; Pipe.minHeight := 50;
     Pipe.maxHeight := 300; Pipe.topHeight := 310; Pipe.scored := false;
     Pipe.speed := 2.5; Pipe.highlightOffset := 0 |}.

(** A pipe of width 60 at [x = -1], already passed by the bird. *)
Definition pipe_at_minus_1 : Pipe.t :=
  {| Pipe.x := -1; Pipe.width := 60; Pipe.gap := 150; Pipe.minHeight := 50;
     Pipe.maxHeight := 300; Pipe.topHeight := 175; Pipe.scored := true;
     Pipe.speed := 2.5; Pipe.highlightOffset := 0 |}.

(** The same pipe once its right edge is left of the screen. *)
Definition pipe_at_minus_61 : Pipe.t := Pipe.set_x (-61) pipe_at_minus_1.

(** Games in progress whose only pipe is the one above. *)
Definition game_pipe_at_minus_1 : Enhanced.Game :=
  Enhanced.set_pipes [pipe_at_minus_1] game_started.

Definition game_pipe_at_minus_61 : Enhanced.Game :=
  Enhanced.set_pipes [pipe_at_minus_61] game_started.

Definition legacy_pipe_at_minus_1 : Legacy.Game :=
  Legacy.set_pipes [pipe_at_minus_1]
    (Legacy.handleJump Math_random_half (Legacy.initialGame Math_random_half None)).

(** A game of [src/game.js] in progress with a pipe that is leaving the
    screen, followed by a pipe near the bird. *)
Definition legacy_two_pipes : Legacy.Game :=
  Legacy.set_pipes [pipe_at_minus_61; pipe_near_bird]
    (Legacy.handleJump Math_random_half (Legacy.initialGame Math_random_half None)).

(** ** Invariants of the globals of [src/unnamed/part_000] *)

(** The stored best score is the one in memory: evaluating the script again
    (reloading the page) reads [bestScore] back. *)
Definition stored_bestScore_ok (g : Enhanced.Game) : Prop :=
  Enhanced.initial_bestScore (Enhanced.localStorage g) = Enhanced.bestScore g.

(** The multiplier and the gap are those [updateDifficulty] computes from
    the current score. *)
Definition difficulty_of_score (cfg : Enhanced.Config) (g : Enhanced.Game) : Prop :=
  if Enhanced.difficulty_enabled cfg then
    Enhanced.difficultyMultiplier g
    == Qmin (1 + inject_Z (Enhanced.score g) * Enhanced.difficulty_speedIncreasePerScore cfg)
            (Enhanced.difficulty_maxSpeedMultiplier cfg)
    /\ Enhanced.currentPipeGap g
       == Qmax (Enhanced.pipe_gap cfg
                - inject_Z (Enhanced.score g) * Enhanced.difficulty_gapDecreasePerScore cfg)
               (Enhanced.difficulty_minGap cfg)
  else
    Enhanced.difficultyMultiplier g == 1
    /\ Enhanced.currentPipeGap g == Enhanced.pipe_gap cfg.

(** A particle as its constructor leaves it. *)
Definition fresh_particle (p : Particle.t) : Prop :=
  Particle.life p = 1 /\ Particle.decay p = 0.02 /\ Particle.gravity p = 0.3.

(** A particle that is drawn: its life, which is the opacity it is drawn
    with, lies in (0, 1]. *)
Definition particle_ok (p : Particle.t) : Prop :=
  0 < Particle.life p /\ Particle.life p <= 1
  /\ Particle.decay p = 0.02 /\ Particle.gravity p = 0.3.

(** What [bird.update] and the loop over the pipes leave of the globals
    that [frame_effect] does not mention: the background and the debug
    switch are untouched, particles are only added, and the two invariants
    above are kept. *)
Definition frame_keeps (cfg : Enhanced.Config) (g g' : Enhanced.Game) : Prop :=
  Enhanced.clouds g' = Enhanced.clouds g
  /\ Enhanced.mountains g' = Enhanced.mountains g
  /\ Enhanced.showHitboxes g' = Enhanced.showHitboxes g
  /\ (exists ps, Enhanced.particles g' = Enhanced.particles g ++ ps
                 /\ Forall fresh_particle ps)
  /\ (stored_bestScore_ok g -> stored_bestScore_ok g')
  /\ (difficulty_of_score cfg g -> difficulty_of_score cfg g').

(** ** Invariants of the bird *)

(** The bird has the position and the size the configuration gives it and
    lies between the ceiling and the ground. *)
Definition bird_in_field (cfg : Enhanced.Config) (b : Bird.t) : Prop :=
  Bird.x b = Enhanced.bird_x cfg
  /\ Bird.width b = Enhanced.bird_width cfg
  /\ Bird.height b = Enhanced.bird_height cfg
  /\ 0 <= Bird.y b
  /\ Bird.y b + Bird.height b
     <= Enhanced.canvas_height cfg - Enhanced.ground_height cfg.

(** The velocity of the bird is at most the terminal velocity, its rotation
    lies between the two bounds of [targetRotation] and its wing phase in
    [0, 3). *)
Definition bird_motion_ok (cfg : Enhanced.Config) (b : Bird.t) : Prop :=
  Bird.jumpStrength b = Enhanced.bird_jumpStrength cfg
  /\ Bird.terminalVelocity b = Enhanced.bird_terminalVelocity cfg
  /\ Bird.velocity b <= Enhanced.bird_terminalVelocity cfg
  /\ (-30 <= Bird.rotation b /\ Bird.rotation b <= 90)
  /\ (0 <= Bird.wingFrame b /\ Bird.wingFrame b < 3).

(** The time stamp of a frame is not earlier than the one of the frame
    before: the clock is monotonic. The other events carry no condition. *)
Definition event_in_time (g : Enhanced.Game) (e : Enhanced.Event) : Prop :=
  match e with
  | Enhanced.Frame t => Enhanced.lastFrameTime g <= t
  | _ => True
  end.

(** ** Invariants of the pipes *)

(** [Math.random()] answers in [0, 1). *)
Definition random_in_range (rnd : nat -> Q) : Prop :=
  forall k, 0 <= rnd k /\ rnd k < 1.

(** What the simulation expects of the configuration: a positive frame rate,
    a canvas and pipes that are not of negative size, pipes that move to the
    left, a difficulty ramp that makes the game harder and not easier, and
    room for the gap, that is 50 pixels above it, 50 below it, above the
    ground. *)
Definition Config_sane (cfg : Enhanced.Config) : Prop :=
  0 < Enhanced.physics_targetFPS cfg
  /\ 0 <= Enhanced.canvas_width cfg
  /\ 0 <= Enhanced.pipe_width cfg
  /\ 0 <= Enhanced.pipe_baseSpeed cfg
  /\ 0 <= Enhanced.difficulty_speedIncreasePerScore cfg
  /\ 0 <= Enhanced.difficulty_gapDecreasePerScore cfg
  /\ 1 <= Enhanced.difficulty_maxSpeedMultiplier cfg
  /\ Enhanced.difficulty_minGap cfg <= Enhanced.pipe_gap cfg
  /\ Enhanced.pipe_minHeight cfg
     <= Enhanced.canvas_height cfg - Enhanced.pipe_gap cfg
        - Enhanced.ground_height cfg - 50.

(** A pipe as the game makes and moves them: the width of the configuration;
    a gap between the floor and the base gap of the difficulty ramp, which
    starts at least [minHeight] below the ceiling and ends at least 50 above
    the ground; a speed between the base speed and the capped one; a
    position between the right edge of the canvas and the point where the
    pipe has left the canvas; a highlight phase in [0, 20). *)
Definition pipe_ok (cfg : Enhanced.Config) (p : Pipe.t) : Prop :=
  Pipe.width p = Enhanced.pipe_width cfg
  /\ (Enhanced.difficulty_minGap cfg <= Pipe.gap p
      /\ Pipe.gap p <= Enhanced.pipe_gap cfg)
  /\ (Enhanced.pipe_minHeight cfg <= Pipe.topHeight p
      /\ Pipe.topHeight p + Pipe.gap p + 50
         <= Enhanced.canvas_height cfg - Enhanced.ground_height cfg)
  /\ (Enhanced.pipe_baseSpeed cfg <= Pipe.speed p
      /\ Pipe.speed p
         <= Enhanced.pipe_baseSpeed cfg * Enhanced.difficulty_maxSpeedMultiplier cfg)
  /\ (0 <= Pipe.x p + Pipe.width p /\ Pipe.x p <= Enhanced.canvas_width cfg)
  /\ (0 <= Pipe.highlightOffset p /\ Pipe.highlightOffset p < 20).

(** The spawn test of a frame that starts with the frame counter [frame]:
    [frame % CONFIG.pipe.spawnInterval === 0] after the increment. *)
Definition spawn_due (cfg : Enhanced.Config) (frame : Z) : Prop :=
  Enhanced.pipe_spawnInterval cfg <> 0%Z
  /\ Z.rem (frame + 1) (Enhanced.pipe_spawnInterval cfg) = 0%Z.

(** The pipes that have not been counted yet. *)
Definition unscored (l : list Pipe.t) : list Pipe.t :=
  List.filter (fun p => negb (Pipe.scored p)) l.

(** ** The start-up of [src/unnamed/part_000]: numbers that are NaN

    The record [Enhanced.Game] takes every number to be a rational. The
    script ends with the call [gameLoop()], which passes no time stamp: in
    that call [currentTime] is [undefined], the delta it computes is NaN,
    and the clouds and the mountains are updated with that delta. The
    definitions below render the head of [gameLoop], that is the clock, the
    clouds and the mountains, which runs in every state of the game, over
    numbers that may be NaN. *)

Module NaN.

(** A number that may be NaN ([None]). The value [undefined], which the
    arithmetic operations and [Math.min] convert to NaN, is rendered as
    [None] too. *)
Definition num : Type := option Q.

(** An arithmetic operation: NaN as soon as an operand is NaN. (Infinities
    are not represented; the head of [gameLoop] divides by
    [1000 / targetFPS] only.) *)
Definition lift2 (f : Q -> Q -> Q) (a b : num) : num :=
  match a, b with
  | Some x, Some y => Some (f x y)
  | _, _ => None
  end.

Definition add : num -> num -> num := lift2 Qplus.
Definition sub : num -> num -> num := lift2 Qminus.
Definition mul : num -> num -> num := lift2 Qmult.
Definition div : num -> num -> num := lift2 Qdiv.
Definition min : num -> num -> num := lift2 Math_min.
Definition max : num -> num -> num := lift2 Math_max.

(** [a % b]: NaN also when [b] is zero. *)
Definition rem (a b : num) : num :=
  match a, b with
  | Some x, Some y => if Qeq_bool y 0 then None else Some (JS_rem x y)
  | _, _ => None
  end.
(** [a < b]: false as soon as an operand is NaN. *)
Definition ltb (a b : num) : bool :=
  match a, b with
  | Some x, Some y => Qltb x y
  | _, _ => false
  end.

(** [a <= b]: false as soon as an operand is NaN. *)
Definition leb (a b : num) : bool :=
  match a, b with
  | Some x, Some y => Qle_bool x y
  | _, _ => false
  end.

(** A cloud and a mountain range whose position may be NaN. *)
Module CloudN.
Record t := mk {
  x : num; y : num; layer : Q; speed : Q; size : Q; opacity : Q
}.
End CloudN.

Module MountainN.
Record t := mk { layer : Q; speed : Q; offset : num; color : string }.
End MountainN.

(** The bird and a particle: the fields that [update] writes may be NaN. *)
Module BirdN.
Record t := mk {
  x : Q; y : num; width : Q; height : Q; velocity : num; gravity : Q;
  jumpStrength : Q; rotation : num; wingFrame : num;
  maxVelocity : Q; terminalVelocity : Q
}.
End BirdN.

Module ParticleN.
Record t := mk {
  x : num; y : num; vx : Q; vy : num; gravity : Q; life : num; decay : Q;
  size : Q; color : string
}.
End ParticleN.

(** The globals the head of [gameLoop] reads and writes. *)
Record Scenery := mkScenery {
  lastFrameTime : num;
  deltaTime : num;
  clouds : list CloudN.t;
  mountains : list MountainN.t;
  draws : nat
}.

Section Script.

Variable cfg : Enhanced.Config.
Variable Math_random : nat -> Q.

(** [dt / (1000 / CONFIG.physics.targetFPS)]. *)
Definition normalizedDt (dt : num) : num :=
  div dt (Some (1000 / Enhanced.physics_targetFPS cfg)).

(** [cloud.update(dt)]; [draws] counts the random values consumed. *)
Definition Cloud_update (dt : num) (c : CloudN.t) (draws : nat) : CloudN.t * nat :=
  let n := normalizedDt dt in
  let x := sub (CloudN.x c) (mul (Some (CloudN.speed c)) n) in
  if ltb (add x (Some (CloudN.size c * 2))) (Some 0) then
    ({| CloudN.x := Some (Enhanced.canvas_width cfg + CloudN.size c);
        CloudN.y := Some (Math_random draws * (Enhanced.canvas_height cfg - 200));
        CloudN.layer := CloudN.layer c;
        CloudN.speed := CloudN.speed c;
        CloudN.size := CloudN.size c;
        CloudN.opacity := CloudN.opacity c |}, S draws)
  else
    ({| CloudN.x := x;
        CloudN.y := CloudN.y c;
        CloudN.layer := CloudN.layer c;
        CloudN.speed := CloudN.speed c;
        CloudN.size := CloudN.size c;
        CloudN.opacity := CloudN.opacity c |}, draws).

(** [mountain.update(dt)]. *)
Definition Mountain_update (dt : num) (m : MountainN.t) : MountainN.t :=
  let n := normalizedDt dt in
  {| MountainN.layer := MountainN.layer m;
     MountainN.speed := MountainN.speed m;
     MountainN.offset :=
       rem (add (MountainN.offset m) (mul (Some (MountainN.speed m)) n))
           (Some (Enhanced.canvas_width cfg));
     MountainN.color := MountainN.color m |}.

(** [clouds.forEach(cloud => cloud.update(deltaTime))]. *)
Fixpoint clouds_forEach (dt : num) (todo done : list CloudN.t) (draws : nat)
    : list CloudN.t * nat :=
  match todo with
  | [] => (done, draws)
  | c :: rest =>
      let '(c1, draws1) := Cloud_update dt c draws in
      clouds_forEach dt rest (done ++ [c1]) draws1
  end.

(** The head of [gameLoop(currentTime)]: the delta since the last frame,
    capped at 100 ms, then the clouds and the mountains. [currentTime] is
    [None] when the function is called without an argument. *)
Definition gameLoop_head (currentTime : num) (s : Scenery) : Scenery :=
  let dt := sub currentTime (lastFrameTime s) in
  let dt := min dt (Some 100) in
  let '(cl, d) := clouds_forEach dt (clouds s) [] (draws s) in
  {| lastFrameTime := currentTime;
     deltaTime := dt;
     clouds := cl;
     mountains := List.map (Mountain_update dt) (mountains s);
     draws := d |}.

(** The heads of the frames that follow, in the order of their time
    stamps. *)
Definition frames (ts : list num) (s : Scenery) : Scenery :=
  List.fold_left (fun s t => gameLoop_head t s) ts s.

(** The first half of [bird.update(dt)]: gravity, terminal velocity,
    position, rotation and wing animation. *)
Definition bird_integrate (dt : num) (b : BirdN.t) : BirdN.t :=
  let n := normalizedDt dt in
  let velocity := add (BirdN.velocity b) (mul (Some (BirdN.gravity b)) n) in
  let velocity := min velocity (Some (BirdN.terminalVelocity b)) in
  let y := add (BirdN.y b) (mul velocity n) in
  let targetRotation := min (max (mul velocity (Some 4)) (Some (-30))) (Some 90) in
  let rotation :=
    add (BirdN.rotation b)
        (mul (sub targetRotation (BirdN.rotation b))
             (Some (Enhanced.physics_rotationEasing cfg))) in
  let wingFrame := rem (add (BirdN.wingFrame b) (mul (Some 0.2) n)) (Some 3) in
  {| BirdN.x := BirdN.x b; BirdN.y := y;
     BirdN.width := BirdN.width b; BirdN.height := BirdN.height b;
     BirdN.velocity := velocity; BirdN.gravity := BirdN.gravity b;
     BirdN.jumpStrength := BirdN.jumpStrength b;
     BirdN.rotation := rotation; BirdN.wingFrame := wingFrame;
     BirdN.maxVelocity := BirdN.maxVelocity b;
     BirdN.terminalVelocity := BirdN.terminalVelocity b |}.

(** The bird with [y] and [velocity] replaced, as both tests of
    [bird.update] do. *)
Definition bird_put (y : Q) (b : BirdN.t) : BirdN.t :=
  {| BirdN.x := BirdN.x b; BirdN.y := Some y;
     BirdN.width := BirdN.width b; BirdN.height := BirdN.height b;
     BirdN.velocity := Some 0; BirdN.gravity := BirdN.gravity b;
     BirdN.jumpStrength := BirdN.jumpStrength b;
     BirdN.rotation := BirdN.rotation b; BirdN.wingFrame := BirdN.wingFrame b;
     BirdN.maxVelocity := BirdN.maxVelocity b;
     BirdN.terminalVelocity := BirdN.terminalVelocity b |}.

(** [bird.update(dt)]: the bird, and whether the test for the ground
    fired (which, in the [PLAYING] state, ends the game). *)
Definition bird_update (dt : num) (b : BirdN.t) : BirdN.t * bool :=
  let b := bird_integrate dt b in
  let ground := Enhanced.canvas_height cfg - Enhanced.ground_height cfg in
  let '(b, hit) :=
    if ltb (Some ground) (add (BirdN.y b) (Some (BirdN.height b))) then
      (bird_put (ground - BirdN.height b) b, true)
    else (b, false) in
  let b := if ltb (BirdN.y b) (Some 0) then bird_put 0 b else b in
  (b, hit).

(** [bird.jump()], on the bird alone: the velocity is the only field it
    writes. *)
Definition bird_jump (b : BirdN.t) : BirdN.t :=
  {| BirdN.x := BirdN.x b; BirdN.y := BirdN.y b;
     BirdN.width := BirdN.width b; BirdN.height := BirdN.height b;
     BirdN.velocity := Some (BirdN.jumpStrength b); BirdN.gravity := BirdN.gravity b;
     BirdN.jumpStrength := BirdN.jumpStrength b;
     BirdN.rotation := BirdN.rotation b; BirdN.wingFrame := BirdN.wingFrame b;
     BirdN.maxVelocity := BirdN.maxVelocity b;
     BirdN.terminalVelocity := BirdN.terminalVelocity b |}.

(** The verdict of [pipe.collidesWith(bird)]. *)
Definition Pipe_collidesWith (p : Pipe.t) (b : BirdN.t) : bool :=
  let padding := Enhanced.bird_hitboxPadding cfg in
  let birdLeft := BirdN.x b + padding in
  let birdRight := BirdN.x b + BirdN.width b - padding in
  let birdTop := add (BirdN.y b) (Some padding) in
  let birdBottom := sub (add (BirdN.y b) (Some (BirdN.height b))) (Some padding) in
  if Qltb (Pipe.x p) birdRight && Qltb birdLeft (Pipe.x p + Pipe.width p) then
    ltb birdTop (Some (Pipe.topHeight p))
    || ltb (Some (Pipe.topHeight p + Pipe.gap p)) birdBottom
  else false.

(** [particle.update(dt)] and [particle.isDead()]. *)
Definition Particle_update (dt : num) (p : ParticleN.t) : ParticleN.t :=
  let n := normalizedDt dt in
  let vy := add (ParticleN.vy p) (mul (Some (ParticleN.gravity p)) n) in
  {| ParticleN.x := add (ParticleN.x p) (mul (Some (ParticleN.vx p)) n);
     ParticleN.y := add (ParticleN.y p) (mul vy n);
     ParticleN.vx := ParticleN.vx p;
     ParticleN.vy := vy;
     ParticleN.gravity := ParticleN.gravity p;
     ParticleN.life := sub (ParticleN.life p) (mul (Some (ParticleN.decay p)) n);
     ParticleN.decay := ParticleN.decay p;
     ParticleN.size := ParticleN.size p;
     ParticleN.color := ParticleN.color p |}.

Definition Particle_isDead (p : ParticleN.t) : bool :=
  leb (ParticleN.life p) (Some 0).

(** The particles of a frame in the [PLAYING] state: the cut to the last
    100 above 200, then [filter] with the update. *)
Definition particles_step (dt : num) (ps : list ParticleN.t) : list ParticleN.t :=
  let ps := if (200 <? length ps)%nat then drop (length ps - 100) ps else ps in
  List.filter (fun p => negb (Particle_isDead p)) (List.map (Particle_update dt) ps).

End Script.

End NaN.

(** A cloud and a mountain range of [Enhanced] with the position [x]. *)
Definition cloud_at (x : NaN.num) (c : Cloud.t) : NaN.CloudN.t :=
  {| NaN.CloudN.x := x;
     NaN.CloudN.y := Some (Cloud.y c);
     NaN.CloudN.layer := Cloud.layer c;
     NaN.CloudN.speed := Cloud.speed c;
     NaN.CloudN.size := Cloud.size c;
     NaN.CloudN.opacity := Cloud.opacity c |}.

Definition mountain_at (offset : NaN.num) (m : Mountain.t) : NaN.MountainN.t :=
  {| NaN.MountainN.layer := Mountain.layer m;
     NaN.MountainN.speed := Mountain.speed m;
     NaN.MountainN.offset := offset;
     NaN.MountainN.color := Mountain.color m |}.

(** The bird and a particle of [Enhanced], whose numbers are all
    rationals. *)
Definition bird_of (b : Bird.t) : NaN.BirdN.t :=
  {| NaN.BirdN.x := Bird.x b; NaN.BirdN.y := Some (Bird.y b);
     NaN.BirdN.width := Bird.width b; NaN.BirdN.height := Bird.height b;
     NaN.BirdN.velocity := Some (Bird.velocity b);
     NaN.BirdN.gravity := Bird.gravity b;
     NaN.BirdN.jumpStrength := Bird.jumpStrength b;
     NaN.BirdN.rotation := Some (Bird.rotation b);
     NaN.BirdN.wingFrame := Some (Bird.wingFrame b);
     NaN.BirdN.maxVelocity := Bird.maxVelocity b;
     NaN.BirdN.terminalVelocity := Bird.terminalVelocity b |}.

Definition particle_of (p : Particle.t) : NaN.ParticleN.t :=
  {| NaN.ParticleN.x := Some (Particle.x p);
     NaN.ParticleN.y := Some (Particle.y p);
     NaN.ParticleN.vx := Particle.vx p;
     NaN.ParticleN.vy := Some (Particle.vy p);
     NaN.ParticleN.gravity := Particle.gravity p;
     NaN.ParticleN.life := Some (Particle.life p);
     NaN.ParticleN.decay := Particle.decay p;
     NaN.ParticleN.size := Particle.size p;
     NaN.ParticleN.color := Particle.color p |}.

(** The bird has lost its position: [y], [rotation] and [wingFrame] are
    NaN. A particle has lost its life: [life] is NaN. *)
Definition bird_lost (b : NaN.BirdN.t) : Prop :=
  NaN.BirdN.y b = None /\ NaN.BirdN.rotation b = None /\ NaN.BirdN.wingFrame b = None.

Definition particle_lost (p : NaN.ParticleN.t) : Prop :=
  NaN.ParticleN.life p = None.

(** The clock and the scenery of a state of [Enhanced], whose numbers are
    all rationals. *)
Definition scenery_of (g : Enhanced.Game) : NaN.Scenery :=
  {| NaN.lastFrameTime := Some (Enhanced.lastFrameTime g);
     NaN.deltaTime := Some (Enhanced.deltaTime g);
     NaN.clouds := List.map (fun c => cloud_at (Some (Cloud.x c)) c) (Enhanced.clouds g);
     NaN.mountains :=
       List.map (fun m => mountain_at (Some (Mountain.offset m)) m) (Enhanced.mountains g);
     NaN.draws := Enhanced.draws g |}.

(** The clock and the scenery once the script has been evaluated: those of
    [Enhanced.initialGame], which is the state before the last line, after
    the call [gameLoop()] of the last line. *)
Definition scenery_loaded (cfg : Enhanced.Config) (rnd : nat -> Q)
    (stored : option string) (t0 : Q) : NaN.Scenery :=
  NaN.gameLoop_head cfg rnd None (scenery_of (Enhanced.initialGame cfg rnd stored t0)).

(** ** Sequences of events *)

(** The events are handled one after the other. *)
Definition run_events (cfg : Enhanced.Config) (rnd : nat -> Q) (es : list Enhanced.Event)
    (g : Enhanced.Game) : Enhanced.Game :=
  List.fold_left (fun h e => Enhanced.handle cfg rnd e h) es g.

Definition is_PauseKey (e : Enhanced.Event) : bool :=
  match e with Enhanced.PauseKey _ => true | _ => false end.

Definition is_Jump (e : Enhanced.Event) : bool :=
  match e with Enhanced.Jump _ => true | _ => false end.

(** The part of the globals that make up the game in progress. *)
Definition same_game (g h : Enhanced.Game) : Prop :=
  Enhanced.score h = Enhanced.score g
  /\ Enhanced.bestScore h = Enhanced.bestScore g
  /\ Enhanced.localStorage h = Enhanced.localStorage g
  /\ Enhanced.frame h = Enhanced.frame g
  /\ Enhanced.groundOffset h = Enhanced.groundOffset g
  /\ Enhanced.difficultyMultiplier h = Enhanced.difficultyMultiplier g
  /\ Enhanced.currentPipeGap h = Enhanced.currentPipeGap g
  /\ Enhanced.bird h = Enhanced.bird g
  /\ Enhanced.pipes h = Enhanced.pipes g
  /\ Enhanced.particles h = Enhanced.particles g.

(** ** The fixed-step script [src/game.js] *)

(** The ground and ceiling tests of its [bird.update], on the bird alone. *)
Definition Legacy_bird_bounds (b : Bird.t) : Bird.t :=
  let ground := Legacy.canvas_height - 100 in
  let b :=
    if Qltb ground (Bird.y b + Bird.height b)
    then Bird.set_velocity 0 (Bird.set_y (ground - Bird.height b) b)
    else b in
  if Qltb (Bird.y b) 0 then Bird.set_velocity 0 (Bird.set_y 0 b) else b.

(** The states the script can be in: the initial one, and any state an
    animation frame or a click, touch or Space key leads to. *)
Inductive Legacy_reachable (rnd : nat -> Q) (stn : string -> option Q)
    (stored : option string) : Legacy.Game -> Prop :=
| Legacy_reachable_init :
    Legacy_reachable rnd stn stored (Legacy.initialGame rnd stored)
| Legacy_reachable_frame g :
    Legacy_reachable rnd stn stored g ->
    Legacy_reachable rnd stn stored (Legacy.gameLoop rnd stn g)
| Legacy_reachable_jump g :
    Legacy_reachable rnd stn stored g ->
    Legacy_reachable rnd stn stored (Legacy.handleJump rnd g).

(** The stored best score has the numeric value of the one in memory:
    evaluating the script again reads a string that converts to the same
    number (or both are NaN). *)
Definition Legacy_stored_ok (stn : string -> option Q) (g : Legacy.Game) : Prop :=
  Legacy.ToNumber stn (Legacy.initial_bestScore (Legacy.localStorage g))
  = Legacy.ToNumber stn (Legacy.bestScore g).

(** The bird of [src/game.js] has the constants the script gives it, lies
    between the ceiling and the ground line (at 500), and its velocity,
    rotation and wing phase are in range. *)
Definition Legacy_bird_ok (b : Bird.t) : Prop :=
  (Bird.x b = 80 /\ Bird.width b = 34 /\ Bird.height b = 24
   /\ Bird.gravity b = 0.6 /\ Bird.jumpStrength b = -10
   /\ Bird.terminalVelocity b = 10)
  /\ (0 <= Bird.y b /\ Bird.y b + Bird.height b <= 500)
  /\ (-10 <= Bird.velocity b /\ Bird.velocity b <= 10)
  /\ (-30 <= Bird.rotation b /\ Bird.rotation b <= 90)
  /\ (0 <= Bird.wingFrame b /\ Bird.wingFrame b < 3).

(** A pipe of [src/game.js]: 60 wide, moving at 2.5 per frame, with a gap of
    150 that starts between 50 and 300 below the ceiling. *)
Definition Legacy_pipe_ok (p : Pipe.t) : Prop :=
  Pipe.width p = 60 /\ Pipe.gap p = 150 /\ Pipe.speed p = 2.5
  /\ (50 <= Pipe.topHeight p /\ Pipe.topHeight p <= 300)
  /\ (0 <= Pipe.x p + Pipe.width p /\ Pipe.x p <= 400)
  /\ (0 <= Pipe.highlightOffset p /\ Pipe.highlightOffset p < 20).

(** What [bird.update] and the pass over the pipes of [src/game.js] leave
    of the globals: the counters of the frame and the background are
    untouched, the score does not decrease, particles are only added, and
    the stored best score stays the one in memory, as long as the conversion
    of a string to a number reads back the numerals that [String(n)]
    prints. *)
Definition Legacy_keeps (stn : string -> option Q) (g g' : Legacy.Game) : Prop :=
  Legacy.frame g' = Legacy.frame g
  /\ Legacy.groundOffset g' = Legacy.groundOffset g
  /\ Legacy.clouds g' = Legacy.clouds g
  /\ Legacy.mountains g' = Legacy.mountains g
  /\ (Legacy.score g <= Legacy.score g')%Z
  /\ (exists ps, Legacy.particles g' = Legacy.particles g ++ ps
                 /\ Forall fresh_particle ps)
  /\ ((forall n : Z, stn (Number_toString n) = Some (inject_Z n)) ->
      Legacy_stored_ok stn g -> Legacy_stored_ok stn g').

(** A cloud of [src/game.js], on its canvas of 400 by 600: speed and size
    in the ranges of the constructor for its layer, a height in the sky, and
    an x position between the point where it is wrapped around and the point
    where it re-enters. *)
Definition Legacy_cloud_ok (c : Cloud.t) : Prop :=
  0 < Cloud.layer c
  /\ (0.2 * Cloud.layer c <= Cloud.speed c /\ Cloud.speed c <= 0.6 * Cloud.layer c)
  /\ (15 / Cloud.layer c <= Cloud.size c /\ Cloud.size c <= 40 / Cloud.layer c)
  /\ Cloud.opacity c = 0.3 + 0.3 * Cloud.layer c
  /\ (0 <= Cloud.y c /\ Cloud.y c <= 400)
  /\ (- (Cloud.size c * 2) <= Cloud.x c /\ Cloud.x c <= 400 + Cloud.size c).

(** A mountain range of [src/game.js]: it scrolls at 0.3 times its layer,
    with an offset in [0, 400). *)
Definition Legacy_mountain_ok (m : Mountain.t) : Prop :=
  0 < Mountain.layer m
  /\ Mountain.speed m = 0.3 * Mountain.layer m
  /\ 0 <= Mountain.offset m /\ Mountain.offset m < 400.


(** The spawn test of [src/game.js] for a frame that starts with the frame
    counter [frame]. *)
Definition Legacy_spawn_due (frame : Z) : Prop :=
  Z.rem (frame + 1) Legacy.pipeInterval = 0%Z.

(** ** Further example runs *)

(** The game loaded with the best score "7" in [localStorage], after a
    first click at time 1000. *)
Definition game_started_best_7 : Enhanced.Game :=
  Enhanced.handle Enhanced.CONFIG Math_random_half (Enhanced.Jump 1000)
    (Enhanced.initialGame Enhanced.CONFIG Math_random_half (Some "7"%string) 0).

(** The game loaded with nothing stored at time 0, after a first frame at
    500 ms and a first click at 1000 ms. *)
Definition game_started_500 : Enhanced.Game :=
  Enhanced.handle Enhanced.CONFIG Math_random_half (Enhanced.Jump 1000)
    (Enhanced.handle Enhanced.CONFIG Math_random_half (Enhanced.Frame 500) game_loaded).

(** A pipe of [CONFIG] at [x = 200], well to the right of the bird. *)
Definition pipe_ahead : Pipe.t :=
  {| Pipe.x := 200; Pipe.width := 60; Pipe.gap := 150; Pipe.minHeight := 50;
     Pipe.maxHeight := 300; Pipe.topHeight := 175; Pipe.scored := false;
     Pipe.speed := 2.5; Pipe.highlightOffset := 0 |}.

(** A game in progress whose only pipe is the one above. *)
Definition game_pipe_ahead : Enhanced.Game :=
  Enhanced.set_pipes [pipe_ahead] game_started.

(** [src/game.js] loaded with the best score "7" in [localStorage], after a
    first click. *)
Definition legacy_started_best_7 : Legacy.Game :=
  Legacy.handleJump Math_random_half
    (Legacy.initialGame Math_random_half (Some "7"%string)).

(** A finished game of [src/game.js] whose frame counter is one short of a
    multiple of the pipe interval. *)
Definition legacy_ended_at_119 : Legacy.Game := Legacy.set_frame 119 legacy_ended.

(** A pipe of [CONFIG] that the bird has almost passed: its right edge, at
    [30 + 60], is 10 to the right of the left edge of the bird. *)
Definition pipe_almost_passed : Pipe.t :=
  {| Pipe.x := 30; Pipe.width := 60; Pipe.gap := 150; Pipe.minHeight := 50;
     Pipe.maxHeight := 300; Pipe.topHeight := 175; Pipe.scored := false;
     Pipe.speed := 2.5; Pipe.highlightOffset := 0 |}.

(** A game in progress in which the bird is about to hit the ground (see
    [game_above_ground]) while leaving that pipe behind. *)
Definition game_last_pipe : Enhanced.Game :=
  Enhanced.set_pipes [pipe_almost_passed] game_above_ground.

(** The event is the debug key (Ctrl/Cmd+D). *)
Definition Event_is_DebugKey (e : Enhanced.Event) : bool :=
  match e with Enhanced.DebugKey => true | _ => false end.


(** [src/game.js] loaded with nothing stored, after [k] rounds of a click
    followed by a frame: the player keeps the bird at the ceiling. *)
Fixpoint legacy_flapping (k : nat) : Legacy.Game :=
  match k with
  | O => Legacy.initialGame Math_random_half None
  | S k =>
      Legacy.gameLoop Math_random_half StringToNumber_int
        (Legacy.handleJump Math_random_half (legacy_flapping k))
  end.

(** The time of round [k] of the run below: one round every 100 ms, from
    1000 ms on. *)
Fixpoint round_time (k : nat) : Q :=
  match k with
  | O => 1000
  | S k => round_time k + 100
  end.

(** The game loaded with nothing stored at time 0, after a first frame at
    500 ms and [k] rounds of a click followed by a frame: the player makes
    the bird rise to the ceiling and keeps it there. *)
Fixpoint flapping (k : nat) : Enhanced.Game :=
  match k with
  | O =>
      Enhanced.handle Enhanced.CONFIG Math_random_half (Enhanced.Frame 500)
        (Enhanced.initialGame Enhanced.CONFIG Math_random_half None 0)
  | S k =>
      Enhanced.handle Enhanced.CONFIG Math_random_half (Enhanced.Frame (round_time k))
        (Enhanced.handle Enhanced.CONFIG Math_random_half (Enhanced.Jump (round_time k))
           (flapping k))
  end.


(** * Properties *)

(** ** Numbers *)

Lemma Qltb_lt (a b : Q) : Qltb a b = true <-> a < b.
Proof.
  unfold Qltb. rewrite negb_true_iff, <- not_true_iff_false, Qle_bool_iff.
  split; [apply Qnot_le_lt | apply Qlt_not_le].
Qed.

Lemma Qltb_ge (a b : Q) : Qltb a b = false <-> b <= a.
Proof. unfold Qltb. rewrite negb_false_iff, Qle_bool_iff. reflexivity. Qed.

Lemma Qltb_reflect (a b : Q) : reflect (a < b) (Qltb a b).
Proof.
  destruct (Qltb a b) eqn:E; constructor.
  - now apply Qltb_lt.
  - apply Qltb_ge in E. now apply Qle_not_lt.
Qed.

(** ** Collision test *)

Lemma Enhanced_collidesWith_fst cfg rnd p b g :
  let pad := Enhanced.bird_hitboxPadding cfg in
  fst (Enhanced.Pipe_collidesWith cfg rnd p b g)
  = (Qltb (Pipe.x p) (birdRight pad b) && Qltb (birdLeft pad b) (Pipe.x p + Pipe.width p))
    && (Qltb (birdTop pad b) (Pipe.topHeight p)
        || Qltb (Pipe.topHeight p + Pipe.gap p) (birdBottom pad b)).
Proof.
  unfold Enhanced.Pipe_collidesWith, birdRight, birdLeft, birdTop, birdBottom.
  cbv zeta.
  destruct (Qltb (Pipe.x p) _ && Qltb _ (Pipe.x p + Pipe.width p)); [|reflexivity].
  destruct (Qltb _ (Pipe.topHeight p) || Qltb (Pipe.topHeight p + Pipe.gap p) _);
    reflexivity.
Qed.

Lemma Legacy_collidesWith_fst rnd p b g :
  fst (Legacy.Pipe_collidesWith rnd p b g)
  = (Qltb (Pipe.x p) (birdRight 5 b) && Qltb (birdLeft 5 b) (Pipe.x p + Pipe.width p))
    && (Qltb (birdTop 5 b) (Pipe.topHeight p)
        || Qltb (Pipe.topHeight p + Pipe.gap p) (birdBottom 5 b)).
Proof.
  unfold Legacy.Pipe_collidesWith, birdRight, birdLeft, birdTop, birdBottom.
  cbv zeta.
  destruct (Qltb (Pipe.x p) _ && Qltb _ (Pipe.x p + Pipe.width p)); [|reflexivity].
  destruct (Qltb _ (Pipe.topHeight p) || Qltb (Pipe.topHeight p + Pipe.gap p) _);
    reflexivity.
Qed.

Lemma collision_formula (pad : Q) (p : Pipe.t) (b : Bird.t) (verdict : bool) :
  verdict
  = (Qltb (Pipe.x p) (birdRight pad b) && Qltb (birdLeft pad b) (Pipe.x p + Pipe.width p))
    && (Qltb (birdTop pad b) (Pipe.topHeight p)
        || Qltb (Pipe.topHeight p + Pipe.gap p) (birdBottom pad b)) ->
  (verdict = true <-> in_x_band pad p b /\ breaches_gap pad p b)
  /\ (in_x_band pad p b -> inside_gap pad p b -> verdict = false)
  /\ (in_x_band pad p b -> breaches_gap pad p b -> verdict = true).
Proof.
  intros ->. unfold in_x_band, inside_gap, breaches_gap.
  rewrite !andb_true_iff, orb_true_iff, !Qltb_lt.
  split; [reflexivity|]. split.
  - intros [Hx1 Hx2] [Ht Hb].
    apply andb_false_iff. right. apply orb_false_iff.
    split; apply Qltb_ge; assumption.
  - tauto.
Qed.

(** C4. [Pipe.collidesWith(bird)] returns [true] exactly when the padded box
    of the bird overlaps the x-band of the pipe and its padded top is above
    [topHeight] or its padded bottom is below [topHeight + gap]; a padded
    box in the x-band and inside the gap never collides, one that breaches
    a bound always does. Both scripts. *)
Theorem collidesWith_iff :
  (forall cfg rnd p b g,
     let pad := Enhanced.bird_hitboxPadding cfg in
     let verdict := fst (Enhanced.Pipe_collidesWith cfg rnd p b g) in
     (verdict = true <-> in_x_band pad p b /\ breaches_gap pad p b)
     /\ (in_x_band pad p b -> inside_gap pad p b -> verdict = false)
     /\ (in_x_band pad p b -> breaches_gap pad p b -> verdict = true))
  /\ (forall rnd p b g,
        let verdict := fst (Legacy.Pipe_collidesWith rnd p b g) in
        (verdict = true <-> in_x_band 5 p b /\ breaches_gap 5 p b)
        /\ (in_x_band 5 p b -> inside_gap 5 p b -> verdict = false)
        /\ (in_x_band 5 p b -> breaches_gap 5 p b -> verdict = true)).
Proof.
  split; intros.
  - apply collision_formula, Enhanced_collidesWith_fst.
  - apply collision_formula, Legacy_collidesWith_fst.
Qed.

Lemma collidesWith_iff_witness :
  let b := Enhanced.bird game_started in
  (in_x_band 5 pipe_too_low b /\ breaches_gap 5 pipe_too_low b)
  /\ fst (Enhanced.Pipe_collidesWith Enhanced.CONFIG Math_random_half pipe_too_low b
            game_started) = true.
Proof.
  cbv zeta.
  assert (H1 : in_x_band 5 pipe_too_low (Enhanced.bird game_started))
    by (split; vm_compute; reflexivity).
  assert (H2 : breaches_gap 5 pipe_too_low (Enhanced.bird game_started))
    by (left; vm_compute; reflexivity).
  split; [split; assumption|].
  exact (proj2 (proj2 (proj1 collidesWith_iff Enhanced.CONFIG Math_random_half
                         pipe_too_low (Enhanced.bird game_started) game_started))
           H1 H2).
Defined.

(** Case analysis on the condition of the first [if] of the goal. *)
Ltac case_if E :=
  match goal with
  | |- context [if ?c then _ else _] => destruct c eqn:E
  end.

(** ** Footprints of the functions of [Enhanced] *)

Section EnhancedFootprints.

Import Enhanced.

Variable cfg : Config.
Variable rnd : nat -> Q.

Lemma frame_effect_refl g : frame_effect cfg g g.
Proof. unfold frame_effect. repeat split; try reflexivity; try lia. now left. Qed.

Lemma frame_effect_trans g1 g2 g3 :
  frame_effect cfg g1 g2 -> frame_effect cfg g2 g3 -> frame_effect cfg g1 g3.
Proof.
  unfold frame_effect.
  intros (F1 & G1 & L1 & D1 & J1 & S1 & B1 & C1) (F2 & G2 & L2 & D2 & J2 & S2 & B2 & C2).
  repeat split; try congruence; try lia.
  - destruct B2 as [(Hs2 & Hb2 & Hl2) | (Hs2 & S & HS & Hb2)].
    + destruct B1 as [(Hs1 & Hb1 & Hl1) | (Hs1 & S' & HS' & Hb1)].
      * left. repeat split; congruence.
      * right. split; [congruence|]. exists S'. split; [lia | congruence].
    + right. split; [assumption|]. exists S. split; [lia|].
      destruct B1 as [(Hs1 & Hb1 & Hl1) | (Hs1 & S' & HS' & Hb1)].
      * congruence.
      * rewrite Hb2, Hb1. lia.
  - destruct (C1 H), (C2 H). congruence.
  - destruct (C1 H), (C2 H). congruence.
Qed.

Lemma new_Particle_draws x y c g :
  snd (new_Particle rnd x y c g) = set_draws (3 + draws g)%nat g.
Proof. reflexivity. Qed.

Lemma emit_S n x y c g :
  emit rnd (S n) x y c g
  = emit rnd n x y c
      (set_particles (particles (snd (new_Particle rnd x y c g))
                      ++ [fst (new_Particle rnd x y c g)])
                     (snd (new_Particle rnd x y c g))).
Proof. reflexivity. Qed.

(** [emit] appends [n] particles and consumes random values; nothing else. *)
Lemma emit_footprint n x y c g :
  exists ps d,
    emit rnd n x y c g = set_particles (particles g ++ ps) (set_draws d g)
    /\ length ps = n.
Proof.
  revert g. induction n as [|n IH]; intros g.
  - exists [], (draws g). split; [|reflexivity].
    destruct g. simpl. rewrite app_nil_r. reflexivity.
  - rewrite emit_S, new_Particle_draws.
    match goal with
    | |- context [emit rnd n x y c ?gg] =>
        destruct (IH gg) as (ps & d & Heq & Hl); rewrite Heq
    end.
    exists (fst (new_Particle rnd x y c g) :: ps), d.
    split; [|simpl; now rewrite Hl].
    cbn [particles set_particles set_draws]. rewrite <- app_assoc. reflexivity.
Qed.

Lemma emit_effect n x y c g :
  frame_effect cfg g (emit rnd n x y c g)
  /\ bird (emit rnd n x y c g) = bird g
  /\ pipes (emit rnd n x y c g) = pipes g.
Proof.
  destruct (emit_footprint n x y c g) as (ps & d & -> & _).
  unfold frame_effect. cbn. repeat split; try reflexivity; try lia. now left.
Qed.

Lemma gameOver_effect g :
  frame_effect cfg g (gameOver g)
  /\ bird (gameOver g) = bird g
  /\ pipes (gameOver g) = pipes g
  /\ particles (gameOver g) = particles g.
Proof.
  unfold gameOver, frame_effect. cbn.
  case_if E; cbn; (repeat split; try reflexivity; try lia; try tauto).
  - right. split; [reflexivity|]. exists (score g). apply Z.ltb_lt in E. cbn. lia.
  - right. split; [reflexivity|]. exists (score g). apply Z.ltb_ge in E. cbn. lia.
Qed.

Lemma updateDifficulty_effect g :
  frame_effect cfg g (updateDifficulty cfg g)
  /\ bird (updateDifficulty cfg g) = bird g
  /\ pipes (updateDifficulty cfg g) = pipes g
  /\ score (updateDifficulty cfg g) = score g.
Proof.
  unfold updateDifficulty, frame_effect.
  destruct (difficulty_enabled cfg) eqn:E; cbn;
    (repeat split; try reflexivity; try lia; try tauto; try discriminate).
Qed.

Lemma set_score_succ_effect g :
  frame_effect cfg g (set_score (score g + 1)%Z g).
Proof.
  unfold frame_effect. cbn. repeat split; try reflexivity; try lia. now left.
Qed.

Lemma Pipe_update_effect dt p g :
  frame_effect cfg g (snd (Pipe_update cfg rnd dt p g))
  /\ bird (snd (Pipe_update cfg rnd dt p g)) = bird g
  /\ pipes (snd (Pipe_update cfg rnd dt p g)) = pipes g.
Proof.
  unfold Pipe_update. cbv zeta.
  destruct (Pipe_passed (Pipe_move cfg dt p) g); cbn [snd].
  - pose proof (set_score_succ_effect g) as H1.
    destruct (updateDifficulty_effect (set_score (score g + 1)%Z g)) as (H2 & Hb2 & Hp2 & _).
    match goal with
    | |- context [emit rnd ?n ?x ?y ?c ?gg] =>
        destruct (emit_effect n x y c gg) as (H3 & Hb3 & Hp3)
    end.
    split; [|split].
    + eapply frame_effect_trans; [|exact H3].
      eapply frame_effect_trans; [exact H1 | exact H2].
    + rewrite Hb3, Hb2. reflexivity.
    + rewrite Hp3, Hp2. reflexivity.
  - split; [apply frame_effect_refl | split; reflexivity].
Qed.

Lemma Pipe_collidesWith_effect p b g :
  frame_effect cfg g (snd (Pipe_collidesWith cfg rnd p b g))
  /\ bird (snd (Pipe_collidesWith cfg rnd p b g)) = bird g
  /\ pipes (snd (Pipe_collidesWith cfg rnd p b g)) = pipes g.
Proof.
  unfold Pipe_collidesWith. cbv zeta.
  destruct (Qltb _ _ && Qltb _ _); [|split; [apply frame_effect_refl | split; reflexivity]].
  destruct (Qltb _ _ || Qltb _ _); [|split; [apply frame_effect_refl | split; reflexivity]].
  cbn [snd]. apply emit_effect.
Qed.

Lemma set_pipes_effect v g :
  frame_effect cfg g (set_pipes v g) /\ bird (set_pipes v g) = bird g.
Proof.
  unfold frame_effect. cbn. repeat split; try reflexivity; try lia. now left.
Qed.

Lemma Pipe_update_fst dt p g :
  fst (Pipe_update cfg rnd dt p g) = Pipe_tick cfg dt (Bird.x (bird g)) p.
Proof.
  unfold Pipe_update, Pipe_tick, Pipe_passed. cbv zeta.
  case_if E; reflexivity.
Qed.

(** One iteration of the loop over the pipes, spelled out. *)
Lemma pipesLoop_body_Some i g pipe :
  pipes g !! i = Some pipe ->
  let p1 := Pipe_tick cfg (deltaTime g) (Bird.x (bird g)) pipe in
  let g1 := snd (Pipe_update cfg rnd (deltaTime g) pipe g) in
  let g2 := set_pipes (<[i := p1]> (pipes g1)) g1 in
  let g3 := snd (Pipe_collidesWith cfg rnd p1 (bird g2) g2) in
  let g4 := if fst (Pipe_collidesWith cfg rnd p1 (bird g2) g2) then gameOver g3 else g3 in
  pipesLoop_body cfg rnd i g
  = if on_screen p1 then g4 else set_pipes (delete i (pipes g4)) g4.
Proof.
  intros Hi. cbv zeta. unfold pipesLoop_body. rewrite Hi.
  rewrite <- Pipe_update_fst.
  destruct (Pipe_update cfg rnd (deltaTime g) pipe g) as [p1 g1]. cbn [fst snd].
  destruct (Pipe_collidesWith cfg rnd p1 (bird (set_pipes (<[i:=p1]> (pipes g1)) g1))
              (set_pipes (<[i:=p1]> (pipes g1)) g1)) as [hit g3].
  cbn [fst snd]. unfold on_screen.
  destruct (Qltb (Pipe.x p1 + Pipe.width p1) 0); reflexivity.
Qed.

Lemma pipesLoop_body_effect i g :
  frame_effect cfg g (pipesLoop_body cfg rnd i g)
  /\ bird (pipesLoop_body cfg rnd i g) = bird g.
Proof.
  destruct (pipes g !! i) as [pipe|] eqn:Hi.
  - rewrite (pipesLoop_body_Some i g pipe Hi).
    set (p1 := Pipe_tick cfg (deltaTime g) (Bird.x (bird g)) pipe).
    destruct (Pipe_update_effect (deltaTime g) pipe g) as (E1 & B1 & _).
    set (g1 := snd (Pipe_update cfg rnd (deltaTime g) pipe g)) in *.
    destruct (set_pipes_effect (<[i := p1]> (pipes g1)) g1) as (E2 & B2).
    set (g2 := set_pipes (<[i := p1]> (pipes g1)) g1) in *.
    destruct (Pipe_collidesWith_effect p1 (bird g2) g2) as (E3 & B3 & _).
    set (g3 := snd (Pipe_collidesWith cfg rnd p1 (bird g2) g2)) in *.
    destruct (gameOver_effect g3) as (E4 & B4 & _).
    assert (E123 : frame_effect cfg g g3).
    { eapply frame_effect_trans; [|exact E3].
      eapply frame_effect_trans; [exact E1 | exact E2]. }
    assert (B123 : bird g3 = bird g) by congruence.
    set (g4 := if fst (Pipe_collidesWith cfg rnd p1 (bird g2) g2) then gameOver g3 else g3).
    assert (E1234 : frame_effect cfg g g4 /\ bird g4 = bird g).
    { unfold g4. destruct (fst (Pipe_collidesWith cfg rnd p1 (bird g2) g2)).
      - split; [eapply frame_effect_trans; eassumption | congruence].
      - split; assumption. }
    destruct E1234 as (E1234 & B1234).
    destruct (on_screen p1); [split; assumption|].
    destruct (set_pipes_effect (delete i (pipes g4)) g4) as (E5 & B5).
    split; [eapply frame_effect_trans; eassumption | congruence].
  - unfold pipesLoop_body. rewrite Hi. split; [apply frame_effect_refl | reflexivity].
Qed.

Lemma pipesLoop_effect n g :
  frame_effect cfg g (pipesLoop cfg rnd n g)
  /\ bird (pipesLoop cfg rnd n g) = bird g.
Proof.
  revert g. induction n as [|i IH]; intros g.
  - split; [apply frame_effect_refl | reflexivity].
  - cbn [pipesLoop].
    destruct (pipesLoop_body_effect i g) as (E1 & B1).
    destruct (IH (pipesLoop_body cfg rnd i g)) as (E2 & B2).
    split; [eapply frame_effect_trans; eassumption | congruence].
Qed.

(** The pipes after one iteration at the index of [pipe]. *)
Lemma pipesLoop_body_pipes pre pipe suf g :
  pipes g = pre ++ pipe :: suf ->
  let p1 := Pipe_tick cfg (deltaTime g) (Bird.x (bird g)) pipe in
  pipes (pipesLoop_body cfg rnd (length pre) g)
  = pre ++ List.filter on_screen [p1] ++ suf.
Proof.
  intros Hp p1.
  assert (Hi : pipes g !! length pre = Some pipe).
  { rewrite Hp. now apply list_lookup_middle. }
  rewrite (pipesLoop_body_Some _ g pipe Hi). fold p1.
  destruct (Pipe_update_effect (deltaTime g) pipe g) as (_ & _ & P1).
  set (g1 := snd (Pipe_update cfg rnd (deltaTime g) pipe g)) in *.
  set (g2 := set_pipes (<[length pre := p1]> (pipes g1)) g1).
  assert (P2 : pipes g2 = pre ++ p1 :: suf).
  { unfold g2. cbn [pipes set_pipes]. rewrite P1, Hp.
    rewrite insert_app_r_alt by lia. now rewrite Nat.sub_diag. }
  destruct (Pipe_collidesWith_effect p1 (bird g2) g2) as (_ & _ & P3).
  set (g3 := snd (Pipe_collidesWith cfg rnd p1 (bird g2) g2)) in *.
  destruct (gameOver_effect g3) as (_ & _ & P4 & _).
  set (g4 := if fst (Pipe_collidesWith cfg rnd p1 (bird g2) g2) then gameOver g3 else g3).
  assert (P1234 : pipes g4 = pre ++ p1 :: suf).
  { unfold g4. destruct (fst (Pipe_collidesWith cfg rnd p1 (bird g2) g2)); congruence. }
  cbn [List.filter]. destruct (on_screen p1).
  - exact P1234.
  - cbn [pipes set_pipes app]. rewrite P1234. apply delete_middle.
Qed.

(** The index of the loop is always in range: it starts below the length of
    the array, and an iteration at index [i] leaves at least [i] pipes, so
    that the next index [i - 1] is again below the length. *)
Lemma pipesLoop_in_range i g :
  (i < length (pipes g))%nat ->
  is_Some (pipes g !! i)
  /\ (i <= length (pipes (pipesLoop_body cfg rnd i g)))%nat.
Proof.
  intros Hi. destruct (lookup_lt_is_Some_2 _ _ Hi) as [pipe Hp].
  split; [now exists pipe|].
  pose proof (take_drop_middle _ _ _ Hp) as Hl. symmetry in Hl.
  pose proof (pipesLoop_body_pipes (take i (pipes g)) pipe (drop (S i) (pipes g)) g Hl)
    as Hb. cbv zeta in Hb.
  assert (Hlen : length (take i (pipes g)) = i) by (rewrite length_take; lia).
  rewrite Hlen in Hb. rewrite Hb, length_app, Hlen. lia.
Qed.

(** The loop over the pipes updates every pipe and drops those that have
    left the screen; the order of the others is kept. *)
Lemma pipesLoop_pipes pre suf g :
  pipes g = pre ++ suf ->
  pipes (pipesLoop cfg rnd (length pre) g)
  = List.filter on_screen
      (List.map (Pipe_tick cfg (deltaTime g) (Bird.x (bird g))) pre) ++ suf.
Proof.
  revert suf g. induction pre as [|pipe pre IH] using rev_ind; intros suf g Hp.
  - exact Hp.
  - rewrite length_app, Nat.add_comm. cbn [length Nat.add pipesLoop].
    rewrite <- app_assoc in Hp. cbn [app] in Hp.
    pose proof (pipesLoop_body_pipes pre pipe suf g Hp) as Hb. cbv zeta in Hb.
    destruct (pipesLoop_body_effect (length pre) g) as ((_ & _ & _ & Hd & _) & Hbird).
    rewrite (IH _ _ Hb), Hd, Hbird.
    rewrite List.map_app, List.filter_app, <- app_assoc. reflexivity.
Qed.

Lemma set_bird_effect v g :
  frame_effect cfg g (set_bird v g) /\ pipes (set_bird v g) = pipes g.
Proof.
  unfold frame_effect. cbn. repeat split; try reflexivity; try lia. now left.
Qed.

(** [bird.update] on the globals other than the bird. *)
Lemma bird_update_effect dt g :
  frame_effect cfg g (bird_update cfg rnd dt g)
  /\ pipes (bird_update cfg rnd dt g) = pipes g.
Proof.
  unfold bird_update. cbv zeta.
  set (b := bird_integrate cfg dt (bird g)).
  destruct (set_bird_effect b g) as (E0 & P0).
  set (g0 := set_bird b g) in *.
  match goal with
  | |- frame_effect cfg g (if Qltb (Bird.y (bird ?gg)) 0 then _ else _) /\ _ =>
      assert (H : frame_effect cfg g gg /\ pipes gg = pipes g); [|set (g1 := gg) in *]
  end.
  { case_if Eg; [|split; assumption].
    match goal with
    | |- context [set_bird ?v g0] =>
        destruct (set_bird_effect v g0) as (E1 & P1); set (ga := set_bird v g0) in *
    end.
    case_if Ep.
    - match goal with
      | |- context [emit rnd ?n ?x ?y ?c ga] =>
          destruct (emit_effect n x y c ga) as (E2 & _ & P2);
          set (gb := emit rnd n x y c ga) in *
      end.
      destruct (gameOver_effect gb) as (E3 & _ & P3 & _).
      split; [|congruence].
      exact (frame_effect_trans _ _ _
               (frame_effect_trans _ _ _ (frame_effect_trans _ _ _ E0 E1) E2) E3).
    - split; [exact (frame_effect_trans _ _ _ E0 E1) | congruence]. }
  destruct H as (E1 & P1).
  case_if Ec; [|split; assumption].
  match goal with
  | |- context [set_bird ?v g1] => destruct (set_bird_effect v g1) as (E2 & P2)
  end.
  split; [exact (frame_effect_trans _ _ _ E1 E2) | congruence].
Qed.

(** [bird.update] on the bird. *)
Lemma bird_update_bird dt g :
  bird (bird_update cfg rnd dt g) = bird_bounds cfg (bird_integrate cfg dt (bird g)).
Proof.
  unfold bird_update, bird_bounds. cbv zeta.
  set (b := bird_integrate cfg dt (bird g)).
  destruct (Qltb (canvas_height cfg - ground_height cfg) (Bird.y b + Bird.height b)).
  - set (b1 := Bird.set_velocity 0 (Bird.set_y _ b)).
    cbn [gameState set_bird].
    match goal with
    | |- context [Qltb (Bird.y (bird ?gg)) 0] =>
        assert (Hb : bird gg = b1); [|rewrite Hb; destruct (Qltb (Bird.y b1) 0)]
    end.
    + destruct (GameState_eqb (gameState g) PLAYING); [|reflexivity].
      match goal with
      | |- context [emit rnd ?n ?x ?y ?c ?gg] =>
          destruct (emit_effect n x y c gg) as (_ & B2 & _);
          destruct (gameOver_effect (emit rnd n x y c gg)) as (_ & B3 & _)
      end.
      rewrite B3, B2. reflexivity.
    + reflexivity.
    + exact Hb.
  - cbn [bird set_bird]. destruct (Qltb (Bird.y b) 0); reflexivity.
Qed.

Lemma clouds_forEach_footprint dt todo done g :
  exists cl d, clouds_forEach cfg rnd dt todo done g = set_clouds cl (set_draws d g).
Proof.
  revert done g. induction todo as [|c todo IH]; intros done g.
  - exists done, (draws g). destruct g. reflexivity.
  - cbn [clouds_forEach].
    assert (H : exists d, snd (Cloud_update cfg rnd dt c g) = set_draws d g).
    { unfold Cloud_update. cbv zeta. case_if E.
      - eexists. reflexivity.
      - exists (draws g). destruct g. reflexivity. }
    destruct H as (d & Hd).
    destruct (Cloud_update cfg rnd dt c g) as [c1 g1]. cbn [snd] in Hd. subst g1.
    destruct (IH (done ++ [c1]) (set_draws d g)) as (cl & d' & ->).
    exists cl, d'. reflexivity.
Qed.

(** The clock and the background touch the delta, the last frame time, the
    clouds, the mountains and the random draws only. *)
Lemma gameLoop_head_footprint t g :
  exists cl mo d,
    gameLoop_background cfg rnd (gameLoop_clock t g)
    = set_mountains mo
        (set_clouds cl
           (set_draws d
              (set_deltaTime (Math_min (t - lastFrameTime g) 100)
                 (set_lastFrameTime t g)))).
Proof.
  unfold gameLoop_background. cbv zeta.
  match goal with
  | |- context [clouds_forEach cfg rnd ?dt ?todo ?done ?gg] =>
      destruct (clouds_forEach_footprint dt todo done gg) as (cl & d & ->)
  end.
  eexists _, _, _. reflexivity.
Qed.

(** The spawn block touches the frame counter, the ground offset, the pipes
    and the random draws only; it adds at most one pipe, at the end. *)
Lemma gameLoop_spawn_footprint g :
  exists new d,
    gameLoop_spawn cfg rnd g
    = set_pipes (pipes g ++ new)
        (set_draws d
           (set_groundOffset
              (groundOffset g + ground_scrollSpeed cfg * normalizedDt cfg (deltaTime g))
              (set_frame (frame g + 1)%Z g)))
    /\ (new = [] \/ exists p, new = [p] /\ Pipe.x p = canvas_width cfg
                                /\ Pipe.scored p = false).
Proof.
  unfold gameLoop_spawn. cbv zeta. case_if E.
  - unfold new_Pipe, random. cbv zeta. eexists [_], _. split.
    + reflexivity.
    + right. eexists. split; [reflexivity | split; reflexivity].
  - exists [], (draws g). split; [|now left].
    rewrite app_nil_r. destruct g. reflexivity.
Qed.

Lemma gameLoop_particles_footprint g :
  exists ps, gameLoop_particles cfg g = set_particles ps g.
Proof.
  unfold gameLoop_particles. cbv zeta. case_if E; eexists; reflexivity.
Qed.

(** A frame outside the [PLAYING] state. *)
Lemma gameLoop_idle t g :
  gameState g <> PLAYING ->
  gameLoop cfg rnd t g = gameLoop_background cfg rnd (gameLoop_clock t g).
Proof.
  intros Hs. unfold gameLoop. cbv zeta.
  destruct (gameLoop_head_footprint t g) as (cl & mo & d & Heq).
  assert (Hg : gameState (gameLoop_background cfg rnd (gameLoop_clock t g)) = gameState g).
  { rewrite Heq. reflexivity. }
  rewrite Hg. destruct (gameState g); congruence.
Qed.

(** A frame in the [PLAYING] state. *)
Lemma gameLoop_playing t g :
  gameState g = PLAYING ->
  let g1 := gameLoop_spawn cfg rnd (gameLoop_background cfg rnd (gameLoop_clock t g)) in
  let g2 := bird_update cfg rnd (deltaTime g1) g1 in
  gameLoop cfg rnd t g = gameLoop_particles cfg (pipesLoop cfg rnd (length (pipes g2)) g2).
Proof.
  intros Hs. unfold gameLoop. cbv zeta.
  destruct (gameLoop_head_footprint t g) as (cl & mo & d & Heq).
  assert (Hg : gameState (gameLoop_background cfg rnd (gameLoop_clock t g)) = gameState g).
  { rewrite Heq. reflexivity. }
  rewrite Hg, Hs. reflexivity.
Qed.

End EnhancedFootprints.

(** ** Best score *)

Section EnhancedBestScore.

Import Enhanced.

Variable cfg : Config.
Variable rnd : nat -> Q.

Lemma gameOver_bestScore g :
  gameState (gameOver g) = GAME_OVER
  /\ bestScore (gameOver g) = Z.max (bestScore g) (score g)
  /\ ((bestScore g < score g)%Z ->
      localStorage (gameOver g) = Some (Number_toString (score g)))
  /\ ((score g <= bestScore g)%Z -> localStorage (gameOver g) = localStorage g).
Proof.
  unfold gameOver. cbn.
  destruct (bestScore g <? score g)%Z eqn:E; cbn.
  - apply Z.ltb_lt in E. repeat split; try reflexivity; lia.
  - apply Z.ltb_ge in E. repeat split; try reflexivity; lia.
Qed.

(** The globals when the bird is about to be updated. *)
Lemma gameLoop_spawn_fields t g :
  let g1 := gameLoop_spawn cfg rnd (gameLoop_background cfg rnd (gameLoop_clock t g)) in
  gameState g1 = gameState g
  /\ score g1 = score g
  /\ bestScore g1 = bestScore g
  /\ localStorage g1 = localStorage g
  /\ difficultyMultiplier g1 = difficultyMultiplier g
  /\ currentPipeGap g1 = currentPipeGap g
  /\ bird g1 = bird g
  /\ lastJumpTime g1 = lastJumpTime g
  /\ lastFrameTime g1 = t
  /\ deltaTime g1 = Math_min (t - lastFrameTime g) 100
  /\ frame g1 = (frame g + 1)%Z
  /\ groundOffset g1
     = groundOffset g
       + ground_scrollSpeed cfg * normalizedDt cfg (Math_min (t - lastFrameTime g) 100)
  /\ exists new,
       pipes g1 = pipes g ++ new
       /\ (new = [] \/ exists p, new = [p] /\ Pipe.x p = canvas_width cfg
                                   /\ Pipe.scored p = false).
Proof.
  cbv zeta.
  destruct (gameLoop_spawn_footprint cfg rnd
              (gameLoop_background cfg rnd (gameLoop_clock t g)))
    as (new & d' & -> & Hnew).
  destruct (gameLoop_head_footprint cfg rnd t g) as (cl & mo & d & ->).
  cbn. repeat split; try reflexivity.
  exists new. split; [reflexivity | exact Hnew].
Qed.

(** The body of a frame in the [PLAYING] state, seen from [frame_effect]. *)
Lemma gameLoop_playing_effect t g :
  gameState g = PLAYING ->
  let g1 := gameLoop_spawn cfg rnd (gameLoop_background cfg rnd (gameLoop_clock t g)) in
  exists g3,
    frame_effect cfg g1 g3
    /\ bird g3 = bird (bird_update cfg rnd (deltaTime g1) g1)
    /\ exists ps, gameLoop cfg rnd t g = set_particles ps g3.
Proof.
  intros Hs g1. rewrite (gameLoop_playing cfg rnd t g Hs). cbv zeta. fold g1.
  destruct (bird_update_effect cfg rnd (deltaTime g1) g1) as (E2 & _).
  destruct (pipesLoop_effect cfg rnd
              (length (pipes (bird_update cfg rnd (deltaTime g1) g1)))
              (bird_update cfg rnd (deltaTime g1) g1)) as (E3 & B3).
  eexists. split; [exact (frame_effect_trans cfg _ _ _ E2 E3)|].
  split; [exact B3|]. apply gameLoop_particles_footprint.
Qed.

Lemma startGame_kept g :
  bestScore (startGame cfg g) = bestScore g
  /\ localStorage (startGame cfg g) = localStorage g
  /\ gameState (startGame cfg g) = PLAYING.
Proof. repeat split; reflexivity. Qed.

Lemma bird_jump_kept g :
  bestScore (bird_jump rnd g) = bestScore g
  /\ localStorage (bird_jump rnd g) = localStorage g
  /\ gameState (bird_jump rnd g) = gameState g
  /\ difficultyMultiplier (bird_jump rnd g) = difficultyMultiplier g
  /\ currentPipeGap (bird_jump rnd g) = currentPipeGap g.
Proof.
  unfold bird_jump. cbv zeta.
  match goal with
  | |- context [emit rnd ?n ?x ?y ?c ?gg] =>
      destruct (emit_footprint rnd n x y c gg) as (ps & d & -> & _)
  end.
  repeat split; reflexivity.
Qed.



End EnhancedBestScore.


(** ** Difficulty *)

Section EnhancedDifficulty.

Import Enhanced.

Variable cfg : Config.

Lemma updateDifficulty_enabled g :
  difficulty_enabled cfg = true ->
  difficultyMultiplier (updateDifficulty cfg g)
  = Qmin (1 + inject_Z (score g) * difficulty_speedIncreasePerScore cfg)
         (difficulty_maxSpeedMultiplier cfg)
  /\ currentPipeGap (updateDifficulty cfg g)
     = Qmax (pipe_gap cfg - inject_Z (score g) * difficulty_gapDecreasePerScore cfg)
            (difficulty_minGap cfg)
  /\ score (updateDifficulty cfg g) = score g.
Proof.
  intros He. unfold updateDifficulty. rewrite He. cbn. repeat split; reflexivity.
Qed.

Lemma updateDifficulty_disabled g :
  difficulty_enabled cfg = false -> updateDifficulty cfg g = g.
Proof. intros He. unfold updateDifficulty. rewrite He. reflexivity. Qed.

Lemma push_clouds_footprint rnd n layer g :
  exists cl d, push_clouds cfg rnd n layer g = set_clouds cl (set_draws d g).
Proof.
  revert g. induction n as [|n IH]; intros g.
  - exists (clouds g), (draws g). destruct g. reflexivity.
  - cbn [push_clouds]. unfold new_Cloud, random. cbv zeta.
    match goal with
    | |- context [push_clouds cfg rnd n layer ?gg] =>
        destruct (IH gg) as (cl & d & ->)
    end.
    exists cl, d. reflexivity.
Qed.

Lemma initialGame_footprint rnd stored t0 :
  exists cl d,
    initialGame cfg rnd stored t0
    = set_clouds cl
        (set_draws d
           {| gameState := START;
              score := 0;
              bestScore := initial_bestScore stored;
              frame := 0;
              particles := [];
              groundOffset := 0;
              lastFrameTime := t0;
              deltaTime := 0;
              difficultyMultiplier := 1;
              currentPipeGap := pipe_gap cfg;
              bird :=
                {| Bird.x := bird_x cfg;
                   Bird.y := canvas_height cfg / 2;
                   Bird.width := bird_width cfg;
                   Bird.height := bird_height cfg;
                   Bird.velocity := 0;
                   Bird.gravity := bird_gravity cfg;
                   Bird.jumpStrength := bird_jumpStrength cfg;
                   Bird.rotation := 0;
                   Bird.wingFrame := 0;
                   Bird.maxVelocity := bird_maxVelocity cfg;
                   Bird.terminalVelocity := bird_terminalVelocity cfg |};
              pipes := [];
              clouds := [];
              mountains := [new_Mountain 1; new_Mountain 2];
              lastJumpTime := 0;
              showHitboxes := false;
              localStorage := stored;
              draws := 0 |}).
Proof.
  unfold initialGame. cbv zeta.
  match goal with
  | |- context [push_clouds cfg rnd 4 1 ?gg] =>
      destruct (push_clouds_footprint rnd 4 1 gg) as (cl & d & ->)
  end.
  match goal with
  | |- context [push_clouds cfg rnd 4 2 ?gg] =>
      destruct (push_clouds_footprint rnd 4 2 gg) as (cl' & d' & ->)
  end.
  exists cl', d'. reflexivity.
Qed.

(** With the ramp disabled no event moves the multiplier or the gap away
    from their starting values. *)
Lemma handle_difficulty_disabled rnd e g :
  difficulty_enabled cfg = false ->
  difficultyMultiplier g = 1 /\ currentPipeGap g = pipe_gap cfg ->
  difficultyMultiplier (handle cfg rnd e g) = 1
  /\ currentPipeGap (handle cfg rnd e g) = pipe_gap cfg.
Proof.
  intros He (Hm & Hg). destruct e as [t | now | now |]; cbn [handle].
  - destruct (GameState_eqb (gameState g) PLAYING) eqn:Hs.
    + assert (Hp : gameState g = PLAYING) by (destruct (gameState g); easy).
      destruct (gameLoop_playing_effect cfg rnd t g Hp) as (g3 & E & _ & ps & ->).
      destruct (gameLoop_spawn_fields cfg rnd t g) as (_ & _ & _ & _ & M1 & G1 & _).
      destruct E as (_ & _ & _ & _ & _ & _ & _ & Hd). destruct (Hd He) as (M3 & G3).
      cbn. split; congruence.
    + assert (Hp : gameState g <> PLAYING) by (destruct (gameState g); easy).
      rewrite gameLoop_idle by assumption.
      destruct (gameLoop_head_footprint cfg rnd t g) as (cl & mo & d & ->).
      cbn. split; assumption.
  - unfold handleJump. case_if E; [split; assumption|].
    cbn [gameState set_lastJumpTime].
    destruct (gameState g).
    + destruct (bird_jump_kept rnd (startGame cfg (set_lastJumpTime now g)))
        as (_ & _ & _ & -> & ->).
      split; reflexivity.
    + destruct (bird_jump_kept rnd (set_lastJumpTime now g)) as (_ & _ & _ & -> & ->).
      split; assumption.
    + split; assumption.
    + split; reflexivity.
  - unfold pauseGame. destruct (gameState g); cbn; split; assumption.
  - cbn. split; assumption.
Qed.

Lemma reachable_difficulty_disabled rnd stored t0 g :
  difficulty_enabled cfg = false ->
  reachable cfg rnd stored t0 g ->
  difficultyMultiplier g = 1 /\ currentPipeGap g = pipe_gap cfg.
Proof.
  intros He Hr. induction Hr.
  - destruct (initialGame_footprint rnd stored t0) as (cl & d & ->).
    split; reflexivity.
  - now apply handle_difficulty_disabled.
  - now apply handle_difficulty_disabled.
  - now apply handle_difficulty_disabled.
  - now apply handle_difficulty_disabled.
Qed.

End EnhancedDifficulty.

(** C5. With the ramp enabled, [updateDifficulty()] sets the multiplier to
    [min(1 + score * speedIncreasePerScore, maxSpeedMultiplier)] and the
    gap to [max(baseGap - score * gapDecreasePerScore, minGap)]: at score 0
    these are 1 and the base gap, the multiplier is non-decreasing in the
    score and at most the cap, the gap is non-increasing and at least the
    floor. With the ramp disabled, [updateDifficulty()] changes nothing and
    in every reachable state the multiplier is 1 and the gap the base gap. *)
Theorem difficulty_controller (cfg : Enhanced.Config)
  (Hinc : 0 <= Enhanced.difficulty_speedIncreasePerScore cfg)
  (Hdec : 0 <= Enhanced.difficulty_gapDecreasePerScore cfg)
  (Hmax : 1 <= Enhanced.difficulty_maxSpeedMultiplier cfg)
  (Hmin : Enhanced.difficulty_minGap cfg <= Enhanced.pipe_gap cfg) :
  (Enhanced.difficulty_enabled cfg = true ->
   forall g : Enhanced.Game,
     let s := inject_Z (Enhanced.score g) in
     let g' := Enhanced.updateDifficulty cfg g in
     Enhanced.difficultyMultiplier g'
     == Qmin (1 + s * Enhanced.difficulty_speedIncreasePerScore cfg)
             (Enhanced.difficulty_maxSpeedMultiplier cfg)
     /\ Enhanced.currentPipeGap g'
        == Qmax (Enhanced.pipe_gap cfg - s * Enhanced.difficulty_gapDecreasePerScore cfg)
                (Enhanced.difficulty_minGap cfg)
     /\ (Enhanced.score g = 0%Z ->
         Enhanced.difficultyMultiplier g' == 1
         /\ Enhanced.currentPipeGap g' == Enhanced.pipe_gap cfg)
     /\ Enhanced.difficultyMultiplier g' <= Enhanced.difficulty_maxSpeedMultiplier cfg
     /\ Enhanced.difficulty_minGap cfg <= Enhanced.currentPipeGap g'
     /\ forall h : Enhanced.Game,
          (Enhanced.score g <= Enhanced.score h)%Z ->
          Enhanced.difficultyMultiplier g'
          <= Enhanced.difficultyMultiplier (Enhanced.updateDifficulty cfg h)
          /\ Enhanced.currentPipeGap (Enhanced.updateDifficulty cfg h)
             <= Enhanced.currentPipeGap g')
  /\ (Enhanced.difficulty_enabled cfg = false ->
      (forall g : Enhanced.Game, Enhanced.updateDifficulty cfg g = g)
      /\ forall rnd stored t0 g,
           Enhanced.reachable cfg rnd stored t0 g ->
           Enhanced.difficultyMultiplier g == 1
           /\ Enhanced.currentPipeGap g == Enhanced.pipe_gap cfg).
Proof.
  split.
  - intros He g s g'.
    destruct (updateDifficulty_enabled cfg g He) as (Hm & Hg & _).
    fold g' in Hm, Hg. fold s in Hm, Hg. rewrite Hm, Hg.
    split; [reflexivity|]. split; [reflexivity|]. split; [|split; [|split]].
    + intros Hs. unfold s. rewrite Hs. change (inject_Z 0) with 0. split.
      * rewrite Q.min_l; [lra | lra].
      * rewrite Q.max_l; [lra | lra].
    + apply Q.le_min_r.
    + apply Q.le_max_r.
    + intros h Hle.
      destruct (updateDifficulty_enabled cfg h He) as (-> & -> & _).
      assert (Hq : s <= inject_Z (Enhanced.score h)) by (unfold s; now rewrite <- Zle_Qle).
      split.
      * apply Q.min_le_compat_r. nra.
      * apply Q.max_le_compat_r. nra.
  - intros He. split.
    + intros g. now apply updateDifficulty_disabled.
    + intros rnd stored t0 g Hr.
      destruct (reachable_difficulty_disabled cfg rnd stored t0 g He Hr) as (-> & ->).
      split; reflexivity.
Qed.

Lemma difficulty_controller_witness :
  (0 <= Enhanced.difficulty_speedIncreasePerScore Enhanced.CONFIG
   /\ 0 <= Enhanced.difficulty_gapDecreasePerScore Enhanced.CONFIG
   /\ 1 <= Enhanced.difficulty_maxSpeedMultiplier Enhanced.CONFIG
   /\ Enhanced.difficulty_minGap Enhanced.CONFIG <= Enhanced.pipe_gap Enhanced.CONFIG
   /\ Enhanced.difficulty_enabled Enhanced.CONFIG = true
   /\ Enhanced.difficulty_enabled CONFIG_no_ramp = false)
  /\ (let g' := Enhanced.updateDifficulty Enhanced.CONFIG
                  (Enhanced.set_score 3 game_started) in
      Enhanced.difficultyMultiplier g' == Qmin (1 + 3 * 0.05) 1.8
      /\ Enhanced.currentPipeGap g' == Qmax (150 - 3 * 2) 120)
  /\ (Enhanced.difficultyMultiplier
        (Enhanced.handle CONFIG_no_ramp Math_random_half (Enhanced.Jump 1000)
           (Enhanced.initialGame CONFIG_no_ramp Math_random_half None 0)) == 1).
Proof.
  assert (H1 : 0 <= Enhanced.difficulty_speedIncreasePerScore Enhanced.CONFIG)
    by (vm_compute; discriminate).
  assert (H2 : 0 <= Enhanced.difficulty_gapDecreasePerScore Enhanced.CONFIG)
    by (vm_compute; discriminate).
  assert (H3 : 1 <= Enhanced.difficulty_maxSpeedMultiplier Enhanced.CONFIG)
    by (vm_compute; discriminate).
  assert (H4 : Enhanced.difficulty_minGap Enhanced.CONFIG
               <= Enhanced.pipe_gap Enhanced.CONFIG)
    by (vm_compute; discriminate).
  split; [repeat split; assumption|]. split.
  - destruct (difficulty_controller Enhanced.CONFIG H1 H2 H3 H4) as (Hon & _).
    destruct (Hon eq_refl (Enhanced.set_score 3 game_started)) as (Hm & Hg & _).
    split; [exact Hm | exact Hg].
  - destruct (difficulty_controller CONFIG_no_ramp H1 H2 H3 H4) as (_ & Hoff).
    destruct (Hoff eq_refl) as (_ & Hr).
    exact (proj1 (Hr Math_random_half None 0 _
                    (Enhanced.reachable_jump _ _ _ _ _ 1000
                       (Enhanced.reachable_init _ _ _ _)))).
Defined.

(** ** Velocity of the bird *)

Section EnhancedVelocity.

Import Enhanced.

Variable cfg : Config.
Variable rnd : nat -> Q.

Hypothesis gravity_nonneg : 0 <= bird_gravity cfg.
Hypothesis jump_upward : bird_jumpStrength cfg <= 0.
Hypothesis jump_below_terminal : bird_jumpStrength cfg <= bird_terminalVelocity cfg.
Hypothesis fps_pos : 0 < physics_targetFPS cfg.

Lemma normalizedDt_nonneg dt : 0 <= dt -> 0 <= normalizedDt cfg dt.
Proof using fps_pos.
  intros Hdt. unfold normalizedDt.
  apply Qle_shift_div_l.
  - apply Qlt_shift_div_l; [assumption | lra].
  - lra.
Qed.

Lemma frame_delta_nonneg t g :
  lastFrameTime g <= t -> 0 <= Math_min (t - lastFrameTime g) 100.
Proof. intros H. unfold Math_min. apply Q.min_glb; lra. Qed.

Lemma bird_integrate_ok dt b :
  0 <= dt -> bird_ok cfg b -> bird_ok cfg (bird_integrate cfg dt b).
Proof using gravity_nonneg jump_below_terminal fps_pos.
  intros Hdt (Hg & Hj & Ht & Hv).
  pose proof (normalizedDt_nonneg dt Hdt) as Hn.
  unfold bird_ok, bird_integrate. cbn. repeat split; try assumption.
  unfold Math_min. apply Q.min_glb.
  - rewrite Hg. nra.
  - rewrite Ht. assumption.
Qed.

Lemma bird_bounds_ok b : bird_ok cfg b -> bird_ok cfg (bird_bounds cfg b).
Proof using jump_upward.
  intros (Hg & Hj & Ht & Hv). unfold bird_ok, bird_bounds. cbv zeta.
  destruct (Qltb _ (Bird.y b + Bird.height b)); cbn;
    destruct (Qltb _ 0); cbn; repeat split; assumption.
Qed.

Lemma bird_jump_bird g :
  bird (bird_jump rnd g) = Bird.set_velocity (Bird.jumpStrength (bird g)) (bird g).
Proof.
  unfold bird_jump. cbv zeta.
  match goal with
  | |- context [emit rnd ?n ?x ?y ?c ?gg] =>
      destruct (emit_effect cfg rnd n x y c gg) as (_ & -> & _)
  end.
  reflexivity.
Qed.

Lemma handle_bird_ok e g :
  (forall t, e = Frame t -> lastFrameTime g <= t) ->
  bird_ok cfg (bird g) -> bird_ok cfg (bird (handle cfg rnd e g)).
Proof using gravity_nonneg jump_upward jump_below_terminal fps_pos.
  intros Hmono Hok. destruct e as [t | now | now |]; cbn [handle].
  - destruct (GameState_eqb (gameState g) PLAYING) eqn:Hs.
    + assert (Hp : gameState g = PLAYING) by (destruct (gameState g); easy).
      destruct (gameLoop_playing_effect cfg rnd t g Hp) as (g3 & _ & B3 & ps & ->).
      destruct (gameLoop_spawn_fields cfg rnd t g)
        as (_ & _ & _ & _ & _ & _ & B1 & _ & _ & D1 & _).
      cbn [bird set_particles]. rewrite B3, bird_update_bird, B1, D1.
      apply bird_bounds_ok, bird_integrate_ok; [|assumption].
      apply frame_delta_nonneg, Hmono. reflexivity.
    + assert (Hp : gameState g <> PLAYING) by (destruct (gameState g); easy).
      rewrite gameLoop_idle by assumption.
      destruct (gameLoop_head_footprint cfg rnd t g) as (cl & mo & d & ->).
      exact Hok.
  - unfold handleJump. case_if E; [assumption|].
    cbn [gameState set_lastJumpTime].
    destruct Hok as (Hg & Hj & Ht & Hv).
    destruct (gameState g).
    + rewrite bird_jump_bird. cbn. unfold bird_ok. cbn.
      repeat split; try assumption. rewrite Hj. apply Qle_refl.
    + rewrite bird_jump_bird. cbn. unfold bird_ok. cbn.
      repeat split; try assumption. rewrite Hj. apply Qle_refl.
    + repeat split; assumption.
    + unfold bird_ok. cbn. repeat split; assumption.
  - unfold pauseGame. destruct (gameState g); exact Hok.
  - exact Hok.
Qed.

Lemma reachable_bird_ok stored t0 g :
  reachable cfg rnd stored t0 g -> bird_ok cfg (bird g).
Proof using gravity_nonneg jump_upward jump_below_terminal fps_pos.
  intros Hr. induction Hr.
  - destruct (initialGame_footprint cfg rnd stored t0) as (cl & d & ->).
    unfold bird_ok. cbn. repeat split; try reflexivity. assumption.
  - apply handle_bird_ok; [|assumption]. intros t' [= <-]. assumption.
  - apply handle_bird_ok; [|assumption]. discriminate.
  - apply handle_bird_ok; [|assumption]. discriminate.
  - apply handle_bird_ok; [|assumption]. discriminate.
Qed.

End EnhancedVelocity.

(** C10. In every state the game can reach with a monotonic clock, the
    velocity of the bird is at least [jumpStrength] (-10 in [CONFIG]):
    [reset] and the ground and ceiling set it to 0, [jump] sets it to
    [jumpStrength], and [update] adds a non-negative gravity increment and
    clamps from above only. *)
Theorem velocity_never_below_jumpStrength
  (cfg : Enhanced.Config) (rnd : nat -> Q) (stored : option string) (t0 : Q)
  (g : Enhanced.Game)
  (gravity_nonneg : 0 <= Enhanced.bird_gravity cfg)
  (jump_upward : Enhanced.bird_jumpStrength cfg <= 0)
  (jump_below_terminal :
     Enhanced.bird_jumpStrength cfg <= Enhanced.bird_terminalVelocity cfg)
  (fps_pos : 0 < Enhanced.physics_targetFPS cfg) :
  Enhanced.reachable cfg rnd stored t0 g ->
  Bird.jumpStrength (Enhanced.bird g) = Enhanced.bird_jumpStrength cfg
  /\ Enhanced.bird_jumpStrength cfg <= Bird.velocity (Enhanced.bird g).
Proof.
  intros Hr.
  destruct (reachable_bird_ok cfg rnd gravity_nonneg jump_upward jump_below_terminal
              fps_pos stored t0 g Hr) as (_ & Hj & _ & Hv).
  split; assumption.
Qed.

Lemma velocity_never_below_jumpStrength_witness :
  (0 <= Enhanced.bird_gravity Enhanced.CONFIG
   /\ Enhanced.bird_jumpStrength Enhanced.CONFIG <= 0
   /\ Enhanced.bird_jumpStrength Enhanced.CONFIG
      <= Enhanced.bird_terminalVelocity Enhanced.CONFIG
   /\ 0 < Enhanced.physics_targetFPS Enhanced.CONFIG
   /\ Enhanced.reachable Enhanced.CONFIG Math_random_half None 0 game_started)
  /\ -10 <= Bird.velocity (Enhanced.bird game_started).
Proof.
  assert (H1 : 0 <= Enhanced.bird_gravity Enhanced.CONFIG) by (vm_compute; discriminate).
  assert (H2 : Enhanced.bird_jumpStrength Enhanced.CONFIG <= 0)
    by (vm_compute; discriminate).
  assert (H3 : Enhanced.bird_jumpStrength Enhanced.CONFIG
               <= Enhanced.bird_terminalVelocity Enhanced.CONFIG)
    by (vm_compute; discriminate).
  assert (H4 : 0 < Enhanced.physics_targetFPS Enhanced.CONFIG) by reflexivity.
  assert (H5 : Enhanced.reachable Enhanced.CONFIG Math_random_half None 0 game_started)
    by exact (Enhanced.reachable_jump _ _ _ _ _ 1000 (Enhanced.reachable_init _ _ _ _)).
  split; [repeat split; assumption|].
  exact (proj2 (velocity_never_below_jumpStrength Enhanced.CONFIG Math_random_half
                  None 0 game_started H1 H2 H3 H4 H5)).
Defined.

(** ** The bird and the ground *)

Section EnhancedGround.

Import Enhanced.

Variable cfg : Config.
Variable rnd : nat -> Q.

(** [bird.update] when the bottom edge has passed the ground line. *)
Lemma bird_update_passed dt g :
  let ground := canvas_height cfg - ground_height cfg in
  let b := bird_integrate cfg dt (bird g) in
  let b1 := Bird.set_velocity 0 (Bird.set_y (ground - Bird.height b) b) in
  let g1 := set_bird b1 (set_bird b g) in
  0 <= ground - Bird.height b ->
  ground < Bird.y b + Bird.height b ->
  bird_update cfg rnd dt g
  = if GameState_eqb (gameState g) PLAYING
    then gameOver (emit rnd 10 (Bird.x b1 + Bird.width b1 / 2)
                        (Bird.y b1 + Bird.height b1) "#DEB887" g1)
    else g1.
Proof.
  intros ground b b1 g1 Hfit Hpass.
  apply Qltb_lt in Hpass. apply Qltb_ge in Hfit.
  unfold bird_update. cbv zeta. fold b. fold ground. rewrite Hpass.
  fold b1. fold g1.
  change (gameState g1) with (gameState g).
  destruct (GameState_eqb (gameState g) PLAYING).
  - match goal with
    | |- context [emit rnd ?n ?x ?y ?c ?gg] =>
        destruct (emit_effect cfg rnd n x y c gg) as (_ & B2 & _);
        destruct (gameOver_effect cfg (emit rnd n x y c gg)) as (_ & B3 & _)
    end.
    rewrite B3, B2. cbn [bird set_bird g1]. 
    change (Bird.y b1) with (ground - Bird.height b). rewrite Hfit. reflexivity.
  - cbn [bird set_bird g1].
    change (Bird.y b1) with (ground - Bird.height b). rewrite Hfit. reflexivity.
Qed.

(** [bird.update] when the bottom edge has not passed the ground line. *)
Lemma bird_update_not_passed dt g :
  let ground := canvas_height cfg - ground_height cfg in
  let b := bird_integrate cfg dt (bird g) in
  Bird.y b + Bird.height b <= ground ->
  bird_update cfg rnd dt g
  = if Qltb (Bird.y b) 0
    then set_bird (Bird.set_velocity 0 (Bird.set_y 0 b)) (set_bird b g)
    else set_bird b g.
Proof.
  intros ground b Hle. apply Qltb_ge in Hle.
  unfold bird_update. cbv zeta. fold b. fold ground. rewrite Hle. reflexivity.
Qed.

Lemma bird_update_ground dt g :
  let ground := canvas_height cfg - ground_height cfg in
  let b := bird_integrate cfg dt (bird g) in
  let g' := bird_update cfg rnd dt g in
  0 <= ground - Bird.height b ->
  (ground < Bird.y b + Bird.height b ->
   Bird.y (bird g') = ground - Bird.height b
   /\ Bird.velocity (bird g') = 0
   /\ (gameState g = PLAYING ->
       gameState g' = GAME_OVER
       /\ bestScore g' = Z.max (bestScore g) (score g)
       /\ length (particles g') = (length (particles g) + 10)%nat)
   /\ (gameState g <> PLAYING ->
       gameState g' = gameState g /\ bestScore g' = bestScore g
       /\ localStorage g' = localStorage g /\ particles g' = particles g))
  /\ (Bird.y b + Bird.height b <= ground ->
      gameState g' = gameState g /\ bestScore g' = bestScore g
      /\ localStorage g' = localStorage g /\ particles g' = particles g
      /\ (0 <= Bird.y b -> bird g' = b)).
Proof.
  intros ground b g' Hfit. split.
  - intros Hpass. unfold g'.
    rewrite (bird_update_passed dt g Hfit Hpass). fold ground. fold b.
    set (b1 := Bird.set_velocity 0 (Bird.set_y (ground - Bird.height b) b)).
    set (g1 := set_bird b1 (set_bird b g)).
    destruct (emit_footprint rnd 10 (Bird.x b1 + Bird.width b1 / 2)
                (Bird.y b1 + Bird.height b1) "#DEB887" g1) as (ps & d & -> & Hps).
    destruct (gameState g) eqn:Hs; cbn [GameState_eqb].
    2: { set (g2 := set_particles (particles g1 ++ ps) (set_draws d g1)).
         destruct (gameOver_bestScore g2) as (Ho & Hb & _).
         destruct (gameOver_effect cfg g2) as (_ & B & _ & P).
         rewrite B, Ho, Hb, P. cbn. rewrite length_app, Hps.
         repeat split; try reflexivity; congruence. }
    all: cbn; repeat split; try reflexivity; try congruence.
  - intros Hle. unfold g'. rewrite (bird_update_not_passed dt g Hle). fold b.
    destruct (Qltb_reflect (Bird.y b) 0) as [Hneg | Hpos]; cbn;
      repeat split; try reflexivity.
    intros H0. exfalso. apply (Qlt_not_le _ _ Hneg H0).
Qed.

End EnhancedGround.

Section LegacyGround.

Variable rnd : nat -> Q.
Variable stn : string -> option Q.

Lemma Legacy_emit_S n x y c g :
  Legacy.emit rnd (S n) x y c g
  = Legacy.emit rnd n x y c
      (Legacy.set_particles
         (Legacy.particles (snd (Legacy.new_Particle rnd x y c g))
          ++ [fst (Legacy.new_Particle rnd x y c g)])
         (snd (Legacy.new_Particle rnd x y c g))).
Proof. reflexivity. Qed.

Lemma Legacy_emit_footprint n x y c g :
  exists ps d,
    Legacy.emit rnd n x y c g
    = Legacy.set_particles (Legacy.particles g ++ ps) (Legacy.set_draws d g)
    /\ length ps = n.
Proof.
  revert g. induction n as [|n IH]; intros g.
  - exists [], (Legacy.draws g). split; [|reflexivity].
    destruct g. simpl. rewrite app_nil_r. reflexivity.
  - rewrite Legacy_emit_S.
    match goal with
    | |- context [Legacy.emit rnd n x y c ?gg] =>
        destruct (IH gg) as (ps & d & Heq & Hl); rewrite Heq
    end.
    exists (fst (Legacy.new_Particle rnd x y c g) :: ps), d.
    split; [|simpl; now rewrite Hl].
    cbn. rewrite <- app_assoc. reflexivity.
Qed.

(** [gameOver()] of [src/game.js] touches the state, the best score and the
    stored value only. *)
Lemma Legacy_gameOver_footprint g :
  exists bs ls,
    Legacy.gameOver stn g
    = Legacy.set_localStorage ls
        (Legacy.set_bestScore bs (Legacy.set_gameState GAME_OVER g)).
Proof.
  unfold Legacy.gameOver. cbv zeta. case_if E.
  - eexists _, _. reflexivity.
  - exists (Legacy.bestScore g), (Legacy.localStorage g). destruct g. reflexivity.
Qed.

Lemma Legacy_bird_update_passed g :
  let ground := Legacy.canvas_height - 100 in
  let b := Legacy.bird_integrate (Legacy.bird g) in
  let b1 := Bird.set_velocity 0 (Bird.set_y (ground - Bird.height b) b) in
  let g1 := Legacy.set_bird b1 (Legacy.set_bird b g) in
  0 <= ground - Bird.height b ->
  ground < Bird.y b + Bird.height b ->
  Legacy.bird_update rnd stn g
  = if GameState_eqb (Legacy.gameState g) PLAYING
    then Legacy.gameOver stn
           (Legacy.emit rnd 10 (Bird.x b1 + Bird.width b1 / 2)
              (Bird.y b1 + Bird.height b1) "#DEB887" g1)
    else g1.
Proof.
  intros ground b b1 g1 Hfit Hpass.
  apply Qltb_lt in Hpass. apply Qltb_ge in Hfit.
  unfold Legacy.bird_update. cbv zeta. fold b. fold ground. rewrite Hpass.
  fold b1. fold g1.
  change (Legacy.gameState g1) with (Legacy.gameState g).
  destruct (GameState_eqb (Legacy.gameState g) PLAYING).
  - match goal with
    | |- context [Legacy.emit rnd ?n ?x ?y ?c ?gg] =>
        destruct (Legacy_emit_footprint n x y c gg) as (ps & d & -> & _)
    end.
    match goal with
    | |- context [Legacy.gameOver stn ?gg] =>
        destruct (Legacy_gameOver_footprint gg) as (bs & ls & ->)
    end.
    cbn [Legacy.bird Legacy.set_bird Legacy.set_localStorage Legacy.set_bestScore
         Legacy.set_gameState Legacy.set_particles Legacy.set_draws g1].
    change (Bird.y b1) with (ground - Bird.height b). rewrite Hfit. reflexivity.
  - cbn [Legacy.bird Legacy.set_bird g1].
    change (Bird.y b1) with (ground - Bird.height b). rewrite Hfit. reflexivity.
Qed.

Lemma Legacy_bird_update_not_passed g :
  let ground := Legacy.canvas_height - 100 in
  let b := Legacy.bird_integrate (Legacy.bird g) in
  Bird.y b + Bird.height b <= ground ->
  Legacy.bird_update rnd stn g
  = if Qltb (Bird.y b) 0
    then Legacy.set_bird (Bird.set_velocity 0 (Bird.set_y 0 b)) (Legacy.set_bird b g)
    else Legacy.set_bird b g.
Proof.
  intros ground b Hle. apply Qltb_ge in Hle.
  unfold Legacy.bird_update. cbv zeta. fold b. fold ground. rewrite Hle. reflexivity.
Qed.

Lemma Legacy_bird_update_ground g :
  let ground := Legacy.canvas_height - 100 in
  let b := Legacy.bird_integrate (Legacy.bird g) in
  let g' := Legacy.bird_update rnd stn g in
  0 <= ground - Bird.height b ->
  (ground < Bird.y b + Bird.height b ->
   Bird.y (Legacy.bird g') = ground - Bird.height b
   /\ Bird.velocity (Legacy.bird g') = 0
   /\ (Legacy.gameState g = PLAYING -> Legacy.gameState g' = GAME_OVER)
   /\ (Legacy.gameState g <> PLAYING ->
       Legacy.gameState g' = Legacy.gameState g
       /\ Legacy.bestScore g' = Legacy.bestScore g
       /\ Legacy.localStorage g' = Legacy.localStorage g
       /\ Legacy.particles g' = Legacy.particles g))
  /\ (Bird.y b + Bird.height b <= ground ->
      Legacy.gameState g' = Legacy.gameState g
      /\ Legacy.bestScore g' = Legacy.bestScore g
      /\ Legacy.localStorage g' = Legacy.localStorage g
      /\ Legacy.particles g' = Legacy.particles g
      /\ (0 <= Bird.y b -> Legacy.bird g' = b)).
Proof.
  intros ground b g' Hfit. split.
  - intros Hpass. unfold g'.
    rewrite (Legacy_bird_update_passed g Hfit Hpass). fold ground. fold b.
    set (b1 := Bird.set_velocity 0 (Bird.set_y (ground - Bird.height b) b)).
    set (g1 := Legacy.set_bird b1 (Legacy.set_bird b g)).
    destruct (Legacy_emit_footprint 10 (Bird.x b1 + Bird.width b1 / 2)
                (Bird.y b1 + Bird.height b1) "#DEB887" g1) as (ps & d & -> & Hps).
    destruct (Legacy.gameState g) eqn:Hs; cbn [GameState_eqb].
    2: { match goal with
         | |- context [Legacy.gameOver stn ?gg] =>
             destruct (Legacy_gameOver_footprint gg) as (bs & ls & ->)
         end.
         cbn. repeat split; try reflexivity; congruence. }
    all: cbn; repeat split; try reflexivity; try congruence.
  - intros Hle. unfold g'. rewrite (Legacy_bird_update_not_passed g Hle). fold b.
    destruct (Qltb_reflect (Bird.y b) 0) as [Hneg | Hpos]; cbn;
      repeat split; try reflexivity.
    intros H0. exfalso. apply (Qlt_not_le _ _ Hneg H0).
Qed.

End LegacyGround.

(** C2, as the code has it. When, after integration, the bottom edge of the
    bird is strictly below the ground line, [bird.update] puts the bird on
    the ground, sets its velocity to 0 and, if and only if the state is
    [PLAYING], ends the game (ten particles, [gameOver()]); in any other
    state nothing else changes. When the bottom edge is on or above the
    ground line, the ground test does nothing: the state, the best score
    and the particles are unchanged and the velocity is not reset. Both
    scripts; the bird is assumed to fit above the ground. *)
Theorem bird_update_ground_contact :
  (forall cfg rnd dt (g : Enhanced.Game),
     let ground := Enhanced.canvas_height cfg - Enhanced.ground_height cfg in
     let b := Enhanced.bird_integrate cfg dt (Enhanced.bird g) in
     let g' := Enhanced.bird_update cfg rnd dt g in
     0 <= ground - Bird.height b ->
     (ground < Bird.y b + Bird.height b ->
      Bird.y (Enhanced.bird g') = ground - Bird.height b
      /\ Bird.velocity (Enhanced.bird g') = 0
      /\ (Enhanced.gameState g = PLAYING ->
          Enhanced.gameState g' = GAME_OVER
          /\ Enhanced.bestScore g' = Z.max (Enhanced.bestScore g) (Enhanced.score g)
          /\ length (Enhanced.particles g') = (length (Enhanced.particles g) + 10)%nat)
      /\ (Enhanced.gameState g <> PLAYING ->
          Enhanced.gameState g' = Enhanced.gameState g
          /\ Enhanced.bestScore g' = Enhanced.bestScore g
          /\ Enhanced.localStorage g' = Enhanced.localStorage g
          /\ Enhanced.particles g' = Enhanced.particles g))
     /\ (Bird.y b + Bird.height b <= ground ->
         Enhanced.gameState g' = Enhanced.gameState g
         /\ Enhanced.bestScore g' = Enhanced.bestScore g
         /\ Enhanced.localStorage g' = Enhanced.localStorage g
         /\ Enhanced.particles g' = Enhanced.particles g
         /\ (0 <= Bird.y b -> Enhanced.bird g' = b)))
  /\ (forall rnd stn (g : Legacy.Game),
        let ground := Legacy.canvas_height - 100 in
        let b := Legacy.bird_integrate (Legacy.bird g) in
        let g' := Legacy.bird_update rnd stn g in
        0 <= ground - Bird.height b ->
        (ground < Bird.y b + Bird.height b ->
         Bird.y (Legacy.bird g') = ground - Bird.height b
         /\ Bird.velocity (Legacy.bird g') = 0
         /\ (Legacy.gameState g = PLAYING -> Legacy.gameState g' = GAME_OVER)
         /\ (Legacy.gameState g <> PLAYING ->
             Legacy.gameState g' = Legacy.gameState g
             /\ Legacy.bestScore g' = Legacy.bestScore g
             /\ Legacy.localStorage g' = Legacy.localStorage g
             /\ Legacy.particles g' = Legacy.particles g))
        /\ (Bird.y b + Bird.height b <= ground ->
            Legacy.gameState g' = Legacy.gameState g
            /\ Legacy.bestScore g' = Legacy.bestScore g
            /\ Legacy.localStorage g' = Legacy.localStorage g
            /\ Legacy.particles g' = Legacy.particles g
            /\ (0 <= Bird.y b -> Legacy.bird g' = b))).
Proof.
  split.
  - intros cfg rnd dt g. apply bird_update_ground.
  - intros rnd stn g. apply Legacy_bird_update_ground.
Qed.

(** C2 as stated fails when the bottom edge reaches the ground line without
    passing it: the bird of [game_above_ground], after one reference frame,
    has its bottom edge exactly on the ground line (476 + 24 = 500), yet the
    game is still [PLAYING] and the velocity is 10, not 0. The same in
    [src/game.js]. *)
Lemma ground_reached_but_not_passed :
  let dt := 50 # 3 in
  let g := game_above_ground in
  let b := Enhanced.bird_integrate Enhanced.CONFIG dt (Enhanced.bird g) in
  let g' := Enhanced.bird_update Enhanced.CONFIG Math_random_half dt g in
  let h := legacy_above_ground in
  let c := Legacy.bird_integrate (Legacy.bird h) in
  let h' := Legacy.bird_update Math_random_half StringToNumber_int h in
  (Enhanced.gameState g = PLAYING
   /\ Bird.y b + Bird.height b
      == Enhanced.canvas_height Enhanced.CONFIG - Enhanced.ground_height Enhanced.CONFIG
   /\ Enhanced.gameState g' = PLAYING
   /\ Bird.velocity (Enhanced.bird g') == 10
   /\ ~ Bird.velocity (Enhanced.bird g') == 0)
  /\ (Legacy.gameState h = PLAYING
      /\ Bird.y c + Bird.height c == Legacy.canvas_height - 100
      /\ Legacy.gameState h' = PLAYING
      /\ Bird.velocity (Legacy.bird h') == 10
      /\ ~ Bird.velocity (Legacy.bird h') == 0).
Proof. vm_compute. intuition discriminate. Qed.

Lemma bird_update_ground_contact_witness :
  let dt := 100 in
  let g := game_above_ground in
  let ground := Enhanced.canvas_height Enhanced.CONFIG
                - Enhanced.ground_height Enhanced.CONFIG in
  let b := Enhanced.bird_integrate Enhanced.CONFIG dt (Enhanced.bird g) in
  let g' := Enhanced.bird_update Enhanced.CONFIG Math_random_half dt g in
  (0 <= ground - Bird.height b
   /\ ground < Bird.y b + Bird.height b
   /\ Enhanced.gameState g = PLAYING)
  /\ Bird.velocity (Enhanced.bird g') = 0
  /\ Enhanced.gameState g' = GAME_OVER.
Proof.
  cbv zeta.
  assert (H1 : 0 <= Enhanced.canvas_height Enhanced.CONFIG
                    - Enhanced.ground_height Enhanced.CONFIG
                    - Bird.height (Enhanced.bird_integrate Enhanced.CONFIG 100
                                     (Enhanced.bird game_above_ground)))
    by (vm_compute; discriminate).
  assert (H2 : Enhanced.canvas_height Enhanced.CONFIG
               - Enhanced.ground_height Enhanced.CONFIG
               < Bird.y (Enhanced.bird_integrate Enhanced.CONFIG 100
                           (Enhanced.bird game_above_ground))
                 + Bird.height (Enhanced.bird_integrate Enhanced.CONFIG 100
                                  (Enhanced.bird game_above_ground)))
    by (vm_compute; reflexivity).
  assert (H3 : Enhanced.gameState game_above_ground = PLAYING) by reflexivity.
  split; [repeat split; assumption|].
  pose proof (proj1 (proj1 bird_update_ground_contact Enhanced.CONFIG Math_random_half
                       100 game_above_ground H1) H2) as (_ & Hv & Hplay & _).
  split; [exact Hv | exact (proj1 (Hplay H3))].
Defined.

(** ** Starting and restarting *)

Section EnhancedStart.

Import Enhanced.

Variable cfg : Config.
Variable rnd : nat -> Q.

Lemma startGame_fields g :
  let g' := startGame cfg g in
  gameState g' = PLAYING /\ score g' = 0%Z /\ pipes g' = [] /\ particles g' = []
  /\ frame g' = 0%Z /\ difficultyMultiplier g' = 1
  /\ currentPipeGap g' = pipe_gap cfg
  /\ Bird.y (bird g') = canvas_height cfg / 2 /\ Bird.velocity (bird g') = 0
  /\ Bird.rotation (bird g') = 0 /\ Bird.wingFrame (bird g') = 0
  /\ bestScore g' = bestScore g.
Proof. cbv zeta. repeat split; reflexivity. Qed.

Lemma bird_jump_fields g :
  let g' := bird_jump rnd g in
  Bird.velocity (bird g') = Bird.jumpStrength (bird g)
  /\ Bird.y (bird g') = Bird.y (bird g)
  /\ Bird.rotation (bird g') = Bird.rotation (bird g)
  /\ Bird.wingFrame (bird g') = Bird.wingFrame (bird g)
  /\ length (particles g') = (length (particles g) + 5)%nat
  /\ gameState g' = gameState g /\ score g' = score g /\ pipes g' = pipes g
  /\ frame g' = frame g /\ difficultyMultiplier g' = difficultyMultiplier g
  /\ currentPipeGap g' = currentPipeGap g /\ bestScore g' = bestScore g.
Proof.
  cbv zeta. unfold bird_jump. cbv zeta.
  match goal with
  | |- context [emit rnd ?n ?x ?y ?c ?gg] =>
      destruct (emit_footprint rnd n x y c gg) as (ps & d & -> & Hps)
  end.
  cbn. rewrite length_app, Hps. repeat split; reflexivity.
Qed.

Lemma handleJump_cases now g :
  jumpCooldown <= now - lastJumpTime g ->
  let reset := startGame cfg (set_lastJumpTime now g) in
  (gameState g = GAME_OVER -> handleJump cfg rnd now g = reset)
  /\ (gameState g = START -> handleJump cfg rnd now g = bird_jump rnd reset).
Proof.
  intros Hc reset. apply Qltb_ge in Hc. unfold handleJump. rewrite Hc.
  cbn [gameState set_lastJumpTime]. split; intros ->; reflexivity.
Qed.

End EnhancedStart.

(** C6, as the code has it. A jump input in the [GAME_OVER] state performs
    the full reset of [startGame()] and nothing more; a jump input in the
    [START] state performs the same reset and then [bird.jump()]. Both end
    in [PLAYING] with score 0, no pipes, frame 0, multiplier 1, the base
    gap and the bird at mid-height with rotation and wing phase 0; after
    the [START] transition the velocity is [jumpStrength] and there are 5
    particles, after the [GAME_OVER] transition the velocity is 0 and there
    are no particles. In [src/game.js] the two transitions are related in
    the same way. *)
Theorem restart_resets_without_jump :
  (forall cfg rnd now (g : Enhanced.Game),
     Enhanced.jumpCooldown <= now - Enhanced.lastJumpTime g ->
     let reset := Enhanced.startGame cfg (Enhanced.set_lastJumpTime now g) in
     let jumped := Enhanced.bird_jump rnd reset in
     (Enhanced.gameState g = GAME_OVER -> Enhanced.handleJump cfg rnd now g = reset)
     /\ (Enhanced.gameState g = START -> Enhanced.handleJump cfg rnd now g = jumped)
     /\ (Enhanced.gameState reset = PLAYING /\ Enhanced.gameState jumped = PLAYING)
     /\ (Enhanced.score reset = 0%Z /\ Enhanced.score jumped = 0%Z)
     /\ (Enhanced.pipes reset = [] /\ Enhanced.pipes jumped = [])
     /\ (Enhanced.frame reset = 0%Z /\ Enhanced.frame jumped = 0%Z)
     /\ (Enhanced.difficultyMultiplier reset = 1
         /\ Enhanced.difficultyMultiplier jumped = 1)
     /\ (Enhanced.currentPipeGap reset = Enhanced.pipe_gap cfg
         /\ Enhanced.currentPipeGap jumped = Enhanced.pipe_gap cfg)
     /\ (Bird.y (Enhanced.bird reset) = Enhanced.canvas_height cfg / 2
         /\ Bird.y (Enhanced.bird jumped) = Enhanced.canvas_height cfg / 2)
     /\ (Bird.rotation (Enhanced.bird reset) = 0
         /\ Bird.rotation (Enhanced.bird jumped) = 0)
     /\ (Bird.wingFrame (Enhanced.bird reset) = 0
         /\ Bird.wingFrame (Enhanced.bird jumped) = 0)
     /\ (Bird.velocity (Enhanced.bird reset) = 0
         /\ Bird.velocity (Enhanced.bird jumped) = Bird.jumpStrength (Enhanced.bird g))
     /\ (Enhanced.particles reset = [] /\ length (Enhanced.particles jumped) = 5%nat))
  /\ (forall rnd (g : Legacy.Game),
        let reset := Legacy.startGame g in
        (Legacy.gameState g = GAME_OVER -> Legacy.handleJump rnd g = reset)
        /\ (Legacy.gameState g = START ->
            Legacy.handleJump rnd g = Legacy.bird_jump rnd reset)
        /\ Legacy.gameState reset = PLAYING /\ Legacy.score reset = 0%Z
        /\ Legacy.pipes reset = []
        /\ Bird.y (Legacy.bird reset) = Legacy.canvas_height / 2
        /\ Bird.velocity (Legacy.bird reset) = 0
        /\ Bird.rotation (Legacy.bird reset) = 0
        /\ Bird.wingFrame (Legacy.bird reset) = 0).
Proof.
  split.
  - intros cfg rnd now g Hc reset jumped.
    destruct (handleJump_cases cfg rnd now g Hc) as (Hover & Hstart).
    split; [exact Hover|]. split; [exact Hstart|].
    destruct (startGame_fields cfg (Enhanced.set_lastJumpTime now g))
      as (R1 & R2 & R3 & R4 & R5 & R6 & R7 & R8 & R9 & R10 & R11 & _).
    destruct (bird_jump_fields rnd reset)
      as (J1 & J2 & J3 & J4 & J5 & J6 & J7 & J8 & J9 & J10 & J11 & _).
    fold reset in R1, R2, R3, R4, R5, R6, R7, R8, R9, R10, R11.
    fold jumped in J1, J2, J3, J4, J5, J6, J7, J8, J9, J10, J11.
    repeat split; try assumption; try congruence.
  - intros rnd g reset. unfold Legacy.handleJump.
    repeat split; try reflexivity; intros ->; reflexivity.
Qed.

(** C6 as stated fails: a jump input in the [GAME_OVER] state applies no
    jump impulse. After [game_ended] the restart leaves the bird at rest
    with no particle, where the first start of [game_loaded] gives it the
    velocity -10 and 5 particles. The same in [src/game.js]. *)
Lemma restart_applies_no_impulse :
  (Enhanced.gameState game_ended = GAME_OVER
   /\ Enhanced.gameState game_loaded = START
   /\ Enhanced.gameState
        (Enhanced.handleJump Enhanced.CONFIG Math_random_half 2000 game_ended) = PLAYING
   /\ Bird.velocity
        (Enhanced.bird
           (Enhanced.handleJump Enhanced.CONFIG Math_random_half 2000 game_ended)) == 0
   /\ Enhanced.particles
        (Enhanced.handleJump Enhanced.CONFIG Math_random_half 2000 game_ended) = []
   /\ Bird.velocity
        (Enhanced.bird
           (Enhanced.handleJump Enhanced.CONFIG Math_random_half 2000 game_loaded)) == -10
   /\ length
        (Enhanced.particles
           (Enhanced.handleJump Enhanced.CONFIG Math_random_half 2000 game_loaded)) = 5%nat)
  /\ (Legacy.gameState legacy_ended = GAME_OVER
      /\ Legacy.gameState (Legacy.handleJump Math_random_half legacy_ended) = PLAYING
      /\ Bird.velocity (Legacy.bird (Legacy.handleJump Math_random_half legacy_ended)) == 0
      /\ Bird.velocity
           (Legacy.bird
              (Legacy.handleJump Math_random_half
                 (Legacy.initialGame Math_random_half None))) == -10).
Proof. vm_compute. intuition congruence. Qed.

Lemma restart_resets_without_jump_witness :
  (Enhanced.jumpCooldown <= 2000 - Enhanced.lastJumpTime game_ended
   /\ Enhanced.gameState game_ended = GAME_OVER)
  /\ Enhanced.handleJump Enhanced.CONFIG Math_random_half 2000 game_ended
     = Enhanced.startGame Enhanced.CONFIG (Enhanced.set_lastJumpTime 2000 game_ended).
Proof.
  assert (H1 : Enhanced.jumpCooldown <= 2000 - Enhanced.lastJumpTime game_ended)
    by (vm_compute; discriminate).
  assert (H2 : Enhanced.gameState game_ended = GAME_OVER) by (vm_compute; reflexivity).
  split; [split; assumption|].
  exact (proj1 (proj1 restart_resets_without_jump Enhanced.CONFIG Math_random_half
                  2000 game_ended H1) H2).
Defined.

(** ** Start-up *)

Lemma parseInt_examples :
  parseInt "42" = Some 42%Z /\ parseInt "  -7" = Some (-7)%Z
  /\ parseInt "12abc" = Some 12%Z /\ parseInt "0x1F" = Some 31%Z
  /\ parseInt "abc" = None /\ parseInt "" = None /\ parseInt "null" = None.
Proof. repeat split; reflexivity. Qed.

(** In [src/unnamed/part_000] an absent value, and any stored string that
    [parseInt] does not read as an integer, give the best score 0. *)
Lemma Enhanced_unparseable_bestScore_is_zero cfg rnd t0 :
  Enhanced.bestScore (Enhanced.initialGame cfg rnd None t0) = 0%Z
  /\ forall s,
       parseInt s = None ->
       Enhanced.bestScore (Enhanced.initialGame cfg rnd (Some s) t0) = 0%Z.
Proof.
  split.
  - destruct (initialGame_footprint cfg rnd None t0) as (cl & d & ->). reflexivity.
  - intros s Hs.
    destruct (initialGame_footprint cfg rnd (Some s) t0) as (cl & d & ->).
    cbn. unfold Enhanced.initial_bestScore. cbn [ToString_item]. rewrite Hs. reflexivity.
Qed.

(** C8 in [src/game.js]. The stored string is not parsed: with ["abc"]
    stored, the best score starts as the string ["abc"], not as 0, and a
    game that ends with score 3 leaves it in place, since [3 > "abc"] is
    false. [src/unnamed/part_000] starts from 0 on the same input. *)
Theorem legacy_bestScore_not_parsed :
  let g := Legacy.initialGame Math_random_half (Some "abc"%string) in
  parseInt "abc" = None
  /\ Legacy.bestScore g = Legacy.JSString "abc"
  /\ Legacy.bestScore g <> Legacy.JSNumber 0
  /\ Legacy.bestScore (Legacy.gameOver StringToNumber_int (Legacy.set_score 3 g))
     = Legacy.JSString "abc"
  /\ Enhanced.bestScore
       (Enhanced.initialGame Enhanced.CONFIG Math_random_half (Some "abc"%string) 0)
     = 0%Z.
Proof. vm_compute. repeat split; try reflexivity. discriminate. Qed.

(** ** Removal of the pipes *)

Section EnhancedCleanup.

Import Enhanced.

Variable cfg : Config.
Variable rnd : nat -> Q.

Lemma bird_update_x dt g :
  Bird.x (bird (bird_update cfg rnd dt g)) = Bird.x (bird g).
Proof.
  rewrite bird_update_bird. unfold bird_bounds. cbv zeta.
  set (b := bird_integrate cfg dt (bird g)).
  assert (Hx : Bird.x b = Bird.x (bird g)).
  { unfold b, bird_integrate. cbv zeta.
    cbn [Bird.x Bird.set_velocity Bird.set_y Bird.set_rotation Bird.set_wingFrame].
    reflexivity. }
  destruct (Qltb _ (Bird.y b + Bird.height b));
    match goal with
    | |- context [if ?c then _ else _] => destruct c
    end; cbn [Bird.x Bird.set_velocity Bird.set_y]; exact Hx.
Qed.

Lemma on_screen_tick dt birdx p :
  on_screen (Pipe_tick cfg dt birdx p) = true
  <-> 0 <= Pipe.x p - Pipe.speed p * normalizedDt cfg dt + Pipe.width p.
Proof.
  unfold on_screen. rewrite negb_true_iff, Qltb_ge.
  unfold Pipe_tick. cbv zeta.
  case_if E;
    cbn [Pipe.x Pipe.width Pipe.set_scored Pipe.set_x Pipe.set_highlightOffset
         Pipe_move];
    reflexivity.
Qed.

(** The loop over all the pipes. *)
Lemma pipesLoop_all g :
  pipes (pipesLoop cfg rnd (length (pipes g)) g)
  = List.filter on_screen
      (List.map (Pipe_tick cfg (deltaTime g) (Bird.x (bird g))) (pipes g)).
Proof.
  pose proof (pipesLoop_pipes cfg rnd (pipes g) [] g (eq_sym (app_nil_r _))) as HL.
  rewrite app_nil_r in HL. exact HL.
Qed.

(** The bird, the pipes and the particles of a frame, from any globals. *)
Lemma playing_body_pipes g1 :
  pipes (gameLoop_particles cfg
           (pipesLoop cfg rnd (length (pipes (bird_update cfg rnd (deltaTime g1) g1)))
              (bird_update cfg rnd (deltaTime g1) g1)))
  = List.filter on_screen
      (List.map (Pipe_tick cfg (deltaTime g1) (Bird.x (bird g1))) (pipes g1)).
Proof.
  destruct (bird_update_effect cfg rnd (deltaTime g1) g1)
    as ((_ & _ & _ & D2 & _) & P2).
  pose proof (bird_update_x (deltaTime g1) g1) as X2.
  generalize dependent (bird_update cfg rnd (deltaTime g1) g1). intros g2 D2 P2 X2.
  destruct (gameLoop_particles_footprint cfg (pipesLoop cfg rnd (length (pipes g2)) g2))
    as (ps & ->).
  cbn [pipes set_particles]. rewrite pipesLoop_all, D2, X2, P2. reflexivity.
Qed.

(** The pipes after a frame in the [PLAYING] state. *)
Lemma gameLoop_pipes t g :
  gameState g = PLAYING ->
  exists new,
    (new = [] \/ exists p, new = [p] /\ Pipe.x p = canvas_width cfg
                           /\ Pipe.scored p = false)
    /\ pipes (gameLoop cfg rnd t g)
       = List.filter on_screen
           (List.map (Pipe_tick cfg (Math_min (t - lastFrameTime g) 100)
                        (Bird.x (bird g)))
              (pipes g ++ new)).
Proof.
  intros Hs. rewrite (gameLoop_playing cfg rnd t g Hs). cbv zeta.
  rewrite playing_body_pipes.
  destruct (gameLoop_spawn_fields cfg rnd t g)
    as (_ & _ & _ & _ & _ & _ & B1 & _ & _ & D1 & _ & _ & new & P1 & Hnew).
  exists new. split; [exact Hnew|]. rewrite D1, B1, P1. reflexivity.
Qed.

(** The score over the pass: one point for each pipe that is counted. *)
Lemma Pipe_update_score dt p g :
  score (snd (Pipe_update cfg rnd dt p g))
  = (score g + if newly_passed cfg dt (Bird.x (bird g)) p then 1 else 0)%Z.
Proof.
  unfold Pipe_update, Pipe_passed, newly_passed. cbv zeta.
  change (Pipe.scored (Pipe_move cfg dt p)) with (Pipe.scored p).
  case_if E; cbn [snd]; [|lia].
  match goal with
  | |- context [emit rnd ?n ?x ?y ?c ?gg] =>
      destruct (emit_footprint rnd n x y c gg) as (ps & d & -> & _)
  end.
  destruct (updateDifficulty_effect cfg (set_score (score g + 1)%Z g)) as (_ & _ & _ & Hs).
  cbn [score set_particles set_draws]. rewrite Hs. reflexivity.
Qed.

Lemma Pipe_collidesWith_score p b g :
  score (snd (Pipe_collidesWith cfg rnd p b g)) = score g.
Proof.
  unfold Pipe_collidesWith. cbv zeta.
  destruct (Qltb _ _ && Qltb _ _); [|reflexivity].
  destruct (Qltb _ _ || Qltb _ _); [|reflexivity].
  cbn [snd].
  match goal with
  | |- context [emit rnd ?n ?x ?y ?c ?gg] =>
      destruct (emit_footprint rnd n x y c gg) as (ps & d & -> & _)
  end.
  reflexivity.
Qed.

Lemma gameOver_score g : score (gameOver g) = score g.
Proof. unfold gameOver. cbv zeta. case_if E; reflexivity. Qed.

Lemma pipesLoop_body_score i g pipe :
  pipes g !! i = Some pipe ->
  score (pipesLoop_body cfg rnd i g)
  = (score g + if newly_passed cfg (deltaTime g) (Bird.x (bird g)) pipe then 1 else 0)%Z.
Proof.
  intros Hi. rewrite (pipesLoop_body_Some cfg rnd i g pipe Hi).
  rewrite <- Pipe_update_score.
  set (p1 := Pipe_tick cfg (deltaTime g) (Bird.x (bird g)) pipe).
  set (g1 := snd (Pipe_update cfg rnd (deltaTime g) pipe g)).
  set (g2 := set_pipes (<[i := p1]> (pipes g1)) g1).
  assert (S3 : score (snd (Pipe_collidesWith cfg rnd p1 (bird g2) g2)) = score g1)
    by (rewrite Pipe_collidesWith_score; reflexivity).
  set (g3 := snd (Pipe_collidesWith cfg rnd p1 (bird g2) g2)) in *.
  assert (S4 : score (if fst (Pipe_collidesWith cfg rnd p1 (bird g2) g2)
                      then gameOver g3 else g3) = score g1).
  { destruct (fst (Pipe_collidesWith cfg rnd p1 (bird g2) g2));
      [rewrite gameOver_score|]; exact S3. }
  destruct (on_screen p1); [exact S4|]. cbn [score set_pipes]. exact S4.
Qed.

Lemma pipesLoop_score pre suf g :
  pipes g = pre ++ suf ->
  score (pipesLoop cfg rnd (length pre) g)
  = (score g
     + Z.of_nat (length (List.filter
                           (newly_passed cfg (deltaTime g) (Bird.x (bird g))) pre)))%Z.
Proof.
  revert suf g. induction pre as [|pipe pre IH] using rev_ind; intros suf g Hp.
  - cbn. lia.
  - rewrite length_app, Nat.add_comm. cbn [length Nat.add pipesLoop].
    rewrite <- app_assoc in Hp. cbn [app] in Hp.
    pose proof (pipesLoop_body_pipes cfg rnd pre pipe suf g Hp) as Hb. cbv zeta in Hb.
    assert (Hi : pipes g !! length pre = Some pipe).
    { rewrite Hp. now apply list_lookup_middle. }
    pose proof (pipesLoop_body_score (length pre) g pipe Hi) as Hs.
    destruct (pipesLoop_body_effect cfg rnd (length pre) g)
      as ((_ & _ & _ & Hd & _) & Hbird).
    rewrite (IH _ _ Hb), Hd, Hbird, Hs.
    rewrite List.filter_app, length_app. cbn [List.filter].
    destruct (newly_passed cfg (deltaTime g) (Bird.x (bird g)) pipe); cbn [length]; lia.
Qed.

Lemma bird_update_score dt g : score (bird_update cfg rnd dt g) = score g.
Proof.
  unfold bird_update. cbv zeta.
  set (b := bird_integrate cfg dt (bird g)).
  match goal with
  | |- score (if Qltb (Bird.y (bird ?gg)) 0 then _ else _) = _ =>
      assert (H : score gg = score g); [|destruct (Qltb (Bird.y (bird gg)) 0); exact H]
  end.
  destruct (Qltb _ (Bird.y b + Bird.height b)); [|reflexivity].
  cbn [gameState set_bird].
  destruct (GameState_eqb (gameState g) PLAYING); [|reflexivity].
  rewrite gameOver_score.
  match goal with
  | |- context [emit rnd ?n ?x ?y ?c ?gg] =>
      destruct (emit_footprint rnd n x y c gg) as (ps & d & -> & _)
  end.
  reflexivity.
Qed.

(** The score after a frame in the [PLAYING] state. *)
Lemma gameLoop_score t g :
  gameState g = PLAYING ->
  exists new,
    (new = [] \/ exists p, new = [p] /\ Pipe.x p = canvas_width cfg
                           /\ Pipe.scored p = false)
    /\ score (gameLoop cfg rnd t g)
       = (score g
          + Z.of_nat
              (length
                 (List.filter
                    (newly_passed cfg (Math_min (t - lastFrameTime g) 100)
                       (Bird.x (bird g)))
                    (pipes g ++ new))))%Z
    /\ pipes (gameLoop cfg rnd t g)
       = List.filter on_screen
           (List.map (Pipe_tick cfg (Math_min (t - lastFrameTime g) 100)
                        (Bird.x (bird g)))
              (pipes g ++ new)).
Proof.
  intros Hs. rewrite (gameLoop_playing cfg rnd t g Hs). cbv zeta.
  destruct (gameLoop_spawn_fields cfg rnd t g)
    as (_ & S1 & _ & _ & _ & _ & B1 & _ & _ & D1 & _ & _ & new & P1 & Hnew).
  generalize dependent
    (gameLoop_spawn cfg rnd (gameLoop_background cfg rnd (gameLoop_clock t g))).
  intros g1 S1 B1 D1 P1.
  destruct (bird_update_effect cfg rnd (deltaTime g1) g1)
    as ((_ & _ & _ & D2 & _) & P2).
  pose proof (bird_update_x (deltaTime g1) g1) as X2.
  pose proof (bird_update_score (deltaTime g1) g1) as S2.
  generalize dependent (bird_update cfg rnd (deltaTime g1) g1). intros g2 D2 P2 X2 S2.
  destruct (gameLoop_particles_footprint cfg (pipesLoop cfg rnd (length (pipes g2)) g2))
    as (ps & ->).
  cbn [score pipes set_particles].
  pose proof (pipesLoop_score (pipes g2) [] g2 (eq_sym (app_nil_r _))) as HL.
  exists new. split; [exact Hnew|]. split.
  - rewrite HL, S2, S1, D2, D1, X2, B1, P2, P1. reflexivity.
  - rewrite pipesLoop_all, D2, D1, X2, B1, P2, P1. reflexivity.
Qed.

End EnhancedCleanup.

(** ** Scoring *)

Section Latch.

Variable G : Type.
Variable update : Q -> Pipe.t -> G -> Pipe.t * G.
Variable score : G -> Z.
Variable birdx : G -> Q.

(** What one call of [pipe.update] does to the flag and to the score. *)
Hypothesis update_scored :
  forall dt p g,
    Pipe.scored p = true ->
    Pipe.scored (fst (update dt p g)) = true
    /\ score (snd (update dt p g)) = score g.
Hypothesis update_unscored :
  forall dt p g,
    Pipe.scored p = false ->
    let p' := fst (update dt p g) in
    (Pipe.x p' + Pipe.width p' < birdx g ->
     Pipe.scored p' = true /\ score (snd (update dt p g)) = (score g + 1)%Z)
    /\ (~ Pipe.x p' + Pipe.width p' < birdx g ->
        Pipe.scored p' = false /\ score (snd (update dt p g)) = score g).

Abbreviation trace := (lifetime G update score).
Abbreviation passed := (passed_at G birdx).

Lemma passed_at_0 dt g ticks p inc tr :
  passed ((dt, g) :: ticks) ((p, inc) :: tr) 0
  <-> Pipe.x p + Pipe.width p < birdx g.
Proof.
  unfold passed_at. cbn. split.
  - intros (dt' & g' & p' & inc' & [= <- <-] & [= <- <-] & H). exact H.
  - intros H. exists dt, g, p, inc. auto.
Qed.

Lemma passed_at_S t ticks e tr j :
  passed (t :: ticks) (e :: tr) (S j) <-> passed ticks tr j.
Proof. reflexivity. Qed.

Lemma lifetime_scored ticks p k pk inc :
  Pipe.scored p = true ->
  trace ticks p !! k = Some (pk, inc) ->
  Pipe.scored pk = true /\ inc = 0%Z.
Proof using update_scored.
  revert p k. induction ticks as [|[dt g] ticks IH]; intros p k Hp Hk.
  - discriminate.
  - destruct (update_scored dt p g Hp) as (Hs & Hsc).
    destruct k as [|k]; cbn in Hk.
    + injection Hk as <- <-. split; [assumption | lia].
    + eapply IH; eassumption.
Qed.

Lemma lifetime_latches ticks p :
  Pipe.scored p = false -> latches_once G birdx ticks (trace ticks p).
Proof using update_scored update_unscored.
  revert p. induction ticks as [|[dt g] ticks IH]; intros p Hp k pk inc Hk.
  - discriminate.
  - cbn [lifetime] in *.
    destruct (update_unscored dt p g Hp) as (Hyes & Hno). cbv zeta in Hyes, Hno.
    remember (update dt p g) as u eqn:Eu. destruct u as [p' g']. clear Eu.
    cbn [fst snd] in *.
    remember (score g' - score g)%Z as inc0 eqn:Einc0.
    pose proof (passed_at_0 dt g ticks p' inc0 (trace ticks p')) as H0.
    destruct (Qlt_le_dec (Pipe.x p' + Pipe.width p') (birdx g)) as [Hpass | Hnot].
    + destruct (Hyes Hpass) as (Hs' & Hsc).
      assert (Hinc0 : inc0 = 1%Z) by lia.
      destruct k as [|k]; cbn in Hk.
      * injection Hk as <- <-. split; [|split].
        -- split; [intros _; exists 0%nat; split; [lia | now apply H0] | auto].
        -- split; [|auto]. intros _. split; [now apply H0 | intros j Hj; lia].
        -- now right.
      * destruct (lifetime_scored ticks p' k pk inc Hs' Hk) as (Hpk & ->).
        split; [|split].
        -- split; [intros _; exists 0%nat; split; [lia | now apply H0] | auto].
        -- split; [discriminate|]. intros (_ & Hnone). exfalso.
           apply (Hnone 0%nat); [lia | now apply H0].
        -- now left.
    + apply Qle_not_lt in Hnot. destruct (Hno Hnot) as (Hs' & Hsc).
      assert (Hinc0 : inc0 = 0%Z) by lia.
      assert (Hno0 : ~ passed ((dt, g) :: ticks) ((p', inc0) :: trace ticks p') 0)
        by (rewrite H0; assumption).
      destruct k as [|k]; cbn in Hk.
      * injection Hk as <- <-. split; [|split].
        -- rewrite Hs'. split; [discriminate|].
           intros (j & Hj & Hpj). assert (j = 0%nat) by lia. subst j.
           destruct (Hno0 Hpj).
        -- split; [intros H1; rewrite Hinc0 in H1; discriminate
                  | intros (Hp0 & _); destruct (Hno0 Hp0)].
        -- now left.
      * destruct (IH p' Hs' k pk inc Hk) as (Hflag & Hone & Hrange).
        split; [|split].
        -- rewrite Hflag. split.
           ++ intros (j & Hj & Hpj). exists (S j). split; [lia | assumption].
           ++ intros ([|j] & Hj & Hpj); [destruct (Hno0 Hpj)|].
              exists j. split; [lia | assumption].
        -- rewrite Hone, passed_at_S. split.
           ++ intros (Hk' & Hbefore). split; [assumption|].
              intros [|j] Hj; [assumption|]. rewrite passed_at_S. apply Hbefore. lia.
           ++ intros (Hk' & Hbefore). split; [assumption|].
              intros j Hj. rewrite <- (passed_at_S (dt, g) ticks (p', inc0) (trace ticks p') j).
              apply Hbefore. lia.
        -- assumption.
Qed.

End Latch.

Lemma Enhanced_Pipe_update_scored cfg rnd dt p g :
  Pipe.scored p = true ->
  Pipe.scored (fst (Enhanced.Pipe_update cfg rnd dt p g)) = true
  /\ Enhanced.score (snd (Enhanced.Pipe_update cfg rnd dt p g)) = Enhanced.score g.
Proof.
  intros Hp. unfold Enhanced.Pipe_update, Enhanced.Pipe_passed. cbv zeta.
  change (Pipe.scored (Enhanced.Pipe_move cfg dt p)) with (Pipe.scored p).
  rewrite Hp. cbn. split; [exact Hp | reflexivity].
Qed.

Lemma Enhanced_Pipe_update_unscored cfg rnd dt p g :
  Pipe.scored p = false ->
  let p' := fst (Enhanced.Pipe_update cfg rnd dt p g) in
  (Pipe.x p' + Pipe.width p' < Bird.x (Enhanced.bird g) ->
   Pipe.scored p' = true
   /\ Enhanced.score (snd (Enhanced.Pipe_update cfg rnd dt p g))
      = (Enhanced.score g + 1)%Z)
  /\ (~ Pipe.x p' + Pipe.width p' < Bird.x (Enhanced.bird g) ->
      Pipe.scored p' = false
      /\ Enhanced.score (snd (Enhanced.Pipe_update cfg rnd dt p g)) = Enhanced.score g).
Proof.
  intros Hp. unfold Enhanced.Pipe_update, Enhanced.Pipe_passed. cbv zeta.
  change (Pipe.scored (Enhanced.Pipe_move cfg dt p)) with (Pipe.scored p).
  rewrite Hp. cbn [negb andb].
  destruct (Qltb_reflect
              (Pipe.x (Enhanced.Pipe_move cfg dt p) + Pipe.width (Enhanced.Pipe_move cfg dt p))
              (Bird.x (Enhanced.bird g))) as [Hlt | Hge]; cbn [fst snd].
  - split; [|intros H; contradiction]. intros _. split; [reflexivity|].
    match goal with
    | |- context [Enhanced.emit rnd ?n ?x ?y ?c ?gg] =>
        destruct (emit_footprint rnd n x y c gg) as (ps & d & -> & _)
    end.
    destruct (updateDifficulty_effect cfg
                (Enhanced.set_score (Enhanced.score g + 1)%Z g)) as (_ & _ & _ & Hs).
    cbn [Enhanced.score Enhanced.set_particles Enhanced.set_draws]. rewrite Hs.
    reflexivity.
  - split; [intros H; contradiction|]. intros _. split; [exact Hp | reflexivity].
Qed.

Lemma Legacy_Pipe_update_scored rnd (dt : Q) p g :
  Pipe.scored p = true ->
  Pipe.scored (fst (Legacy.Pipe_update rnd p g)) = true
  /\ Legacy.score (snd (Legacy.Pipe_update rnd p g)) = Legacy.score g.
Proof.
  intros Hp. unfold Legacy.Pipe_update, Legacy.Pipe_passed. cbv zeta.
  change (Pipe.scored (Legacy.Pipe_move p)) with (Pipe.scored p).
  rewrite Hp. cbn. split; [exact Hp | reflexivity].
Qed.

Lemma Legacy_Pipe_update_unscored rnd (dt : Q) p g :
  Pipe.scored p = false ->
  let p' := fst (Legacy.Pipe_update rnd p g) in
  (Pipe.x p' + Pipe.width p' < Bird.x (Legacy.bird g) ->
   Pipe.scored p' = true
   /\ Legacy.score (snd (Legacy.Pipe_update rnd p g)) = (Legacy.score g + 1)%Z)
  /\ (~ Pipe.x p' + Pipe.width p' < Bird.x (Legacy.bird g) ->
      Pipe.scored p' = false
      /\ Legacy.score (snd (Legacy.Pipe_update rnd p g)) = Legacy.score g).
Proof.
  intros Hp. unfold Legacy.Pipe_update, Legacy.Pipe_passed. cbv zeta.
  change (Pipe.scored (Legacy.Pipe_move p)) with (Pipe.scored p).
  rewrite Hp. cbn [negb andb].
  destruct (Qltb_reflect
              (Pipe.x (Legacy.Pipe_move p) + Pipe.width (Legacy.Pipe_move p))
              (Bird.x (Legacy.bird g))) as [Hlt | Hge]; cbn [fst snd].
  - split; [|intros H; contradiction]. intros _. split; [reflexivity|].
    match goal with
    | |- context [Legacy.emit rnd ?n ?x ?y ?c ?gg] =>
        destruct (Legacy_emit_footprint rnd n x y c gg) as (ps & d & -> & _)
    end.
    reflexivity.
  - split; [intros H; contradiction|]. intros _. split; [exact Hp | reflexivity].
Qed.

(** C3. A pipe is created with [scored = false]. Over the successive calls
    of [pipe.update] on it, the flag is set exactly from the first call in
    which its right edge [x + width] is strictly left of the x position of
    the bird; that call adds exactly 1 to the score, and no other call of
    [update] on this pipe changes the score (both scripts). A frame of the
    [PLAYING] state calls [update] once on every pipe, and the score grows
    by the number of pipes that are counted in this frame. *)
Theorem scored_flag_latches_once :
  (forall cfg rnd g, Pipe.scored (fst (Enhanced.new_Pipe cfg rnd g)) = false)
  /\ (forall cfg rnd ticks p,
        Pipe.scored p = false ->
        latches_once Enhanced.Game (fun g => Bird.x (Enhanced.bird g)) ticks
          (lifetime Enhanced.Game (Enhanced.Pipe_update cfg rnd) Enhanced.score ticks p))
  /\ (forall rnd g, Pipe.scored (fst (Legacy.new_Pipe rnd g)) = false)
  /\ (forall rnd ticks p,
        Pipe.scored p = false ->
        latches_once Legacy.Game (fun g => Bird.x (Legacy.bird g)) ticks
          (lifetime Legacy.Game (fun _ => Legacy.Pipe_update rnd) Legacy.score ticks p))
  /\ (forall cfg rnd t g,
        Enhanced.gameState g = PLAYING ->
        let dt := Math_min (t - Enhanced.lastFrameTime g) 100 in
        let birdx := Bird.x (Enhanced.bird g) in
        exists new,
          (new = [] \/ exists p, new = [p] /\ Pipe.x p = Enhanced.canvas_width cfg
                                 /\ Pipe.scored p = false)
          /\ Enhanced.score (Enhanced.gameLoop cfg rnd t g)
             = (Enhanced.score g
                + Z.of_nat
                    (length (List.filter (newly_passed cfg dt birdx)
                               (Enhanced.pipes g ++ new))))%Z
          /\ Enhanced.pipes (Enhanced.gameLoop cfg rnd t g)
             = List.filter on_screen
                 (List.map (Pipe_tick cfg dt birdx) (Enhanced.pipes g ++ new))).
Proof.
  split; [reflexivity|]. split; [|split; [reflexivity|split; [|exact gameLoop_score]]].
  - intros cfg rnd ticks p Hp. apply lifetime_latches; [| |exact Hp].
    + intros. now apply Enhanced_Pipe_update_scored.
    + intros. now apply Enhanced_Pipe_update_unscored.
  - intros rnd ticks p Hp. apply lifetime_latches; [| |exact Hp].
    + intros dt. intros. now apply (Legacy_Pipe_update_scored rnd dt).
    + intros dt. intros. now apply (Legacy_Pipe_update_unscored rnd dt).
Qed.

Lemma scored_flag_latches_once_witness :
  let ticks := [(50 # 3, game_started); (50 # 3, game_started);
                (50 # 3, game_started); (50 # 3, game_started)] in
  let tr := lifetime Enhanced.Game (Enhanced.Pipe_update Enhanced.CONFIG Math_random_half)
              Enhanced.score ticks pipe_near_bird in
  Pipe.scored pipe_near_bird = false
  /\ List.map (fun e => (Pipe.scored (fst e), snd e)) tr
     = [(false, 0%Z); (false, 0%Z); (true, 1%Z); (true, 0%Z)]
  /\ latches_once Enhanced.Game (fun g => Bird.x (Enhanced.bird g)) ticks tr.
Proof.
  cbv zeta. split; [reflexivity|]. split; [vm_compute; reflexivity|].
  exact (proj1 (proj2 scored_flag_latches_once) Enhanced.CONFIG Math_random_half
           _ pipe_near_bird eq_refl).
Defined.

(** C9, as the code has it. In a frame of the [PLAYING] state the pipes
    left after the pass are the pipes of before (and the one spawned in
    this frame, if any), each updated, without those whose right edge is
    now left of the screen ([x + width < 0] after the move), in the same
    order. A pipe is thus kept exactly when
    [x - speed * normalizedDelta + width >= 0]. *)
Theorem cleanup_drops_pipes_off_screen
  (cfg : Enhanced.Config) (rnd : nat -> Q) (t : Q) (g : Enhanced.Game) :
  Enhanced.gameState g = PLAYING ->
  let dt := Math_min (t - Enhanced.lastFrameTime g) 100 in
  let tick := Pipe_tick cfg dt (Bird.x (Enhanced.bird g)) in
  exists new,
    (new = [] \/ exists p, new = [p] /\ Pipe.x p = Enhanced.canvas_width cfg
                           /\ Pipe.scored p = false)
    /\ Enhanced.pipes (Enhanced.gameLoop cfg rnd t g)
       = List.filter on_screen (List.map tick (Enhanced.pipes g ++ new))
    /\ forall p,
         In p (Enhanced.pipes g ++ new) ->
         (In (tick p) (Enhanced.pipes (Enhanced.gameLoop cfg rnd t g))
          <-> 0 <= Pipe.x p - Pipe.speed p * Enhanced.normalizedDt cfg dt + Pipe.width p).
Proof.
  intros Hs dt tick.
  destruct (gameLoop_pipes cfg rnd t g Hs) as (new & Hnew & Hp).
  exists new. split; [exact Hnew|]. split; [exact Hp|].
  intros p Hin. fold dt in Hp. fold tick in Hp. rewrite Hp.
  rewrite List.filter_In.
  pose proof (on_screen_tick cfg dt (Bird.x (Enhanced.bird g)) p) as Ho.
  fold tick in Ho. split.
  - intros [_ H]. now apply Ho.
  - intros H. split; [now apply List.in_map | now apply Ho].
Qed.

(** C9 as stated fails: a pipe of width 60 at [x = -1] still reaches to
    [x + width = 59] and is not removed by the next frame, neither after a
    reference frame (it moves to -3.5) nor after the longest frame of 100
    ms (it moves to -16). The same in [src/game.js]. *)
Lemma pipe_at_minus_1_is_kept :
  (Enhanced.gameState game_pipe_at_minus_1 = PLAYING
   /\ Enhanced.pipes game_pipe_at_minus_1 = [pipe_at_minus_1]
   /\ List.map (fun p => Qred (Pipe.x p))
        (Enhanced.pipes
           (Enhanced.gameLoop Enhanced.CONFIG Math_random_half (50 # 3)
              game_pipe_at_minus_1)) = [-7 # 2]
   /\ List.map (fun p => Qred (Pipe.x p))
        (Enhanced.pipes
           (Enhanced.gameLoop Enhanced.CONFIG Math_random_half 100
              game_pipe_at_minus_1)) = [-16 # 1])
  /\ (Legacy.gameState legacy_pipe_at_minus_1 = PLAYING
      /\ List.map (fun p => Qred (Pipe.x p))
           (Legacy.pipes
              (Legacy.gameLoop Math_random_half StringToNumber_int
                 legacy_pipe_at_minus_1)) = [-7 # 2]).
Proof. vm_compute. repeat split; reflexivity. Qed.

Lemma cleanup_drops_pipes_off_screen_witness :
  Enhanced.gameState game_pipe_at_minus_61 = PLAYING
  /\ Enhanced.pipes
       (Enhanced.gameLoop Enhanced.CONFIG Math_random_half (50 # 3) game_pipe_at_minus_61)
     = []
  /\ exists new,
       Enhanced.pipes
         (Enhanced.gameLoop Enhanced.CONFIG Math_random_half (50 # 3)
            game_pipe_at_minus_61)
       = List.filter on_screen
           (List.map
              (Pipe_tick Enhanced.CONFIG
                 (Math_min ((50 # 3) - Enhanced.lastFrameTime game_pipe_at_minus_61) 100)
                 (Bird.x (Enhanced.bird game_pipe_at_minus_61)))
              (Enhanced.pipes game_pipe_at_minus_61 ++ new)).
Proof.
  assert (H : Enhanced.gameState game_pipe_at_minus_61 = PLAYING) by reflexivity.
  split; [exact H|]. split; [vm_compute; reflexivity|].
  destruct (cleanup_drops_pipes_off_screen Enhanced.CONFIG Math_random_half (50 # 3)
              game_pipe_at_minus_61 H) as (new & _ & Hp & _).
  exists new. exact Hp.
Defined.

(** ** The clock *)

Section EnhancedClock.

Import Enhanced.

Variable cfg : Config.
Variable rnd : nat -> Q.

Lemma gameLoop_clock_fields t g :
  lastFrameTime (gameLoop cfg rnd t g) = t
  /\ deltaTime (gameLoop cfg rnd t g) = Math_min (t - lastFrameTime g) 100.
Proof.
  destruct (GameState_eqb (gameState g) PLAYING) eqn:Hs.
  - assert (Hp : gameState g = PLAYING) by (destruct (gameState g); easy).
    destruct (gameLoop_playing_effect cfg rnd t g Hp) as (g3 & E & _ & ps & ->).
    destruct (gameLoop_spawn_fields cfg rnd t g)
      as (_ & _ & _ & _ & _ & _ & _ & _ & L1 & D1 & _).
    destruct E as (_ & _ & L3 & D3 & _).
    cbn [lastFrameTime deltaTime set_particles]. split; congruence.
  - assert (Hp : gameState g <> PLAYING) by (destruct (gameState g); easy).
    rewrite gameLoop_idle by assumption.
    destruct (gameLoop_head_footprint cfg rnd t g) as (cl & mo & d & ->).
    split; reflexivity.
Qed.

Lemma gameLoop_playing_fields t g :
  gameState g = PLAYING ->
  let dt := Math_min (t - lastFrameTime g) 100 in
  frame (gameLoop cfg rnd t g) = (frame g + 1)%Z
  /\ groundOffset (gameLoop cfg rnd t g)
     = groundOffset g + ground_scrollSpeed cfg * normalizedDt cfg dt
  /\ bird (gameLoop cfg rnd t g) = bird_bounds cfg (bird_integrate cfg dt (bird g)).
Proof.
  intros Hp dt.
  destruct (gameLoop_playing_effect cfg rnd t g Hp) as (g3 & E & B3 & ps & ->).
  destruct (gameLoop_spawn_fields cfg rnd t g)
    as (_ & _ & _ & _ & _ & _ & B1 & _ & _ & D1 & F1 & G1 & _).
  destruct E as (F3 & G3 & _).
  cbn [frame groundOffset bird set_particles].
  rewrite F3, G3, B3, bird_update_bird, F1, G1, B1, D1. repeat split; reflexivity.
Qed.

Lemma gameLoop_idle_fields t g :
  gameState g <> PLAYING ->
  frame (gameLoop cfg rnd t g) = frame g
  /\ groundOffset (gameLoop cfg rnd t g) = groundOffset g
  /\ bird (gameLoop cfg rnd t g) = bird g
  /\ pipes (gameLoop cfg rnd t g) = pipes g
  /\ particles (gameLoop cfg rnd t g) = particles g
  /\ score (gameLoop cfg rnd t g) = score g
  /\ gameState (gameLoop cfg rnd t g) = gameState g.
Proof.
  intros Hp. rewrite gameLoop_idle by assumption.
  destruct (gameLoop_head_footprint cfg rnd t g) as (cl & mo & d & ->).
  repeat split; reflexivity.
Qed.


End EnhancedClock.




(** ** The pass over the pipes in [src/game.js] *)

Section LegacyCleanup.

Variable rnd : nat -> Q.
Variable stn : string -> option Q.

Lemma Legacy_Pipe_update_fst p g :
  fst (Legacy.Pipe_update rnd p g) = Legacy_Pipe_tick (Bird.x (Legacy.bird g)) p.
Proof.
  unfold Legacy.Pipe_update, Legacy_Pipe_tick, Legacy.Pipe_passed. cbv zeta.
  case_if E; reflexivity.
Qed.

Lemma Legacy_Pipe_update_kept p g :
  Legacy.bird (snd (Legacy.Pipe_update rnd p g)) = Legacy.bird g
  /\ Legacy.pipes (snd (Legacy.Pipe_update rnd p g)) = Legacy.pipes g.
Proof.
  unfold Legacy.Pipe_update. cbv zeta. case_if E; cbn [snd].
  - match goal with
    | |- context [Legacy.emit rnd ?n ?x ?y ?c ?gg] =>
        destruct (Legacy_emit_footprint rnd n x y c gg) as (ps & d & -> & _)
    end.
    split; reflexivity.
  - split; reflexivity.
Qed.

Lemma Legacy_collidesWith_kept p b g :
  Legacy.bird (snd (Legacy.Pipe_collidesWith rnd p b g)) = Legacy.bird g
  /\ Legacy.pipes (snd (Legacy.Pipe_collidesWith rnd p b g)) = Legacy.pipes g.
Proof.
  unfold Legacy.Pipe_collidesWith. cbv zeta.
  destruct (Qltb _ _ && Qltb _ _); [|split; reflexivity].
  destruct (Qltb _ _ || Qltb _ _); [|split; reflexivity].
  cbn [snd].
  match goal with
  | |- context [Legacy.emit rnd ?n ?x ?y ?c ?gg] =>
      destruct (Legacy_emit_footprint rnd n x y c gg) as (ps & d & -> & _)
  end.
  split; reflexivity.
Qed.

(** One call of the callback, at the index of [pipe]. *)
Lemma Legacy_callback_pipes pre pipe suf g :
  Legacy.pipes g = pre ++ pipe :: suf ->
  let p1 := Legacy_Pipe_tick (Bird.x (Legacy.bird g)) pipe in
  Legacy.pipes (Legacy.pipes_callback rnd stn pipe (length pre) g)
  = pre ++ List.filter on_screen [p1] ++ suf
  /\ Legacy.bird (Legacy.pipes_callback rnd stn pipe (length pre) g) = Legacy.bird g.
Proof.
  intros Hp p1. unfold Legacy.pipes_callback.
  pose proof (Legacy_Pipe_update_fst pipe g) as Hf. fold p1 in Hf.
  destruct (Legacy_Pipe_update_kept pipe g) as (B1 & P1).
  destruct (Legacy.Pipe_update rnd pipe g) as [p' g1]. cbn [fst snd] in Hf, B1, P1.
  subst p'.
  set (g2 := Legacy.set_pipes (<[length pre := p1]> (Legacy.pipes g1)) g1).
  assert (P2 : Legacy.pipes g2 = pre ++ p1 :: suf).
  { unfold g2. cbn [Legacy.pipes Legacy.set_pipes]. rewrite P1, Hp.
    rewrite insert_app_r_alt by lia. now rewrite Nat.sub_diag. }
  assert (B2 : Legacy.bird g2 = Legacy.bird g) by exact B1.
  destruct (Legacy_collidesWith_kept p1 (Legacy.bird g2) g2) as (B3 & P3).
  destruct (Legacy.Pipe_collidesWith rnd p1 (Legacy.bird g2) g2) as [hit g3].
  cbn [snd] in B3, P3.
  assert (H4 : Legacy.pipes (if hit then Legacy.gameOver stn g3 else g3) = pre ++ p1 :: suf
               /\ Legacy.bird (if hit then Legacy.gameOver stn g3 else g3) = Legacy.bird g).
  { destruct hit; [|split; congruence].
    destruct (Legacy_gameOver_footprint stn g3) as (bs & ls & ->).
    cbn [Legacy.pipes Legacy.bird Legacy.set_localStorage Legacy.set_bestScore
         Legacy.set_gameState].
    split; congruence. }
  destruct H4 as (P4 & B4).
  cbn [List.filter]. unfold on_screen.
  destruct (Qltb (Pipe.x p1 + Pipe.width p1) 0); cbn [negb app].
  - cbn [Legacy.pipes Legacy.bird Legacy.set_pipes]. rewrite P4.
    split; [apply delete_middle | exact B4].
  - split; [exact P4 | exact B4].
Qed.

(** Past the end of the array [forEach] visits nothing. *)
Lemma Legacy_forEach_past_end todo k g :
  (length (Legacy.pipes g) <= k)%nat -> Legacy.pipes_forEach rnd stn todo k g = g.
Proof.
  revert k. induction todo as [|todo IH]; intros k Hk; [reflexivity|].
  cbn [Legacy.pipes_forEach]. rewrite (lookup_ge_None_2 _ _ Hk). apply IH. lia.
Qed.

(** [pipes.forEach] from index [length pre] on. *)
Lemma Legacy_forEach_pipes todo pre rest g :
  Legacy.pipes g = pre ++ rest ->
  (length rest <= todo)%nat ->
  Legacy.pipes (Legacy.pipes_forEach rnd stn todo (length pre) g)
  = pre ++ Legacy_pass (Bird.x (Legacy.bird g)) rest.
Proof.
  revert pre rest g. induction todo as [|todo IH]; intros pre rest g Hp Hlen.
  - destruct rest; [|cbn in Hlen; lia]. exact Hp.
  - cbn [Legacy.pipes_forEach]. destruct rest as [|pipe rest].
    + rewrite lookup_ge_None_2 by (rewrite Hp, length_app; cbn; lia).
      rewrite Legacy_forEach_past_end by (rewrite Hp, length_app; cbn; lia).
      exact Hp.
    + rewrite Hp, list_lookup_middle by reflexivity.
      destruct (Legacy_callback_pipes pre pipe rest g Hp) as (Hc & Hb).
      cbv zeta in Hc. cbn [Legacy_pass]. cbn [List.filter] in Hc.
      set (p1 := Legacy_Pipe_tick (Bird.x (Legacy.bird g)) pipe) in *.
      set (g' := Legacy.pipes_callback rnd stn pipe (length pre) g) in *.
      destruct (on_screen p1).
      * cbn [app] in Hc.
        replace (S (length pre)) with (length (pre ++ [p1]))
          by (rewrite length_app; cbn; lia).
        rewrite (IH (pre ++ [p1]) rest g').
        -- rewrite Hb, <- app_assoc. reflexivity.
        -- rewrite Hc, <- app_assoc. reflexivity.
        -- cbn in Hlen. lia.
      * cbn [app] in Hc. destruct rest as [|q rest].
        -- rewrite Legacy_forEach_past_end by (rewrite Hc, length_app; cbn; lia).
           exact Hc.
        -- replace (S (length pre)) with (length (pre ++ [q]))
             by (rewrite length_app; cbn; lia).
           rewrite (IH (pre ++ [q]) rest g').
           ++ rewrite Hb, <- app_assoc. reflexivity.
           ++ rewrite Hc, <- app_assoc. reflexivity.
           ++ cbn in Hlen. lia.
Qed.

(** The whole pass of [src/game.js]. *)
Lemma Legacy_forEach_all g :
  Legacy.pipes (Legacy.pipes_forEach rnd stn (length (Legacy.pipes g)) 0 g)
  = Legacy_pass (Bird.x (Legacy.bird g)) (Legacy.pipes g).
Proof. apply (Legacy_forEach_pipes _ [] (Legacy.pipes g) g); [reflexivity | lia]. Qed.

End LegacyCleanup.

(** In [src/game.js] the pipe that follows a removed pipe is neither moved
    nor tested in that frame: [pipe_near_bird] stays at [x = 25]. *)
Lemma Legacy_pass_skips_after_removal :
  Legacy.gameState legacy_two_pipes = PLAYING
  /\ List.map (fun p => Qred (Pipe.x p)) (Legacy.pipes legacy_two_pipes) = [-61 # 1; 25 # 1]
  /\ List.map (fun p => Qred (Pipe.x p))
       (Legacy.pipes (Legacy.gameLoop Math_random_half StringToNumber_int legacy_two_pipes))
     = [25 # 1].
Proof. vm_compute. repeat split. Qed.

(** * Further properties of the two scripts *)

(** ** Numbers and strings *)

(** [a % b] with a non-negative dividend and a positive divisor lies in
    [0, b). *)
Lemma JS_rem_range (a b : Q) : 0 <= a -> 0 < b -> 0 <= JS_rem a b /\ JS_rem a b < b.
Proof.
  intros Ha Hb. unfold JS_rem, Qtrunc.
  assert (Hq : 0 <= a / b).
  { unfold Qdiv. apply Qmult_le_0_compat; [exact Ha|].
    apply Qlt_le_weak, Qinv_lt_0_compat, Hb. }
  destruct (Qle_bool 0 (a / b)) eqn:E.
  2: { apply Qle_bool_iff in Hq. congruence. }
  pose proof (Qfloor_le (a / b)) as Hl.
  pose proof (Qlt_floor (a / b)) as Hu.
  rewrite inject_Z_plus in Hu. change (inject_Z 1) with 1 in Hu.
  set (k := inject_Z (Qfloor (a / b))) in *.
  assert (Hab : a == b * (a / b)) by (field; lra).
  split.
  - assert (b * k <= b * (a / b)) by (apply Qmult_le_l; assumption). lra.
  - assert (b * (a / b) < b * (k + 1)) by (apply Qmult_lt_l; assumption). lra.
Qed.

Lemma parseDigits_acc (d : Decimal.uint) (acc : positive) :
  parseDigits 10 (Some (Z.pos acc)) (NilEmpty.string_of_uint d)
  = Some (Z.pos (Pos.of_uint_acc d acc)).
Proof.
  revert acc.
  induction d; intros acc; cbn [NilEmpty.string_of_uint parseDigits Pos.of_uint_acc];
    [reflexivity|..];
    match goal with
    | |- context [digitValue 10 ?c] =>
        let v := eval vm_compute in (digitValue 10 c) in
        change (digitValue 10 c) with v
    end; cbv iota; rewrite <- IHd; do 2 f_equal; lia.
Qed.

Lemma parseDigits_zero (d : Decimal.uint) :
  parseDigits 10 (Some 0%Z) (NilEmpty.string_of_uint d)
  = Some (Z.of_N (Pos.of_uint d)).
Proof.
  induction d; cbn [NilEmpty.string_of_uint parseDigits Pos.of_uint];
    [reflexivity|..];
    match goal with
    | |- context [digitValue 10 ?c] =>
        let v := eval vm_compute in (digitValue 10 c) in
        change (digitValue 10 c) with v
    end; cbv iota;
    first [exact IHd | apply parseDigits_acc].
Qed.

Lemma parseDigits_uint (d : Decimal.uint) :
  d <> Decimal.Nil ->
  parseDigits 10 None (NilEmpty.string_of_uint d) = Some (Z.of_N (Pos.of_uint d)).
Proof.
  intros Hd. destruct d; [congruence|..];
    cbn [NilEmpty.string_of_uint parseDigits Pos.of_uint];
    match goal with
    | |- context [digitValue 10 ?c] =>
        let v := eval vm_compute in (digitValue 10 c) in
        change (digitValue 10 c) with v
    end; cbv iota;
    first [apply parseDigits_zero | apply parseDigits_acc].
Qed.

(** On a string of decimal digits [parseInt] takes no sign and no
    hexadecimal prefix. *)
Lemma parseInt_digits (d : Decimal.uint) :
  d <> Decimal.Nil ->
  parseInt (NilEmpty.string_of_uint d)
  = match parseDigits 10 None (NilEmpty.string_of_uint d) with
    | Some m => Some (1 * m)%Z
    | None => None
    end
  /\ parseInt (String "-" (NilEmpty.string_of_uint d))
     = match parseDigits 10 None (NilEmpty.string_of_uint d) with
       | Some m => Some (-1 * m)%Z
       | None => None
       end.
Proof.
  intros Hd. destruct d as [|d|d|d|d|d|d|d|d|d|d]; [congruence|..];
    try (split; reflexivity).
  destruct d; split; reflexivity.
Qed.

(** Reading back what [String(n)] printed. *)
Lemma parseInt_Number_toString (n : Z) : parseInt (Number_toString n) = Some n.
Proof.
  unfold Number_toString. destruct n as [|p|p].
  - reflexivity.
  - cbn [Z.to_int NilZero.string_of_int]. unfold NilZero.string_of_uint.
    pose proof (DecimalPos.Unsigned.to_uint_nonnil p) as Hn.
    pose proof (DecimalPos.Unsigned.of_to p) as Hv.
    destruct (Pos.to_uint p) eqn:E; [congruence|..];
      rewrite (proj1 (parseInt_digits _ Hn)), (parseDigits_uint _ Hn), Hv;
      reflexivity.
  - cbn [Z.to_int NilZero.string_of_int]. unfold NilZero.string_of_uint.
    pose proof (DecimalPos.Unsigned.to_uint_nonnil p) as Hn.
    pose proof (DecimalPos.Unsigned.of_to p) as Hv.
    destruct (Pos.to_uint p) eqn:E; [congruence|..];
      rewrite (proj2 (parseInt_digits _ Hn)), (parseDigits_uint _ Hn), Hv;
      reflexivity.
Qed.

Lemma initial_bestScore_Number_toString (n : Z) :
  Enhanced.initial_bestScore (Some (Number_toString n)) = n.
Proof.
  unfold Enhanced.initial_bestScore. cbn [ToString_item].
  rewrite parseInt_Number_toString.
  destruct (n =? 0)%Z eqn:E; [apply Z.eqb_eq in E; congruence | reflexivity].
Qed.

(** ** What a frame keeps *)

Section EnhancedKeeps.

Import Enhanced.

Variable cfg : Config.
Variable rnd : nat -> Q.

Lemma frame_keeps_refl g : frame_keeps cfg g g.
Proof.
  unfold frame_keeps. repeat split; try tauto.
  exists []. split; [now rewrite app_nil_r | constructor].
Qed.

Lemma frame_keeps_trans g1 g2 g3 :
  frame_keeps cfg g1 g2 -> frame_keeps cfg g2 g3 -> frame_keeps cfg g1 g3.
Proof.
  unfold frame_keeps.
  intros (C1 & M1 & H1 & (ps1 & P1 & F1) & S1 & D1)
         (C2 & M2 & H2 & (ps2 & P2 & F2) & S2 & D2).
  repeat split; try congruence; try tauto.
  exists (ps1 ++ ps2). split.
  - rewrite P2, P1, <- app_assoc. reflexivity.
  - apply Forall_app; split; assumption.
Qed.

Lemma new_Particle_fresh x y c g : fresh_particle (fst (new_Particle rnd x y c g)).
Proof. repeat split. Qed.

(** [emit] appends fresh particles and consumes random values. *)
Lemma emit_fresh n x y c g :
  exists ps d,
    emit rnd n x y c g = set_particles (particles g ++ ps) (set_draws d g)
    /\ length ps = n /\ Forall fresh_particle ps.
Proof.
  revert g. induction n as [|n IH]; intros g.
  - exists [], (draws g). split; [|split; [reflexivity | constructor]].
    destruct g. simpl. rewrite app_nil_r. reflexivity.
  - rewrite emit_S, new_Particle_draws.
    match goal with
    | |- context [emit rnd n x y c ?gg] =>
        destruct (IH gg) as (ps & d & Heq & Hl & Hf); rewrite Heq
    end.
    exists (fst (new_Particle rnd x y c g) :: ps), d.
    split; [|split; [simpl; now rewrite Hl|]].
    + cbn [particles set_particles set_draws]. rewrite <- app_assoc. reflexivity.
    + constructor; [apply new_Particle_fresh | exact Hf].
Qed.

Lemma emit_keeps n x y c g : frame_keeps cfg g (emit rnd n x y c g).
Proof.
  destruct (emit_fresh n x y c g) as (ps & d & -> & _ & Hf).
  unfold frame_keeps. repeat split; try (intros H; exact H).
  exists ps. split; [reflexivity | exact Hf].
Qed.

Lemma gameOver_keeps g : frame_keeps cfg g (gameOver g).
Proof.
  unfold gameOver, frame_keeps. cbv zeta.
  cbn [bestScore score set_gameState].
  destruct (bestScore g <? score g)%Z;
    (repeat split; try (intros H; exact H);
     try (exists []; split; [cbn; now rewrite app_nil_r | constructor])).
  intros _. unfold stored_bestScore_ok.
  cbn [localStorage bestScore set_localStorage set_bestScore set_gameState score].
  apply initial_bestScore_Number_toString.
Qed.

Lemma setter_keeps g g' :
  clouds g' = clouds g -> mountains g' = mountains g ->
  showHitboxes g' = showHitboxes g -> particles g' = particles g ->
  bestScore g' = bestScore g -> localStorage g' = localStorage g ->
  score g' = score g -> difficultyMultiplier g' = difficultyMultiplier g ->
  currentPipeGap g' = currentPipeGap g ->
  frame_keeps cfg g g'.
Proof.
  intros C M H P B L S D G. unfold frame_keeps, stored_bestScore_ok, difficulty_of_score.
  rewrite C, M, H, P, B, L, S, D, G. repeat split; try tauto.
  exists []. split; [now rewrite app_nil_r | constructor].
Qed.

Lemma Pipe_update_keeps dt p g :
  frame_keeps cfg g (snd (Pipe_update cfg rnd dt p g)).
Proof.
  unfold Pipe_update. cbv zeta.
  destruct (Pipe_passed (Pipe_move cfg dt p) g); cbn [snd]; [|apply frame_keeps_refl].
  match goal with
  | |- context [emit rnd ?n ?x ?y ?c ?gg] =>
      pose proof (emit_keeps n x y c gg) as H3; set (g3 := emit rnd n x y c gg) in *
  end.
  eapply frame_keeps_trans; [|exact H3].
  set (g1 := set_score (score g + 1)%Z g).
  unfold frame_keeps.
  destruct (difficulty_enabled cfg) eqn:E.
  - destruct (updateDifficulty_enabled cfg g1 E) as (Hm & Hg & Hs).
    unfold updateDifficulty. rewrite E. cbn [negb].
    repeat split; try (intros H; exact H).
    + exists []. split; [cbn; now rewrite app_nil_r | constructor].
    + intros _. unfold difficulty_of_score. rewrite E.
      cbn [difficultyMultiplier currentPipeGap score set_currentPipeGap
           set_difficultyMultiplier].
      split; reflexivity.
  - rewrite (updateDifficulty_disabled cfg g1 E).
    repeat split; try (intros H; exact H).
    + exists []. split; [cbn; now rewrite app_nil_r | constructor].
    + unfold difficulty_of_score. rewrite E. intros H; exact H.
Qed.

Lemma Pipe_collidesWith_keeps p b g :
  frame_keeps cfg g (snd (Pipe_collidesWith cfg rnd p b g)).
Proof.
  unfold Pipe_collidesWith. cbv zeta.
  destruct (Qltb _ _ && Qltb _ _); [|apply frame_keeps_refl].
  destruct (Qltb _ _ || Qltb _ _); [|apply frame_keeps_refl].
  cbn [snd]. apply emit_keeps.
Qed.

Lemma set_pipes_keeps v g : frame_keeps cfg g (set_pipes v g).
Proof. apply setter_keeps; reflexivity. Qed.

Lemma set_bird_keeps v g : frame_keeps cfg g (set_bird v g).
Proof. apply setter_keeps; reflexivity. Qed.

Lemma pipesLoop_body_keeps i g : frame_keeps cfg g (pipesLoop_body cfg rnd i g).
Proof.
  destruct (pipes g !! i) as [pipe|] eqn:Hi.
  - rewrite (pipesLoop_body_Some cfg rnd i g pipe Hi).
    set (p1 := Pipe_tick cfg (deltaTime g) (Bird.x (bird g)) pipe).
    pose proof (Pipe_update_keeps (deltaTime g) pipe g) as E1.
    set (g1 := snd (Pipe_update cfg rnd (deltaTime g) pipe g)) in *.
    pose proof (set_pipes_keeps (<[i := p1]> (pipes g1)) g1) as E2.
    set (g2 := set_pipes (<[i := p1]> (pipes g1)) g1) in *.
    pose proof (Pipe_collidesWith_keeps p1 (bird g2) g2) as E3.
    set (g3 := snd (Pipe_collidesWith cfg rnd p1 (bird g2) g2)) in *.
    pose proof (gameOver_keeps g3) as E4.
    assert (E123 : frame_keeps cfg g g3).
    { eapply frame_keeps_trans; [|exact E3].
      eapply frame_keeps_trans; [exact E1 | exact E2]. }
    set (g4 := if fst (Pipe_collidesWith cfg rnd p1 (bird g2) g2) then gameOver g3 else g3).
    assert (E1234 : frame_keeps cfg g g4).
    { unfold g4. destruct (fst (Pipe_collidesWith cfg rnd p1 (bird g2) g2)).
      - eapply frame_keeps_trans; eassumption.
      - assumption. }
    destruct (on_screen p1); [assumption|].
    eapply frame_keeps_trans; [exact E1234 | apply set_pipes_keeps].
  - unfold pipesLoop_body. rewrite Hi. apply frame_keeps_refl.
Qed.

Lemma pipesLoop_keeps n g : frame_keeps cfg g (pipesLoop cfg rnd n g).
Proof.
  revert g. induction n as [|i IH]; intros g.
  - apply frame_keeps_refl.
  - cbn [pipesLoop].
    eapply frame_keeps_trans; [apply pipesLoop_body_keeps | apply IH].
Qed.

Lemma bird_update_keeps dt g : frame_keeps cfg g (bird_update cfg rnd dt g).
Proof.
  unfold bird_update. cbv zeta.
  set (b := bird_integrate cfg dt (bird g)).
  pose proof (set_bird_keeps b g) as E0.
  set (g0 := set_bird b g) in *.
  match goal with
  | |- frame_keeps cfg g (if Qltb (Bird.y (bird ?gg)) 0 then _ else _) =>
      assert (H : frame_keeps cfg g gg); [|set (g1 := gg) in *]
  end.
  { case_if Eg; [|assumption].
    match goal with
    | |- context [set_bird ?v g0] =>
        pose proof (set_bird_keeps v g0) as E1; set (ga := set_bird v g0) in *
    end.
    case_if Ep.
    - match goal with
      | |- context [emit rnd ?n ?x ?y ?c ga] =>
          pose proof (emit_keeps n x y c ga) as E2;
          set (gb := emit rnd n x y c ga) in *
      end.
      pose proof (gameOver_keeps gb) as E3.
      exact (frame_keeps_trans _ _ _
               (frame_keeps_trans _ _ _ (frame_keeps_trans _ _ _ E0 E1) E2) E3).
    - exact (frame_keeps_trans _ _ _ E0 E1). }
  case_if Ec; [|assumption].
  eapply frame_keeps_trans; [exact H | apply set_bird_keeps].
Qed.

End EnhancedKeeps.

(** ** One frame, field by field *)

Section EnhancedFrame.

Import Enhanced.

Variable cfg : Config.
Variable rnd : nat -> Q.

(** The particles that go through the particle block of a frame: when more
    than 200 are alive, the 100 most recent ones. *)
Lemma gameLoop_particles_particles g :
  particles (gameLoop_particles cfg g)
  = particles_filter cfg (deltaTime g)
      (if (200 <? length (particles g))%nat then slice_last100 (particles g)
       else particles g).
Proof.
  unfold gameLoop_particles. cbv zeta.
  destruct (200 <? length (particles g))%nat; reflexivity.
Qed.

Lemma clouds_forEach_clouds dt todo done g :
  exists new,
    clouds (clouds_forEach cfg rnd dt todo done g) = done ++ new
    /\ Forall2 (fun c c' => exists g0, c' = fst (Cloud_update cfg rnd dt c g0)) todo new.
Proof.
  revert done g. induction todo as [|c todo IH]; intros done g.
  - exists []. split; [cbn; now rewrite app_nil_r | constructor].
  - cbn [clouds_forEach].
    destruct (Cloud_update cfg rnd dt c g) as [c1 g1] eqn:E.
    destruct (IH (done ++ [c1]) g1) as (new & Hc & Hf).
    exists (c1 :: new). split.
    + rewrite Hc, <- app_assoc. reflexivity.
    + constructor; [|exact Hf]. exists g. now rewrite E.
Qed.

(** The background after the first two blocks of [gameLoop]. *)
Lemma gameLoop_background_fields t g :
  let dt := Math_min (t - lastFrameTime g) 100 in
  let g0 := gameLoop_background cfg rnd (gameLoop_clock t g) in
  mountains g0 = List.map (Mountain_update cfg dt) (mountains g)
  /\ Forall2 (fun c c' => exists h, c' = fst (Cloud_update cfg rnd dt c h))
       (clouds g) (clouds g0)
  /\ particles g0 = particles g
  /\ showHitboxes g0 = showHitboxes g.
Proof.
  cbv zeta. unfold gameLoop_background. cbv zeta.
  set (gc := gameLoop_clock t g).
  assert (Hd : deltaTime gc = Math_min (t - lastFrameTime g) 100) by reflexivity.
  destruct (clouds_forEach_clouds (deltaTime gc) (clouds gc) [] gc) as (new & Hc & Hf).
  destruct (clouds_forEach_footprint cfg rnd (deltaTime gc) (clouds gc) [] gc)
    as (cl & d & Heq).
  rewrite Heq in Hc |- *.
  cbn [mountains clouds particles showHitboxes deltaTime set_mountains set_clouds set_draws]
    in Hc |- *.
  rewrite Hd. repeat split; try reflexivity.
  rewrite Hc. exact Hf.
Qed.

(** The spawn block leaves the particles, the background and the debug
    switch alone. *)
Lemma gameLoop_spawn_kept g :
  let g1 := gameLoop_spawn cfg rnd g in
  particles g1 = particles g /\ clouds g1 = clouds g /\ mountains g1 = mountains g
  /\ showHitboxes g1 = showHitboxes g.
Proof.
  cbv zeta. destruct (gameLoop_spawn_footprint cfg rnd g) as (new & d & -> & _).
  repeat split.
Qed.

(** The particle block touches the particles only. *)
Lemma gameLoop_particles_kept g :
  let g' := gameLoop_particles cfg g in
  clouds g' = clouds g /\ mountains g' = mountains g
  /\ showHitboxes g' = showHitboxes g /\ bestScore g' = bestScore g
  /\ localStorage g' = localStorage g /\ score g' = score g
  /\ difficultyMultiplier g' = difficultyMultiplier g
  /\ currentPipeGap g' = currentPipeGap g /\ gameState g' = gameState g
  /\ frame g' = frame g /\ pipes g' = pipes g /\ bird g' = bird g.
Proof.
  cbv zeta. destruct (gameLoop_particles_footprint cfg g) as (ps & ->).
  repeat split.
Qed.

(** A frame in the [PLAYING] state, seen from the state [g1] that follows
    the spawn block and the state [g3] that precedes the particle block. *)
Lemma gameLoop_playing_keeps t g :
  gameState g = PLAYING ->
  let g1 := gameLoop_spawn cfg rnd (gameLoop_background cfg rnd (gameLoop_clock t g)) in
  exists g3,
    frame_effect cfg g1 g3 /\ frame_keeps cfg g1 g3
    /\ gameLoop cfg rnd t g = gameLoop_particles cfg g3.
Proof.
  intros Hs g1. rewrite (gameLoop_playing cfg rnd t g Hs). fold g1.
  set (g2 := bird_update cfg rnd (deltaTime g1) g1).
  exists (pipesLoop cfg rnd (length (pipes g2)) g2).
  destruct (bird_update_effect cfg rnd (deltaTime g1) g1) as (E1 & _).
  destruct (pipesLoop_effect cfg rnd (length (pipes g2)) g2) as (E2 & _).
  split; [|split; [|reflexivity]].
  - eapply frame_effect_trans; [exact E1 | exact E2].
  - eapply frame_keeps_trans; [apply bird_update_keeps | apply pipesLoop_keeps].
Qed.

(** The particles after a frame in the [PLAYING] state. *)
Lemma gameLoop_playing_particles t g :
  gameState g = PLAYING ->
  let dt := Math_min (t - lastFrameTime g) 100 in
  exists ps,
    Forall fresh_particle ps
    /\ particles (gameLoop cfg rnd t g)
       = particles_filter cfg dt
           (if (200 <? length (particles g ++ ps))%nat
            then slice_last100 (particles g ++ ps)
            else particles g ++ ps).
Proof.
  intros Hs dt.
  destruct (gameLoop_playing_keeps t g Hs)
    as (g3 & (_ & _ & _ & D3 & _) & (_ & _ & _ & (ps & P3 & F3) & _) & ->).
  destruct (gameLoop_spawn_fields cfg rnd t g)
    as (_ & _ & _ & _ & _ & _ & _ & _ & _ & D1 & _).
  destruct (gameLoop_spawn_kept (gameLoop_background cfg rnd (gameLoop_clock t g)))
    as (P1 & _).
  destruct (gameLoop_background_fields t g) as (_ & _ & P0 & _).
  exists ps. split; [exact F3|].
  rewrite gameLoop_particles_particles, P3, P1, P0, D3, D1. reflexivity.
Qed.

(** The two invariants of the globals through a frame. *)
Lemma gameLoop_keeps_invariants t g :
  (stored_bestScore_ok g -> stored_bestScore_ok (gameLoop cfg rnd t g))
  /\ (difficulty_of_score cfg g -> difficulty_of_score cfg (gameLoop cfg rnd t g))
  /\ (score g <= score (gameLoop cfg rnd t g))%Z.
Proof.
  destruct (GameState_eqb (gameState g) PLAYING) eqn:E.
  - assert (Hs : gameState g = PLAYING) by (destruct (gameState g); now try discriminate).
    destruct (gameLoop_playing_keeps t g Hs)
      as (g3 & (_ & _ & _ & _ & _ & S3 & _) & (_ & _ & _ & _ & B3 & D3) & ->).
    destruct (gameLoop_particles_kept g3)
      as (_ & _ & _ & B4 & L4 & S4 & M4 & G4 & _).
    destruct (gameLoop_spawn_fields cfg rnd t g)
      as (_ & S1 & B1 & L1 & M1 & G1 & _).
    unfold stored_bestScore_ok, difficulty_of_score in *.
    rewrite B4, L4, S4, M4, G4. rewrite L1, B1 in B3. rewrite S1, M1, G1 in D3.
    rewrite S1 in S3. repeat split; assumption.
  - assert (Hs : gameState g <> PLAYING) by (intros Hs; rewrite Hs in E; discriminate).
    rewrite (gameLoop_idle cfg rnd t g Hs).
    destruct (gameLoop_head_footprint cfg rnd t g) as (cl & mo & d & ->).
    unfold stored_bestScore_ok, difficulty_of_score. cbn. repeat split; try tauto. lia.
Qed.

End EnhancedFrame.

(** ** Invariants of the reachable states *)

Section EnhancedReachable.

Import Enhanced.

Variable cfg : Config.
Variable rnd : nat -> Q.
Variable stored : option string.
Variable t0 : Q.

(** A property of the initial globals that every frame, every accepted
    input and every key keeps holds in every reachable state. *)
Lemma reachable_invariant (P : Game -> Prop) :
  P (initialGame cfg rnd stored t0) ->
  (forall g t,
     reachable cfg rnd stored t0 g -> P g -> lastFrameTime g <= t ->
     P (gameLoop cfg rnd t g)) ->
  (forall g now, P g -> P (set_lastJumpTime now g)) ->
  (forall g, P g -> P (startGame cfg g)) ->
  (forall g, P g -> P (bird_jump rnd g)) ->
  (forall g now, P g -> P (pauseGame now g)) ->
  (forall g v, P g -> P (set_showHitboxes v g)) ->
  forall g, reachable cfg rnd stored t0 g -> P g.
Proof.
  intros Hinit Hframe Hlast Hstart Hjump Hpause Hdebug g Hr.
  induction Hr as [|g t Hr IH Ht|g now Hr IH|g now Hr IH|g Hr IH].
  - exact Hinit.
  - cbn [handle]. apply Hframe; assumption.
  - cbn [handle]. unfold handleJump.
    destruct (Qltb (now - lastJumpTime g) jumpCooldown); [exact IH|].
    cbv zeta. cbn [gameState set_lastJumpTime].
    destruct (gameState g).
    + apply Hjump, Hstart, Hlast, IH.
    + apply Hjump, Hlast, IH.
    + apply Hlast, IH.
    + apply Hstart, Hlast, IH.
  - cbn [handle]. destruct (gameState g); try exact IH; apply Hpause, IH.
  - cbn [handle]. apply Hdebug, IH.
Qed.

Lemma reachable_stored_bestScore_ok g :
  reachable cfg rnd stored t0 g -> stored_bestScore_ok g.
Proof.
  apply reachable_invariant.
  - destruct (initialGame_footprint cfg rnd stored t0) as (cl & d & ->). reflexivity.
  - intros h t _ Hh _. now apply gameLoop_keeps_invariants.
  - intros h now Hh. exact Hh.
  - intros h Hh. unfold stored_bestScore_ok.
    destruct (startGame_kept cfg h) as (-> & -> & _). exact Hh.
  - intros h Hh. unfold stored_bestScore_ok.
    destruct (bird_jump_kept rnd h) as (-> & -> & _). exact Hh.
  - intros h now Hh. unfold pauseGame. destruct (gameState h); exact Hh.
  - intros h v Hh. exact Hh.
Qed.

Hypothesis max_ge_1 : 1 <= difficulty_maxSpeedMultiplier cfg.
Hypothesis minGap_le_gap : difficulty_minGap cfg <= pipe_gap cfg.

Lemma difficulty_of_score_reset g :
  score g = 0%Z -> difficultyMultiplier g = 1 -> currentPipeGap g = pipe_gap cfg ->
  difficulty_of_score cfg g.
Proof.
  intros Hs Hm Hg. unfold difficulty_of_score. rewrite Hs, Hm, Hg.
  destruct (difficulty_enabled cfg); [|split; reflexivity].
  change (inject_Z 0) with 0. split.
  - rewrite Q.min_l; lra.
  - rewrite Q.max_l; lra.
Qed.

Lemma reachable_difficulty_of_score g :
  reachable cfg rnd stored t0 g -> (0 <= score g)%Z /\ difficulty_of_score cfg g.
Proof.
  apply (reachable_invariant (fun g => (0 <= score g)%Z /\ difficulty_of_score cfg g)).
  - destruct (initialGame_footprint cfg rnd stored t0) as (cl & d & ->).
    split; [cbn; lia | apply difficulty_of_score_reset; reflexivity].
  - intros h t _ (Hs & Hd) _.
    destruct (gameLoop_keeps_invariants cfg rnd t h) as (_ & D & S).
    split; [lia | now apply D].
  - intros h now Hh. exact Hh.
  - intros h _. destruct (startGame_fields cfg h) as (_ & Hs & _ & _ & _ & Hm & Hg & _).
    split; [rewrite Hs; lia | now apply difficulty_of_score_reset].
  - intros h (Hs & Hd).
    destruct (bird_jump_fields rnd h)
      as (_ & _ & _ & _ & _ & _ & S & _ & _ & M & G & _).
    unfold difficulty_of_score in *. rewrite S, M, G. split; assumption.
  - intros h now Hh. unfold pauseGame. destruct (gameState h); exact Hh.
  - intros h v Hh. exact Hh.
Qed.

End EnhancedReachable.

(** X1. The best score survives a reload of the page: in every reachable
    state of [src/unnamed/part_000], evaluating the start-up expression
    [parseInt(localStorage.getItem('bestScore')) || 0] on the stored value
    gives the best score held in memory. *)
Theorem bestScore_survives_reload
  (cfg : Enhanced.Config) (rnd : nat -> Q) (stored : option string) (t0 : Q)
  (g : Enhanced.Game) :
  Enhanced.reachable cfg rnd stored t0 g ->
  Enhanced.initial_bestScore (Enhanced.localStorage g) = Enhanced.bestScore g.
Proof. apply reachable_stored_bestScore_ok. Qed.

Lemma bestScore_survives_reload_witness :
  Enhanced.reachable Enhanced.CONFIG Math_random_half (Some "7"%string) 0
    game_started_best_7
  /\ Enhanced.initial_bestScore (Enhanced.localStorage game_started_best_7) = 7%Z.
Proof.
  split.
  - exact (Enhanced.reachable_jump _ _ _ _ _ 1000 (Enhanced.reachable_init _ _ _ _)).
  - exact (bestScore_survives_reload Enhanced.CONFIG Math_random_half (Some "7"%string) 0
             game_started_best_7
             (Enhanced.reachable_jump _ _ _ _ _ 1000 (Enhanced.reachable_init _ _ _ _))).
Defined.

Lemma difficulty_of_score_bounds (cfg : Enhanced.Config) (g : Enhanced.Game) :
  0 <= Enhanced.difficulty_speedIncreasePerScore cfg ->
  0 <= Enhanced.difficulty_gapDecreasePerScore cfg ->
  1 <= Enhanced.difficulty_maxSpeedMultiplier cfg ->
  Enhanced.difficulty_minGap cfg <= Enhanced.pipe_gap cfg ->
  (0 <= Enhanced.score g)%Z -> difficulty_of_score cfg g ->
  (1 <= Enhanced.difficultyMultiplier g
   /\ Enhanced.difficultyMultiplier g <= Enhanced.difficulty_maxSpeedMultiplier cfg)
  /\ (Enhanced.difficulty_minGap cfg <= Enhanced.currentPipeGap g
      /\ Enhanced.currentPipeGap g <= Enhanced.pipe_gap cfg).
Proof.
  intros Hinc Hdec Hmax Hmin Hs Hd.
  assert (Hq : 0 <= inject_Z (Enhanced.score g)).
  { change 0 with (inject_Z 0). now rewrite <- Zle_Qle. }
  unfold difficulty_of_score in Hd.
  destruct (Enhanced.difficulty_enabled cfg); destruct Hd as (Hm & Hg); rewrite Hm, Hg.
  - repeat split.
    + apply Q.min_glb; [nra | assumption].
    + apply Q.le_min_r.
    + apply Q.le_max_r.
    + apply Q.max_lub; [nra | assumption].
  - repeat split; try assumption; apply Qle_refl.
Qed.

(** X2. The difficulty always is the one of the current score: in every
    reachable state the score is not negative and, with the ramp enabled,
    the speed multiplier and the gap are the values [updateDifficulty]
    computes from it (whether they were last set by [updateDifficulty] or by
    [startGame]); the multiplier lies between 1 and its cap and the gap
    between its floor and the base gap. *)
Theorem difficulty_tracks_score
  (cfg : Enhanced.Config) (rnd : nat -> Q) (stored : option string) (t0 : Q)
  (g : Enhanced.Game)
  (Hinc : 0 <= Enhanced.difficulty_speedIncreasePerScore cfg)
  (Hdec : 0 <= Enhanced.difficulty_gapDecreasePerScore cfg)
  (Hmax : 1 <= Enhanced.difficulty_maxSpeedMultiplier cfg)
  (Hmin : Enhanced.difficulty_minGap cfg <= Enhanced.pipe_gap cfg) :
  Enhanced.reachable cfg rnd stored t0 g ->
  (0 <= Enhanced.score g)%Z
  /\ (Enhanced.difficulty_enabled cfg = true ->
      Enhanced.difficultyMultiplier g
      == Qmin (1 + inject_Z (Enhanced.score g)
                   * Enhanced.difficulty_speedIncreasePerScore cfg)
              (Enhanced.difficulty_maxSpeedMultiplier cfg)
      /\ Enhanced.currentPipeGap g
         == Qmax (Enhanced.pipe_gap cfg
                  - inject_Z (Enhanced.score g)
                    * Enhanced.difficulty_gapDecreasePerScore cfg)
                 (Enhanced.difficulty_minGap cfg))
  /\ (1 <= Enhanced.difficultyMultiplier g
      /\ Enhanced.difficultyMultiplier g <= Enhanced.difficulty_maxSpeedMultiplier cfg)
  /\ (Enhanced.difficulty_minGap cfg <= Enhanced.currentPipeGap g
      /\ Enhanced.currentPipeGap g <= Enhanced.pipe_gap cfg).
Proof.
  intros Hr.
  destruct (reachable_difficulty_of_score cfg rnd stored t0 Hmax Hmin g Hr) as (Hs & Hd).
  split; [exact Hs|]. split.
  - intros E. unfold difficulty_of_score in Hd. rewrite E in Hd. exact Hd.
  - now apply difficulty_of_score_bounds.
Qed.

Lemma difficulty_tracks_score_witness :
  (0 <= Enhanced.difficulty_speedIncreasePerScore Enhanced.CONFIG
   /\ 0 <= Enhanced.difficulty_gapDecreasePerScore Enhanced.CONFIG
   /\ 1 <= Enhanced.difficulty_maxSpeedMultiplier Enhanced.CONFIG
   /\ Enhanced.difficulty_minGap Enhanced.CONFIG <= Enhanced.pipe_gap Enhanced.CONFIG
   /\ Enhanced.reachable Enhanced.CONFIG Math_random_half None 0 game_started)
  /\ (0 <= Enhanced.score game_started)%Z
  /\ 1 <= Enhanced.difficultyMultiplier game_started
  /\ Enhanced.currentPipeGap game_started <= 150.
Proof.
  assert (H1 : 0 <= Enhanced.difficulty_speedIncreasePerScore Enhanced.CONFIG)
    by discriminate.
  assert (H2 : 0 <= Enhanced.difficulty_gapDecreasePerScore Enhanced.CONFIG)
    by discriminate.
  assert (H3 : 1 <= Enhanced.difficulty_maxSpeedMultiplier Enhanced.CONFIG)
    by discriminate.
  assert (H4 : Enhanced.difficulty_minGap Enhanced.CONFIG
               <= Enhanced.pipe_gap Enhanced.CONFIG) by discriminate.
  pose (R := Enhanced.reachable_jump Enhanced.CONFIG Math_random_half None 0 _ 1000
               (Enhanced.reachable_init _ _ _ _)).
  pose (T := difficulty_tracks_score Enhanced.CONFIG Math_random_half None 0
               game_started H1 H2 H3 H4 R).
  split; [repeat split; try assumption; exact R|].
  split; [exact (proj1 T)|].
  split; [exact (proj1 (proj1 (proj2 (proj2 T)))) | exact (proj2 (proj2 (proj2 (proj2 T))))].
Defined.

(** ** The bird *)

Section EnhancedStep.

Import Enhanced.

Variable cfg : Config.
Variable rnd : nat -> Q.

(** A property that every frame whose time stamp is not earlier than the
    last one, every accepted input and every key keeps is kept by every
    event. *)
Lemma handle_invariant (P : Game -> Prop) :
  (forall g t, P g -> lastFrameTime g <= t -> P (gameLoop cfg rnd t g)) ->
  (forall g now, P g -> P (set_lastJumpTime now g)) ->
  (forall g, P g -> P (startGame cfg g)) ->
  (forall g, P g -> P (bird_jump rnd g)) ->
  (forall g now, P g -> P (pauseGame now g)) ->
  (forall g v, P g -> P (set_showHitboxes v g)) ->
  forall g e, event_in_time g e -> P g -> P (handle cfg rnd e g).
Proof.
  intros Hframe Hlast Hstart Hjump Hpause Hdebug g e He Hg.
  destruct e as [t|now|now|]; cbn [handle].
  - apply Hframe; assumption.
  - unfold handleJump.
    destruct (Qltb (now - lastJumpTime g) jumpCooldown); [exact Hg|].
    cbv zeta. cbn [gameState set_lastJumpTime].
    destruct (gameState g).
    + apply Hjump, Hstart, Hlast, Hg.
    + apply Hjump, Hlast, Hg.
    + apply Hlast, Hg.
    + apply Hstart, Hlast, Hg.
  - destruct (gameState g); try exact Hg; apply Hpause, Hg.
  - apply Hdebug, Hg.
Qed.

(** The same for a property of the bird that [bird.update] (with a delta
    that is not negative), [bird.jump] and [bird.reset] keep. *)
Lemma handle_bird_invariant (B : Bird.t -> Prop) :
  (forall b dt, 0 <= dt -> B b -> B (bird_bounds cfg (bird_integrate cfg dt b))) ->
  (forall b, B b -> B (Bird.set_velocity (Bird.jumpStrength b) b)) ->
  (forall b, B b ->
     B (Bird.set_wingFrame 0
          (Bird.set_rotation 0
             (Bird.set_velocity 0 (Bird.set_y (canvas_height cfg / 2) b))))) ->
  forall g e, event_in_time g e -> B (bird g) -> B (bird (handle cfg rnd e g)).
Proof.
  intros Hupd Hjump Hreset.
  apply (handle_invariant (fun g => B (bird g))).
  - intros g t Hg Ht.
    destruct (GameState_eqb (gameState g) PLAYING) eqn:E.
    + assert (Hs : gameState g = PLAYING) by (destruct (gameState g); now try discriminate).
      destruct (gameLoop_playing_fields cfg rnd t g Hs) as (_ & _ & ->).
      apply Hupd; [|exact Hg]. now apply frame_delta_nonneg.
    + assert (Hs : gameState g <> PLAYING) by (intros Hs; rewrite Hs in E; discriminate).
      destruct (gameLoop_idle_fields cfg rnd t g Hs) as (_ & _ & -> & _). exact Hg.
  - intros g now Hg. exact Hg.
  - intros g Hg. apply Hreset in Hg. exact Hg.
  - intros g Hg. rewrite (bird_jump_bird cfg). now apply Hjump.
  - intros g now Hg. unfold pauseGame. destruct (gameState g); exact Hg.
  - intros g v Hg. exact Hg.
Qed.

End EnhancedStep.

Section EnhancedBird.

Import Enhanced.

Variable cfg : Config.
Variable rnd : nat -> Q.

(** The ground and ceiling tests put the bird back into the field. *)
Lemma bird_bounds_field b :
  0 <= canvas_height cfg - ground_height cfg - Bird.height b ->
  0 <= Bird.y (bird_bounds cfg b)
  /\ Bird.y (bird_bounds cfg b) + Bird.height b
     <= canvas_height cfg - ground_height cfg.
Proof.
  intros Hroom. unfold bird_bounds. cbv zeta.
  destruct (Qltb_reflect (canvas_height cfg - ground_height cfg)
              (Bird.y b + Bird.height b)) as [H1|H1]; cbn [Bird.y Bird.set_y Bird.set_velocity].
  - destruct (Qltb_reflect (canvas_height cfg - ground_height cfg - Bird.height b) 0)
      as [H2|H2]; cbn [Bird.y Bird.set_y Bird.set_velocity]; lra.
  - destruct (Qltb_reflect (Bird.y b) 0) as [H2|H2];
      cbn [Bird.y Bird.set_y Bird.set_velocity]; lra.
Qed.

Lemma bird_bounds_constants b :
  let b' := bird_bounds cfg b in
  Bird.x b' = Bird.x b /\ Bird.width b' = Bird.width b /\ Bird.height b' = Bird.height b
  /\ Bird.jumpStrength b' = Bird.jumpStrength b
  /\ Bird.terminalVelocity b' = Bird.terminalVelocity b
  /\ Bird.rotation b' = Bird.rotation b /\ Bird.wingFrame b' = Bird.wingFrame b
  /\ (Bird.velocity b' = Bird.velocity b \/ Bird.velocity b' = 0).
Proof.
  cbv zeta. unfold bird_bounds. cbv zeta.
  destruct (Qltb _ (Bird.y b + Bird.height b)); cbn;
    destruct (Qltb _ 0); cbn; repeat split; auto.
Qed.

Hypothesis room :
  0 <= canvas_height cfg / 2
  /\ canvas_height cfg / 2 + bird_height cfg <= canvas_height cfg - ground_height cfg.

(** [bird.reset] puts the bird that has the size of the configuration into
    the field. *)
Lemma startGame_bird_in_field g :
  Bird.x (bird g) = bird_x cfg -> Bird.width (bird g) = bird_width cfg ->
  Bird.height (bird g) = bird_height cfg ->
  bird_in_field cfg (bird (startGame cfg g)).
Proof using room.
  destruct room as (R1 & R2). intros Hx Hw Hh.
  unfold bird_in_field. cbn. rewrite Hh. repeat split; assumption.
Qed.

Lemma bird_update_in_field dt b :
  bird_in_field cfg b -> bird_in_field cfg (bird_bounds cfg (bird_integrate cfg dt b)).
Proof using room.
  destruct room as (R1 & R2). intros (Hx & Hw & Hh & _).
  set (b1 := bird_integrate cfg dt b).
  assert (H1 : Bird.x b1 = Bird.x b /\ Bird.width b1 = Bird.width b
               /\ Bird.height b1 = Bird.height b) by (repeat split).
  destruct H1 as (X1 & W1 & H1).
  destruct (bird_bounds_constants b1) as (X2 & W2 & H2 & _).
  destruct (bird_bounds_field b1) as (Y1 & Y2).
  { rewrite H1, Hh. lra. }
  unfold bird_in_field. rewrite X2, W2, H2, X1, W1, H1.
  repeat split; assumption.
Qed.

Lemma handle_bird_in_field g e :
  bird_in_field cfg (bird g) -> bird_in_field cfg (bird (handle cfg rnd e g)).
Proof using room.
  intros Hg.
  assert (Hother : event_in_time g e -> bird_in_field cfg (bird (handle cfg rnd e g))).
  { intros He. revert Hg.
    apply (handle_bird_invariant cfg rnd (bird_in_field cfg)); [| | |exact He].
    - intros b dt _ Hb. now apply bird_update_in_field.
    - intros b H. exact H.
    - destruct room as (R1 & R2).
      intros b (Hx & Hw & Hh & _). unfold bird_in_field. cbn.
      rewrite Hh. repeat split; assumption. }
  destruct e as [t|now|now|]; try (apply Hother; exact I).
  (* a frame, whatever its time stamp *)
  cbn [handle].
  destruct (GameState_eqb (gameState g) PLAYING) eqn:E.
  - assert (Hs : gameState g = PLAYING) by (destruct (gameState g); now try discriminate).
    destruct (gameLoop_playing_fields cfg rnd t g Hs) as (_ & _ & ->).
    now apply bird_update_in_field.
  - assert (Hs : gameState g <> PLAYING) by (intros Hs; rewrite Hs in E; discriminate).
    destruct (gameLoop_idle_fields cfg rnd t g Hs) as (_ & _ & -> & _). exact Hg.
Qed.

End EnhancedBird.

Section EnhancedBirdMotion.

Import Enhanced.

Variable cfg : Config.
Variable rnd : nat -> Q.

Hypothesis terminal_nonneg : 0 <= bird_terminalVelocity cfg.
Hypothesis jump_below_terminal : bird_jumpStrength cfg <= bird_terminalVelocity cfg.
Hypothesis easing_range :
  0 <= physics_rotationEasing cfg /\ physics_rotationEasing cfg <= 1.
Hypothesis fps_pos : 0 < physics_targetFPS cfg.

Lemma bird_integrate_motion dt b :
  0 <= dt -> bird_motion_ok cfg b -> bird_motion_ok cfg (bird_integrate cfg dt b).
Proof using easing_range fps_pos.
  intros Hdt (Hj & Ht & Hv & (Hr1 & Hr2) & (Hw1 & Hw2)).
  pose proof (normalizedDt_nonneg cfg fps_pos dt Hdt) as Hn.
  destruct easing_range as (E1 & E2).
  unfold bird_motion_ok, bird_integrate. cbn.
  set (v := Math_min (Bird.velocity b + Bird.gravity b * normalizedDt cfg dt)
              (Bird.terminalVelocity b)).
  set (tgt := Math_min (Math_max (v * 4) (-30)) 90).
  assert (T1 : -30 <= tgt).
  { unfold tgt, Math_min, Math_max. apply Q.min_glb; [apply Q.le_max_r | lra]. }
  assert (T2 : tgt <= 90) by (unfold tgt, Math_min; apply Q.le_min_r).
  split; [assumption|]. split; [assumption|]. split; [|split].
  - unfold v, Math_min. rewrite <- Ht. apply Q.le_min_r.
  - split; nra.
  - apply JS_rem_range; [nra | lra].
Qed.

Lemma startGame_bird_motion_ok g :
  Bird.jumpStrength (bird g) = bird_jumpStrength cfg ->
  Bird.terminalVelocity (bird g) = bird_terminalVelocity cfg ->
  bird_motion_ok cfg (bird (startGame cfg g)).
Proof using terminal_nonneg.
  intros Hj Ht. unfold bird_motion_ok. cbn.
  repeat split; try assumption; try lra.
Qed.

Lemma handle_bird_motion_ok g e :
  event_in_time g e -> bird_motion_ok cfg (bird g) ->
  bird_motion_ok cfg (bird (handle cfg rnd e g)).
Proof using terminal_nonneg jump_below_terminal easing_range fps_pos.
  apply (handle_bird_invariant cfg rnd (bird_motion_ok cfg)).
  - intros b dt Hdt Hb.
    pose proof (bird_integrate_motion dt b Hdt Hb) as (Hj & Ht & Hv & Hr & Hw).
    destruct (bird_bounds_constants cfg (bird_integrate cfg dt b))
      as (_ & _ & _ & J & T & R & W & V).
    unfold bird_motion_ok. rewrite J, T, R, W.
    repeat split; try tauto.
    destruct V as [-> | ->]; assumption.
  - intros b (Hj & Ht & Hv & Hr & Hw). unfold bird_motion_ok. cbn.
    rewrite Hj. repeat split; try tauto.
  - intros b (Hj & Ht & Hv & Hr & Hw). unfold bird_motion_ok. cbn.
    repeat split; try assumption; try lra.
Qed.

End EnhancedBirdMotion.

(** X3. The field is an invariant of the bird. [startGame] puts a bird that
    has the position and the size of the configuration into the field: its
    top is not above the ceiling ([y >= 0]) and its bottom is not below the
    ground line; and every event keeps a bird that is in the field in the
    field, whatever the time stamp of the frame. The start position
    [canvas.height / 2] itself is assumed to lie in the field. (The states
    and the time stamps of the statement are numbers: it does not speak of a
    frame whose delta is NaN, see X13 and X23.) *)
Theorem bird_stays_in_field
  (cfg : Enhanced.Config) (rnd : nat -> Q) (g : Enhanced.Game) (e : Enhanced.Event)
  (room : 0 <= Enhanced.canvas_height cfg / 2
          /\ Enhanced.canvas_height cfg / 2 + Enhanced.bird_height cfg
             <= Enhanced.canvas_height cfg - Enhanced.ground_height cfg) :
  (Bird.x (Enhanced.bird g) = Enhanced.bird_x cfg ->
   Bird.width (Enhanced.bird g) = Enhanced.bird_width cfg ->
   Bird.height (Enhanced.bird g) = Enhanced.bird_height cfg ->
   bird_in_field cfg (Enhanced.bird (Enhanced.startGame cfg g)))
  /\ (bird_in_field cfg (Enhanced.bird g) ->
      bird_in_field cfg (Enhanced.bird (Enhanced.handle cfg rnd e g))).
Proof.
  split.
  - exact (startGame_bird_in_field cfg room g).
  - exact (handle_bird_in_field cfg rnd room g e).
Qed.

Lemma bird_stays_in_field_witness :
  let g := game_started_500 in
  let g' := Enhanced.handle Enhanced.CONFIG Math_random_half (Enhanced.Frame 1016) g in
  ((0 <= Enhanced.canvas_height Enhanced.CONFIG / 2
    /\ Enhanced.canvas_height Enhanced.CONFIG / 2 + Enhanced.bird_height Enhanced.CONFIG
       <= Enhanced.canvas_height Enhanced.CONFIG - Enhanced.ground_height Enhanced.CONFIG)
   /\ bird_in_field Enhanced.CONFIG (Enhanced.bird g))
  /\ bird_in_field Enhanced.CONFIG (Enhanced.bird g').
Proof.
  assert (H : 0 <= Enhanced.canvas_height Enhanced.CONFIG / 2
              /\ Enhanced.canvas_height Enhanced.CONFIG / 2
                 + Enhanced.bird_height Enhanced.CONFIG
                 <= Enhanced.canvas_height Enhanced.CONFIG
                    - Enhanced.ground_height Enhanced.CONFIG)
    by (split; discriminate).
  assert (B : bird_in_field Enhanced.CONFIG (Enhanced.bird game_started_500)).
  { unfold bird_in_field. repeat split; try reflexivity; vm_compute; discriminate. }
  exact (conj (conj H B)
           (proj2 (bird_stays_in_field Enhanced.CONFIG Math_random_half game_started_500
                     (Enhanced.Frame 1016) H) B)).
Defined.

(** X4. The range of the motion is an invariant of the bird. [startGame]
    puts a bird that has the jump strength and the terminal velocity of the
    configuration into the range: a velocity of at most [terminalVelocity]
    (the field [maxVelocity] is never read), a rotation between -30 and 90
    degrees, the bounds of [targetRotation], and a wing phase in [0, 3), so
    that [Math.floor(wingFrame)] is 0, 1 or 2; and every event keeps a bird
    that is in the range in the range, provided the time stamp of a frame
    is not earlier than the one of the frame before. (The states and the
    time stamps of the statement are numbers: it does not speak of a frame
    whose delta is NaN, see X13 and X23.) *)
Theorem bird_motion_bounded
  (cfg : Enhanced.Config) (rnd : nat -> Q) (g : Enhanced.Game) (e : Enhanced.Event)
  (terminal_nonneg : 0 <= Enhanced.bird_terminalVelocity cfg)
  (jump_below_terminal :
     Enhanced.bird_jumpStrength cfg <= Enhanced.bird_terminalVelocity cfg)
  (easing_range : 0 <= Enhanced.physics_rotationEasing cfg
                  /\ Enhanced.physics_rotationEasing cfg <= 1)
  (fps_pos : 0 < Enhanced.physics_targetFPS cfg) :
  (Bird.jumpStrength (Enhanced.bird g) = Enhanced.bird_jumpStrength cfg ->
   Bird.terminalVelocity (Enhanced.bird g) = Enhanced.bird_terminalVelocity cfg ->
   bird_motion_ok cfg (Enhanced.bird (Enhanced.startGame cfg g)))
  /\ (event_in_time g e -> bird_motion_ok cfg (Enhanced.bird g) ->
      bird_motion_ok cfg (Enhanced.bird (Enhanced.handle cfg rnd e g))).
Proof.
  split.
  - exact (startGame_bird_motion_ok cfg terminal_nonneg g).
  - exact (handle_bird_motion_ok cfg rnd terminal_nonneg jump_below_terminal
             easing_range fps_pos g e).
Qed.

Lemma bird_motion_bounded_witness :
  let g := game_started_500 in
  let g' := Enhanced.handle Enhanced.CONFIG Math_random_half (Enhanced.Frame 1016) g in
  (0 <= Enhanced.bird_terminalVelocity Enhanced.CONFIG
   /\ Enhanced.bird_jumpStrength Enhanced.CONFIG
      <= Enhanced.bird_terminalVelocity Enhanced.CONFIG
   /\ (0 <= Enhanced.physics_rotationEasing Enhanced.CONFIG
       /\ Enhanced.physics_rotationEasing Enhanced.CONFIG <= 1)
   /\ 0 < Enhanced.physics_targetFPS Enhanced.CONFIG
   /\ event_in_time g (Enhanced.Frame 1016)
   /\ bird_motion_ok Enhanced.CONFIG (Enhanced.bird g))
  /\ bird_motion_ok Enhanced.CONFIG (Enhanced.bird g').
Proof.
  assert (H1 : 0 <= Enhanced.bird_terminalVelocity Enhanced.CONFIG) by discriminate.
  assert (H2 : Enhanced.bird_jumpStrength Enhanced.CONFIG
               <= Enhanced.bird_terminalVelocity Enhanced.CONFIG) by discriminate.
  assert (H3 : 0 <= Enhanced.physics_rotationEasing Enhanced.CONFIG
               /\ Enhanced.physics_rotationEasing Enhanced.CONFIG <= 1)
    by (split; discriminate).
  assert (H4 : 0 < Enhanced.physics_targetFPS Enhanced.CONFIG) by reflexivity.
  assert (H5 : event_in_time game_started_500 (Enhanced.Frame 1016))
    by (vm_compute; discriminate).
  assert (H6 : bird_motion_ok Enhanced.CONFIG (Enhanced.bird game_started_500)).
  { unfold bird_motion_ok.
    repeat split; try reflexivity; vm_compute; first [discriminate | reflexivity]. }
  exact (conj (conj H1 (conj H2 (conj H3 (conj H4 (conj H5 H6)))))
           (proj2 (bird_motion_bounded Enhanced.CONFIG Math_random_half game_started_500
                     (Enhanced.Frame 1016) H1 H2 H3 H4) H5 H6)).
Defined.

(** ** The particles *)

Section EnhancedParticles.

Import Enhanced.

Variable cfg : Config.
Variable rnd : nat -> Q.

Lemma fresh_particle_ok p : fresh_particle p -> particle_ok p.
Proof. intros (Hl & Hd & Hg). unfold particle_ok. rewrite Hl. repeat split; auto; lra. Qed.

(** [particles.filter] keeps particles that are alive. *)
Lemma particles_filter_alive dt l :
  Forall (fun p => 0 < Particle.life p) (particles_filter cfg dt l).
Proof.
  unfold particles_filter. apply List.Forall_forall. intros p Hp.
  apply List.filter_In in Hp. destruct Hp as (_ & Hp).
  unfold Particle_isDead in Hp. apply negb_true_iff in Hp.
  destruct (Qlt_le_dec 0 (Particle.life p)) as [H|H]; [exact H|].
  apply Qle_bool_iff in H. congruence.
Qed.



Lemma particles_cap_Forall (P : Particle.t -> Prop) (l : list Particle.t) :
  Forall P l -> Forall P (if (200 <? length l)%nat then slice_last100 l else l).
Proof.
  intros H. destruct (200 <? length l)%nat; [|exact H].
  unfold slice_last100. now apply Forall_drop.
Qed.

Hypothesis fps_pos : 0 < physics_targetFPS cfg.

Lemma particles_filter_ok dt l :
  0 <= dt -> Forall particle_ok l -> Forall particle_ok (particles_filter cfg dt l).
Proof using fps_pos.
  intros Hdt Hl.
  pose proof (normalizedDt_nonneg cfg fps_pos dt Hdt) as Hn.
  pose proof (particles_filter_alive dt l) as Ha.
  rewrite List.Forall_forall in Ha |- *. intros p Hp.
  specialize (Ha p Hp).
  unfold particles_filter in Hp. apply List.filter_In in Hp. destruct Hp as (Hp & _).
  apply List.in_map_iff in Hp. destruct Hp as (q & <- & Hq).
  rewrite List.Forall_forall in Hl. destruct (Hl q Hq) as (L1 & L2 & D & G).
  unfold particle_ok. split; [exact Ha|].
  cbn [Particle.life Particle.decay Particle.gravity Particle_update] in Ha |- *.
  rewrite D in *. repeat split; try assumption. nra.
Qed.

Lemma bird_jump_particles g :
  exists ps, particles (bird_jump rnd g) = particles g ++ ps /\ Forall fresh_particle ps.
Proof.
  unfold bird_jump. cbv zeta.
  match goal with
  | |- context [emit rnd ?n ?x ?y ?c ?gg] =>
      destruct (emit_fresh rnd n x y c gg) as (ps & d & -> & _ & Hf)
  end.
  exists ps. split; [reflexivity | exact Hf].
Qed.

Lemma handle_particles_ok g e :
  event_in_time g e -> Forall particle_ok (particles g) ->
  Forall particle_ok (particles (handle cfg rnd e g)).
Proof using fps_pos.
  apply (handle_invariant cfg rnd (fun g => Forall particle_ok (particles g))).
  - intros h t Hh Ht.
    destruct (GameState_eqb (gameState h) PLAYING) eqn:E.
    + assert (Hs : gameState h = PLAYING) by (destruct (gameState h); now try discriminate).
      destruct (gameLoop_playing_particles cfg rnd t h Hs) as (ps & Hf & ->).
      apply particles_filter_ok; [now apply frame_delta_nonneg|].
      apply particles_cap_Forall, Forall_app. split; [exact Hh|].
      eapply Forall_impl; [exact Hf | apply fresh_particle_ok].
    + assert (Hs : gameState h <> PLAYING) by (intros Hs; rewrite Hs in E; discriminate).
      destruct (gameLoop_idle_fields cfg rnd t h Hs) as (_ & _ & _ & _ & -> & _).
      exact Hh.
  - intros h now Hh. exact Hh.
  - intros h _. destruct (startGame_fields cfg h) as (_ & _ & _ & -> & _). constructor.
  - intros h Hh. destruct (bird_jump_particles h) as (ps & -> & Hf).
    apply Forall_app. split; [exact Hh|].
    eapply Forall_impl; [exact Hf | apply fresh_particle_ok].
  - intros h now Hh. unfold pauseGame. destruct (gameState h); exact Hh.
  - intros h v Hh. exact Hh.
Qed.

End EnhancedParticles.



(** X6. That every particle can be drawn is an invariant: [startGame]
    empties the particle array; and if each particle has a life in (0, 1]
    (the value [draw] assigns to [globalAlpha]), the decay 0.02 and the
    gravity 0.3 its constructor gave it, then this holds again after every
    event, provided the time stamp of a frame is not earlier than the one of
    the frame before. (The states and the time stamps of the statement are
    numbers: it does not speak of a frame whose delta is NaN, see X13 and X24.) *)
Theorem particles_always_visible
  (cfg : Enhanced.Config) (rnd : nat -> Q) (g : Enhanced.Game) (e : Enhanced.Event)
  (fps_pos : 0 < Enhanced.physics_targetFPS cfg) :
  Enhanced.particles (Enhanced.startGame cfg g) = []
  /\ (event_in_time g e ->
      Forall particle_ok (Enhanced.particles g) ->
      Forall particle_ok (Enhanced.particles (Enhanced.handle cfg rnd e g))).
Proof.
  split; [reflexivity|].
  exact (handle_particles_ok cfg rnd fps_pos g e).
Qed.

Lemma particles_always_visible_witness :
  let g := game_started_500 in
  let g' := Enhanced.handle Enhanced.CONFIG Math_random_half (Enhanced.Frame 1016) g in
  (0 < Enhanced.physics_targetFPS Enhanced.CONFIG
   /\ event_in_time g (Enhanced.Frame 1016)
   /\ length (Enhanced.particles g) = 5%nat
   /\ Forall particle_ok (Enhanced.particles g))
  /\ Forall particle_ok (Enhanced.particles g').
Proof.
  assert (H1 : 0 < Enhanced.physics_targetFPS Enhanced.CONFIG) by reflexivity.
  assert (H2 : event_in_time game_started_500 (Enhanced.Frame 1016))
    by (vm_compute; discriminate).
  assert (H3 : length (Enhanced.particles game_started_500) = 5%nat)
    by (vm_compute; reflexivity).
  assert (H4 : Forall particle_ok (Enhanced.particles game_started_500)).
  { unfold particle_ok. vm_compute. repeat constructor; discriminate. }
  exact (conj (conj H1 (conj H2 (conj H3 H4)))
           (proj2 (particles_always_visible Enhanced.CONFIG Math_random_half
                     game_started_500 (Enhanced.Frame 1016) H1) H2 H4)).
Defined.

(** ** The pipes *)

Section EnhancedPipes.

Import Enhanced.

Variable cfg : Config.
Variable rnd : nat -> Q.

(** The pipes when the bird is about to be updated: those of the previous
    frame and, when the spawn test succeeds, a new one made with the gap and
    the multiplier of the previous frame. *)
Lemma gameLoop_spawn_pipes t g :
  let g1 := gameLoop_spawn cfg rnd (gameLoop_background cfg rnd (gameLoop_clock t g)) in
  exists new,
    pipes g1 = pipes g ++ new
    /\ ((new = [] /\ ~ spawn_due cfg (frame g))
        \/ (spawn_due cfg (frame g)
            /\ exists h, new = [fst (new_Pipe cfg rnd h)]
                         /\ currentPipeGap h = currentPipeGap g
                         /\ difficultyMultiplier h = difficultyMultiplier g)).
Proof.
  cbv zeta.
  destruct (gameLoop_head_footprint cfg rnd t g) as (cl & mo & d & ->).
  unfold gameLoop_spawn. cbv zeta.
  cbn [frame set_frame set_groundOffset set_mountains set_clouds set_draws set_deltaTime
       set_lastFrameTime].
  destruct (pipe_spawnInterval cfg =? 0)%Z eqn:E0; cbn [negb andb].
  - exists []. split; [cbn; now rewrite app_nil_r|]. left. split; [reflexivity|].
    intros (H & _). apply Z.eqb_eq in E0. contradiction.
  - destruct (Z.rem (frame g + 1) (pipe_spawnInterval cfg) =? 0)%Z eqn:E1.
    + match goal with
      | |- context [new_Pipe cfg rnd ?hh] =>
          destruct (new_Pipe cfg rnd hh) as [p h'] eqn:Ep; exists [p]; split;
          [|right; split; [|exists hh; rewrite Ep; repeat split]]
      end.
      * unfold new_Pipe, random in Ep. cbv zeta in Ep. injection Ep as _ <-. reflexivity.
      * split; [now apply Z.eqb_neq | now apply Z.eqb_eq].
    + exists []. split; [cbn; now rewrite app_nil_r|]. left. split; [reflexivity|].
      intros (_ & H). apply Z.eqb_neq in E1. contradiction.
Qed.

(** The score and the pipes after a frame in the [PLAYING] state, from the
    pipes [l] the loop runs over. *)
Lemma gameLoop_pass t g :
  gameState g = PLAYING ->
  let dt := Math_min (t - lastFrameTime g) 100 in
  let l := pipes (gameLoop_spawn cfg rnd
                    (gameLoop_background cfg rnd (gameLoop_clock t g))) in
  score (gameLoop cfg rnd t g)
  = (score g
     + Z.of_nat (length (List.filter (newly_passed cfg dt (Bird.x (bird g))) l)))%Z
  /\ pipes (gameLoop cfg rnd t g)
     = List.filter on_screen (List.map (Pipe_tick cfg dt (Bird.x (bird g))) l).
Proof.
  intros Hs. rewrite (gameLoop_playing cfg rnd t g Hs). cbv zeta.
  destruct (gameLoop_spawn_fields cfg rnd t g)
    as (_ & S1 & _ & _ & _ & _ & B1 & _ & _ & D1 & _).
  generalize dependent
    (gameLoop_spawn cfg rnd (gameLoop_background cfg rnd (gameLoop_clock t g))).
  intros g1 S1 B1 D1.
  destruct (bird_update_effect cfg rnd (deltaTime g1) g1)
    as ((_ & _ & _ & D2 & _) & P2).
  pose proof (bird_update_x cfg rnd (deltaTime g1) g1) as X2.
  pose proof (bird_update_score cfg rnd (deltaTime g1) g1) as S2.
  generalize dependent (bird_update cfg rnd (deltaTime g1) g1). intros g2 D2 P2 X2 S2.
  destruct (gameLoop_particles_footprint cfg (pipesLoop cfg rnd (length (pipes g2)) g2))
    as (ps & ->).
  cbn [score pipes set_particles].
  pose proof (pipesLoop_score cfg rnd (pipes g2) [] g2 (eq_sym (app_nil_r _))) as HL.
  split.
  - rewrite HL, S2, S1, D2, D1, X2, B1, P2. reflexivity.
  - rewrite pipesLoop_all, D2, D1, X2, B1, P2. reflexivity.
Qed.

Hypothesis rnd_range : random_in_range rnd.
Hypothesis cfg_sane : Config_sane cfg.

Lemma new_Pipe_ok h :
  1 <= difficultyMultiplier h
  /\ difficultyMultiplier h <= difficulty_maxSpeedMultiplier cfg ->
  difficulty_minGap cfg <= currentPipeGap h
  /\ currentPipeGap h <= pipe_gap cfg ->
  pipe_ok cfg (fst (new_Pipe cfg rnd h)).
Proof using rnd_range cfg_sane.
  intros (M1 & M2) (G1 & G2).
  destruct cfg_sane as (_ & HW & Hw & Hb & _ & _ & _ & _ & Hroom).
  destruct (rnd_range (draws h)) as (R1 & R2).
  unfold new_Pipe, random, pipe_ok. cbn.
  set (r := rnd (draws h)) in *.
  repeat split; try assumption; try lra; try nra.
Qed.

Lemma Pipe_tick_ok dt birdx p :
  0 <= dt -> pipe_ok cfg p -> on_screen (Pipe_tick cfg dt birdx p) = true ->
  pipe_ok cfg (Pipe_tick cfg dt birdx p).
Proof using cfg_sane.
  intros Hdt (Hw & Hg & Ht & (S1 & S2) & (X1 & X2) & (O1 & O2)) Hon.
  destruct cfg_sane as (Hfps & _ & _ & Hb & _).
  pose proof (normalizedDt_nonneg cfg Hfps dt Hdt) as Hn.
  apply on_screen_tick in Hon.
  assert (Hh : 0 <= JS_rem (Pipe.highlightOffset p + 0.5 * normalizedDt cfg dt) 20
               /\ JS_rem (Pipe.highlightOffset p + 0.5 * normalizedDt cfg dt) 20 < 20).
  { apply JS_rem_range; [nra | lra]. }
  unfold pipe_ok, Pipe_tick. cbv zeta.
  destruct (negb _ && Qltb _ _);
    cbn [Pipe.x Pipe.width Pipe.gap Pipe.topHeight Pipe.speed Pipe.highlightOffset
         Pipe.set_scored Pipe.set_x Pipe.set_highlightOffset Pipe_move];
    (repeat split; try tauto; try assumption; try nra).
Qed.

End EnhancedPipes.

Section EnhancedPipesReachable.

Import Enhanced.

Variable cfg : Config.
Variable rnd : nat -> Q.
Variable stored : option string.
Variable t0 : Q.

Hypothesis rnd_range : random_in_range rnd.
Hypothesis cfg_sane : Config_sane cfg.

Lemma reachable_pipes_ok g :
  reachable cfg rnd stored t0 g -> Forall (pipe_ok cfg) (pipes g).
Proof using rnd_range cfg_sane.
  pose proof cfg_sane as (_ & _ & _ & _ & Hinc & Hdec & Hmax & Hmin & _).
  apply (reachable_invariant cfg rnd stored t0 (fun g => Forall (pipe_ok cfg) (pipes g))).
  - destruct (initialGame_footprint cfg rnd stored t0) as (cl & d & ->). constructor.
  - intros h t Hr Hh Ht.
    destruct (GameState_eqb (gameState h) PLAYING) eqn:E.
    + assert (Hs : gameState h = PLAYING) by (destruct (gameState h); now try discriminate).
      destruct (gameLoop_pass cfg rnd t h Hs) as (_ & ->).
      destruct (gameLoop_spawn_pipes cfg rnd t h) as (new & -> & Hnew).
      assert (Hn : Forall (pipe_ok cfg) new).
      { destruct Hnew as [(-> & _) | (_ & h1 & -> & G1 & M1)]; [constructor|].
        destruct (reachable_difficulty_of_score cfg rnd stored t0 Hmax Hmin h Hr)
          as (S0 & D0).
        destruct (difficulty_of_score_bounds cfg h Hinc Hdec Hmax Hmin S0 D0) as (Bm & Bg).
        constructor; [|constructor].
        apply new_Pipe_ok; try assumption; [rewrite M1 | rewrite G1]; assumption. }
      rewrite List.Forall_forall. intros p Hp.
      apply List.filter_In in Hp. destruct Hp as (Hp & Hon).
      apply List.in_map_iff in Hp. destruct Hp as (q & <- & Hq).
      apply Pipe_tick_ok; [assumption | now apply frame_delta_nonneg | | exact Hon].
      assert (Hall : Forall (pipe_ok cfg) (pipes h ++ new))
        by (apply Forall_app; split; assumption).
      rewrite List.Forall_forall in Hall. now apply Hall.
    + assert (Hs : gameState h <> PLAYING) by (intros Hs; rewrite Hs in E; discriminate).
      destruct (gameLoop_idle_fields cfg rnd t h Hs) as (_ & _ & _ & -> & _). exact Hh.
  - intros h now Hh. exact Hh.
  - intros h _. destruct (startGame_fields cfg h) as (_ & _ & -> & _). constructor.
  - intros h Hh.
    destruct (bird_jump_fields rnd h) as (_ & _ & _ & _ & _ & _ & _ & -> & _). exact Hh.
  - intros h now Hh. unfold pauseGame. destruct (gameState h); exact Hh.
  - intros h v Hh. exact Hh.
Qed.

End EnhancedPipesReachable.

Lemma Math_random_half_in_range : random_in_range Math_random_half.
Proof. intros k. split; [discriminate | reflexivity]. Defined.

Lemma CONFIG_sane : Config_sane Enhanced.CONFIG.
Proof.
  unfold Config_sane. split; [reflexivity|]. repeat split; discriminate.
Defined.

Lemma normalizedDt_mono (cfg : Enhanced.Config) (a b : Q) :
  0 < Enhanced.physics_targetFPS cfg -> a <= b ->
  Enhanced.normalizedDt cfg a <= Enhanced.normalizedDt cfg b.
Proof.
  intros Hf Hab. unfold Enhanced.normalizedDt.
  assert (H : 0 < 1000 / Enhanced.physics_targetFPS cfg)
    by (apply Qlt_shift_div_l; [assumption | lra]).
  unfold Qdiv at 1 3. apply Qmult_le_compat_r; [exact Hab|].
  apply Qlt_le_weak, Qinv_lt_0_compat, H.
Qed.

Lemma bird_bounds_integrate_size (cfg : Enhanced.Config) (dt : Q) (b : Bird.t) :
  let b' := bird_bounds cfg (Enhanced.bird_integrate cfg dt b) in
  Bird.x b' = Bird.x b /\ Bird.width b' = Bird.width b /\ Bird.height b' = Bird.height b.
Proof.
  cbv zeta.
  destruct (bird_bounds_constants cfg (Enhanced.bird_integrate cfg dt b))
    as (-> & -> & -> & _).
  repeat split.
Qed.

(** X8. No pipe can jump over the bird in one frame: because the delta of a
    frame is capped at 100 ms, a well-formed pipe that lies entirely to the
    right of the padded box of the bird before a frame in the [PLAYING]
    state is, after the frame, either still entirely to the right of it or
    in the band where [collidesWith] compares the heights, provided the
    longest step of the fastest pipe is shorter than the width of a pipe
    plus that of the padded box. The pipe is still in the array if it has
    not left the screen. *)
Theorem pipes_cannot_skip_the_bird
  (cfg : Enhanced.Config) (rnd : nat -> Q) (t : Q) (g : Enhanced.Game) (p : Pipe.t)
  (cfg_sane : Config_sane cfg)
  (step : Enhanced.pipe_baseSpeed cfg * Enhanced.difficulty_maxSpeedMultiplier cfg
          * Enhanced.normalizedDt cfg 100
          < Enhanced.pipe_width cfg + Enhanced.bird_width cfg
            - 2 * Enhanced.bird_hitboxPadding cfg) :
  Enhanced.gameState g = PLAYING ->
  Enhanced.lastFrameTime g <= t ->
  In p (Enhanced.pipes g) -> pipe_ok cfg p ->
  Bird.width (Enhanced.bird g) = Enhanced.bird_width cfg ->
  birdRight (Enhanced.bird_hitboxPadding cfg) (Enhanced.bird g) <= Pipe.x p ->
  let pad := Enhanced.bird_hitboxPadding cfg in
  let g' := Enhanced.gameLoop cfg rnd t g in
  let p' := Pipe_tick cfg (Math_min (t - Enhanced.lastFrameTime g) 100)
              (Bird.x (Enhanced.bird g)) p in
  (on_screen p' = true -> In p' (Enhanced.pipes g'))
  /\ (birdRight pad (Enhanced.bird g') <= Pipe.x p'
      \/ in_x_band pad p' (Enhanced.bird g')).
Proof.
  intros Hs Ht Hin (Hw & _ & _ & (S1 & S2) & _) Hbw Hright pad g' p'.
  destruct cfg_sane as (Hfps & _ & _ & Hb & _ & _ & Hmax & _).
  split.
  - intros Hon. unfold g'.
    destruct (gameLoop_pass cfg rnd t g Hs) as (_ & ->).
    apply List.filter_In. split; [|exact Hon].
    apply List.in_map.
    destruct (gameLoop_spawn_pipes cfg rnd t g) as (new & -> & _).
    apply List.in_or_app. now left.
  - set (dt := Math_min (t - Enhanced.lastFrameTime g) 100) in *.
    assert (Hdt : 0 <= dt) by now apply frame_delta_nonneg.
    assert (Hdt' : dt <= 100) by apply Q.le_min_r.
    pose proof (normalizedDt_nonneg cfg Hfps dt Hdt) as N0.
    pose proof (normalizedDt_mono cfg dt 100 Hfps Hdt') as N1.
    assert (Hx : Pipe.x p' = Pipe.x p - Pipe.speed p * Enhanced.normalizedDt cfg dt
                 /\ Pipe.width p' = Pipe.width p).
    { unfold p', Pipe_tick. cbv zeta.
      destruct (negb _ && Qltb _ _);
        cbn [Pipe.x Pipe.width Pipe.set_scored Pipe.set_x Pipe.set_highlightOffset
             Enhanced.Pipe_move]; split; reflexivity. }
    destruct Hx as (Hx & Hw').
    destruct (gameLoop_playing_fields cfg rnd t g Hs) as (_ & _ & Hb').
    fold dt in Hb'. fold g' in Hb'.
    destruct (bird_bounds_integrate_size cfg dt (Enhanced.bird g)) as (X' & W' & _).
    rewrite <- Hb' in X', W'.
    unfold in_x_band, birdRight, birdLeft in *. rewrite X', W', Hx, Hw', Hw, Hbw in *.
    fold pad in Hright, step |- *.
    destruct (Qlt_le_dec (Pipe.x p - Pipe.speed p * Enhanced.normalizedDt cfg dt)
                (Bird.x (Enhanced.bird g) + Enhanced.bird_width cfg - pad)) as [H|H].
    + right. split; [exact H|].
      assert (Pipe.speed p * Enhanced.normalizedDt cfg dt
              <= Enhanced.pipe_baseSpeed cfg * Enhanced.difficulty_maxSpeedMultiplier cfg
                 * Enhanced.normalizedDt cfg 100) by nra.
      lra.
    + left. exact H.
Qed.

Lemma pipes_cannot_skip_the_bird_witness :
  let g := game_pipe_ahead in
  let g' := Enhanced.gameLoop Enhanced.CONFIG Math_random_half 100 g in
  let p' := Pipe_tick Enhanced.CONFIG (Math_min (100 - Enhanced.lastFrameTime g) 100)
              (Bird.x (Enhanced.bird g)) pipe_ahead in
  (Config_sane Enhanced.CONFIG
   /\ Enhanced.pipe_baseSpeed Enhanced.CONFIG
      * Enhanced.difficulty_maxSpeedMultiplier Enhanced.CONFIG
      * Enhanced.normalizedDt Enhanced.CONFIG 100
      < Enhanced.pipe_width Enhanced.CONFIG + Enhanced.bird_width Enhanced.CONFIG
        - 2 * Enhanced.bird_hitboxPadding Enhanced.CONFIG
   /\ Enhanced.gameState g = PLAYING
   /\ Enhanced.lastFrameTime g <= 100
   /\ In pipe_ahead (Enhanced.pipes g)
   /\ pipe_ok Enhanced.CONFIG pipe_ahead
   /\ Bird.width (Enhanced.bird g) = Enhanced.bird_width Enhanced.CONFIG
   /\ birdRight (Enhanced.bird_hitboxPadding Enhanced.CONFIG) (Enhanced.bird g)
      <= Pipe.x pipe_ahead)
  /\ (birdRight 5 (Enhanced.bird g') <= Pipe.x p' \/ in_x_band 5 p' (Enhanced.bird g')).
Proof.
  assert (H1 : Enhanced.pipe_baseSpeed Enhanced.CONFIG
               * Enhanced.difficulty_maxSpeedMultiplier Enhanced.CONFIG
               * Enhanced.normalizedDt Enhanced.CONFIG 100
               < Enhanced.pipe_width Enhanced.CONFIG + Enhanced.bird_width Enhanced.CONFIG
                 - 2 * Enhanced.bird_hitboxPadding Enhanced.CONFIG) by reflexivity.
  assert (H2 : Enhanced.lastFrameTime game_pipe_ahead <= 100)
    by (vm_compute; discriminate).
  assert (H3 : In pipe_ahead (Enhanced.pipes game_pipe_ahead)) by (left; reflexivity).
  assert (H4 : pipe_ok Enhanced.CONFIG pipe_ahead).
  { unfold pipe_ok. repeat split; try discriminate; reflexivity. }
  assert (H5 : birdRight (Enhanced.bird_hitboxPadding Enhanced.CONFIG)
                 (Enhanced.bird game_pipe_ahead) <= Pipe.x pipe_ahead)
    by (vm_compute; discriminate).
  exact (conj (conj CONFIG_sane
                 (conj H1 (conj eq_refl (conj H2 (conj H3 (conj H4 (conj eq_refl H5)))))))
           (proj2 (pipes_cannot_skip_the_bird Enhanced.CONFIG Math_random_half 100
                     game_pipe_ahead pipe_ahead CONFIG_sane H1 eq_refl H2 H3 H4
                     eq_refl H5))).
Defined.

(** ** The score and the frame counter *)

Section EnhancedScoreBound.

Import Enhanced.

Variable cfg : Config.
Variable rnd : nat -> Q.
Variable stored : option string.
Variable t0 : Q.

(** A pipe that the frame counts leaves the pipes that are not counted. *)
Lemma unscored_tick dt birdx l :
  (length (unscored (List.map (Pipe_tick cfg dt birdx) l))
   + length (List.filter (newly_passed cfg dt birdx) l))%nat
  = length (unscored l).
Proof.
  unfold unscored. induction l as [|p l IH]; [reflexivity|].
  cbn [List.map List.filter].
  assert (Hm : Pipe.scored (Pipe_move cfg dt p) = Pipe.scored p) by reflexivity.
  assert (Hn : newly_passed cfg dt birdx p
               = negb (Pipe.scored p)
                 && Qltb (Pipe.x (Pipe_move cfg dt p) + Pipe.width (Pipe_move cfg dt p))
                      birdx) by reflexivity.
  assert (Ht : Pipe.scored (Pipe_tick cfg dt birdx p)
               = Pipe.scored p || newly_passed cfg dt birdx p).
  { rewrite Hn. unfold Pipe_tick. cbv zeta. rewrite Hm.
    destruct (Pipe.scored p); cbn [negb andb orb]; [exact Hm|].
    destruct (Qltb _ birdx); [reflexivity|]. rewrite Hm.
    match goal with |- ?x = _ => destruct x; reflexivity end. }
  rewrite Ht, Hn.
  destruct (Pipe.scored p); cbn [negb andb orb length]; [exact IH|].
  destruct (Qltb _ birdx); cbn [negb length]; lia.
Qed.

Lemma unscored_filter (f : Pipe.t -> bool) l :
  (length (unscored (List.filter f l)) <= length (unscored l))%nat.
Proof.
  unfold unscored. induction l as [|p l IH]; [reflexivity|].
  cbn [List.filter].
  destruct (f p); cbn [List.filter]; destruct (negb (Pipe.scored p)); cbn [length]; lia.
Qed.

Lemma div_succ_spawn (f I : Z) :
  (0 <= f)%Z -> (0 < I)%Z -> Z.rem (f + 1) I = 0%Z -> ((f + 1) / I = f / I + 1)%Z.
Proof.
  intros Hf HI Hr. rewrite Z.rem_mod_nonneg in Hr by lia.
  apply Z.mod_divide in Hr; [|lia]. destruct Hr as (q & Hq).
  rewrite Hq, Z.div_mul by lia.
  assert (Hf' : f = ((q - 1) * I + (I - 1))%Z) by lia.
  rewrite Hf' at 1. rewrite Z.div_add_l by lia. rewrite Z.div_small by lia. lia.
Qed.

Hypothesis interval_pos : (0 < pipe_spawnInterval cfg)%Z.

Lemma reachable_score_bound g :
  reachable cfg rnd stored t0 g ->
  (0 <= frame g)%Z /\ (0 <= score g)%Z
  /\ (score g + Z.of_nat (length (unscored (pipes g)))
      <= frame g / pipe_spawnInterval cfg)%Z
  /\ (Z.of_nat (length (pipes g)) <= frame g / pipe_spawnInterval cfg)%Z.
Proof using interval_pos.
  apply (reachable_invariant cfg rnd stored t0
           (fun g => (0 <= frame g)%Z /\ (0 <= score g)%Z
                     /\ (score g + Z.of_nat (length (unscored (pipes g)))
                         <= frame g / pipe_spawnInterval cfg)%Z
                     /\ (Z.of_nat (length (pipes g))
                         <= frame g / pipe_spawnInterval cfg)%Z)).
  - destruct (initialGame_footprint cfg rnd stored t0) as (cl & d & ->).
    cbn. rewrite Z.div_0_l by lia. lia.
  - intros h t _ (Hf & Hs & Hu & Hl) _.
    destruct (GameState_eqb (gameState h) PLAYING) eqn:E.
    + assert (Hp : gameState h = PLAYING) by (destruct (gameState h); now try discriminate).
      destruct (gameLoop_playing_fields cfg rnd t h Hp) as (-> & _).
      destruct (gameLoop_pass cfg rnd t h Hp) as (-> & ->).
      destruct (gameLoop_spawn_pipes cfg rnd t h) as (new & -> & Hnew).
      set (dt := Math_min (t - lastFrameTime h) 100).
      set (bx := Bird.x (bird h)).
      set (l := pipes h ++ new).
      pose proof (unscored_tick dt bx l) as Ht.
      pose proof (unscored_filter on_screen (List.map (Pipe_tick cfg dt bx) l)) as Hfl.
      pose proof (List.filter_length_le on_screen (List.map (Pipe_tick cfg dt bx) l)) as Hll.
      rewrite List.length_map in Hll.
      assert (Hnew' : (length (unscored l) = length (unscored (pipes h)) + length new)%nat
                      /\ length l = (length (pipes h) + length new)%nat
                      /\ (Z.of_nat (length new) + frame h / pipe_spawnInterval cfg
                          <= (frame h + 1) / pipe_spawnInterval cfg)%Z).
      { unfold l, unscored. rewrite List.filter_app, !length_app.
        destruct Hnew as [(-> & _) | ((_ & Hr) & h1 & -> & _)].
        - cbn. repeat split; try lia.
          apply Z.div_le_mono; lia.
        - cbn. repeat split; try lia.
          rewrite (div_succ_spawn _ _ Hf interval_pos Hr). lia. }
      destruct Hnew' as (N1 & N2 & N3).
      repeat split; lia.
    + assert (Hp : gameState h <> PLAYING) by (intros Hp; rewrite Hp in E; discriminate).
      destruct (gameLoop_idle_fields cfg rnd t h Hp) as (-> & _ & _ & -> & _ & -> & _).
      repeat split; assumption.
  - intros h now Hh. exact Hh.
  - intros h _. destruct (startGame_fields cfg h) as (_ & -> & -> & _ & -> & _).
    cbn. rewrite Z.div_0_l by lia. lia.
  - intros h Hh.
    destruct (bird_jump_fields rnd h) as (_ & _ & _ & _ & _ & _ & -> & -> & -> & _).
    exact Hh.
  - intros h now Hh. unfold pauseGame. destruct (gameState h); exact Hh.
  - intros h v Hh. exact Hh.
Qed.

End EnhancedScoreBound.

(** X9. The score is bounded by the frame counter: in every reachable
    state, the score plus the number of pipes not yet counted, and the
    number of pipes, are at most [frame / spawnInterval] (rounded down), the
    number of pipes spawned since the game started. In particular there is
    no pipe and no point before the frame counter reaches the spawn
    interval. *)
Theorem score_bounded_by_frames
  (cfg : Enhanced.Config) (rnd : nat -> Q) (stored : option string) (t0 : Q)
  (g : Enhanced.Game)
  (interval_pos : (0 < Enhanced.pipe_spawnInterval cfg)%Z) :
  Enhanced.reachable cfg rnd stored t0 g ->
  let spawned := (Enhanced.frame g / Enhanced.pipe_spawnInterval cfg)%Z in
  (0 <= Enhanced.frame g)%Z
  /\ (0 <= Enhanced.score g)%Z
  /\ (Enhanced.score g + Z.of_nat (length (unscored (Enhanced.pipes g))) <= spawned)%Z
  /\ (Z.of_nat (length (Enhanced.pipes g)) <= spawned)%Z
  /\ ((Enhanced.frame g < Enhanced.pipe_spawnInterval cfg)%Z ->
      Enhanced.pipes g = [] /\ Enhanced.score g = 0%Z).
Proof.
  intros Hr spawned.
  destruct (reachable_score_bound cfg rnd stored t0 interval_pos g Hr)
    as (Hf & Hs & Hu & Hl).
  fold spawned in Hu, Hl.
  repeat split; try assumption.
  - assert (spawned = 0%Z) by (apply Z.div_small; lia).
    destruct (Enhanced.pipes g); [reflexivity | cbn in Hl; lia].
  - assert (spawned = 0%Z) by (apply Z.div_small; lia). lia.
Qed.

Lemma score_bounded_by_frames_witness :
  ((0 < Enhanced.pipe_spawnInterval Enhanced.CONFIG)%Z
   /\ Enhanced.reachable Enhanced.CONFIG Math_random_half None 0 game_started)
  /\ (Enhanced.frame game_started < 120)%Z
  /\ Enhanced.pipes game_started = [] /\ Enhanced.score game_started = 0%Z.
Proof.
  pose (R := Enhanced.reachable_jump Enhanced.CONFIG Math_random_half None 0 _ 1000
               (Enhanced.reachable_init _ _ _ _)).
  split; [split; [reflexivity | exact R]|].
  split; [reflexivity|].
  exact (proj2 (proj2 (proj2 (proj2
           (score_bounded_by_frames Enhanced.CONFIG Math_random_half None 0
              game_started eq_refl R)))) eq_refl).
Defined.

(** ** Pause and input *)

Section EnhancedInput.

Import Enhanced.

Variable cfg : Config.
Variable rnd : nat -> Q.

Lemma same_game_refl g : same_game g g.
Proof. unfold same_game. repeat split. Qed.

Lemma same_game_trans g1 g2 g3 : same_game g1 g2 -> same_game g2 g3 -> same_game g1 g3.
Proof. unfold same_game. intuition congruence. Qed.

(** Outside the [PLAYING] state a frame leaves the game alone. *)
Lemma gameLoop_idle_same t g :
  gameState g <> PLAYING ->
  same_game g (gameLoop cfg rnd t g)
  /\ gameState (gameLoop cfg rnd t g) = gameState g
  /\ lastJumpTime (gameLoop cfg rnd t g) = lastJumpTime g.
Proof.
  intros Hs. rewrite (gameLoop_idle cfg rnd t g Hs).
  destruct (gameLoop_head_footprint cfg rnd t g) as (cl & mo & d & ->).
  unfold same_game. repeat split.
Qed.

(** While the game is paused, no event other than the pause key changes the
    game. *)
Lemma handle_paused e g :
  gameState g = PAUSED -> is_PauseKey e = false ->
  same_game g (handle cfg rnd e g) /\ gameState (handle cfg rnd e g) = PAUSED.
Proof.
  intros Hs He. destruct e as [t | now | now |]; try discriminate; cbn [handle].
  - destruct (gameLoop_idle_same t g) as (H1 & H2 & _); [congruence|].
    split; [exact H1 | congruence].
  - unfold handleJump. destruct (Qltb _ _); [split; [apply same_game_refl | exact Hs]|].
    cbn [gameState set_lastJumpTime]. rewrite Hs.
    split; [unfold same_game; repeat split | exact Hs].
  - split; [unfold same_game; repeat split | exact Hs].
Qed.

Lemma run_paused es g :
  gameState g = PAUSED -> forallb (fun e => negb (is_PauseKey e)) es = true ->
  same_game g (run_events cfg rnd es g) /\ gameState (run_events cfg rnd es g) = PAUSED.
Proof.
  revert g. induction es as [|e es IH]; intros g Hs Hes.
  - split; [apply same_game_refl | exact Hs].
  - cbn [forallb] in Hes. apply andb_true_iff in Hes. destruct Hes as (He & Hes).
    apply negb_true_iff in He.
    destruct (handle_paused e g Hs He) as (H1 & H2).
    destruct (IH (handle cfg rnd e g) H2 Hes) as (H3 & H4).
    cbn [run_events List.fold_left]. split; [|exact H4].
    eapply same_game_trans; [exact H1 | exact H3].
Qed.

(** No function of the script other than [handleJump] assigns
    [lastJumpTime]. *)
Lemma gameLoop_lastJumpTime t g :
  lastJumpTime (gameLoop cfg rnd t g) = lastJumpTime g.
Proof.
  destruct (GameState_eqb (gameState g) PLAYING) eqn:E.
  - assert (Hs : gameState g = PLAYING) by (destruct (gameState g); now try discriminate).
    destruct (gameLoop_playing_effect cfg rnd t g Hs)
      as (g3 & (_ & _ & _ & _ & J3 & _) & _ & ps & ->).
    destruct (gameLoop_spawn_fields cfg rnd t g) as (_ & _ & _ & _ & _ & _ & _ & J1 & _).
    cbn [lastJumpTime set_particles]. congruence.
  - assert (Hs : gameState g <> PLAYING) by (intros Hs; rewrite Hs in E; discriminate).
    now destruct (gameLoop_idle_same t g Hs) as (_ & _ & ->).
Qed.

Lemma bird_jump_lastJumpTime g : lastJumpTime (bird_jump rnd g) = lastJumpTime g.
Proof.
  unfold bird_jump. cbv zeta.
  match goal with
  | |- context [emit rnd ?n ?x ?y ?c ?gg] =>
      destruct (emit_footprint rnd n x y c gg) as (ps & d & -> & _)
  end.
  reflexivity.
Qed.

(** An accepted jump input records its time. *)
Lemma handleJump_accepted now g :
  jumpCooldown <= now - lastJumpTime g ->
  lastJumpTime (handleJump cfg rnd now g) = now.
Proof.
  intros Hc. unfold handleJump. apply Qltb_ge in Hc. rewrite Hc.
  cbn [gameState set_lastJumpTime].
  destruct (gameState g); rewrite ?bird_jump_lastJumpTime; reflexivity.
Qed.

Lemma handle_lastJumpTime e g :
  is_Jump e = false -> lastJumpTime (handle cfg rnd e g) = lastJumpTime g.
Proof.
  intros He. destruct e as [t | now | now |]; try discriminate; cbn [handle].
  - apply gameLoop_lastJumpTime.
  - unfold pauseGame. destruct (gameState g); reflexivity.
  - reflexivity.
Qed.

Lemma run_lastJumpTime es g :
  forallb (fun e => negb (is_Jump e)) es = true ->
  lastJumpTime (run_events cfg rnd es g) = lastJumpTime g.
Proof.
  revert g. induction es as [|e es IH]; intros g Hes; [reflexivity|].
  cbn [forallb] in Hes. apply andb_true_iff in Hes. destruct Hes as (He & Hes).
  apply negb_true_iff in He. cbn [run_events List.fold_left].
  change (lastJumpTime (run_events cfg rnd es (handle cfg rnd e g)) = lastJumpTime g).
  rewrite (IH _ Hes). now apply handle_lastJumpTime.
Qed.

End EnhancedInput.

(** X10. Pausing freezes the game and resuming takes it up where it was:
    when the pause key is pressed in the [PLAYING] state, whatever frames,
    clicks and debug keys follow leave the state [PAUSED] and the score, the
    best score, the frame counter, the ground offset, the difficulty, the
    bird, the pipes and the particles untouched; the next pause key, at time
    [now2], returns to [PLAYING] with all of them as they were and restarts
    the frame clock at [now2], so that the delta of the next frame does not
    count the pause. *)
Theorem pause_then_resume
  (cfg : Enhanced.Config) (rnd : nat -> Q) (g : Enhanced.Game) (now1 now2 : Q)
  (es : list Enhanced.Event) :
  Enhanced.gameState g = PLAYING ->
  forallb (fun e => negb (is_PauseKey e)) es = true ->
  let paused := run_events cfg rnd es (Enhanced.handle cfg rnd (Enhanced.PauseKey now1) g) in
  let resumed := Enhanced.handle cfg rnd (Enhanced.PauseKey now2) paused in
  (Enhanced.gameState paused = PAUSED /\ same_game g paused)
  /\ (Enhanced.gameState resumed = PLAYING /\ same_game g resumed)
  /\ Enhanced.lastFrameTime resumed = now2
  /\ forall t, Enhanced.deltaTime (Enhanced.gameLoop cfg rnd t resumed)
               = Math_min (t - now2) 100.
Proof.
  intros Hs Hes paused resumed.
  set (g1 := Enhanced.handle cfg rnd (Enhanced.PauseKey now1) g) in *.
  assert (H1 : Enhanced.gameState g1 = PAUSED /\ same_game g g1).
  { unfold g1. cbn [Enhanced.handle]. rewrite Hs. unfold Enhanced.pauseGame. rewrite Hs.
    split; [reflexivity | unfold same_game; repeat split]. }
  destruct H1 as (P1 & S1).
  destruct (run_paused cfg rnd es g1 P1 Hes) as (S2 & P2). fold paused in S2, P2.
  assert (H3 : Enhanced.gameState resumed = PLAYING /\ same_game paused resumed
               /\ Enhanced.lastFrameTime resumed = now2).
  { unfold resumed. cbn [Enhanced.handle]. rewrite P2. unfold Enhanced.pauseGame.
    rewrite P2. split; [reflexivity|]. split; [unfold same_game; repeat split | reflexivity]. }
  destruct H3 as (P3 & S3 & L3).
  pose proof (same_game_trans _ _ _ S1 S2) as S12.
  split; [split; assumption|].
  split; [split; [exact P3 | exact (same_game_trans _ _ _ S12 S3)]|].
  split; [exact L3|].
  intros t. destruct (gameLoop_clock_fields cfg rnd t resumed) as (_ & ->).
  now rewrite L3.
Qed.

Lemma pause_then_resume_witness :
  let es := [Enhanced.Frame 1100; Enhanced.Jump 1200; Enhanced.DebugKey;
             Enhanced.Frame 1300] in
  let paused := run_events Enhanced.CONFIG Math_random_half es
                  (Enhanced.handle Enhanced.CONFIG Math_random_half
                     (Enhanced.PauseKey 1050) game_started) in
  let resumed := Enhanced.handle Enhanced.CONFIG Math_random_half
                   (Enhanced.PauseKey 5000) paused in
  (Enhanced.gameState game_started = PLAYING
   /\ forallb (fun e => negb (is_PauseKey e)) es = true)
  /\ Enhanced.gameState resumed = PLAYING
  /\ same_game game_started resumed
  /\ Enhanced.lastFrameTime resumed = 5000.
Proof.
  pose (T := pause_then_resume Enhanced.CONFIG Math_random_half game_started 1050 5000
               [Enhanced.Frame 1100; Enhanced.Jump 1200; Enhanced.DebugKey;
                Enhanced.Frame 1300] eq_refl eq_refl).
  exact (conj (conj eq_refl eq_refl)
           (conj (proj1 (proj1 (proj2 T)))
              (conj (proj2 (proj1 (proj2 T))) (proj1 (proj2 (proj2 T)))))).
Defined.

(** X11. Jump inputs are rate limited: once a jump input has been accepted
    at time [now0] (at least 100 ms after the previous one), a jump input
    less than 100 ms later is ignored altogether, whatever frames and keys
    came in between: it changes nothing, not even in the [START] or
    [GAME_OVER] state. *)
Theorem jump_cooldown
  (cfg : Enhanced.Config) (rnd : nat -> Q) (g : Enhanced.Game) (now0 now1 : Q)
  (es : list Enhanced.Event) :
  Enhanced.jumpCooldown <= now0 - Enhanced.lastJumpTime g ->
  forallb (fun e => negb (is_Jump e)) es = true ->
  now1 - now0 < Enhanced.jumpCooldown ->
  let h := run_events cfg rnd es (Enhanced.handle cfg rnd (Enhanced.Jump now0) g) in
  Enhanced.lastJumpTime h = now0
  /\ Enhanced.handle cfg rnd (Enhanced.Jump now1) h = h.
Proof.
  intros Hc Hes Hlt h.
  assert (Hl : Enhanced.lastJumpTime h = now0).
  { unfold h. rewrite (run_lastJumpTime cfg rnd es _ Hes). cbn [Enhanced.handle].
    now apply handleJump_accepted. }
  split; [exact Hl|].
  cbn [Enhanced.handle]. unfold Enhanced.handleJump. rewrite Hl.
  apply Qltb_lt in Hlt. now rewrite Hlt.
Qed.

Lemma jump_cooldown_witness :
  let h := run_events Enhanced.CONFIG Math_random_half [Enhanced.Frame 1016; Enhanced.Frame 1033]
             (Enhanced.handle Enhanced.CONFIG Math_random_half (Enhanced.Jump 1000)
                game_loaded) in
  (Enhanced.jumpCooldown <= 1000 - Enhanced.lastJumpTime game_loaded
   /\ forallb (fun e => negb (is_Jump e)) [Enhanced.Frame 1016; Enhanced.Frame 1033] = true
   /\ 1050 - 1000 < Enhanced.jumpCooldown)
  /\ Enhanced.handle Enhanced.CONFIG Math_random_half (Enhanced.Jump 1050) h = h.
Proof.
  assert (H1 : Enhanced.jumpCooldown <= 1000 - Enhanced.lastJumpTime game_loaded)
    by (vm_compute; discriminate).
  assert (H2 : 1050 - 1000 < Enhanced.jumpCooldown) by reflexivity.
  exact (conj (conj H1 (conj eq_refl H2))
           (proj2 (jump_cooldown Enhanced.CONFIG Math_random_half game_loaded 1000 1050
                     [Enhanced.Frame 1016; Enhanced.Frame 1033] H1 eq_refl H2))).
Defined.

(** ** A run up to the first pipe *)

Section EnhancedRun.

Import Enhanced.

Variable cfg : Config.
Variable rnd : nat -> Q.

(** A property that the initial globals have and every event in time keeps
    holds in every reachable state. *)
Lemma reachable_from_handle stored t0 (P : Game -> Prop) :
  P (initialGame cfg rnd stored t0) ->
  (forall g e, event_in_time g e -> P g -> P (handle cfg rnd e g)) ->
  forall g, reachable cfg rnd stored t0 g -> P g.
Proof.
  intros Hinit Hstep g Hr.
  induction Hr as [|g t Hr IH Ht|g now Hr IH|g now Hr IH|g Hr IH].
  - exact Hinit.
  - apply Hstep; [exact Ht | exact IH].
  - apply Hstep; [exact I | exact IH].
  - apply Hstep; [exact I | exact IH].
  - apply Hstep; [exact I | exact IH].
Qed.

(** An accepted click in the [START] or in the [PLAYING] state. *)
Lemma handleJump_flap now g :
  jumpCooldown <= now - lastJumpTime g ->
  gameState g = PLAYING \/ (gameState g = START /\ frame g = 0%Z /\ pipes g = []) ->
  let g' := handleJump cfg rnd now g in
  gameState g' = PLAYING /\ frame g' = frame g /\ pipes g' = pipes g
  /\ Bird.velocity (bird g') = Bird.jumpStrength (bird g)
  /\ lastFrameTime g' = lastFrameTime g /\ lastJumpTime g' = now.
Proof.
  intros Hc Hs. cbv zeta.
  pose proof (handleJump_accepted cfg rnd now g Hc) as HJ.
  split; [|split; [|split; [|split; [|split; [|exact HJ]]]]];
    unfold handleJump; apply Qltb_ge in Hc; rewrite Hc; cbv zeta;
    cbn [gameState set_lastJumpTime];
    (destruct Hs as [Hs | (Hs & Hf & Hp)]; rewrite Hs;
     [ destruct (bird_jump_fields rnd (set_lastJumpTime now g))
         as (V & _ & _ & _ & _ & S & _ & P & F & _)
     | destruct (bird_jump_fields rnd (startGame cfg (set_lastJumpTime now g)))
         as (V & _ & _ & _ & _ & S & _ & P & F & _) ]).
  - rewrite S. exact Hs.
  - rewrite S. reflexivity.
  - rewrite F. reflexivity.
  - rewrite F, Hf. reflexivity.
  - rewrite P. reflexivity.
  - rewrite P, Hp. reflexivity.
  - rewrite V. reflexivity.
  - rewrite V. reflexivity.
  - unfold bird_jump. cbv zeta.
    match goal with
    | |- context [emit rnd ?n ?x ?y ?c ?gg] =>
        destruct (emit_footprint rnd n x y c gg) as (ps & d & -> & _)
    end.
    reflexivity.
  - unfold bird_jump. cbv zeta.
    match goal with
    | |- context [emit rnd ?n ?x ?y ?c ?gg] =>
        destruct (emit_footprint rnd n x y c gg) as (ps & d & -> & _)
    end.
    reflexivity.
Qed.

(** A click never touches the time of the last frame. *)
Lemma handleJump_lastFrameTime now g :
  lastFrameTime (handleJump cfg rnd now g) = lastFrameTime g.
Proof.
  unfold handleJump. destruct (Qltb _ _); [reflexivity|]. cbv zeta.
  cbn [gameState set_lastJumpTime].
  destruct (gameState g); try reflexivity; unfold bird_jump; cbv zeta;
    match goal with
    | |- context [emit rnd ?n ?x ?y ?c ?gg] =>
        destruct (emit_footprint rnd n x y c gg) as (ps & d & -> & _)
    end; reflexivity.
Qed.

(** A frame of the [PLAYING] state without pipes in which the bird does not
    pass the ground line leaves the game in progress. *)
Lemma frame_without_hit t g :
  gameState g = PLAYING -> pipes g = [] -> ~ spawn_due cfg (frame g) ->
  let dt := Math_min (t - lastFrameTime g) 100 in
  let b := bird_integrate cfg dt (bird g) in
  0 <= canvas_height cfg - ground_height cfg - Bird.height b ->
  Bird.y b + Bird.height b <= canvas_height cfg - ground_height cfg ->
  let g' := gameLoop cfg rnd t g in
  gameState g' = PLAYING /\ frame g' = (frame g + 1)%Z /\ pipes g' = [].
Proof.
  intros Hs Hp Hdue dt b Hroom Hle g'.
  destruct (gameLoop_playing_fields cfg rnd t g Hs) as (F & _).
  destruct (gameLoop_pass cfg rnd t g Hs) as (_ & P).
  destruct (gameLoop_spawn_pipes cfg rnd t g) as (new & Hl & Hnew).
  assert (Hn : new = []).
  { destruct Hnew as [(-> & _) | (H & _)]; [reflexivity | contradiction]. }
  subst new. rewrite Hp in Hl. cbn [app] in Hl.
  rewrite Hl in P. cbn in P.
  split; [|split; [exact F | exact P]].
  unfold g'. rewrite (gameLoop_playing cfg rnd t g Hs). cbv zeta.
  destruct (gameLoop_spawn_fields cfg rnd t g)
    as (S1 & _ & _ & _ & _ & _ & Bd1 & _ & _ & D1 & _).
  generalize dependent
    (gameLoop_spawn cfg rnd (gameLoop_background cfg rnd (gameLoop_clock t g))).
  intros g1 Hl S1 Bd1 D1. fold dt in D1. rewrite D1.
  destruct (bird_update_ground cfg rnd dt g1) as (_ & Hok).
  { rewrite Bd1. exact Hroom. }
  rewrite Bd1 in Hok. destruct (Hok Hle) as (S2 & _).
  destruct (bird_update_effect cfg rnd dt g1) as (_ & P2).
  generalize dependent (bird_update cfg rnd dt g1). intros g2 _ S2 P2.
  destruct (gameLoop_particles_kept cfg (pipesLoop cfg rnd (length (pipes g2)) g2))
    as (_ & _ & _ & _ & _ & _ & _ & _ & S4 & _).
  rewrite S4, P2, Hl. cbn [length pipesLoop]. congruence.
Qed.

(** The frame that spawns the first pipe: the pipe is still on the screen
    after its first move. *)
Lemma frame_first_pipe t g :
  gameState g = PLAYING -> pipes g = [] -> spawn_due cfg (frame g) ->
  let dt := Math_min (t - lastFrameTime g) 100 in
  0 <= canvas_width cfg
       - pipe_baseSpeed cfg * difficultyMultiplier g * normalizedDt cfg dt
       + pipe_width cfg ->
  length (pipes (gameLoop cfg rnd t g)) = 1%nat.
Proof.
  intros Hs Hp Hdue dt Hon.
  destruct (gameLoop_pass cfg rnd t g Hs) as (_ & P).
  destruct (gameLoop_spawn_pipes cfg rnd t g) as (new & Hl & Hnew).
  rewrite P, Hl, Hp. cbn [app]. fold dt.
  destruct Hnew as [(_ & Hn) | (_ & h & -> & _ & M)]; [contradiction|].
  cbn [List.map List.filter].
  assert (Ht : on_screen (Pipe_tick cfg dt (Bird.x (bird g)) (fst (new_Pipe cfg rnd h)))
               = true).
  { apply on_screen_tick. unfold new_Pipe, random. cbn. rewrite M. exact Hon. }
  rewrite Ht. reflexivity.
Qed.

End EnhancedRun.

(** The run [flapping]. *)
Lemma flapping_lastFrameTime k :
  Enhanced.lastFrameTime (flapping k) <= round_time k.
Proof.
  destruct k as [|k]; cbn [flapping round_time Enhanced.handle].
  - rewrite (proj1 (gameLoop_clock_fields Enhanced.CONFIG Math_random_half 500 _)).
    discriminate.
  - rewrite (proj1 (gameLoop_clock_fields Enhanced.CONFIG Math_random_half _ _)). lra.
Qed.

Lemma flapping_reachable k :
  Enhanced.reachable Enhanced.CONFIG Math_random_half None 0 (flapping k).
Proof.
  induction k as [|k IH]; cbn [flapping].
  - apply Enhanced.reachable_frame; [apply Enhanced.reachable_init|].
    destruct (initialGame_footprint Enhanced.CONFIG Math_random_half None 0)
      as (cl & d & ->).
    cbn. discriminate.
  - apply Enhanced.reachable_frame; [apply Enhanced.reachable_jump, IH|].
    cbn [Enhanced.handle]. rewrite handleJump_lastFrameTime.
    apply flapping_lastFrameTime.
Qed.

Lemma CONFIG_room :
  0 <= Enhanced.canvas_height Enhanced.CONFIG / 2
  /\ Enhanced.canvas_height Enhanced.CONFIG / 2 + Enhanced.bird_height Enhanced.CONFIG
     <= Enhanced.canvas_height Enhanced.CONFIG - Enhanced.ground_height Enhanced.CONFIG.
Proof. split; discriminate. Qed.

Lemma CONFIG_reachable_bird g :
  Enhanced.reachable Enhanced.CONFIG Math_random_half None 0 g ->
  bird_in_field Enhanced.CONFIG (Enhanced.bird g)
  /\ bird_ok Enhanced.CONFIG (Enhanced.bird g).
Proof.
  intros Hr. split.
  - revert g Hr.
    apply (reachable_from_handle Enhanced.CONFIG Math_random_half None 0
             (fun g => bird_in_field Enhanced.CONFIG (Enhanced.bird g))).
    + destruct (initialGame_footprint Enhanced.CONFIG Math_random_half None 0)
        as (cl & d & ->).
      unfold bird_in_field. cbn. repeat split; discriminate.
    + intros g e _. apply handle_bird_in_field. exact CONFIG_room.
  - apply (reachable_bird_ok Enhanced.CONFIG Math_random_half) with (stored := None) (t0 := 0);
      try discriminate; [reflexivity | exact Hr].
Qed.

(** After a click the bird does not come nearer to the ground within a
    frame of at most 100 ms. *)
Lemma jump_then_integrate dt b :
  0 <= dt -> dt <= 100 ->
  bird_in_field Enhanced.CONFIG b -> bird_ok Enhanced.CONFIG b ->
  Bird.velocity b = Enhanced.bird_jumpStrength Enhanced.CONFIG ->
  Bird.y (Enhanced.bird_integrate Enhanced.CONFIG dt b)
  + Bird.height (Enhanced.bird_integrate Enhanced.CONFIG dt b)
  <= Enhanced.canvas_height Enhanced.CONFIG - Enhanced.ground_height Enhanced.CONFIG.
Proof.
  intros H0 H100 (_ & _ & Hh & Hy0 & Hy) (Hg & _ & Ht & _) Hv.
  assert (Hfps : 0 < Enhanced.physics_targetFPS Enhanced.CONFIG) by reflexivity.
  pose proof (normalizedDt_nonneg Enhanced.CONFIG Hfps dt H0) as Hn0.
  pose proof (normalizedDt_mono Enhanced.CONFIG dt 100 Hfps H100) as Hn1.
  assert (H6 : Enhanced.normalizedDt Enhanced.CONFIG 100 == 6) by reflexivity.
  rewrite H6 in Hn1.
  unfold Enhanced.bird_integrate. cbn.
  set (n := Enhanced.normalizedDt Enhanced.CONFIG dt) in *.
  pose proof (Q.le_min_l (Bird.velocity b + Bird.gravity b * n) (Bird.terminalVelocity b))
    as Hmin.
  unfold Math_min. rewrite Hv, Hg in *. cbn in Hmin, Hy |- *.
  set (v := Qmin (-10 + 0.6 * n) (Bird.terminalVelocity b)) in *.
  nra.
Qed.

Lemma flapping_lastJumpTime k :
  Enhanced.lastJumpTime (flapping k) + 100 <= round_time k.
Proof.
  induction k as [|k IH]; cbn [flapping round_time Enhanced.handle].
  - rewrite gameLoop_lastJumpTime.
    destruct (initialGame_footprint Enhanced.CONFIG Math_random_half None 0)
      as (cl & d & ->).
    cbn. discriminate.
  - rewrite gameLoop_lastJumpTime.
    enough (H : Enhanced.lastJumpTime
                  (Enhanced.handleJump Enhanced.CONFIG Math_random_half (round_time k)
                     (flapping k))
                <= round_time k) by lra.
    unfold Enhanced.handleJump. destruct (Qltb _ _) eqn:E.
    + lra.
    + cbv zeta. cbn [Enhanced.gameState Enhanced.set_lastJumpTime].
      destruct (Enhanced.gameState (flapping k));
        rewrite ?bird_jump_lastJumpTime; cbn; lra.
Qed.

(** The game is in progress, without a pipe, for 119 rounds. *)
Lemma flapping_playing k :
  (k < 120)%nat ->
  let g := flapping k in
  (Enhanced.gameState g = PLAYING
   \/ (Enhanced.gameState g = START /\ Enhanced.frame g = 0%Z /\ Enhanced.pipes g = []))
  /\ Enhanced.frame g = Z.of_nat k /\ Enhanced.pipes g = [].
Proof.
  induction k as [|k IH]; intros Hk; cbv zeta.
  - cbn [flapping Enhanced.handle].
    assert (Hs : Enhanced.gameState (Enhanced.initialGame Enhanced.CONFIG Math_random_half
                                       None 0) <> PLAYING).
    { destruct (initialGame_footprint Enhanced.CONFIG Math_random_half None 0)
        as (cl & d & ->).
      cbn. discriminate. }
    destruct (gameLoop_idle_fields Enhanced.CONFIG Math_random_half 500 _ Hs)
      as (F & _ & _ & P & _ & _ & S).
    rewrite F, P, S.
    destruct (initialGame_footprint Enhanced.CONFIG Math_random_half None 0)
      as (cl & d & ->).
    cbn. split; [right; repeat split | split; reflexivity].
  - destruct IH as (S & F & P); [lia|].
    pose proof (flapping_lastJumpTime k) as HJ.
    pose proof (flapping_lastFrameTime k) as HF.
    destruct (CONFIG_reachable_bird _ (flapping_reachable k)) as (_ & (_ & Hjs & _)).
    destruct (handleJump_flap Enhanced.CONFIG Math_random_half (round_time k) (flapping k))
      as (S1 & F1 & P1 & V1 & T1 & _); [unfold Enhanced.jumpCooldown; lra | exact S|].
    destruct (CONFIG_reachable_bird _
                (Enhanced.reachable_jump _ _ _ _ _ (round_time k) (flapping_reachable k)))
      as (Bf1 & Bo1).
    cbn [Enhanced.handle] in Bf1, Bo1.
    cbn [flapping Enhanced.handle].
    destruct (frame_without_hit Enhanced.CONFIG Math_random_half (round_time k)
                (Enhanced.handleJump Enhanced.CONFIG Math_random_half (round_time k)
                   (flapping k)))
      as (S' & F' & P').
    + exact S1.
    + congruence.
    + unfold spawn_due. rewrite F1, F. cbn [Enhanced.pipe_spawnInterval Enhanced.CONFIG].
      intros (_ & H). rewrite Z.rem_small in H by lia. lia.
    + destruct Bf1 as (_ & _ & Hh & _).
      change (Bird.height
                (Enhanced.bird_integrate Enhanced.CONFIG
                   (Math_min
                      (round_time k
                       - Enhanced.lastFrameTime
                           (Enhanced.handleJump Enhanced.CONFIG Math_random_half
                              (round_time k) (flapping k))) 100)
                   (Enhanced.bird
                      (Enhanced.handleJump Enhanced.CONFIG Math_random_half
                         (round_time k) (flapping k)))))
        with (Bird.height
                (Enhanced.bird
                   (Enhanced.handleJump Enhanced.CONFIG Math_random_half
                      (round_time k) (flapping k)))).
      rewrite Hh. discriminate.
    + apply jump_then_integrate; try assumption.
      * apply frame_delta_nonneg. rewrite T1. exact HF.
      * unfold Math_min. apply Q.le_min_r.
      * rewrite V1. exact Hjs.
    + split; [left; exact S'|]. split; [|exact P'].
      rewrite F', F1, F. lia.
Qed.

(** The 120th frame spawns the first pipe. *)
Lemma flapping_spawn k :
  k = 119%nat -> length (Enhanced.pipes (flapping (S k))) = 1%nat.
Proof.
  intros Hk.
  destruct (flapping_playing k) as (S & F & P); [lia|].
  pose proof (flapping_lastJumpTime k) as HJ.
  pose proof (flapping_lastFrameTime k) as HF.
  destruct (handleJump_flap Enhanced.CONFIG Math_random_half (round_time k) (flapping k))
    as (S1 & F1 & P1 & V1 & T1 & _); [unfold Enhanced.jumpCooldown; lra | exact S|].
  pose proof (Enhanced.reachable_jump _ _ _ _ _ (round_time k) (flapping_reachable k))
    as R1.
  cbn [Enhanced.handle] in R1.
  destruct (reachable_difficulty_of_score Enhanced.CONFIG Math_random_half None 0) with
    (g := Enhanced.handleJump Enhanced.CONFIG Math_random_half (round_time k) (flapping k))
    as (Hsc & Hd); try discriminate; [exact R1|].
  cbn [flapping Enhanced.handle].
  apply frame_first_pipe; [exact S1 | congruence | |].
  - unfold spawn_due. rewrite F1, F, Hk. split; [discriminate | reflexivity].
  - assert (Hfps : 0 < Enhanced.physics_targetFPS Enhanced.CONFIG) by reflexivity.
    set (dt := Math_min _ 100).
    assert (H0 : 0 <= dt) by (apply frame_delta_nonneg; rewrite T1; exact HF).
    assert (H100 : dt <= 100) by (unfold dt, Math_min; apply Q.le_min_r).
    pose proof (normalizedDt_nonneg Enhanced.CONFIG Hfps dt H0) as Hn0.
    pose proof (normalizedDt_mono Enhanced.CONFIG dt 100 Hfps H100) as Hn1.
    assert (H6 : Enhanced.normalizedDt Enhanced.CONFIG 100 == 6) by reflexivity.
    rewrite H6 in Hn1.
    unfold difficulty_of_score in Hd. cbn [Enhanced.difficulty_enabled Enhanced.CONFIG] in Hd.
    destruct Hd as (Hm & _).
    set (m := Enhanced.difficultyMultiplier _) in *.
    set (n := Enhanced.normalizedDt Enhanced.CONFIG dt) in *.
    assert (Hm1 : m <= 1.8) by (rewrite Hm; apply Q.le_min_r).
    assert (Hm0 : 1 <= m).
    { rewrite Hm. apply Q.min_glb; [|discriminate].
      assert (0 <= inject_Z (Enhanced.score
                               (Enhanced.handleJump Enhanced.CONFIG Math_random_half
                                  (round_time k) (flapping k)))).
      { change 0 with (inject_Z 0). rewrite <- Zle_Qle. exact Hsc. }
      cbn. nra. }
    cbn. nra.
Qed.

Lemma flapping_first_pipe : length (Enhanced.pipes (flapping 120)) = 1%nat.
Proof. exact (flapping_spawn 119 eq_refl). Qed.

(** X7. Every pipe is well formed: in every reachable state, each pipe has
    the width of the configuration; its gap lies between the floor and the
    base gap of the difficulty ramp, starts at least [minHeight] below the
    ceiling and ends at least 50 pixels above the ground; its speed lies
    between the base speed and the capped speed; it lies between the point
    where it has just left the canvas and the right edge of the canvas; its
    highlight phase lies in [0, 20). *)
Theorem pipes_well_formed
  (cfg : Enhanced.Config) (rnd : nat -> Q) (stored : option string) (t0 : Q)
  (g : Enhanced.Game)
  (rnd_range : random_in_range rnd) (cfg_sane : Config_sane cfg) :
  Enhanced.reachable cfg rnd stored t0 g ->
  Forall (pipe_ok cfg) (Enhanced.pipes g).
Proof. apply reachable_pipes_ok; assumption. Qed.

Lemma pipes_well_formed_witness :
  let g := flapping 120 in
  (random_in_range Math_random_half /\ Config_sane Enhanced.CONFIG
   /\ Enhanced.reachable Enhanced.CONFIG Math_random_half None 0 g
   /\ length (Enhanced.pipes g) = 1%nat)
  /\ Forall (pipe_ok Enhanced.CONFIG) (Enhanced.pipes g).
Proof.
  exact (conj (conj Math_random_half_in_range
                 (conj CONFIG_sane (conj (flapping_reachable 120) flapping_first_pipe)))
           (pipes_well_formed Enhanced.CONFIG Math_random_half None 0 (flapping 120)
              Math_random_half_in_range CONFIG_sane (flapping_reachable 120))).
Defined.

(** ** The clock and the scenery at start-up *)

Section EnhancedStartup.

Variable cfg : Enhanced.Config.
Variable rnd : nat -> Q.

(** With a delta that is NaN a cloud loses its position and nothing else;
    no random value is consumed. *)
Lemma Cloud_update_NaN_dt c d :
  NaN.Cloud_update cfg rnd None c d
  = ({| NaN.CloudN.x := None;
        NaN.CloudN.y := NaN.CloudN.y c;
        NaN.CloudN.layer := NaN.CloudN.layer c;
        NaN.CloudN.speed := NaN.CloudN.speed c;
        NaN.CloudN.size := NaN.CloudN.size c;
        NaN.CloudN.opacity := NaN.CloudN.opacity c |}, d).
Proof.
  unfold NaN.Cloud_update, NaN.normalizedDt. cbv zeta.
  destruct (NaN.CloudN.x c); reflexivity.
Qed.

(** A cloud whose position is NaN is left as it is, whatever the delta. *)
Lemma Cloud_update_NaN_x dt c d :
  NaN.CloudN.x c = None -> NaN.Cloud_update cfg rnd dt c d = (c, d).
Proof.
  intros Hx. unfold NaN.Cloud_update. cbv zeta. rewrite Hx.
  destruct c; cbn in *. subst. reflexivity.
Qed.

Lemma clouds_forEach_NaN_dt todo done d :
  NaN.clouds_forEach cfg rnd None todo done d
  = (done ++ List.map (fun c =>
                         {| NaN.CloudN.x := None;
                            NaN.CloudN.y := NaN.CloudN.y c;
                            NaN.CloudN.layer := NaN.CloudN.layer c;
                            NaN.CloudN.speed := NaN.CloudN.speed c;
                            NaN.CloudN.size := NaN.CloudN.size c;
                            NaN.CloudN.opacity := NaN.CloudN.opacity c |}) todo, d).
Proof.
  revert done. induction todo as [|c todo IH]; intros done.
  - cbn. now rewrite app_nil_r.
  - cbn [NaN.clouds_forEach List.map]. rewrite Cloud_update_NaN_dt, IH.
    rewrite <- app_assoc. reflexivity.
Qed.

Lemma clouds_forEach_NaN_x dt todo done d :
  Forall (fun c => NaN.CloudN.x c = None) todo ->
  NaN.clouds_forEach cfg rnd dt todo done d = (done ++ todo, d).
Proof.
  revert done. induction todo as [|c todo IH]; intros done Hx.
  - cbn. now rewrite app_nil_r.
  - apply Forall_cons in Hx. destruct Hx as (Hc & Hx).
    cbn [NaN.clouds_forEach]. rewrite (Cloud_update_NaN_x dt c d Hc), (IH _ Hx).
    rewrite <- app_assoc. reflexivity.
Qed.

Lemma Mountain_update_NaN_dt m :
  NaN.Mountain_update cfg None m
  = {| NaN.MountainN.layer := NaN.MountainN.layer m;
       NaN.MountainN.speed := NaN.MountainN.speed m;
       NaN.MountainN.offset := None;
       NaN.MountainN.color := NaN.MountainN.color m |}.
Proof.
  unfold NaN.Mountain_update, NaN.normalizedDt. cbv zeta.
  destruct (NaN.MountainN.offset m); reflexivity.
Qed.

Lemma Mountain_update_NaN_offset dt m :
  NaN.MountainN.offset m = None -> NaN.Mountain_update cfg dt m = m.
Proof.
  intros Ho. unfold NaN.Mountain_update. cbv zeta. rewrite Ho.
  destruct m; cbn in *. subst. reflexivity.
Qed.

(** The call without a time stamp. *)
Lemma gameLoop_head_undefined s :
  NaN.gameLoop_head cfg rnd None s
  = {| NaN.lastFrameTime := None;
       NaN.deltaTime := None;
       NaN.clouds :=
         List.map (fun c =>
                     {| NaN.CloudN.x := None;
                        NaN.CloudN.y := NaN.CloudN.y c;
                        NaN.CloudN.layer := NaN.CloudN.layer c;
                        NaN.CloudN.speed := NaN.CloudN.speed c;
                        NaN.CloudN.size := NaN.CloudN.size c;
                        NaN.CloudN.opacity := NaN.CloudN.opacity c |}) (NaN.clouds s);
       NaN.mountains :=
         List.map (fun m =>
                     {| NaN.MountainN.layer := NaN.MountainN.layer m;
                        NaN.MountainN.speed := NaN.MountainN.speed m;
                        NaN.MountainN.offset := None;
                        NaN.MountainN.color := NaN.MountainN.color m |})
           (NaN.mountains s);
       NaN.draws := NaN.draws s |}.
Proof.
  unfold NaN.gameLoop_head. cbv zeta.
  change (NaN.min (NaN.sub None (NaN.lastFrameTime s)) (Some 100)) with (@None Q).
  rewrite clouds_forEach_NaN_dt. cbn [app]. f_equal.
  apply List.map_ext. intros m. apply Mountain_update_NaN_dt.
Qed.

(** A frame on a scenery whose positions are NaN changes the clock only. *)
Lemma gameLoop_head_NaN t s :
  Forall (fun c => NaN.CloudN.x c = None) (NaN.clouds s) ->
  Forall (fun m => NaN.MountainN.offset m = None) (NaN.mountains s) ->
  NaN.gameLoop_head cfg rnd t s
  = {| NaN.lastFrameTime := t;
       NaN.deltaTime := NaN.min (NaN.sub t (NaN.lastFrameTime s)) (Some 100);
       NaN.clouds := NaN.clouds s;
       NaN.mountains := NaN.mountains s;
       NaN.draws := NaN.draws s |}.
Proof.
  intros Hc Hm. unfold NaN.gameLoop_head. cbv zeta.
  rewrite (clouds_forEach_NaN_x _ _ [] _ Hc). cbn [app]. f_equal.
  rewrite <- (List.map_id (NaN.mountains s)) at 2.
  apply List.map_ext_in. intros m Hin.
  apply Mountain_update_NaN_offset.
  rewrite List.Forall_forall in Hm. now apply Hm.
Qed.

Lemma frames_NaN ts s :
  Forall (fun c => NaN.CloudN.x c = None) (NaN.clouds s) ->
  Forall (fun m => NaN.MountainN.offset m = None) (NaN.mountains s) ->
  NaN.clouds (NaN.frames cfg rnd ts s) = NaN.clouds s
  /\ NaN.mountains (NaN.frames cfg rnd ts s) = NaN.mountains s
  /\ NaN.draws (NaN.frames cfg rnd ts s) = NaN.draws s.
Proof.
  revert s. induction ts as [|t ts IH]; intros s Hc Hm; [repeat split|].
  unfold NaN.frames in *. cbn [fold_left].
  pose proof (gameLoop_head_NaN t s Hc Hm) as E.
  destruct (IH (NaN.gameLoop_head cfg rnd t s)) as (C & M & D).
  - rewrite E. exact Hc.
  - rewrite E. exact Hm.
  - rewrite C, M, D, E. repeat split.
Qed.

(** Clouds and mountains without a position keep it in every frame,
    whatever the clock. *)
Lemma gameLoop_head_clouds_NaN t s :
  Forall (fun c => NaN.CloudN.x c = None) (NaN.clouds s) ->
  NaN.clouds (NaN.gameLoop_head cfg rnd t s) = NaN.clouds s
  /\ NaN.draws (NaN.gameLoop_head cfg rnd t s) = NaN.draws s.
Proof.
  intros Hc. unfold NaN.gameLoop_head. cbv zeta.
  rewrite (clouds_forEach_NaN_x _ _ [] _ Hc). split; reflexivity.
Qed.

Lemma gameLoop_head_mountains_NaN t s :
  Forall (fun m => NaN.MountainN.offset m = None) (NaN.mountains s) ->
  NaN.mountains (NaN.gameLoop_head cfg rnd t s) = NaN.mountains s.
Proof.
  intros Hm. unfold NaN.gameLoop_head. cbv zeta.
  destruct (NaN.clouds_forEach cfg rnd _ (NaN.clouds s) [] (NaN.draws s)) as [cl d].
  cbn [NaN.mountains].
  rewrite <- (List.map_id (NaN.mountains s)) at 2.
  apply List.map_ext_in. intros m Hin.
  apply Mountain_update_NaN_offset.
  rewrite List.Forall_forall in Hm. now apply Hm.
Qed.

(** The two frames that follow the call without a time stamp. *)
Lemma gameLoop_head_twice s t1 t2 :
  Forall (fun c => NaN.CloudN.x c = None) (NaN.clouds s) ->
  Forall (fun m => NaN.MountainN.offset m = None) (NaN.mountains s) ->
  NaN.lastFrameTime s = None ->
  let first := NaN.gameLoop_head cfg rnd (Some t1) s in
  let second := NaN.gameLoop_head cfg rnd (Some t2) first in
  NaN.deltaTime first = None /\ NaN.lastFrameTime first = Some t1
  /\ NaN.deltaTime second = Some (Math_min (t2 - t1) 100)
  /\ NaN.lastFrameTime second = Some t2.
Proof.
  intros Hc Hm Hl. cbv zeta.
  pose proof (gameLoop_head_NaN (Some t1) s Hc Hm) as E1. rewrite Hl in E1.
  generalize dependent (NaN.gameLoop_head cfg rnd (Some t1) s). intros s1 ->.
  rewrite gameLoop_head_NaN by assumption.
  repeat split.
Qed.

(** The scenery once the script has been evaluated. *)
Lemma scenery_loaded_eq stored t0 :
  let g0 := Enhanced.initialGame cfg rnd stored t0 in
  scenery_loaded cfg rnd stored t0
  = {| NaN.lastFrameTime := None;
       NaN.deltaTime := None;
       NaN.clouds := List.map (cloud_at None) (Enhanced.clouds g0);
       NaN.mountains :=
         [mountain_at None (Enhanced.new_Mountain 1);
          mountain_at None (Enhanced.new_Mountain 2)];
       NaN.draws := Enhanced.draws g0 |}.
Proof.
  cbv zeta. unfold scenery_loaded. rewrite gameLoop_head_undefined.
  unfold scenery_of. cbn [NaN.clouds NaN.mountains NaN.draws].
  rewrite !List.map_map.
  assert (Hm : Enhanced.mountains (Enhanced.initialGame cfg rnd stored t0)
               = [Enhanced.new_Mountain 1; Enhanced.new_Mountain 2]).
  { destruct (initialGame_footprint cfg rnd stored t0) as (cl & d & ->). reflexivity. }
  rewrite Hm. reflexivity.
Qed.

Lemma push_clouds_length n layer g :
  length (Enhanced.clouds (Enhanced.push_clouds cfg rnd n layer g))
  = (length (Enhanced.clouds g) + n)%nat.
Proof.
  revert g. induction n as [|n IH]; intros g; [cbn; lia|].
  cbn [Enhanced.push_clouds]. unfold Enhanced.new_Cloud, Enhanced.random. cbv zeta.
  rewrite IH. cbn [Enhanced.clouds Enhanced.set_clouds Enhanced.set_draws].
  rewrite length_app. cbn. lia.
Qed.

Lemma initialGame_clouds_length stored t0 :
  length (Enhanced.clouds (Enhanced.initialGame cfg rnd stored t0)) = 8%nat.
Proof. unfold Enhanced.initialGame. cbv zeta. rewrite !push_clouds_length. reflexivity. Qed.

Lemma Forall_map_cloud_at (l : list Cloud.t) :
  Forall (fun c => NaN.CloudN.x c = None) (List.map (cloud_at None) l).
Proof. apply List.Forall_forall. intros c Hc. apply List.in_map_iff in Hc.
  destruct Hc as (c0 & <- & _). reflexivity. Qed.

(** On numbers the head of [gameLoop] is the one of [Enhanced.gameLoop]. *)
Lemma Cloud_update_numbers dt c g :
  NaN.Cloud_update cfg rnd (Some dt) (cloud_at (Some (Cloud.x c)) c) (Enhanced.draws g)
  = (let c' := fst (Enhanced.Cloud_update cfg rnd dt c g) in cloud_at (Some (Cloud.x c')) c',
     Enhanced.draws (snd (Enhanced.Cloud_update cfg rnd dt c g))).
Proof.
  unfold NaN.Cloud_update, NaN.normalizedDt, Enhanced.Cloud_update,
    Enhanced.normalizedDt, Enhanced.random. cbv zeta.
  cbn [NaN.div NaN.mul NaN.sub NaN.add NaN.ltb NaN.lift2 cloud_at
       NaN.CloudN.x NaN.CloudN.y NaN.CloudN.speed NaN.CloudN.size].
  destruct (Qltb _ 0); reflexivity.
Qed.

Lemma clouds_forEach_numbers dt todo done g :
  NaN.clouds_forEach cfg rnd (Some dt)
    (List.map (fun c => cloud_at (Some (Cloud.x c)) c) todo)
    (List.map (fun c => cloud_at (Some (Cloud.x c)) c) done) (Enhanced.draws g)
  = (List.map (fun c => cloud_at (Some (Cloud.x c)) c)
       (Enhanced.clouds (Enhanced.clouds_forEach cfg rnd dt todo done g)),
     Enhanced.draws (Enhanced.clouds_forEach cfg rnd dt todo done g)).
Proof.
  revert done g. induction todo as [|c todo IH]; intros done g; [reflexivity|].
  cbn [List.map NaN.clouds_forEach Enhanced.clouds_forEach].
  rewrite Cloud_update_numbers. cbv zeta.
  destruct (Enhanced.Cloud_update cfg rnd dt c g) as [c1 g1]. cbn [fst snd].
  rewrite <- IH. rewrite List.map_app. reflexivity.
Qed.

Lemma gameLoop_head_numbers t g :
  ~ Enhanced.canvas_width cfg == 0 ->
  NaN.gameLoop_head cfg rnd (Some t) (scenery_of g)
  = scenery_of (Enhanced.gameLoop_background cfg rnd (Enhanced.gameLoop_clock t g)).
Proof.
  intros Hw. unfold NaN.gameLoop_head. cbv zeta.
  set (gc := Enhanced.gameLoop_clock t g).
  assert (Hd : Enhanced.deltaTime gc = Math_min (t - Enhanced.lastFrameTime g) 100)
    by reflexivity.
  cbn [scenery_of NaN.lastFrameTime NaN.clouds NaN.mountains NaN.draws
       NaN.sub NaN.min NaN.lift2].
  rewrite <- Hd.
  pose proof (clouds_forEach_numbers (Enhanced.deltaTime gc) (Enhanced.clouds gc) [] gc) as E.
  cbn [List.map] in E.
  change (Enhanced.clouds g) with (Enhanced.clouds gc).
  change (Enhanced.draws g) with (Enhanced.draws gc).
  rewrite E.
  unfold Enhanced.gameLoop_background. cbv zeta.
  destruct (clouds_forEach_footprint cfg rnd (Enhanced.deltaTime gc) (Enhanced.clouds gc)
              [] gc) as (cl & d & ->).
  unfold scenery_of.
  cbn [Enhanced.lastFrameTime Enhanced.deltaTime Enhanced.clouds Enhanced.mountains
       Enhanced.draws Enhanced.set_mountains Enhanced.set_clouds Enhanced.set_draws].
  f_equal.
  rewrite !List.map_map. apply List.map_ext. intros m.
  unfold NaN.Mountain_update, NaN.normalizedDt, Enhanced.Mountain_update,
    Enhanced.normalizedDt, mountain_at. cbv zeta.
  cbn [NaN.div NaN.mul NaN.add NaN.rem NaN.lift2 NaN.MountainN.offset
       NaN.MountainN.speed NaN.MountainN.layer NaN.MountainN.color
       Mountain.offset Mountain.speed Mountain.layer Mountain.color].
  destruct (Qeq_bool (Enhanced.canvas_width cfg) 0) eqn:Ez; [|reflexivity].
  exfalso. apply Hw. now apply Qeq_bool_iff.
Qed.

End EnhancedStartup.

(** X12. The clouds lose their position at start-up. The script ends with
    the call [gameLoop()], which passes no time stamp: [currentTime] is
    [undefined], the delta of that call is NaN and [cloud.update] makes the
    [x] of every cloud NaN. From then on, whatever the time stamps of the
    frames that follow, the clouds are those the constructor made with their
    [x] replaced by NaN: the wrap-around test [x + size * 2 < 0] is false
    for them, they are never moved or re-seeded, and they consume no random
    value. The same holds of one frame on any state in which the clouds
    have no position, whatever its clock: the pause key, which writes
    [lastFrameTime], does not bring them back. *)
Theorem clouds_NaN_after_load
  (cfg : Enhanced.Config) (rnd : nat -> Q) (stored : option string) (t0 : Q)
  (ts : list NaN.num) :
  let g0 := Enhanced.initialGame cfg rnd stored t0 in
  let s := NaN.frames cfg rnd ts (scenery_loaded cfg rnd stored t0) in
  NaN.clouds s = List.map (cloud_at None) (Enhanced.clouds g0)
  /\ Forall (fun c => NaN.CloudN.x c = None) (NaN.clouds s)
  /\ length (NaN.clouds s) = 8%nat
  /\ NaN.draws s = Enhanced.draws g0
  /\ (forall (t : NaN.num) (s' : NaN.Scenery),
        Forall (fun c => NaN.CloudN.x c = None) (NaN.clouds s') ->
        NaN.clouds (NaN.gameLoop_head cfg rnd t s') = NaN.clouds s'
        /\ NaN.draws (NaN.gameLoop_head cfg rnd t s') = NaN.draws s').
Proof.
  cbv zeta.
  pose proof (scenery_loaded_eq cfg rnd stored t0) as E. cbv zeta in E.
  destruct (frames_NaN cfg rnd ts (scenery_loaded cfg rnd stored t0)) as (C & _ & D).
  { rewrite E. apply Forall_map_cloud_at. }
  { rewrite E. repeat constructor. }
  rewrite C, D, E. cbn [NaN.clouds NaN.draws].
  split; [reflexivity|]. split; [apply Forall_map_cloud_at|].
  split; [rewrite List.length_map; apply initialGame_clouds_length|].
  split; [reflexivity|].
  exact (gameLoop_head_clouds_NaN cfg rnd).
Qed.

(** X13. The mountains lose their offset at start-up, and the first frame
    that carries a time stamp has no delta either. After the call
    [gameLoop()] of the last line of the script the delta and
    [lastFrameTime] are not numbers and the two mountain ranges are those
    the constructor made with their [offset] replaced by NaN, which they
    keep whatever the time stamps of the frames that follow, and in one
    frame on any state in which they have no offset. The frame with
    the first time stamp [t1] computes the delta NaN again and sets
    [lastFrameTime] to [t1]; only the frame after it, with the time stamp
    [t2], has the delta [min(t2 - t1, 100)]. On a state whose numbers are
    all numbers the head of [gameLoop] is the one of [Enhanced.gameLoop]. *)
Theorem mountains_NaN_after_load
  (cfg : Enhanced.Config) (rnd : nat -> Q) (stored : option string) (t0 : Q)
  (ts : list NaN.num) (t1 t2 : Q) (g : Enhanced.Game) :
  let loaded := scenery_loaded cfg rnd stored t0 in
  let first := NaN.gameLoop_head cfg rnd (Some t1) loaded in
  let second := NaN.gameLoop_head cfg rnd (Some t2) first in
  (NaN.deltaTime loaded = None /\ NaN.lastFrameTime loaded = None)
  /\ NaN.mountains (NaN.frames cfg rnd ts loaded)
     = [mountain_at None (Enhanced.new_Mountain 1);
        mountain_at None (Enhanced.new_Mountain 2)]
  /\ (forall (t : NaN.num) (s' : NaN.Scenery),
        Forall (fun m => NaN.MountainN.offset m = None) (NaN.mountains s') ->
        NaN.mountains (NaN.gameLoop_head cfg rnd t s') = NaN.mountains s')
  /\ (NaN.deltaTime first = None /\ NaN.lastFrameTime first = Some t1)
  /\ (NaN.deltaTime second = Some (Math_min (t2 - t1) 100)
      /\ NaN.lastFrameTime second = Some t2)
  /\ (~ Enhanced.canvas_width cfg == 0 ->
      NaN.gameLoop_head cfg rnd (Some t1) (scenery_of g)
      = scenery_of (Enhanced.gameLoop_background cfg rnd (Enhanced.gameLoop_clock t1 g))).
Proof.
  cbv zeta.
  pose proof (scenery_loaded_eq cfg rnd stored t0) as E. cbv zeta in E.
  assert (Hc : Forall (fun c => NaN.CloudN.x c = None)
                 (NaN.clouds (scenery_loaded cfg rnd stored t0)))
    by (rewrite E; apply Forall_map_cloud_at).
  assert (Hm : Forall (fun m => NaN.MountainN.offset m = None)
                 (NaN.mountains (scenery_loaded cfg rnd stored t0)))
    by (rewrite E; repeat constructor).
  split; [rewrite E; split; reflexivity|].
  split.
  { destruct (frames_NaN cfg rnd ts _ Hc Hm) as (_ & M & _). rewrite M, E. reflexivity. }
  split; [exact (gameLoop_head_mountains_NaN cfg rnd)|].
  assert (Hl : NaN.lastFrameTime (scenery_loaded cfg rnd stored t0) = None)
    by (rewrite E; reflexivity).
  destruct (gameLoop_head_twice cfg rnd _ t1 t2 Hc Hm Hl) as (D1 & L1 & D2 & L2).
  split; [split; assumption|].
  split; [split; assumption|].
  apply gameLoop_head_numbers.
Qed.

Lemma mountains_NaN_after_load_witness :
  let g := game_started in
  ~ Enhanced.canvas_width Enhanced.CONFIG == 0
  /\ NaN.gameLoop_head Enhanced.CONFIG Math_random_half (Some 1016) (scenery_of g)
     = scenery_of
         (Enhanced.gameLoop_background Enhanced.CONFIG Math_random_half
            (Enhanced.gameLoop_clock 1016 g)).
Proof.
  assert (H : ~ Enhanced.canvas_width Enhanced.CONFIG == 0) by discriminate.
  exact (conj H
           (proj2 (proj2 (proj2 (proj2 (proj2
              (mountains_NaN_after_load Enhanced.CONFIG Math_random_half None 0 []
                 1016 1032 game_started))))) H)).
Defined.

(** * Further properties of [src/game.js] *)

(** ** What a frame keeps *)

Section LegacyKeeps.

Variable rnd : nat -> Q.
Variable stn : string -> option Q.

Lemma Legacy_keeps_refl g : Legacy_keeps stn g g.
Proof.
  unfold Legacy_keeps. repeat split; try tauto; try lia.
  exists []. split; [now rewrite app_nil_r | constructor].
Qed.

Lemma Legacy_keeps_trans g1 g2 g3 :
  Legacy_keeps stn g1 g2 -> Legacy_keeps stn g2 g3 -> Legacy_keeps stn g1 g3.
Proof.
  unfold Legacy_keeps.
  intros (F1 & G1 & C1 & M1 & S1 & (ps1 & P1 & Q1) & B1)
         (F2 & G2 & C2 & M2 & S2 & (ps2 & P2 & Q2) & B2).
  repeat split; try congruence; try lia; try tauto.
  exists (ps1 ++ ps2). split.
  - rewrite P2, P1, <- app_assoc. reflexivity.
  - apply Forall_app; split; assumption.
Qed.

Lemma Legacy_setter_keeps g g' :
  Legacy.frame g' = Legacy.frame g -> Legacy.groundOffset g' = Legacy.groundOffset g ->
  Legacy.clouds g' = Legacy.clouds g -> Legacy.mountains g' = Legacy.mountains g ->
  Legacy.score g' = Legacy.score g -> Legacy.particles g' = Legacy.particles g ->
  Legacy.bestScore g' = Legacy.bestScore g ->
  Legacy.localStorage g' = Legacy.localStorage g ->
  Legacy_keeps stn g g'.
Proof.
  intros F G C M S P B L. unfold Legacy_keeps, Legacy_stored_ok.
  rewrite F, G, C, M, S, P, B, L. repeat split; try tauto; try lia.
  exists []. split; [now rewrite app_nil_r | constructor].
Qed.

Lemma Legacy_emit_fresh n x y c g :
  exists ps d,
    Legacy.emit rnd n x y c g
    = Legacy.set_particles (Legacy.particles g ++ ps) (Legacy.set_draws d g)
    /\ length ps = n /\ Forall fresh_particle ps.
Proof.
  revert g. induction n as [|n IH]; intros g.
  - exists [], (Legacy.draws g). split; [|split; [reflexivity | constructor]].
    destruct g. simpl. rewrite app_nil_r. reflexivity.
  - rewrite Legacy_emit_S.
    match goal with
    | |- context [Legacy.emit rnd n x y c ?gg] =>
        destruct (IH gg) as (ps & d & Heq & Hl & Hf); rewrite Heq
    end.
    exists (fst (Legacy.new_Particle rnd x y c g) :: ps), d.
    split; [|split; [simpl; now rewrite Hl|]].
    + cbn. rewrite <- app_assoc. reflexivity.
    + constructor; [repeat split | exact Hf].
Qed.

Lemma Legacy_emit_keeps n x y c g : Legacy_keeps stn g (Legacy.emit rnd n x y c g).
Proof.
  destruct (Legacy_emit_fresh n x y c g) as (ps & d & -> & _ & Hf).
  unfold Legacy_keeps. repeat split; try (intros _ H; exact H); try (cbn; lia).
  exists ps. split; [reflexivity | exact Hf].
Qed.

Lemma Number_toString_nonempty (n : Z) : String.eqb (Number_toString n) "" = false.
Proof.
  destruct (String.eqb_spec (Number_toString n) ""%string) as [E|E]; [|reflexivity].
  pose proof (parseInt_Number_toString n) as H. rewrite E in H. discriminate.
Qed.

Lemma Legacy_gameOver_keeps g : Legacy_keeps stn g (Legacy.gameOver stn g).
Proof.
  unfold Legacy.gameOver. cbv zeta.
  destruct (Legacy.score_gt_bestScore stn (Legacy.set_gameState GAME_OVER g)).
  - unfold Legacy_keeps. repeat split; try (cbn; lia).
    + exists []. split; [cbn; now rewrite app_nil_r | constructor].
    + intros Hstn _. unfold Legacy_stored_ok.
      cbn [Legacy.localStorage Legacy.bestScore Legacy.set_localStorage
           Legacy.set_bestScore Legacy.set_gameState Legacy.score
           Legacy.initial_bestScore].
      rewrite Number_toString_nonempty. cbn [Legacy.ToNumber].
      apply Hstn.
  - apply Legacy_setter_keeps; reflexivity.
Qed.

Lemma Legacy_Pipe_update_keeps p g :
  Legacy_keeps stn g (snd (Legacy.Pipe_update rnd p g)).
Proof.
  unfold Legacy.Pipe_update. cbv zeta.
  destruct (Legacy.Pipe_passed (Legacy.Pipe_move p) g); cbn [snd];
    [|apply Legacy_keeps_refl].
  eapply Legacy_keeps_trans; [|apply Legacy_emit_keeps].
  unfold Legacy_keeps, Legacy_stored_ok. cbn. repeat split; try tauto; try lia.
  exists []. split; [now rewrite app_nil_r | constructor].
Qed.

Lemma Legacy_collidesWith_keeps p b g :
  Legacy_keeps stn g (snd (Legacy.Pipe_collidesWith rnd p b g)).
Proof.
  unfold Legacy.Pipe_collidesWith. cbv zeta.
  destruct (Qltb _ _ && Qltb _ _); [|apply Legacy_keeps_refl].
  destruct (Qltb _ _ || Qltb _ _); [|apply Legacy_keeps_refl].
  cbn [snd]. apply Legacy_emit_keeps.
Qed.

Lemma Legacy_callback_keeps pipe i g :
  Legacy_keeps stn g (Legacy.pipes_callback rnd stn pipe i g)
  /\ Legacy.bird (Legacy.pipes_callback rnd stn pipe i g) = Legacy.bird g.
Proof.
  unfold Legacy.pipes_callback.
  pose proof (Legacy_Pipe_update_keeps pipe g) as K1.
  destruct (Legacy_Pipe_update_kept rnd pipe g) as (B1 & _).
  destruct (Legacy.Pipe_update rnd pipe g) as [p1 g1]. cbn [snd] in K1, B1.
  set (g2 := Legacy.set_pipes (<[i := p1]> (Legacy.pipes g1)) g1).
  assert (K2 : Legacy_keeps stn g1 g2) by (apply Legacy_setter_keeps; reflexivity).
  pose proof (Legacy_collidesWith_keeps p1 (Legacy.bird g2) g2) as K3.
  destruct (Legacy_collidesWith_kept rnd p1 (Legacy.bird g2) g2) as (B3 & _).
  destruct (Legacy.Pipe_collidesWith rnd p1 (Legacy.bird g2) g2) as [hit g3].
  cbn [snd] in K3, B3.
  assert (K123 : Legacy_keeps stn g g3).
  { eapply Legacy_keeps_trans; [|exact K3].
    eapply Legacy_keeps_trans; [exact K1 | exact K2]. }
  assert (B123 : Legacy.bird g3 = Legacy.bird g) by (rewrite B3; exact B1).
  assert (H4 : Legacy_keeps stn g (if hit then Legacy.gameOver stn g3 else g3)
               /\ Legacy.bird (if hit then Legacy.gameOver stn g3 else g3) = Legacy.bird g).
  { destruct hit; [|split; assumption]. split.
    - eapply Legacy_keeps_trans; [exact K123 | apply Legacy_gameOver_keeps].
    - destruct (Legacy_gameOver_footprint stn g3) as (bs & ls & ->). exact B123. }
  destruct H4 as (K4 & B4).
  destruct (Qltb (Pipe.x p1 + Pipe.width p1) 0); [|split; assumption].
  split; [|exact B4].
  eapply Legacy_keeps_trans; [exact K4 | apply Legacy_setter_keeps; reflexivity].
Qed.

Lemma Legacy_forEach_keeps todo k g :
  Legacy_keeps stn g (Legacy.pipes_forEach rnd stn todo k g)
  /\ Legacy.bird (Legacy.pipes_forEach rnd stn todo k g) = Legacy.bird g.
Proof.
  revert k g. induction todo as [|todo IH]; intros k g.
  - split; [apply Legacy_keeps_refl | reflexivity].
  - cbn [Legacy.pipes_forEach].
    destruct (Legacy.pipes g !! k) as [pipe|].
    + destruct (Legacy_callback_keeps pipe k g) as (K1 & B1).
      destruct (IH (S k) (Legacy.pipes_callback rnd stn pipe k g)) as (K2 & B2).
      split; [eapply Legacy_keeps_trans; eassumption | congruence].
    + apply IH.
Qed.

Lemma Legacy_bird_update_keeps g :
  Legacy_keeps stn g (Legacy.bird_update rnd stn g)
  /\ Legacy.pipes (Legacy.bird_update rnd stn g) = Legacy.pipes g
  /\ Legacy.bird (Legacy.bird_update rnd stn g)
     = Legacy_bird_bounds (Legacy.bird_integrate (Legacy.bird g)).
Proof.
  unfold Legacy.bird_update, Legacy_bird_bounds. cbv zeta.
  set (b := Legacy.bird_integrate (Legacy.bird g)).
  assert (K0 : Legacy_keeps stn g (Legacy.set_bird b g))
    by (apply Legacy_setter_keeps; reflexivity).
  destruct (Qltb (Legacy.canvas_height - 100) (Bird.y b + Bird.height b)).
  - set (b1 := Bird.set_velocity 0 (Bird.set_y _ b)).
    cbn [Legacy.gameState Legacy.set_bird].
    match goal with
    | |- context [Qltb (Bird.y (Legacy.bird ?gg)) 0] =>
        assert (H : Legacy_keeps stn g gg /\ Legacy.pipes gg = Legacy.pipes g
                    /\ Legacy.bird gg = b1);
        [|generalize dependent gg; intros g1 (K1 & P1 & B1)]
    end.
    + destruct (GameState_eqb (Legacy.gameState g) PLAYING).
      * match goal with
        | |- context [Legacy.emit rnd ?n ?x ?y ?c ?gg] =>
            pose proof (Legacy_emit_keeps n x y c gg) as K2;
            assert (E2 : Legacy.pipes (Legacy.emit rnd n x y c gg) = Legacy.pipes g
                         /\ Legacy.bird (Legacy.emit rnd n x y c gg) = b1)
              by (destruct (Legacy_emit_footprint rnd n x y c gg) as (ps & d & -> & _);
                  split; reflexivity);
            generalize dependent (Legacy.emit rnd n x y c gg)
        end.
        intros ge K2 (P2 & B2).
        pose proof (Legacy_gameOver_keeps ge) as K3.
        destruct (Legacy_gameOver_footprint stn ge) as (bs & ls & E3).
        split; [|split].
        -- eapply Legacy_keeps_trans; [|exact K3].
           eapply Legacy_keeps_trans; [|exact K2].
           apply Legacy_setter_keeps; reflexivity.
        -- rewrite E3. exact P2.
        -- rewrite E3. exact B2.
      * split; [apply Legacy_setter_keeps; reflexivity | split; reflexivity].
    + rewrite B1.
      destruct (Qltb (Bird.y b1) 0).
      * split; [|split; [exact P1 | reflexivity]].
        eapply Legacy_keeps_trans; [exact K1 | apply Legacy_setter_keeps; reflexivity].
      * split; [exact K1 | split; [exact P1 | exact B1]].
  - cbn [Legacy.bird Legacy.set_bird].
    destruct (Qltb (Bird.y b) 0).
    + split; [apply Legacy_setter_keeps; reflexivity | split; reflexivity].
    + split; [exact K0 | split; reflexivity].
Qed.

End LegacyKeeps.

(** ** One frame of [src/game.js] *)

Section LegacyFrame.

Variable rnd : nat -> Q.
Variable stn : string -> option Q.

Lemma Legacy_clouds_forEach_footprint todo done g :
  exists cl d,
    Legacy.clouds_forEach rnd todo done g = Legacy.set_clouds cl (Legacy.set_draws d g).
Proof.
  revert done g. induction todo as [|c todo IH]; intros done g.
  - exists done, (Legacy.draws g). destruct g. reflexivity.
  - cbn [Legacy.clouds_forEach].
    assert (H : exists d, snd (Legacy.Cloud_update rnd c g) = Legacy.set_draws d g).
    { unfold Legacy.Cloud_update. cbv zeta. case_if E.
      - eexists. reflexivity.
      - exists (Legacy.draws g). destruct g. reflexivity. }
    destruct H as (d & Hd).
    destruct (Legacy.Cloud_update rnd c g) as [c1 g1]. cbn [snd] in Hd. subst g1.
    destruct (IH (done ++ [c1]) (Legacy.set_draws d g)) as (cl & d' & ->).
    exists cl, d'. reflexivity.
Qed.

(** The background block touches the clouds, the mountains and the random
    draws only. *)
Lemma Legacy_background_footprint g :
  exists cl d,
    Legacy.gameLoop_background rnd g
    = Legacy.set_mountains (List.map Legacy.Mountain_update (Legacy.mountains g))
        (Legacy.set_clouds cl (Legacy.set_draws d g)).
Proof.
  unfold Legacy.gameLoop_background. cbv zeta.
  destruct (Legacy_clouds_forEach_footprint (Legacy.clouds g) [] g) as (cl & d & ->).
  exists cl, d. reflexivity.
Qed.

(** The spawn block: the frame counter, the ground offset and, when the
    spawn test succeeds, a new pipe at the end of the array. *)
Lemma Legacy_spawn_footprint g :
  exists new d,
    Legacy.gameLoop_spawn rnd g
    = Legacy.set_pipes (Legacy.pipes g ++ new)
        (Legacy.set_draws d
           (Legacy.set_groundOffset (Legacy.groundOffset g + 2.5)
              (Legacy.set_frame (Legacy.frame g + 1)%Z g)))
    /\ ((new = [] /\ ~ Legacy_spawn_due (Legacy.frame g))
        \/ (Legacy_spawn_due (Legacy.frame g)
            /\ exists h, new = [fst (Legacy.new_Pipe rnd h)])).
Proof.
  unfold Legacy.gameLoop_spawn, Legacy_spawn_due. cbv zeta.
  cbn [Legacy.frame Legacy.set_frame Legacy.set_groundOffset].
  destruct (Z.rem (Legacy.frame g + 1) Legacy.pipeInterval =? 0)%Z eqn:E.
  - match goal with
    | |- context [Legacy.new_Pipe rnd ?hh] =>
        destruct (Legacy.new_Pipe rnd hh) as [p h'] eqn:Ep;
        exists [p], (Legacy.draws h'); split;
        [|right; split; [now apply Z.eqb_eq | exists hh; now rewrite Ep]]
    end.
    unfold Legacy.new_Pipe, Legacy.random in Ep. cbv zeta in Ep.
    injection Ep as _ <-. reflexivity.
  - exists [], (Legacy.draws g). split.
    + rewrite app_nil_r. destruct g. reflexivity.
    + left. split; [reflexivity | now apply Z.eqb_neq].
Qed.

(** A frame outside the [PLAYING] state moves the background only. *)
Lemma Legacy_gameLoop_idle g :
  Legacy.gameState g <> PLAYING ->
  exists cl d,
    Legacy.gameLoop rnd stn g
    = Legacy.set_mountains (List.map Legacy.Mountain_update (Legacy.mountains g))
        (Legacy.set_clouds cl (Legacy.set_draws d g)).
Proof.
  intros Hs. unfold Legacy.gameLoop. cbv zeta.
  destruct (Legacy_background_footprint g) as (cl & d & ->).
  exists cl, d.
  cbn [Legacy.gameState Legacy.set_mountains Legacy.set_clouds Legacy.set_draws].
  destruct (Legacy.gameState g); congruence.
Qed.

(** A frame in the [PLAYING] state, field by field. *)
Lemma Legacy_gameLoop_playing g :
  Legacy.gameState g = PLAYING ->
  let g' := Legacy.gameLoop rnd stn g in
  exists new,
    ((new = [] /\ ~ Legacy_spawn_due (Legacy.frame g))
     \/ (Legacy_spawn_due (Legacy.frame g)
         /\ exists h, new = [fst (Legacy.new_Pipe rnd h)]))
    /\ Legacy.pipes g' = Legacy_pass (Bird.x (Legacy.bird g)) (Legacy.pipes g ++ new)
    /\ Legacy.bird g' = Legacy_bird_bounds (Legacy.bird_integrate (Legacy.bird g))
    /\ Legacy.frame g' = (Legacy.frame g + 1)%Z
    /\ Legacy.mountains g' = List.map Legacy.Mountain_update (Legacy.mountains g)
    /\ (Legacy.score g <= Legacy.score g')%Z
    /\ ((forall n : Z, stn (Number_toString n) = Some (inject_Z n)) ->
        Legacy_stored_ok stn g -> Legacy_stored_ok stn g')
    /\ exists ps,
         Forall fresh_particle ps
         /\ Legacy.particles g' = Legacy.particles_filter (Legacy.particles g ++ ps).
Proof.
  intros Hs. cbv zeta. unfold Legacy.gameLoop. cbv zeta.
  destruct (Legacy_background_footprint g) as (cl & d & ->).
  cbn [Legacy.gameState Legacy.set_mountains Legacy.set_clouds Legacy.set_draws].
  rewrite Hs.
  match goal with
  | |- context [Legacy.gameLoop_spawn rnd ?g0] =>
      destruct (Legacy_spawn_footprint g0) as (new & d' & -> & Hnew)
  end.
  cbn [Legacy.pipes Legacy.frame Legacy.groundOffset Legacy.set_mountains
       Legacy.set_clouds Legacy.set_draws] in Hnew |- *.
  match goal with
  | |- context [Legacy.bird_update rnd stn ?gg] =>
      destruct (Legacy_bird_update_keeps rnd stn gg)
        as (K2 & P2 & B2);
      assert (F1 : Legacy.frame gg = (Legacy.frame g + 1)%Z
                   /\ Legacy.mountains gg
                      = List.map Legacy.Mountain_update (Legacy.mountains g)
                   /\ Legacy.score gg = Legacy.score g
                   /\ Legacy.particles gg = Legacy.particles g
                   /\ Legacy.bestScore gg = Legacy.bestScore g
                   /\ Legacy.localStorage gg = Legacy.localStorage g
                   /\ Legacy.pipes gg = Legacy.pipes g ++ new
                   /\ Legacy.bird gg = Legacy.bird g) by (repeat split);
      generalize dependent gg
  end.
  intros g1 K2 P2 B2 (F1 & M1 & S1 & Q1 & BS1 & L1 & P1 & B1).
  generalize dependent (Legacy.bird_update rnd stn g1). intros g2 K2 P2 B2.
  destruct (Legacy_forEach_keeps rnd stn (length (Legacy.pipes g2)) 0 g2) as (K3 & B3).
  pose proof (Legacy_forEach_all rnd stn g2) as P3.
  generalize dependent (Legacy.pipes_forEach rnd stn (length (Legacy.pipes g2)) 0 g2).
  intros g3 K3 B3 P3.
  pose proof (Legacy_keeps_trans stn _ _ _ K2 K3)
    as (F & _ & _ & M & S & (ps & Q & Hps) & St).
  cbn [Legacy.pipes Legacy.bird Legacy.frame Legacy.mountains Legacy.score
       Legacy.particles Legacy.set_particles].
  exists new. split; [exact Hnew|].
  assert (Hx : Bird.x (Legacy.bird g2) = Bird.x (Legacy.bird g)).
  { rewrite B2, B1. unfold Legacy_bird_bounds. cbv zeta.
    destruct (Qltb _ (_ + _)); cbn; destruct (Qltb _ 0); reflexivity. }
  split; [rewrite P3, Hx, P2, P1; reflexivity|].
  split; [rewrite B3, B2, B1; reflexivity|].
  split; [congruence|]. split; [congruence|]. split; [lia|].
  split.
  - intros Hstn. specialize (St Hstn).
    unfold Legacy_stored_ok in *. cbn [Legacy.localStorage Legacy.bestScore
      Legacy.set_particles]. rewrite L1, BS1 in St. exact St.
  - exists ps. split; [exact Hps|]. rewrite Q, Q1. reflexivity.
Qed.

End LegacyFrame.

(** ** The reachable states of [src/game.js] *)

Section LegacyReachable.

Variable rnd : nat -> Q.
Variable stn : string -> option Q.
Variable stored : option string.

Lemma Legacy_push_clouds_footprint n layer g :
  exists cl d,
    Legacy.push_clouds rnd n layer g = Legacy.set_clouds cl (Legacy.set_draws d g).
Proof.
  revert g. induction n as [|n IH]; intros g.
  - exists (Legacy.clouds g), (Legacy.draws g). destruct g. reflexivity.
  - cbn [Legacy.push_clouds]. unfold Legacy.new_Cloud, Legacy.random. cbv zeta.
    match goal with
    | |- context [Legacy.push_clouds rnd n layer ?gg] =>
        destruct (IH gg) as (cl & d & ->)
    end.
    exists cl, d. reflexivity.
Qed.

Lemma Legacy_initialGame_footprint :
  exists cl d,
    Legacy.initialGame rnd stored
    = Legacy.set_clouds cl
        (Legacy.set_draws d
           {| Legacy.gameState := START;
              Legacy.score := 0;
              Legacy.bestScore := Legacy.initial_bestScore stored;
              Legacy.frame := 0;
              Legacy.particles := [];
              Legacy.groundOffset := 0;
              Legacy.bird :=
                {| Bird.x := 80;
                   Bird.y := Legacy.canvas_height / 2;
                   Bird.width := 34;
                   Bird.height := 24;
                   Bird.velocity := 0;
                   Bird.gravity := 0.6;
                   Bird.jumpStrength := -10;
                   Bird.rotation := 0;
                   Bird.wingFrame := 0;
                   Bird.maxVelocity := 12;
                   Bird.terminalVelocity := 10 |};
              Legacy.pipes := [];
              Legacy.clouds := [];
              Legacy.mountains := [Legacy.new_Mountain 1; Legacy.new_Mountain 2];
              Legacy.localStorage := stored;
              Legacy.draws := 0 |}).
Proof.
  unfold Legacy.initialGame. cbv zeta.
  match goal with
  | |- context [Legacy.push_clouds rnd 4 1 ?gg] =>
      destruct (Legacy_push_clouds_footprint 4 1 gg) as (cl & d & ->)
  end.
  match goal with
  | |- context [Legacy.push_clouds rnd 4 2 ?gg] =>
      destruct (Legacy_push_clouds_footprint 4 2 gg) as (cl' & d' & ->)
  end.
  exists cl', d'. reflexivity.
Qed.

(** [bird.jump] sets the velocity, adds particles and draws random values. *)
Lemma Legacy_bird_jump_footprint g :
  exists ps d,
    Legacy.bird_jump rnd g
    = Legacy.set_particles (Legacy.particles g ++ ps)
        (Legacy.set_draws d
           (Legacy.set_bird
              (Bird.set_velocity (Bird.jumpStrength (Legacy.bird g)) (Legacy.bird g)) g))
    /\ Forall fresh_particle ps.
Proof.
  unfold Legacy.bird_jump. cbv zeta.
  match goal with
  | |- context [Legacy.emit rnd ?n ?x ?y ?c ?gg] =>
      destruct (Legacy_emit_fresh rnd n x y c gg) as (ps & d & -> & _ & Hf)
  end.
  exists ps, d. split; [reflexivity | exact Hf].
Qed.

(** A property of the initial globals that every frame, [startGame] and
    [bird.jump] keep holds in every reachable state. *)
Lemma Legacy_reachable_invariant (P : Legacy.Game -> Prop) :
  P (Legacy.initialGame rnd stored) ->
  (forall g, Legacy_reachable rnd stn stored g -> P g -> P (Legacy.gameLoop rnd stn g)) ->
  (forall g, P g -> P (Legacy.startGame g)) ->
  (forall g, P g -> P (Legacy.bird_jump rnd g)) ->
  forall g, Legacy_reachable rnd stn stored g -> P g.
Proof.
  intros Hinit Hframe Hstart Hjump g Hr.
  induction Hr as [|g Hr IH|g Hr IH].
  - exact Hinit.
  - now apply Hframe.
  - unfold Legacy.handleJump. destruct (Legacy.gameState g).
    + apply Hjump, Hstart, IH.
    + apply Hjump, IH.
    + exact IH.
    + apply Hstart, IH.
Qed.

Lemma Legacy_reachable_stored_ok g :
  (forall n : Z, stn (Number_toString n) = Some (inject_Z n)) ->
  Legacy_reachable rnd stn stored g -> Legacy_stored_ok stn g.
Proof.
  intros Hstn. apply Legacy_reachable_invariant.
  - destruct Legacy_initialGame_footprint as (cl & d & ->). reflexivity.
  - intros h _ Hh.
    destruct (GameState_eqb (Legacy.gameState h) PLAYING) eqn:E.
    + assert (Hs : Legacy.gameState h = PLAYING)
        by (destruct (Legacy.gameState h); now try discriminate).
      destruct (Legacy_gameLoop_playing rnd stn h Hs)
        as (new & _ & _ & _ & _ & _ & _ & St & _).
      now apply St.
    + assert (Hs : Legacy.gameState h <> PLAYING)
        by (intros Hs; rewrite Hs in E; discriminate).
      destruct (Legacy_gameLoop_idle rnd stn h Hs) as (cl & d & ->). exact Hh.
  - intros h Hh. exact Hh.
  - intros h Hh. destruct (Legacy_bird_jump_footprint h) as (ps & d & -> & _). exact Hh.
Qed.

(** The bird. *)

Lemma Legacy_bird_integrate_ok b :
  Legacy_bird_ok b ->
  let b' := Legacy.bird_integrate b in
  (Bird.x b' = 80 /\ Bird.width b' = 34 /\ Bird.height b' = 24
   /\ Bird.gravity b' = 0.6 /\ Bird.jumpStrength b' = -10
   /\ Bird.terminalVelocity b' = 10)
  /\ (-10 <= Bird.velocity b' /\ Bird.velocity b' <= 10)
  /\ (-30 <= Bird.rotation b' /\ Bird.rotation b' <= 90)
  /\ (0 <= Bird.wingFrame b' /\ Bird.wingFrame b' < 3).
Proof.
  intros ((Hx & Hw & Hh & Hg & Hj & Ht) & _ & (V1 & V2) & (R1 & R2) & (W1 & W2)).
  cbv zeta. unfold Legacy.bird_integrate. cbn.
  rewrite Hg, Ht.
  set (v := Math_min (Bird.velocity b + 0.6) 10).
  set (tgt := Math_min (Math_max (v * 4) (-30)) 90).
  assert (T1 : -30 <= tgt).
  { unfold tgt, Math_min, Math_max. apply Q.min_glb; [apply Q.le_max_r | lra]. }
  assert (T2 : tgt <= 90) by (unfold tgt, Math_min; apply Q.le_min_r).
  assert (V1' : -10 <= v) by (unfold v, Math_min; apply Q.min_glb; lra).
  assert (V2' : v <= 10) by (unfold v, Math_min; apply Q.le_min_r).
  repeat split; try assumption; try lra.
  - apply JS_rem_range; lra.
  - apply JS_rem_range; lra.
Qed.

Lemma Legacy_bird_bounds_ok b :
  (Bird.x b = 80 /\ Bird.width b = 34 /\ Bird.height b = 24
   /\ Bird.gravity b = 0.6 /\ Bird.jumpStrength b = -10
   /\ Bird.terminalVelocity b = 10)
  /\ (-10 <= Bird.velocity b /\ Bird.velocity b <= 10)
  /\ (-30 <= Bird.rotation b /\ Bird.rotation b <= 90)
  /\ (0 <= Bird.wingFrame b /\ Bird.wingFrame b < 3) ->
  Legacy_bird_ok (Legacy_bird_bounds b).
Proof.
  intros ((Hx & Hw & Hh & Hg & Hj & Ht) & (V1 & V2) & R & W).
  unfold Legacy_bird_bounds, Legacy_bird_ok. cbv zeta. rewrite Hh.
  destruct (Qltb_reflect (Legacy.canvas_height - 100) (Bird.y b + 24)) as [H1|H1].
  - cbn. rewrite ?Hh. unfold Legacy.canvas_height in *.
    destruct (Qltb_reflect (600 - 100 - 24) 0) as [H2|H2]; [exfalso; lra|].
    cbn. rewrite ?Hh. repeat split; try assumption; try reflexivity; try tauto; try lra.
  - destruct (Qltb_reflect (Bird.y b) 0) as [H2|H2]; cbn; rewrite ?Hh;
      unfold Legacy.canvas_height in *;
      repeat split; try assumption; try reflexivity; try tauto; try lra.
Qed.

Lemma Legacy_reachable_bird_ok g :
  Legacy_reachable rnd stn stored g -> Legacy_bird_ok (Legacy.bird g).
Proof.
  apply (Legacy_reachable_invariant (fun g => Legacy_bird_ok (Legacy.bird g))).
  - destruct Legacy_initialGame_footprint as (cl & d & ->).
    unfold Legacy_bird_ok, Legacy.canvas_height. cbn.
    repeat split; try reflexivity; try lra; discriminate.
  - intros h _ Hh.
    destruct (GameState_eqb (Legacy.gameState h) PLAYING) eqn:E.
    + assert (Hs : Legacy.gameState h = PLAYING)
        by (destruct (Legacy.gameState h); now try discriminate).
      destruct (Legacy_gameLoop_playing rnd stn h Hs) as (new & _ & _ & -> & _).
      apply Legacy_bird_bounds_ok, Legacy_bird_integrate_ok, Hh.
    + assert (Hs : Legacy.gameState h <> PLAYING)
        by (intros Hs; rewrite Hs in E; discriminate).
      destruct (Legacy_gameLoop_idle rnd stn h Hs) as (cl & d & ->). exact Hh.
  - intros h ((Hx & Hw & Hh & Hg & Hj & Ht) & _ & _ & _ & _).
    unfold Legacy_bird_ok, Legacy.canvas_height. cbn. rewrite ?Hh.
    repeat split; try assumption; try reflexivity; try lra; discriminate.
  - intros h Hh. destruct (Legacy_bird_jump_footprint h) as (ps & d & -> & _).
    destruct Hh as ((Hx & Hw & Hh & Hg & Hj & Ht) & Y & _ & R & W).
    unfold Legacy_bird_ok. cbn. rewrite Hj.
    repeat split; try assumption; try tauto; try lra.
Qed.

End LegacyReachable.

(** ** The pipes of [src/game.js] *)

Section LegacyPipes.

Variable rnd : nat -> Q.
Variable stn : string -> option Q.
Variable stored : option string.

(** As long as no pipe is removed, the pass updates the pipes one by one. *)
Lemma Legacy_pass_app birdx pre l :
  Forall (fun r => on_screen (Legacy_Pipe_tick birdx r) = true) pre ->
  Legacy_pass birdx (pre ++ l)
  = List.map (Legacy_Pipe_tick birdx) pre ++ Legacy_pass birdx l.
Proof.
  induction 1 as [|r pre Hr _ IH]; [reflexivity|].
  cbn [app Legacy_pass List.map]. rewrite Hr, IH. reflexivity.
Qed.

Lemma Legacy_tick_ok birdx p :
  Legacy_pipe_ok p -> on_screen (Legacy_Pipe_tick birdx p) = true ->
  Legacy_pipe_ok (Legacy_Pipe_tick birdx p).
Proof.
  intros (Hw & Hg & Hs & Ht & (X1 & X2) & (O1 & O2)) Hon.
  unfold on_screen in Hon. apply negb_true_iff, Qltb_ge in Hon.
  assert (Hh : 0 <= JS_rem (Pipe.highlightOffset p + 0.5) 20
               /\ JS_rem (Pipe.highlightOffset p + 0.5) 20 < 20).
  { apply JS_rem_range; lra. }
  revert Hon. unfold Legacy_pipe_ok, Legacy_Pipe_tick. cbv zeta.
  destruct (negb _ && Qltb _ _);
    cbn [Pipe.x Pipe.width Pipe.gap Pipe.topHeight Pipe.speed Pipe.highlightOffset
         Pipe.set_scored Pipe.set_x Pipe.set_highlightOffset Legacy.Pipe_move];
    intros Hon; rewrite Hs in *; (repeat split; try tauto; try assumption; try lra).
Qed.

Lemma Legacy_pass_ok birdx l :
  Forall Legacy_pipe_ok l -> Forall Legacy_pipe_ok (Legacy_pass birdx l).
Proof.
  assert (H : forall n l, (length l <= n)%nat ->
                          Forall Legacy_pipe_ok l ->
                          Forall Legacy_pipe_ok (Legacy_pass birdx l)).
  { clear l. induction n as [|n IH]; intros l Hn Hl.
    - destruct l; [constructor | cbn in Hn; lia].
    - destruct l as [|p l]; [constructor|].
      apply Forall_cons in Hl. destruct Hl as (Hp & Hl).
      cbn [Legacy_pass].
      destruct (on_screen (Legacy_Pipe_tick birdx p)) eqn:E.
      + constructor; [now apply Legacy_tick_ok|]. apply IH; [cbn in Hn; lia | exact Hl].
      + destruct l as [|q l]; [constructor|].
        apply Forall_cons in Hl. destruct Hl as (Hq & Hl).
        constructor; [exact Hq|]. apply IH; [cbn in Hn; lia | exact Hl]. }
  apply (H (length l)). lia.
Qed.

Hypothesis rnd_range : random_in_range rnd.

Lemma Legacy_new_Pipe_ok h : Legacy_pipe_ok (fst (Legacy.new_Pipe rnd h)).
Proof using rnd_range.
  destruct (rnd_range (Legacy.draws h)) as (R1 & R2).
  unfold Legacy.new_Pipe, Legacy.random, Legacy_pipe_ok,
    Legacy.canvas_height, Legacy.canvas_width. cbn.
  set (r := rnd (Legacy.draws h)) in *.
  repeat split; try reflexivity; try lra.
Qed.

Lemma Legacy_reachable_pipes_ok g :
  Legacy_reachable rnd stn stored g -> Forall Legacy_pipe_ok (Legacy.pipes g).
Proof using rnd_range.
  apply (Legacy_reachable_invariant rnd stn stored
           (fun g => Forall Legacy_pipe_ok (Legacy.pipes g))).
  - destruct (Legacy_initialGame_footprint rnd stored) as (cl & d & ->). constructor.
  - intros h _ Hh.
    destruct (GameState_eqb (Legacy.gameState h) PLAYING) eqn:E.
    + assert (Hs : Legacy.gameState h = PLAYING)
        by (destruct (Legacy.gameState h); now try discriminate).
      destruct (Legacy_gameLoop_playing rnd stn h Hs) as (new & Hnew & -> & _).
      apply Legacy_pass_ok, Forall_app. split; [exact Hh|].
      destruct Hnew as [(-> & _) | (_ & h1 & ->)]; [constructor|].
      constructor; [apply Legacy_new_Pipe_ok | constructor].
    + assert (Hs : Legacy.gameState h <> PLAYING)
        by (intros Hs; rewrite Hs in E; discriminate).
      destruct (Legacy_gameLoop_idle rnd stn h Hs) as (cl & d & ->). exact Hh.
  - intros h _. constructor.
  - intros h Hh.
    destruct (Legacy_bird_jump_footprint rnd h) as (ps & d & -> & _). exact Hh.
Qed.

End LegacyPipes.

(** ** A run of [src/game.js] up to the first pipe *)

Section LegacyRun.

Variable rnd : nat -> Q.
Variable stn : string -> option Q.

(** A frame of the [PLAYING] state without pipes in which the bird does not
    fall leaves the game in progress. *)
Lemma Legacy_frame_without_hit g :
  Legacy.gameState g = PLAYING -> Legacy.pipes g = [] ->
  ~ Legacy_spawn_due (Legacy.frame g) ->
  Legacy_bird_ok (Legacy.bird g) ->
  Bird.velocity (Legacy.bird g) + Bird.gravity (Legacy.bird g) <= 0 ->
  let g' := Legacy.gameLoop rnd stn g in
  Legacy.gameState g' = PLAYING
  /\ Legacy.frame g' = (Legacy.frame g + 1)%Z
  /\ Legacy.pipes g' = [].
Proof.
  intros Hs Hp Hdue Hb Hv. cbv zeta.
  destruct (Legacy_gameLoop_playing rnd stn g Hs) as (new & Hnew & P & _ & F & _).
  assert (Hn : new = []).
  { destruct Hnew as [(-> & _) | (H & _)]; [reflexivity | contradiction]. }
  subst new. rewrite Hp in P. cbn [app Legacy_pass] in P.
  split; [|split; assumption].
  unfold Legacy.gameLoop. cbv zeta.
  destruct (Legacy_background_footprint rnd g) as (cl & d & ->).
  cbn [Legacy.gameState Legacy.set_mountains Legacy.set_clouds Legacy.set_draws].
  rewrite Hs.
  match goal with
  | |- context [Legacy.gameLoop_spawn rnd ?g0] =>
      destruct (Legacy_spawn_footprint rnd g0) as (new & d' & -> & Hnew')
  end.
  cbn [Legacy.pipes Legacy.frame Legacy.set_mountains Legacy.set_clouds Legacy.set_draws]
    in Hnew' |- *.
  assert (Hn : new = []).
  { destruct Hnew' as [(-> & _) | (H & _)]; [reflexivity | contradiction]. }
  subst new. rewrite Hp. cbn [app].
  match goal with
  | |- context [Legacy.bird_update rnd stn ?gg] =>
      destruct (Legacy_bird_update_keeps rnd stn gg) as (_ & P2 & _);
      destruct (Legacy_bird_update_ground rnd stn gg) as (_ & G2);
      [|assert (B1 : Legacy.bird gg = Legacy.bird g) by reflexivity;
        assert (S1 : Legacy.gameState gg = PLAYING) by exact Hs;
        assert (P1 : Legacy.pipes gg = []) by reflexivity;
        generalize dependent gg]
  end.
  - destruct Hb as ((_ & _ & Hh & _) & _).
    cbn [Legacy.bird Legacy.set_pipes Legacy.set_draws Legacy.set_groundOffset
         Legacy.set_frame Legacy.set_mountains Legacy.set_clouds].
    change (Bird.height (Legacy.bird_integrate (Legacy.bird g)))
      with (Bird.height (Legacy.bird g)).
    rewrite Hh. unfold Legacy.canvas_height. discriminate.
  - intros g1 P2 G2 B1 S1 P1. cbv zeta in G2. rewrite B1 in G2.
    destruct G2 as (G2 & _).
    { destruct Hb as ((_ & _ & Hh & _ & _ & Ht) & (_ & Hy) & _).
      unfold Legacy.bird_integrate. cbn.
      unfold Legacy.canvas_height, Math_min.
      pose proof (Q.le_min_l (Bird.velocity (Legacy.bird g) + Bird.gravity (Legacy.bird g))
                    (Bird.terminalVelocity (Legacy.bird g))) as Hmin.
      lra. }
    rewrite P1 in P2.
    generalize dependent (Legacy.bird_update rnd stn g1). intros g2 P2 G2.
    rewrite P2. cbn [length Legacy.pipes_forEach Legacy.gameState Legacy.set_particles].
    congruence.
Qed.

(** The frame that spawns the first pipe. *)
Lemma Legacy_frame_first_pipe g :
  Legacy.gameState g = PLAYING -> Legacy.pipes g = [] ->
  Legacy_spawn_due (Legacy.frame g) ->
  length (Legacy.pipes (Legacy.gameLoop rnd stn g)) = 1%nat.
Proof.
  intros Hs Hp Hdue.
  destruct (Legacy_gameLoop_playing rnd stn g Hs) as (new & Hnew & P & _).
  rewrite P, Hp. cbn [app].
  destruct Hnew as [(_ & Hn) | (_ & h & ->)]; [contradiction|].
  cbn [Legacy_pass].
  assert (Hon : on_screen (Legacy_Pipe_tick (Bird.x (Legacy.bird g))
                             (fst (Legacy.new_Pipe rnd h))) = true).
  { unfold on_screen, Legacy_Pipe_tick. cbv zeta.
    destruct (negb _ && Qltb _ _); reflexivity. }
  rewrite Hon. reflexivity.
Qed.

(** A click in the [PLAYING] state or in the [START] state. *)
Lemma Legacy_handleJump_flap g :
  Legacy.gameState g = PLAYING \/ Legacy.gameState g = START ->
  (Legacy.gameState g = START -> Legacy.pipes g = []) ->
  let g' := Legacy.handleJump rnd g in
  Legacy.gameState g' = PLAYING
  /\ Legacy.frame g' = Legacy.frame g
  /\ (Legacy.pipes g = [] -> Legacy.pipes g' = [])
  /\ Bird.velocity (Legacy.bird g') = Bird.jumpStrength (Legacy.bird g)
  /\ Bird.gravity (Legacy.bird g') = Bird.gravity (Legacy.bird g).
Proof.
  intros Hs Hstart. cbv zeta. unfold Legacy.handleJump.
  destruct Hs as [Hs|Hs]; rewrite Hs.
  - destruct (Legacy_bird_jump_footprint rnd g) as (ps & d & -> & _).
    cbn. repeat split; auto.
  - destruct (Legacy_bird_jump_footprint rnd (Legacy.startGame g)) as (ps & d & -> & _).
    cbn. repeat split; auto.
Qed.

End LegacyRun.

(** The run [legacy_flapping]: it is a run of the script, the game is in
    progress without a pipe for 119 rounds, and the 120th frame spawns the
    first pipe. *)
Lemma legacy_flapping_reachable k :
  Legacy_reachable Math_random_half StringToNumber_int None (legacy_flapping k).
Proof.
  induction k as [|k IH]; cbn [legacy_flapping].
  - apply Legacy_reachable_init.
  - apply Legacy_reachable_frame, Legacy_reachable_jump, IH.
Qed.

Lemma legacy_flapping_playing k :
  (k < 120)%nat ->
  let g := legacy_flapping k in
  (Legacy.gameState g = PLAYING \/ Legacy.gameState g = START)
  /\ Legacy.frame g = Z.of_nat k /\ Legacy.pipes g = [].
Proof.
  induction k as [|k IH]; intros Hk; cbv zeta.
  - cbn [legacy_flapping].
    destruct (Legacy_initialGame_footprint Math_random_half None) as (cl & d & ->).
    split; [right; reflexivity | split; reflexivity].
  - destruct IH as (S & F & P); [lia|].
    pose proof (Legacy_reachable_bird_ok Math_random_half StringToNumber_int None _
                  (legacy_flapping_reachable k)) as Hb0.
    pose proof (Legacy_reachable_bird_ok Math_random_half StringToNumber_int None _
                  (Legacy_reachable_jump _ _ _ _ (legacy_flapping_reachable k))) as Hb.
    destruct (Legacy_handleJump_flap Math_random_half (legacy_flapping k) S (fun _ => P))
      as (S1 & F1 & P1 & V1 & G1).
    cbn [legacy_flapping].
    destruct (Legacy_frame_without_hit Math_random_half StringToNumber_int _ S1 (P1 P))
      as (S' & F' & P'); try assumption.
    + unfold Legacy_spawn_due, Legacy.pipeInterval. rewrite F1, F.
      rewrite Z.rem_small by lia. lia.
    + destruct Hb0 as ((_ & _ & _ & Hg & Hj & _) & _).
      rewrite V1, G1, Hj, Hg. discriminate.
    + split; [left; exact S'|]. split; [|exact P'].
      rewrite F', F1, F. lia.
Qed.

Lemma legacy_flapping_spawn k :
  k = 119%nat -> length (Legacy.pipes (legacy_flapping (S k))) = 1%nat.
Proof.
  intros Hk.
  destruct (legacy_flapping_playing k) as (S & F & P); [lia|].
  destruct (Legacy_handleJump_flap Math_random_half (legacy_flapping k) S (fun _ => P))
    as (S1 & F1 & P1 & _).
  cbn [legacy_flapping].
  apply Legacy_frame_first_pipe; [exact S1 | exact (P1 P)|].
  unfold Legacy_spawn_due. rewrite F1, F, Hk. reflexivity.
Qed.

Lemma legacy_flapping_first_pipe :
  length (Legacy.pipes (legacy_flapping 120)) = 1%nat.
Proof. exact (legacy_flapping_spawn 119 eq_refl). Qed.

(** X14. In [src/game.js] the removal of a pipe makes the loop skip the
    next one: the pipes after a frame in the [PLAYING] state are what
    [Legacy_pass] leaves of the pipes of the previous frame and of the pipe
    the frame may have spawned; when a pipe [p] is removed by [splice]
    inside [forEach], the pipe [q] that follows it takes its index and is
    left as it was: in that frame it is not moved and not marked as
    passed. (The statement is about the array of pipes; the callback that
    is not called for [q] also holds the collision test.
    [src/unnamed/part_000] walks the array backwards and visits every
    pipe.) *)
Theorem Legacy_forEach_skips_after_removal
  (rnd : nat -> Q) (stn : string -> option Q) (g : Legacy.Game) :
  Legacy.gameState g = PLAYING ->
  let birdx := Bird.x (Legacy.bird g) in
  let tick := Legacy_Pipe_tick birdx in
  exists new,
    ((new = [] /\ ~ Legacy_spawn_due (Legacy.frame g))
     \/ (Legacy_spawn_due (Legacy.frame g)
         /\ exists h, new = [fst (Legacy.new_Pipe rnd h)]))
    /\ Legacy.pipes (Legacy.gameLoop rnd stn g)
       = Legacy_pass birdx (Legacy.pipes g ++ new)
    /\ forall pre p q rest,
         Legacy.pipes g ++ new = pre ++ p :: q :: rest ->
         Forall (fun r => on_screen (tick r) = true) pre ->
         on_screen (tick p) = false ->
         Legacy.pipes (Legacy.gameLoop rnd stn g)
         = List.map tick pre ++ q :: Legacy_pass birdx rest.
Proof.
  intros Hs birdx tick.
  destruct (Legacy_gameLoop_playing rnd stn g Hs) as (new & Hnew & Hp & _).
  exists new. split; [exact Hnew|]. split; [exact Hp|].
  intros pre p q rest Hl Hpre Hoff.
  rewrite Hp. fold birdx. rewrite Hl, (Legacy_pass_app birdx pre _ Hpre).
  cbn [Legacy_pass]. fold tick. rewrite Hoff. reflexivity.
Qed.

Lemma Legacy_forEach_skips_after_removal_witness :
  Legacy.gameState legacy_two_pipes = PLAYING
  /\ exists new,
       Legacy.pipes (Legacy.gameLoop Math_random_half StringToNumber_int legacy_two_pipes)
       = Legacy_pass (Bird.x (Legacy.bird legacy_two_pipes))
           (Legacy.pipes legacy_two_pipes ++ new).
Proof.
  split; [reflexivity|].
  destruct (Legacy_forEach_skips_after_removal Math_random_half StringToNumber_int
              legacy_two_pipes eq_refl) as (new & _ & H & _).
  exists new. exact H.
Defined.

(** X15. In [src/game.js] a restart keeps the frame counter: [startGame]
    resets the score, the pipes and the bird but neither [frame] nor the
    particles, so that the first pipe of the new game is spawned when the
    counter of all the frames played since the page was loaded next reaches
    a multiple of 120, possibly in the very first frame. *)
Theorem Legacy_restart_keeps_frame_counter
  (rnd : nat -> Q) (stn : string -> option Q) (g : Legacy.Game) :
  Legacy.gameState g = GAME_OVER ->
  let restarted := Legacy.handleJump rnd g in
  let next := Legacy.gameLoop rnd stn restarted in
  (Legacy.gameState restarted = PLAYING
   /\ Legacy.score restarted = 0%Z /\ Legacy.pipes restarted = []
   /\ Legacy.frame restarted = Legacy.frame g
   /\ Legacy.particles restarted = Legacy.particles g)
  /\ Legacy.frame next = (Legacy.frame g + 1)%Z
  /\ (Legacy_spawn_due (Legacy.frame g) -> length (Legacy.pipes next) = 1%nat)
  /\ (~ Legacy_spawn_due (Legacy.frame g) -> Legacy.pipes next = []).
Proof.
  intros Hs restarted next.
  assert (Hr : restarted = Legacy.startGame g).
  { unfold restarted, Legacy.handleJump. now rewrite Hs. }
  assert (H1 : Legacy.gameState restarted = PLAYING
               /\ Legacy.score restarted = 0%Z /\ Legacy.pipes restarted = []
               /\ Legacy.frame restarted = Legacy.frame g
               /\ Legacy.particles restarted = Legacy.particles g)
    by (rewrite Hr; repeat split).
  split; [exact H1|].
  destruct H1 as (P1 & _ & L1 & F1 & _).
  destruct (Legacy_gameLoop_playing rnd stn restarted P1)
    as (new & Hnew & Hp & _ & Hf & _).
  fold next in Hp, Hf. rewrite L1 in Hp. rewrite F1 in Hf, Hnew.
  split; [exact Hf|]. cbn [app] in Hp. rewrite Hp.
  split.
  - intros Hdue. destruct Hnew as [(_ & Hn) | (_ & h & ->)]; [contradiction|].
    cbn [Legacy_pass].
    assert (Hon : on_screen (Legacy_Pipe_tick (Bird.x (Legacy.bird restarted))
                               (fst (Legacy.new_Pipe rnd h))) = true).
    { unfold on_screen, Legacy_Pipe_tick. cbv zeta.
      destruct (negb _ && Qltb _ _); reflexivity. }
    rewrite Hon. reflexivity.
  - intros Hdue. destruct Hnew as [(-> & _) | (Hn & _)]; [reflexivity | contradiction].
Qed.

Lemma Legacy_restart_keeps_frame_counter_witness :
  let restarted := Legacy.handleJump Math_random_half legacy_ended_at_119 in
  let next := Legacy.gameLoop Math_random_half StringToNumber_int restarted in
  (Legacy.gameState legacy_ended_at_119 = GAME_OVER
   /\ Legacy_spawn_due (Legacy.frame legacy_ended_at_119))
  /\ Legacy.frame next = 120%Z
  /\ length (Legacy.pipes next) = 1%nat.
Proof.
  pose (T := Legacy_restart_keeps_frame_counter Math_random_half StringToNumber_int
               legacy_ended_at_119 eq_refl).
  exact (conj (conj eq_refl eq_refl)
           (conj (proj1 (proj2 T)) (proj1 (proj2 (proj2 T)) eq_refl))).
Defined.

Lemma StringToNumber_int_Number_toString (n : Z) :
  StringToNumber_int (Number_toString n) = Some (inject_Z n).
Proof. unfold StringToNumber_int. now rewrite parseInt_Number_toString. Defined.

(** X16. In [src/game.js] too the best score survives a reload, as a
    number: in every reachable state the value the script would read from
    [localStorage] on start-up converts to the same number as the
    [bestScore] in memory (which is a string until the first new record),
    provided the conversion of a string to a number reads back the numerals
    that [String(n)] prints. *)
Theorem Legacy_bestScore_survives_reload
  (rnd : nat -> Q) (stn : string -> option Q) (stored : option string) (g : Legacy.Game)
  (stn_Number_toString : forall n : Z, stn (Number_toString n) = Some (inject_Z n)) :
  Legacy_reachable rnd stn stored g ->
  Legacy.ToNumber stn (Legacy.initial_bestScore (Legacy.localStorage g))
  = Legacy.ToNumber stn (Legacy.bestScore g).
Proof. intros Hr. now apply (Legacy_reachable_stored_ok rnd stn stored g). Qed.

Lemma Legacy_bestScore_survives_reload_witness :
  ((forall n : Z, StringToNumber_int (Number_toString n) = Some (inject_Z n))
   /\ Legacy_reachable Math_random_half StringToNumber_int (Some "7"%string)
        legacy_started_best_7)
  /\ Legacy.ToNumber StringToNumber_int
       (Legacy.initial_bestScore (Legacy.localStorage legacy_started_best_7))
     = Some 7.
Proof.
  pose (R := Legacy_reachable_jump Math_random_half StringToNumber_int (Some "7"%string)
               (Legacy.initialGame Math_random_half (Some "7"%string))
               (Legacy_reachable_init _ _ _)).
  exact (conj (conj StringToNumber_int_Number_toString R)
           (Legacy_bestScore_survives_reload Math_random_half StringToNumber_int
              (Some "7"%string) legacy_started_best_7
              StringToNumber_int_Number_toString R)).
Defined.

(** X17. The bird of [src/game.js] stays in range: in every reachable state
    it has the constants the script gives it, lies between the ceiling and
    the ground line ([0 <= y] and [y + 24 <= 500]), its velocity lies
    between the jump impulse -10 and the terminal velocity 10, its rotation
    between -30 and 90 and its wing phase in [0, 3). *)
Theorem Legacy_bird_in_range
  (rnd : nat -> Q) (stn : string -> option Q) (stored : option string) (g : Legacy.Game) :
  Legacy_reachable rnd stn stored g -> Legacy_bird_ok (Legacy.bird g).
Proof. apply Legacy_reachable_bird_ok. Qed.

Lemma Legacy_bird_in_range_witness :
  Legacy_reachable Math_random_half StringToNumber_int (Some "7"%string)
    legacy_started_best_7
  /\ Legacy_bird_ok (Legacy.bird legacy_started_best_7).
Proof.
  pose (R := Legacy_reachable_jump Math_random_half StringToNumber_int (Some "7"%string)
               (Legacy.initialGame Math_random_half (Some "7"%string))
               (Legacy_reachable_init _ _ _)).
  exact (conj R (Legacy_bird_in_range Math_random_half StringToNumber_int
                   (Some "7"%string) legacy_started_best_7 R)).
Defined.

(** X18. The pipes of [src/game.js] are well formed: in every reachable
    state, with [Math.random()] in [0, 1), each pipe is 60 wide, moves at 2.5
    per frame, has a gap of 150 that starts between 50 and 300 below the
    ceiling (so that it ends at least 50 above the ground line), lies
    between [x = -60] and the right edge of the canvas and has a highlight
    phase in [0, 20); this holds although the loop skips the pipe that
    follows a removed one. *)
Theorem Legacy_pipes_well_formed
  (rnd : nat -> Q) (stn : string -> option Q) (stored : option string) (g : Legacy.Game)
  (rnd_range : random_in_range rnd) :
  Legacy_reachable rnd stn stored g -> Forall Legacy_pipe_ok (Legacy.pipes g).
Proof.
  intros Hr. exact (Legacy_reachable_pipes_ok rnd stn stored rnd_range g Hr).
Qed.

Lemma Legacy_pipes_well_formed_witness :
  let g := legacy_flapping 120 in
  (random_in_range Math_random_half
   /\ Legacy_reachable Math_random_half StringToNumber_int None g
   /\ length (Legacy.pipes g) = 1%nat)
  /\ Forall Legacy_pipe_ok (Legacy.pipes g).
Proof.
  exact (conj (conj Math_random_half_in_range
                 (conj (legacy_flapping_reachable 120) legacy_flapping_first_pipe))
           (Legacy_pipes_well_formed Math_random_half StringToNumber_int None
              (legacy_flapping 120) Math_random_half_in_range
              (legacy_flapping_reachable 120))).
Defined.

(** ** The frame in which the game ends *)

Section EnhancedLastFrame.

Import Enhanced.

Variable cfg : Config.
Variable rnd : nat -> Q.

(** [pipe.update] and [pipe.collidesWith] never end the game themselves. *)
Lemma Pipe_update_quiet dt p g :
  let g' := snd (Pipe_update cfg rnd dt p g) in
  gameState g' = gameState g /\ bestScore g' = bestScore g
  /\ localStorage g' = localStorage g.
Proof.
  cbv zeta. unfold Pipe_update. cbv zeta.
  destruct (Pipe_passed (Pipe_move cfg dt p) g); cbn [snd]; [|repeat split].
  match goal with
  | |- context [emit rnd ?n ?x ?y ?c ?gg] =>
      destruct (emit_footprint rnd n x y c gg) as (ps & d & -> & _)
  end.
  unfold updateDifficulty. destruct (negb (difficulty_enabled cfg)); repeat split.
Qed.

Lemma Pipe_collidesWith_quiet p b g :
  let g' := snd (Pipe_collidesWith cfg rnd p b g) in
  gameState g' = gameState g /\ bestScore g' = bestScore g
  /\ localStorage g' = localStorage g.
Proof.
  cbv zeta. unfold Pipe_collidesWith. cbv zeta.
  destruct (Qltb _ _ && Qltb _ _); [|repeat split].
  destruct (Qltb _ _ || Qltb _ _); [|repeat split].
  cbn [snd].
  match goal with
  | |- context [emit rnd ?n ?x ?y ?c ?gg] =>
      destruct (emit_footprint rnd n x y c gg) as (ps & d & -> & _)
  end.
  repeat split.
Qed.

(** The padded box of the bird does not touch the pipe. *)
Lemma no_collision_verdict p b g :
  ~ (in_x_band (bird_hitboxPadding cfg) p b /\ breaches_gap (bird_hitboxPadding cfg) p b) ->
  fst (Pipe_collidesWith cfg rnd p b g) = false.
Proof.
  intros Hno.
  destruct (collision_formula (bird_hitboxPadding cfg) p b
              (fst (Pipe_collidesWith cfg rnd p b g))
              (Enhanced_collidesWith_fst cfg rnd p b g)) as (Hiff & _).
  destruct (fst (Pipe_collidesWith cfg rnd p b g)); [|reflexivity].
  exfalso. apply Hno, Hiff. reflexivity.
Qed.

(** An iteration of the loop over the pipes in which the pipe is not hit. *)
Lemma pipesLoop_body_quiet i g pipe :
  pipes g !! i = Some pipe ->
  ~ (in_x_band (bird_hitboxPadding cfg)
       (Pipe_tick cfg (deltaTime g) (Bird.x (bird g)) pipe) (bird g)
     /\ breaches_gap (bird_hitboxPadding cfg)
          (Pipe_tick cfg (deltaTime g) (Bird.x (bird g)) pipe) (bird g)) ->
  let g' := pipesLoop_body cfg rnd i g in
  gameState g' = gameState g /\ bestScore g' = bestScore g
  /\ localStorage g' = localStorage g.
Proof.
  intros Hi Hno. cbv zeta. rewrite (pipesLoop_body_Some cfg rnd i g pipe Hi).
  set (p1 := Pipe_tick cfg (deltaTime g) (Bird.x (bird g)) pipe) in *.
  destruct (Pipe_update_quiet (deltaTime g) pipe g) as (S1 & B1 & L1).
  destruct (Pipe_update_effect cfg rnd (deltaTime g) pipe g) as (_ & Hb1 & _).
  generalize dependent (snd (Pipe_update cfg rnd (deltaTime g) pipe g)).
  intros g1 S1 B1 L1 Hb1.
  set (g2 := set_pipes (<[i := p1]> (pipes g1)) g1).
  assert (Hb2 : bird g2 = bird g) by exact Hb1.
  rewrite (no_collision_verdict p1 (bird g2) g2) by (rewrite Hb2; exact Hno).
  destruct (Pipe_collidesWith_quiet p1 (bird g2) g2) as (S3 & B3 & L3).
  generalize dependent (snd (Pipe_collidesWith cfg rnd p1 (bird g2) g2)).
  intros g3 S3 B3 L3.
  assert (H3 : gameState g3 = gameState g /\ bestScore g3 = bestScore g
               /\ localStorage g3 = localStorage g).
  { rewrite S3, B3, L3. unfold g2. cbn. repeat split; assumption. }
  destruct (on_screen p1); [exact H3|]. exact H3.
Qed.

Lemma pipesLoop_quiet pre suf g :
  pipes g = pre ++ suf ->
  Forall (fun p =>
            ~ (in_x_band (bird_hitboxPadding cfg)
                 (Pipe_tick cfg (deltaTime g) (Bird.x (bird g)) p) (bird g)
               /\ breaches_gap (bird_hitboxPadding cfg)
                    (Pipe_tick cfg (deltaTime g) (Bird.x (bird g)) p) (bird g))) pre ->
  let g' := pipesLoop cfg rnd (length pre) g in
  gameState g' = gameState g /\ bestScore g' = bestScore g
  /\ localStorage g' = localStorage g.
Proof.
  revert suf g. induction pre as [|pipe pre IH] using rev_ind; intros suf g Hp Hno.
  - repeat split.
  - cbv zeta. rewrite length_app, Nat.add_comm. cbn [length Nat.add pipesLoop].
    rewrite <- app_assoc in Hp. cbn [app] in Hp.
    apply Forall_app in Hno. destruct Hno as (Hpre & Hpipe).
    apply Forall_cons in Hpipe. destruct Hpipe as (Hpipe & _).
    assert (Hi : pipes g !! length pre = Some pipe).
    { rewrite Hp. now apply list_lookup_middle. }
    destruct (pipesLoop_body_quiet (length pre) g pipe Hi Hpipe) as (S1 & B1 & L1).
    pose proof (pipesLoop_body_pipes cfg rnd pre pipe suf g Hp) as Hb. cbv zeta in Hb.
    destruct (pipesLoop_body_effect cfg rnd (length pre) g)
      as ((_ & _ & _ & Hd & _) & Hbird).
    destruct (IH _ (pipesLoop_body cfg rnd (length pre) g) Hb) as (S2 & B2 & L2).
    { rewrite Hd, Hbird. exact Hpre. }
    rewrite S2, B2, L2. repeat split; assumption.
Qed.

End EnhancedLastFrame.

(** X19. The points of the last frame are not recorded: when the bird hits
    the ground in a frame of the [PLAYING] state, [gameOver()] runs inside
    [bird.update], before the loop over the pipes; the loop still runs and
    counts every pipe that is newly passed in that frame. If no pipe of the
    frame ([l]: the pipes before the frame and the one the frame may spawn)
    is hit, the frame ends in the [GAME_OVER] state with the score increased
    by the number of those pipes, while the best score is the maximum of the
    previous best score and the score before the frame: the score then
    exceeds the best score whenever the score before the frame was at least
    the best score and a pipe was passed. *)
Theorem last_frame_points_not_recorded
  (cfg : Enhanced.Config) (rnd : nat -> Q) (t : Q) (g : Enhanced.Game) :
  Enhanced.gameState g = PLAYING ->
  let dt := Math_min (t - Enhanced.lastFrameTime g) 100 in
  let pad := Enhanced.bird_hitboxPadding cfg in
  let ground := Enhanced.canvas_height cfg - Enhanced.ground_height cfg in
  let b := Enhanced.bird_integrate cfg dt (Enhanced.bird g) in
  let g' := Enhanced.gameLoop cfg rnd t g in
  let tick := Pipe_tick cfg dt (Bird.x (Enhanced.bird g)) in
  let l := Enhanced.pipes
             (Enhanced.gameLoop_spawn cfg rnd
                (Enhanced.gameLoop_background cfg rnd (Enhanced.gameLoop_clock t g))) in
  0 <= ground - Bird.height b ->
  ground < Bird.y b + Bird.height b ->
  Forall (fun p => ~ (in_x_band pad (tick p) (Enhanced.bird g')
                      /\ breaches_gap pad (tick p) (Enhanced.bird g'))) l ->
  Enhanced.gameState g' = GAME_OVER
  /\ Enhanced.score g'
     = (Enhanced.score g
        + Z.of_nat (length (List.filter
                              (newly_passed cfg dt (Bird.x (Enhanced.bird g))) l)))%Z
  /\ Enhanced.bestScore g' = Z.max (Enhanced.bestScore g) (Enhanced.score g)
  /\ ((Enhanced.bestScore g <= Enhanced.score g)%Z ->
      (exists p, In p (Enhanced.pipes g)
                 /\ newly_passed cfg dt (Bird.x (Enhanced.bird g)) p = true) ->
      (Enhanced.bestScore g' < Enhanced.score g')%Z).
Proof.
  intros Hs dt pad ground b g' tick l Hroom Hhit Hno'.
  destruct (gameLoop_pass cfg rnd t g Hs) as (Hscore & _).
  destruct (gameLoop_spawn_pipes cfg rnd t g) as (new & Hl & _).
  destruct (gameLoop_playing_fields cfg rnd t g Hs) as (_ & _ & Hbird).
  fold dt in Hscore, Hbird. fold g' in Hscore, Hbird. fold l in Hscore, Hl.
  assert (H' : Enhanced.gameState g' = GAME_OVER
               /\ Enhanced.bestScore g' = Z.max (Enhanced.bestScore g) (Enhanced.score g)).
  { rewrite Hbird in Hno'. clear Hbird Hscore Hl. revert Hno'. unfold g', l. clear l.
    rewrite (gameLoop_playing cfg rnd t g Hs). cbv zeta.
    destruct (gameLoop_spawn_fields cfg rnd t g)
      as (S1 & Sc1 & B1 & _ & _ & _ & Bd1 & _ & _ & D1 & _).
    generalize dependent
      (Enhanced.gameLoop_spawn cfg rnd
         (Enhanced.gameLoop_background cfg rnd (Enhanced.gameLoop_clock t g))).
    intros g1 S1 Sc1 B1 Bd1 D1.
    fold dt in D1. rewrite D1.
    destruct (bird_update_ground cfg rnd dt g1) as (Hg & _).
    { rewrite Bd1. exact Hroom. }
    rewrite Bd1 in Hg. fold b ground in Hg.
    destruct (Hg Hhit) as (_ & _ & Hg' & _).
    destruct (Hg' (eq_trans S1 Hs)) as (S2 & B2 & _). clear Hg Hg'.
    destruct (bird_update_effect cfg rnd dt g1) as ((_ & _ & _ & D2 & _) & P2).
    pose proof (bird_update_x cfg rnd dt g1) as X2.
    pose proof (bird_update_bird cfg rnd dt g1) as Bb2.
    generalize dependent (Enhanced.bird_update cfg rnd dt g1).
    intros g2 S2 B2 D2 P2 X2 Bb2 Hno'.
    destruct (gameLoop_particles_kept cfg
                (Enhanced.pipesLoop cfg rnd (length (Enhanced.pipes g2)) g2))
      as (_ & _ & _ & B4 & _ & _ & _ & _ & S4 & _).
    rewrite B4, S4.
    destruct (pipesLoop_quiet cfg rnd (Enhanced.pipes g2) [] g2) as (S3 & B3 & _).
    { now rewrite app_nil_r. }
    { rewrite D2, D1, X2, Bd1, P2, Bb2, Bd1. exact Hno'. }
    rewrite S3, B3, S2, B2, B1, Sc1. split; reflexivity. }
  destruct H' as (Hstate & Hbest).
  split; [exact Hstate|]. split; [exact Hscore|]. split; [exact Hbest|].
  intros Hrec (p & Hin & Hp). rewrite Hbest, Hscore.
  assert (0 < length (List.filter (newly_passed cfg dt (Bird.x (Enhanced.bird g))) l))%nat.
  { rewrite Hl, List.filter_app, length_app.
    assert (Hin' : In p (List.filter (newly_passed cfg dt (Bird.x (Enhanced.bird g)))
                           (Enhanced.pipes g)))
      by (apply List.filter_In; split; assumption).
    destruct (List.filter _ (Enhanced.pipes g)); [contradiction | cbn; lia]. }
  lia.
Qed.

Lemma last_frame_points_not_recorded_witness :
  let g := game_last_pipe in
  let g' := Enhanced.gameLoop Enhanced.CONFIG Math_random_half 100 g in
  let dt := Math_min (100 - Enhanced.lastFrameTime g) 100 in
  let b := Enhanced.bird_integrate Enhanced.CONFIG dt (Enhanced.bird g) in
  let tick := Pipe_tick Enhanced.CONFIG dt (Bird.x (Enhanced.bird g)) in
  (Enhanced.gameState g = PLAYING
   /\ 0 <= 600 - 100 - Bird.height b
   /\ 600 - 100 < Bird.y b + Bird.height b
   /\ Forall (fun p => ~ (in_x_band 5 (tick p) (Enhanced.bird g')
                          /\ breaches_gap 5 (tick p) (Enhanced.bird g')))
        (Enhanced.pipes
           (Enhanced.gameLoop_spawn Enhanced.CONFIG Math_random_half
              (Enhanced.gameLoop_background Enhanced.CONFIG Math_random_half
                 (Enhanced.gameLoop_clock 100 g))))
   /\ (Enhanced.bestScore g <= Enhanced.score g)%Z
   /\ exists p, In p (Enhanced.pipes g)
                /\ newly_passed Enhanced.CONFIG dt (Bird.x (Enhanced.bird g)) p = true)
  /\ Enhanced.gameState g' = GAME_OVER
  /\ (Enhanced.bestScore g' < Enhanced.score g')%Z.
Proof.
  cbv zeta.
  set (dt := Math_min (100 - Enhanced.lastFrameTime game_last_pipe) 100).
  set (b := Enhanced.bird_integrate Enhanced.CONFIG dt (Enhanced.bird game_last_pipe)).
  assert (H1 : 0 <= Enhanced.canvas_height Enhanced.CONFIG
                    - Enhanced.ground_height Enhanced.CONFIG - Bird.height b)
    by (vm_compute; discriminate).
  assert (H2 : Enhanced.canvas_height Enhanced.CONFIG
               - Enhanced.ground_height Enhanced.CONFIG < Bird.y b + Bird.height b)
    by (vm_compute; reflexivity).
  assert (H3 : Forall
                 (fun p =>
                    ~ (in_x_band (Enhanced.bird_hitboxPadding Enhanced.CONFIG)
                         (Pipe_tick Enhanced.CONFIG dt
                            (Bird.x (Enhanced.bird game_last_pipe)) p)
                         (Enhanced.bird
                            (Enhanced.gameLoop Enhanced.CONFIG Math_random_half 100
                               game_last_pipe))
                       /\ breaches_gap (Enhanced.bird_hitboxPadding Enhanced.CONFIG)
                            (Pipe_tick Enhanced.CONFIG dt
                               (Bird.x (Enhanced.bird game_last_pipe)) p)
                            (Enhanced.bird
                               (Enhanced.gameLoop Enhanced.CONFIG Math_random_half 100
                                  game_last_pipe))))
                 (Enhanced.pipes
                    (Enhanced.gameLoop_spawn Enhanced.CONFIG Math_random_half
                       (Enhanced.gameLoop_background Enhanced.CONFIG Math_random_half
                          (Enhanced.gameLoop_clock 100 game_last_pipe))))).
  { assert (E : Enhanced.pipes
                  (Enhanced.gameLoop_spawn Enhanced.CONFIG Math_random_half
                     (Enhanced.gameLoop_background Enhanced.CONFIG Math_random_half
                        (Enhanced.gameLoop_clock 100 game_last_pipe)))
                = [pipe_almost_passed]) by (vm_compute; reflexivity).
    rewrite E. apply List.Forall_cons; [|apply List.Forall_nil].
    intros ((_ & Hx) & _). vm_compute in Hx. discriminate Hx. }
  assert (H4 : (Enhanced.bestScore game_last_pipe <= Enhanced.score game_last_pipe)%Z)
    by (vm_compute; discriminate).
  assert (H5 : exists p, In p (Enhanced.pipes game_last_pipe)
                         /\ newly_passed Enhanced.CONFIG dt
                              (Bird.x (Enhanced.bird game_last_pipe)) p = true).
  { exists pipe_almost_passed. split; [left; reflexivity | vm_compute; reflexivity]. }
  pose proof (last_frame_points_not_recorded Enhanced.CONFIG Math_random_half 100
                game_last_pipe eq_refl H1 H2 H3) as T.
  exact (conj (conj eq_refl (conj H1 (conj H2 (conj H3 (conj H4 H5)))))
           (conj (proj1 T) (proj2 (proj2 (proj2 T)) H4 H5))).
Defined.

(** ** The debug flag *)

Section EnhancedDebug.

Import Enhanced.

Variable cfg : Config.
Variable rnd : nat -> Q.

(** No function of the simulation reads [showHitboxes]: each one commutes
    with an assignment to it. *)
Lemma new_Particle_debug v x y c g :
  new_Particle rnd x y c (set_showHitboxes v g)
  = (fst (new_Particle rnd x y c g), set_showHitboxes v (snd (new_Particle rnd x y c g))).
Proof. reflexivity. Qed.

Lemma emit_debug v n x y c g :
  emit rnd n x y c (set_showHitboxes v g) = set_showHitboxes v (emit rnd n x y c g).
Proof.
  revert g. induction n as [|n IH]; intros g; [reflexivity|].
  cbn [emit]. rewrite new_Particle_debug.
  destruct (new_Particle rnd x y c g) as [p g1]. cbn [fst snd].
  rewrite <- IH. reflexivity.
Qed.

Lemma updateDifficulty_debug v g :
  updateDifficulty cfg (set_showHitboxes v g) = set_showHitboxes v (updateDifficulty cfg g).
Proof. unfold updateDifficulty. destruct (negb (difficulty_enabled cfg)); reflexivity. Qed.

Lemma gameOver_debug v g :
  gameOver (set_showHitboxes v g) = set_showHitboxes v (gameOver g).
Proof.
  unfold gameOver. cbn. destruct (bestScore g <? score g)%Z; reflexivity.
Qed.

Lemma bird_jump_debug v g :
  bird_jump rnd (set_showHitboxes v g) = set_showHitboxes v (bird_jump rnd g).
Proof. unfold bird_jump. cbv zeta. rewrite <- emit_debug. reflexivity. Qed.

Lemma bird_update_debug v dt g :
  bird_update cfg rnd dt (set_showHitboxes v g)
  = set_showHitboxes v (bird_update cfg rnd dt g).
Proof.
  unfold bird_update. cbv zeta.
  change (bird (set_showHitboxes v g)) with (bird g).
  generalize (bird_integrate cfg dt (bird g)). intros b.
  assert (E : forall h, (if Qltb (Bird.y (bird (set_showHitboxes v h))) 0
                         then set_bird (Bird.set_velocity 0
                                          (Bird.set_y 0 (bird (set_showHitboxes v h))))
                                (set_showHitboxes v h)
                         else set_showHitboxes v h)
                        = set_showHitboxes v
                            (if Qltb (Bird.y (bird h)) 0
                             then set_bird (Bird.set_velocity 0 (Bird.set_y 0 (bird h))) h
                             else h)).
  { intros h. change (bird (set_showHitboxes v h)) with (bird h).
    destruct (Qltb (Bird.y (bird h)) 0); reflexivity. }
  destruct (Qltb (canvas_height cfg - ground_height cfg) (Bird.y b + Bird.height b)).
  - change (gameState (set_bird ?b' (set_bird b (set_showHitboxes v g))))
      with (gameState g).
    change (gameState (set_bird ?b' (set_bird b g))) with (gameState g).
    destruct (GameState_eqb (gameState g) PLAYING).
    + match goal with
      | |- context [gameOver (emit rnd ?n ?x ?y ?c
                                (set_bird ?b1 (set_bird ?b2 (set_showHitboxes v g))))] =>
          change (set_bird b1 (set_bird b2 (set_showHitboxes v g)))
            with (set_showHitboxes v (set_bird b1 (set_bird b2 g)));
          rewrite (emit_debug v n x y c), gameOver_debug
      end.
      apply E.
    + match goal with
      | |- context [set_bird ?b1 (set_bird b (set_showHitboxes v g))] =>
          apply (E (set_bird b1 (set_bird b g)))
      end.
  - apply (E (set_bird b g)).
Qed.

Lemma new_Pipe_debug v g :
  new_Pipe cfg rnd (set_showHitboxes v g)
  = (fst (new_Pipe cfg rnd g), set_showHitboxes v (snd (new_Pipe cfg rnd g))).
Proof. reflexivity. Qed.

Lemma Pipe_update_debug v dt p g :
  Pipe_update cfg rnd dt p (set_showHitboxes v g)
  = (fst (Pipe_update cfg rnd dt p g), set_showHitboxes v (snd (Pipe_update cfg rnd dt p g))).
Proof.
  unfold Pipe_update. cbv zeta.
  change (Pipe_passed (Pipe_move cfg dt p) (set_showHitboxes v g))
    with (Pipe_passed (Pipe_move cfg dt p) g).
  destruct (Pipe_passed (Pipe_move cfg dt p) g); [|reflexivity].
  cbn [fst snd]. f_equal.
  change (set_score (score (set_showHitboxes v g) + 1) (set_showHitboxes v g))
    with (set_showHitboxes v (set_score (score g + 1) g)).
  rewrite updateDifficulty_debug.
  change (bird (set_showHitboxes v ?h)) with (bird h).
  apply emit_debug.
Qed.

Lemma Pipe_collidesWith_debug v p b g :
  Pipe_collidesWith cfg rnd p b (set_showHitboxes v g)
  = (fst (Pipe_collidesWith cfg rnd p b g),
     set_showHitboxes v (snd (Pipe_collidesWith cfg rnd p b g))).
Proof.
  unfold Pipe_collidesWith. cbv zeta.
  destruct (Qltb _ _ && Qltb _ _); [|reflexivity].
  destruct (Qltb _ _ || Qltb _ _); [|reflexivity].
  cbn [fst snd]. rewrite emit_debug. reflexivity.
Qed.

Lemma Cloud_update_debug v dt c g :
  Cloud_update cfg rnd dt c (set_showHitboxes v g)
  = (fst (Cloud_update cfg rnd dt c g),
     set_showHitboxes v (snd (Cloud_update cfg rnd dt c g))).
Proof. unfold Cloud_update. cbv zeta. destruct (Qltb _ _); reflexivity. Qed.

Lemma clouds_forEach_debug v dt todo done g :
  clouds_forEach cfg rnd dt todo done (set_showHitboxes v g)
  = set_showHitboxes v (clouds_forEach cfg rnd dt todo done g).
Proof.
  revert done g. induction todo as [|c rest IH]; intros done g; [reflexivity|].
  cbn [clouds_forEach]. rewrite Cloud_update_debug.
  destruct (Cloud_update cfg rnd dt c g) as [c1 g1]. cbn [fst snd]. apply IH.
Qed.

Lemma startGame_debug v g :
  startGame cfg (set_showHitboxes v g) = set_showHitboxes v (startGame cfg g).
Proof. reflexivity. Qed.

Lemma pauseGame_debug v now g :
  pauseGame now (set_showHitboxes v g) = set_showHitboxes v (pauseGame now g).
Proof.
  unfold pauseGame. change (gameState (set_showHitboxes v g)) with (gameState g).
  destruct (gameState g); reflexivity.
Qed.

Lemma pipesLoop_body_debug v i g :
  pipesLoop_body cfg rnd i (set_showHitboxes v g)
  = set_showHitboxes v (pipesLoop_body cfg rnd i g).
Proof.
  unfold pipesLoop_body.
  change (pipes (set_showHitboxes v g)) with (pipes g).
  change (deltaTime (set_showHitboxes v g)) with (deltaTime g).
  destruct (pipes g !! i) as [pipe|]; [|reflexivity].
  rewrite Pipe_update_debug.
  destruct (Pipe_update cfg rnd (deltaTime g) pipe g) as [p1 g1]. cbn [fst snd].
  change (set_pipes (<[i:=p1]> (pipes (set_showHitboxes v g1))) (set_showHitboxes v g1))
    with (set_showHitboxes v (set_pipes (<[i:=p1]> (pipes g1)) g1)).
  set (g2 := set_pipes (<[i:=p1]> (pipes g1)) g1).
  change (bird (set_showHitboxes v g2)) with (bird g2).
  rewrite Pipe_collidesWith_debug.
  destruct (Pipe_collidesWith cfg rnd p1 (bird g2) g2) as [hit g3]. cbn [fst snd].
  destruct hit; [rewrite gameOver_debug|];
    destruct (Qltb (Pipe.x p1 + Pipe.width p1) 0); reflexivity.
Qed.

Lemma pipesLoop_debug v n g :
  pipesLoop cfg rnd n (set_showHitboxes v g) = set_showHitboxes v (pipesLoop cfg rnd n g).
Proof.
  revert g. induction n as [|n IH]; intros g; [reflexivity|].
  cbn [pipesLoop]. rewrite pipesLoop_body_debug. apply IH.
Qed.

Lemma gameLoop_background_debug v g :
  gameLoop_background cfg rnd (set_showHitboxes v g)
  = set_showHitboxes v (gameLoop_background cfg rnd g).
Proof.
  unfold gameLoop_background. cbv zeta.
  change (deltaTime (set_showHitboxes v g)) with (deltaTime g).
  change (clouds (set_showHitboxes v g)) with (clouds g).
  rewrite clouds_forEach_debug. reflexivity.
Qed.

Lemma gameLoop_spawn_debug v g :
  gameLoop_spawn cfg rnd (set_showHitboxes v g)
  = set_showHitboxes v (gameLoop_spawn cfg rnd g).
Proof.
  unfold gameLoop_spawn. cbv zeta.
  change (frame (set_groundOffset ?x (set_frame ?f (set_showHitboxes v g)))) with f.
  change (frame (set_groundOffset ?x (set_frame ?f g))) with f.
  destruct (negb _ && _); reflexivity.
Qed.

Lemma gameLoop_particles_debug v g :
  gameLoop_particles cfg (set_showHitboxes v g)
  = set_showHitboxes v (gameLoop_particles cfg g).
Proof.
  unfold gameLoop_particles. cbv zeta.
  change (particles (set_showHitboxes v g)) with (particles g).
  destruct (200 <? length (particles g))%nat; reflexivity.
Qed.

Lemma gameLoop_playing_debug v g :
  gameLoop_particles cfg
    (pipesLoop cfg rnd
       (length (pipes (bird_update cfg rnd
                         (deltaTime (gameLoop_spawn cfg rnd (set_showHitboxes v g)))
                         (gameLoop_spawn cfg rnd (set_showHitboxes v g)))))
       (bird_update cfg rnd (deltaTime (gameLoop_spawn cfg rnd (set_showHitboxes v g)))
          (gameLoop_spawn cfg rnd (set_showHitboxes v g))))
  = set_showHitboxes v
      (gameLoop_particles cfg
         (pipesLoop cfg rnd
            (length (pipes (bird_update cfg rnd (deltaTime (gameLoop_spawn cfg rnd g))
                              (gameLoop_spawn cfg rnd g))))
            (bird_update cfg rnd (deltaTime (gameLoop_spawn cfg rnd g))
               (gameLoop_spawn cfg rnd g)))).
Proof.
  rewrite gameLoop_spawn_debug.
  generalize (gameLoop_spawn cfg rnd g). intros g2.
  replace (deltaTime (set_showHitboxes v g2)) with (deltaTime g2) by reflexivity.
  rewrite bird_update_debug.
  generalize (bird_update cfg rnd (deltaTime g2) g2). intros g3.
  replace (pipes (set_showHitboxes v g3)) with (pipes g3) by reflexivity.
  rewrite pipesLoop_debug. apply gameLoop_particles_debug.
Qed.

Lemma gameLoop_debug v t g :
  gameLoop cfg rnd t (set_showHitboxes v g) = set_showHitboxes v (gameLoop cfg rnd t g).
Proof.
  unfold gameLoop. cbv zeta.
  replace (gameLoop_clock t (set_showHitboxes v g))
    with (set_showHitboxes v (gameLoop_clock t g)) by reflexivity.
  rewrite gameLoop_background_debug.
  generalize (gameLoop_background cfg rnd (gameLoop_clock t g)). intros g1.
  replace (gameState (set_showHitboxes v g1)) with (gameState g1) by reflexivity.
  destruct (gameState g1); try reflexivity.
  apply gameLoop_playing_debug.
Qed.

Lemma handleJump_debug v now g :
  handleJump cfg rnd now (set_showHitboxes v g)
  = set_showHitboxes v (handleJump cfg rnd now g).
Proof.
  unfold handleJump. cbv zeta.
  change (lastJumpTime (set_showHitboxes v g)) with (lastJumpTime g).
  destruct (Qltb _ _); [reflexivity|].
  change (gameState (set_lastJumpTime now (set_showHitboxes v g))) with (gameState g).
  change (gameState (set_lastJumpTime now g)) with (gameState g).
  change (set_lastJumpTime now (set_showHitboxes v g))
    with (set_showHitboxes v (set_lastJumpTime now g)).
  destruct (gameState g); rewrite ?startGame_debug, ?bird_jump_debug; reflexivity.
Qed.

(** Every event but the debug key treats the flag as an opaque value and
    leaves it as it is. *)
Lemma handle_debug v e g :
  e <> DebugKey ->
  handle cfg rnd e (set_showHitboxes v g) = set_showHitboxes v (handle cfg rnd e g).
Proof.
  intros He. destruct e as [t|now|now|]; [| | |congruence]; cbn [handle].
  - apply gameLoop_debug.
  - apply handleJump_debug.
  - change (gameState (set_showHitboxes v g)) with (gameState g).
    destruct (gameState g); try reflexivity; apply pauseGame_debug.
Qed.

Lemma handle_showHitboxes e g :
  e <> DebugKey -> showHitboxes (handle cfg rnd e g) = showHitboxes g.
Proof.
  intros He.
  pose proof (handle_debug (showHitboxes g) e g He) as H.
  assert (E : set_showHitboxes (showHitboxes g) g = g) by (destruct g; reflexivity).
  rewrite E in H. rewrite H. reflexivity.
Qed.

Lemma handle_DebugKey g :
  handle cfg rnd DebugKey g = set_showHitboxes (negb (showHitboxes g)) g.
Proof. reflexivity. Qed.

Lemma handle_DebugKey_comm e g :
  handle cfg rnd e (handle cfg rnd DebugKey g)
  = handle cfg rnd DebugKey (handle cfg rnd e g).
Proof.
  destruct (Event_is_DebugKey e) eqn:E.
  - destruct e; try discriminate E. reflexivity.
  - assert (He : e <> DebugKey) by (intros ->; discriminate E).
    rewrite !handle_DebugKey, (handle_debug _ e g He), (handle_showHitboxes e g He).
    reflexivity.
Qed.

Lemma run_events_DebugKey_comm es g :
  run_events cfg rnd es (handle cfg rnd DebugKey g)
  = handle cfg rnd DebugKey (run_events cfg rnd es g).
Proof.
  revert g. induction es as [|e es IH]; intros g; [reflexivity|].
  unfold run_events in *. cbn [fold_left]. rewrite handle_DebugKey_comm. apply IH.
Qed.

End EnhancedDebug.

(** X20. The debug key (Ctrl/Cmd+D) only flips [showHitboxes], and no other
    event reads or writes that flag: pressing the key anywhere in a sequence
    of events gives the state the sequence gives without it, with the flag
    flipped; and pressing it twice in a row changes nothing. *)
Theorem debug_key_only_flips_flag
  (cfg : Enhanced.Config) (rnd : nat -> Q) (es1 es2 : list Enhanced.Event)
  (g : Enhanced.Game) :
  let h := run_events cfg rnd (es1 ++ es2) g in
  run_events cfg rnd (es1 ++ Enhanced.DebugKey :: es2) g
  = Enhanced.set_showHitboxes (negb (Enhanced.showHitboxes h)) h
  /\ (Forall (fun e => Event_is_DebugKey e = false) (es1 ++ es2) ->
      Enhanced.showHitboxes h = Enhanced.showHitboxes g)
  /\ Enhanced.handle cfg rnd Enhanced.DebugKey (Enhanced.handle cfg rnd Enhanced.DebugKey g)
     = g.
Proof.
  cbv zeta. split; [|split].
  - unfold run_events. rewrite !List.fold_left_app. cbn [fold_left].
    exact (run_events_DebugKey_comm cfg rnd es2
             (fold_left (fun h e => Enhanced.handle cfg rnd e h) es1 g)).
  - generalize (es1 ++ es2). intros es. revert g.
    induction es as [|e es IH]; intros g Hes; [reflexivity|].
    apply List.Forall_cons_iff in Hes. destruct Hes as (He & Hes).
    unfold run_events in *. cbn [fold_left]. rewrite (IH _ Hes).
    apply handle_showHitboxes. intros ->. discriminate He.
  - destruct g. cbn. rewrite Bool.negb_involutive. reflexivity.
Qed.

Lemma debug_key_only_flips_flag_witness :
  let g := Enhanced.initialGame Enhanced.CONFIG Math_random_half None 0 in
  let es := [Enhanced.Jump 1000; Enhanced.Frame 1016] in
  Forall (fun e => Event_is_DebugKey e = false) es
  /\ Enhanced.showHitboxes (run_events Enhanced.CONFIG Math_random_half es g)
     = Enhanced.showHitboxes g.
Proof.
  assert (H : Forall (fun e => Event_is_DebugKey e = false)
                ([Enhanced.Jump 1000] ++ [Enhanced.Frame 1016]))
    by (repeat constructor).
  exact (conj H
           (proj1 (proj2 (debug_key_only_flips_flag Enhanced.CONFIG Math_random_half
                            [Enhanced.Jump 1000] [Enhanced.Frame 1016]
                            (Enhanced.initialGame Enhanced.CONFIG Math_random_half None 0)))
              H)).
Defined.

(** ** The background and the particles of [src/game.js] *)

Section LegacyScenery.

Variable rnd : nat -> Q.
Variable stn : string -> option Q.
Variable stored : option string.

Hypothesis rnd_range : random_in_range rnd.

Lemma Legacy_new_Cloud_ok layer g :
  0 < layer ->
  Legacy_cloud_ok (fst (Legacy.new_Cloud rnd layer g))
  /\ Cloud.layer (fst (Legacy.new_Cloud rnd layer g)) = layer.
Proof using rnd_range.
  intros Hl. unfold Legacy.new_Cloud, Legacy.random. cbv zeta.
  cbn [fst Legacy.draws Legacy.set_draws].
  destruct (rnd_range (Legacy.draws g)) as (A1 & A2).
  destruct (rnd_range (S (Legacy.draws g))) as (B1 & B2).
  destruct (rnd_range (S (S (Legacy.draws g)))) as (C1 & C2).
  destruct (rnd_range (S (S (S (Legacy.draws g))))) as (D1 & D2).
  set (r1 := rnd (Legacy.draws g)) in *. set (r2 := rnd (S (Legacy.draws g))) in *.
  set (r3 := rnd (S (S (Legacy.draws g)))) in *.
  set (r4 := rnd (S (S (S (Legacy.draws g))))) in *.
  split; [|reflexivity].
  unfold Legacy_cloud_ok, Legacy.canvas_width, Legacy.canvas_height.
  cbn [Cloud.x Cloud.y Cloud.layer Cloud.speed Cloud.size Cloud.opacity].
  assert (Hs1 : 15 / layer <= (15 + r4 * 25) / layer).
  { unfold Qdiv. apply Qmult_le_compat_r; [lra|].
    apply Qlt_le_weak, Qinv_lt_0_compat, Hl. }
  assert (Hs2 : (15 + r4 * 25) / layer <= 40 / layer).
  { unfold Qdiv. apply Qmult_le_compat_r; [lra|].
    apply Qlt_le_weak, Qinv_lt_0_compat, Hl. }
  assert (Hs0 : 0 <= 15 / layer).
  { unfold Qdiv. apply Qmult_le_0_compat; [lra|].
    apply Qlt_le_weak, Qinv_lt_0_compat, Hl. }
  repeat split; try assumption; try reflexivity; try nra.
Qed.

Lemma Legacy_Cloud_update_ok c g :
  Legacy_cloud_ok c ->
  Legacy_cloud_ok (fst (Legacy.Cloud_update rnd c g))
  /\ Cloud.layer (fst (Legacy.Cloud_update rnd c g)) = Cloud.layer c.
Proof using rnd_range.
  intros (Hl & (S1 & S2) & (Z1 & Z2) & Ho & (Y1 & Y2) & (X1 & X2)).
  assert (Hs0 : 0 <= 15 / Cloud.layer c).
  { unfold Qdiv. apply Qmult_le_0_compat; [lra|].
    apply Qlt_le_weak, Qinv_lt_0_compat, Hl. }
  unfold Legacy.Cloud_update, Legacy.canvas_width, Legacy.canvas_height. cbv zeta.
  destruct (Qltb_reflect (Cloud.x c - Cloud.speed c + Cloud.size c * 2) 0) as [H|H].
  - unfold Legacy.random. cbn [fst]. split; [|reflexivity].
    destruct (rnd_range (Legacy.draws g)) as (R1 & R2).
    unfold Legacy_cloud_ok.
    cbn [Cloud.x Cloud.y Cloud.layer Cloud.speed Cloud.size Cloud.opacity].
    repeat split; try assumption; try nra.
  - cbn [fst]. split; [|reflexivity].
    unfold Legacy_cloud_ok.
    cbn [Cloud.x Cloud.y Cloud.layer Cloud.speed Cloud.size Cloud.opacity].
    repeat split; try assumption; try nra.
Qed.

Lemma Legacy_push_clouds_clouds n layer g :
  0 < layer ->
  exists new,
    Legacy.clouds (Legacy.push_clouds rnd n layer g) = Legacy.clouds g ++ new
    /\ Forall Legacy_cloud_ok new
    /\ List.map Cloud.layer new = List.repeat layer n.
Proof using rnd_range.
  intros Hl. revert g. induction n as [|n IH]; intros g.
  - exists []. repeat split; [cbn; now rewrite app_nil_r | constructor].
  - cbn [Legacy.push_clouds].
    destruct (Legacy_new_Cloud_ok layer g Hl) as (Hc & Hlay).
    destruct (Legacy.new_Cloud rnd layer g) as [c g1] eqn:E. cbn [fst] in Hc, Hlay.
    assert (Hg1 : Legacy.clouds g1 = Legacy.clouds g).
    { unfold Legacy.new_Cloud, Legacy.random in E. cbv zeta in E.
      injection E as _ <-. reflexivity. }
    destruct (IH (Legacy.set_clouds (Legacy.clouds g1 ++ [c]) g1)) as (new & Hn & Hf & Hm).
    exists (c :: new). split; [|split].
    + rewrite Hn. cbn [Legacy.clouds Legacy.set_clouds].
      rewrite Hg1, <- app_assoc. reflexivity.
    + constructor; assumption.
    + cbn [List.map List.repeat]. now rewrite Hlay, Hm.
Qed.

Lemma Legacy_clouds_forEach_clouds todo done g :
  exists new,
    Legacy.clouds (Legacy.clouds_forEach rnd todo done g) = done ++ new
    /\ Forall2 (fun c c' => exists g0, c' = fst (Legacy.Cloud_update rnd c g0)) todo new.
Proof.
  revert done g. induction todo as [|c todo IH]; intros done g.
  - exists []. split; [cbn; now rewrite app_nil_r | constructor].
  - cbn [Legacy.clouds_forEach].
    destruct (Legacy.Cloud_update rnd c g) as [c1 g1] eqn:E.
    destruct (IH (done ++ [c1]) g1) as (new & Hc & Hf).
    exists (c1 :: new). split.
    + rewrite Hc, <- app_assoc. reflexivity.
    + constructor; [|exact Hf]. exists g. now rewrite E.
Qed.

(** The background and the particles after a frame, whatever the state. *)
Lemma Legacy_gameLoop_scenery g :
  let g' := Legacy.gameLoop rnd stn g in
  Legacy.mountains g' = List.map Legacy.Mountain_update (Legacy.mountains g)
  /\ Forall2 (fun c c' => exists h, c' = fst (Legacy.Cloud_update rnd c h))
       (Legacy.clouds g) (Legacy.clouds g')
  /\ (Legacy.gameState g <> PLAYING -> Legacy.particles g' = Legacy.particles g)
  /\ (Legacy.gameState g = PLAYING ->
      exists ps, Forall fresh_particle ps
                 /\ Legacy.particles g'
                    = Legacy.particles_filter (Legacy.particles g ++ ps)).
Proof.
  cbv zeta.
  assert (Hc : Forall2 (fun c c' => exists h, c' = fst (Legacy.Cloud_update rnd c h))
                 (Legacy.clouds g) (Legacy.clouds (Legacy.gameLoop_background rnd g))).
  { unfold Legacy.gameLoop_background. cbv zeta.
    destruct (Legacy_clouds_forEach_clouds (Legacy.clouds g) [] g) as (new & Hc & Hf).
    cbn [Legacy.clouds Legacy.set_mountains]. rewrite Hc. exact Hf. }
  assert (Hbg : Legacy.clouds (Legacy.gameLoop rnd stn g)
                = Legacy.clouds (Legacy.gameLoop_background rnd g)).
  { unfold Legacy.gameLoop. cbv zeta.
    generalize (Legacy.gameLoop_background rnd g). intros g0.
    destruct (Legacy.gameState g0); try reflexivity.
    destruct (Legacy_spawn_footprint rnd g0) as (new & d & -> & _).
    match goal with
    | |- context [Legacy.bird_update rnd stn ?gg] =>
        destruct (Legacy_bird_update_keeps rnd stn gg) as ((_ & _ & C2 & _) & _);
        cbn [Legacy.clouds Legacy.set_pipes Legacy.set_draws Legacy.set_groundOffset
             Legacy.set_frame] in C2;
        generalize dependent (Legacy.bird_update rnd stn gg)
    end.
    intros g2 C2.
    destruct (Legacy_forEach_keeps rnd stn (length (Legacy.pipes g2)) 0 g2)
      as ((_ & _ & C3 & _) & _).
    cbn [Legacy.clouds Legacy.set_particles]. congruence. }
  rewrite Hbg.
  destruct (GameState_eqb (Legacy.gameState g) PLAYING) eqn:E.
  - assert (Hs : Legacy.gameState g = PLAYING)
      by (destruct (Legacy.gameState g); now try discriminate).
    destruct (Legacy_gameLoop_playing rnd stn g Hs)
      as (new & _ & _ & _ & _ & M & _ & _ & ps & Hps & Q).
    split; [exact M|]. split; [exact Hc|]. split; [congruence|].
    intros _. exists ps. split; assumption.
  - assert (Hs : Legacy.gameState g <> PLAYING)
      by (intros Hs; rewrite Hs in E; discriminate).
    destruct (Legacy_gameLoop_idle rnd stn g Hs) as (cl & d & Heq).
    rewrite Heq. cbn [Legacy.mountains Legacy.particles Legacy.set_mountains
                      Legacy.set_clouds Legacy.set_draws].
    split; [reflexivity|]. split; [exact Hc|]. split; [reflexivity | congruence].
Qed.

Lemma Legacy_reachable_clouds_ok g :
  Legacy_reachable rnd stn stored g ->
  Forall Legacy_cloud_ok (Legacy.clouds g)
  /\ List.map Cloud.layer (Legacy.clouds g) = [1; 1; 1; 1; 2; 2; 2; 2].
Proof using rnd_range.
  apply (Legacy_reachable_invariant rnd stn stored
           (fun g => Forall Legacy_cloud_ok (Legacy.clouds g)
                     /\ List.map Cloud.layer (Legacy.clouds g) = [1; 1; 1; 1; 2; 2; 2; 2])).
  - unfold Legacy.initialGame. cbv zeta.
    match goal with
    | |- context [Legacy.push_clouds rnd 4 1 ?g0] =>
        destruct (Legacy_push_clouds_clouds 4 1 g0) as (n1 & H1 & F1 & M1); [reflexivity|];
        destruct (Legacy_push_clouds_clouds 4 2 (Legacy.push_clouds rnd 4 1 g0))
          as (n2 & H2 & F2 & M2); [reflexivity|]
    end.
    rewrite H2, H1. cbn [Legacy.clouds app].
    split; [apply Forall_app; split; assumption|].
    rewrite List.map_app, M1, M2. reflexivity.
  - intros h _ (Hf & Hm).
    destruct (Legacy_gameLoop_scenery h) as (_ & H2 & _).
    revert Hf Hm. generalize (Legacy.clouds (Legacy.gameLoop rnd stn h)) H2.
    generalize (Legacy.clouds h) [1; 1; 1; 1; 2; 2; 2; 2]. clear - rnd_range.
    intros l lay l' H2. revert lay.
    induction H2 as [|c c' l l' (h & ->) _ IH]; intros lay Hf Hm.
    + split; [constructor | exact Hm].
    + apply Forall_cons in Hf. destruct Hf as (Hc & Hf).
      destruct (Legacy_Cloud_update_ok c h Hc) as (Hc' & Hlay).
      destruct lay as [|x lay]; [discriminate Hm|].
      cbn [List.map] in Hm. injection Hm as Hx Hm.
      destruct (IH lay Hf Hm) as (Hl' & Hm').
      split; [constructor; assumption|]. cbn [List.map]. now rewrite Hlay, Hm', Hx.
  - intros h Hh. exact Hh.
  - intros h Hh. destruct (Legacy_bird_jump_footprint rnd h) as (ps & d & -> & _).
    exact Hh.
Qed.

Lemma Legacy_Mountain_update_ok m :
  Legacy_mountain_ok m ->
  Legacy_mountain_ok (Legacy.Mountain_update m)
  /\ Mountain.layer (Legacy.Mountain_update m) = Mountain.layer m.
Proof.
  intros (Hl & Hs & O1 & O2). split; [|reflexivity].
  unfold Legacy_mountain_ok, Legacy.Mountain_update, Legacy.canvas_width.
  cbn [Mountain.layer Mountain.speed Mountain.offset].
  split; [exact Hl|]. split; [exact Hs|].
  apply JS_rem_range; [rewrite Hs; nra | reflexivity].
Qed.

Lemma Legacy_reachable_mountains_ok g :
  Legacy_reachable rnd stn stored g ->
  Forall Legacy_mountain_ok (Legacy.mountains g)
  /\ List.map Mountain.layer (Legacy.mountains g) = [1; 2].
Proof.
  apply (Legacy_reachable_invariant rnd stn stored
           (fun g => Forall Legacy_mountain_ok (Legacy.mountains g)
                     /\ List.map Mountain.layer (Legacy.mountains g) = [1; 2])).
  - destruct (Legacy_initialGame_footprint rnd stored) as (cl & d & ->).
    cbn [Legacy.mountains Legacy.set_clouds Legacy.set_draws]. split; [|reflexivity].
    repeat constructor; cbn; try reflexivity; try lra.
  - intros h _ (Hf & Hm).
    destruct (Legacy_gameLoop_scenery h) as (-> & _).
    split.
    + apply List.Forall_forall. intros m Hin.
      apply List.in_map_iff in Hin. destruct Hin as (m0 & <- & Hin).
      rewrite List.Forall_forall in Hf.
      apply Legacy_Mountain_update_ok, Hf, Hin.
    + rewrite List.map_map. rewrite <- Hm. apply List.map_ext. reflexivity.
  - intros h Hh. exact Hh.
  - intros h Hh. destruct (Legacy_bird_jump_footprint rnd h) as (ps & d & -> & _).
    exact Hh.
Qed.

Lemma Legacy_particles_filter_ok l :
  Forall particle_ok l -> Forall particle_ok (Legacy.particles_filter l).
Proof.
  intros Hl. apply List.Forall_forall. intros p Hp.
  unfold Legacy.particles_filter in Hp. apply List.filter_In in Hp.
  destruct Hp as (Hp & Ha).
  assert (Hpos : 0 < Particle.life p).
  { unfold Legacy.Particle_isDead in Ha. apply negb_true_iff in Ha.
    destruct (Qlt_le_dec 0 (Particle.life p)) as [H|H]; [exact H|].
    apply Qle_bool_iff in H. congruence. }
  apply List.in_map_iff in Hp. destruct Hp as (q & <- & Hq).
  rewrite List.Forall_forall in Hl. destruct (Hl q Hq) as (L1 & L2 & D & G).
  unfold particle_ok. split; [exact Hpos|].
  cbn [Particle.life Particle.decay Particle.gravity Legacy.Particle_update] in Hpos |- *.
  rewrite D in *. repeat split; try assumption. lra.
Qed.

Lemma Legacy_reachable_particles_ok g :
  Legacy_reachable rnd stn stored g -> Forall particle_ok (Legacy.particles g).
Proof.
  apply (Legacy_reachable_invariant rnd stn stored
           (fun g => Forall particle_ok (Legacy.particles g))).
  - destruct (Legacy_initialGame_footprint rnd stored) as (cl & d & ->). constructor.
  - intros h _ Hh.
    destruct (Legacy_gameLoop_scenery h) as (_ & _ & Hidle & Hplay).
    destruct (GameState_eqb (Legacy.gameState h) PLAYING) eqn:E.
    + assert (Hs : Legacy.gameState h = PLAYING)
        by (destruct (Legacy.gameState h); now try discriminate).
      destruct (Hplay Hs) as (ps & Hf & ->).
      apply Legacy_particles_filter_ok, Forall_app. split; [exact Hh|].
      eapply Forall_impl; [exact Hf | apply fresh_particle_ok].
    + assert (Hs : Legacy.gameState h <> PLAYING)
        by (intros Hs; rewrite Hs in E; discriminate).
      rewrite (Hidle Hs). exact Hh.
  - intros h Hh. exact Hh.
  - intros h Hh. destruct (Legacy_bird_jump_footprint rnd h) as (ps & d & -> & Hf).
    cbn [Legacy.particles Legacy.set_particles].
    apply Forall_app. split; [exact Hh|].
    eapply Forall_impl; [exact Hf | apply fresh_particle_ok].
Qed.

End LegacyScenery.

(** X21. The background of [src/game.js] stays in range: in every reachable
    state, with [Math.random()] in [0, 1), there are eight clouds, four of
    layer 1 followed by four of layer 2, each with the speed and the size of
    its layer, a height between 0 and 400 and an x position between
    [-2 * size] and [400 + size]; and two mountain ranges, of layer 1 and 2,
    each scrolling at 0.3 times its layer per frame with an offset in
    [0, 400). *)
Theorem Legacy_background_in_range
  (rnd : nat -> Q) (stn : string -> option Q) (stored : option string) (g : Legacy.Game)
  (rnd_range : random_in_range rnd) :
  Legacy_reachable rnd stn stored g ->
  (List.map Cloud.layer (Legacy.clouds g) = [1; 1; 1; 1; 2; 2; 2; 2]
   /\ Forall Legacy_cloud_ok (Legacy.clouds g))
  /\ (List.map Mountain.layer (Legacy.mountains g) = [1; 2]
      /\ Forall Legacy_mountain_ok (Legacy.mountains g)).
Proof.
  intros Hr.
  destruct (Legacy_reachable_clouds_ok rnd stn stored rnd_range g Hr) as (Hc & Hl).
  destruct (Legacy_reachable_mountains_ok rnd stn stored g Hr) as (Hm & Hk).
  repeat split; assumption.
Qed.

Lemma Legacy_background_in_range_witness :
  let g := Legacy.gameLoop Math_random_half StringToNumber_int legacy_started_best_7 in
  (random_in_range Math_random_half
   /\ Legacy_reachable Math_random_half StringToNumber_int (Some "7"%string) g)
  /\ Forall Legacy_cloud_ok (Legacy.clouds g)
  /\ Forall Legacy_mountain_ok (Legacy.mountains g).
Proof.
  pose (R := Legacy_reachable_frame Math_random_half StringToNumber_int (Some "7"%string)
               legacy_started_best_7
               (Legacy_reachable_jump Math_random_half StringToNumber_int
                  (Some "7"%string)
                  (Legacy.initialGame Math_random_half (Some "7"%string))
                  (Legacy_reachable_init _ _ _))).
  pose (T := Legacy_background_in_range Math_random_half StringToNumber_int
               (Some "7"%string)
               (Legacy.gameLoop Math_random_half StringToNumber_int legacy_started_best_7)
               Math_random_half_in_range R).
  exact (conj (conj Math_random_half_in_range R)
           (conj (proj2 (proj1 T)) (proj2 (proj2 T)))).
Defined.

(** X22. The particles of [src/game.js] that are in the array can be drawn:
    in every reachable state each particle has a life, which is the opacity
    it is drawn with, in (0, 1], and the decay 0.02 and the gravity 0.3 of
    the constructor. A frame in the [PLAYING] state updates the particles it
    started with and those emitted during the frame and keeps the living; a
    frame in another state leaves the particles as they are, so that those
    of the end of a game are not animated before the next game. *)
Theorem Legacy_particles_stay_visible
  (rnd : nat -> Q) (stn : string -> option Q) (stored : option string) (g : Legacy.Game) :
  Legacy_reachable rnd stn stored g ->
  let g' := Legacy.gameLoop rnd stn g in
  Forall particle_ok (Legacy.particles g)
  /\ (Legacy.gameState g <> PLAYING -> Legacy.particles g' = Legacy.particles g)
  /\ (Legacy.gameState g = PLAYING ->
      exists ps, Forall fresh_particle ps
                 /\ Legacy.particles g'
                    = Legacy.particles_filter (Legacy.particles g ++ ps)).
Proof.
  intros Hr. cbv zeta.
  destruct (Legacy_gameLoop_scenery rnd stn g) as (_ & _ & Hidle & Hplay).
  split; [exact (Legacy_reachable_particles_ok rnd stn stored g Hr)|].
  split; assumption.
Qed.

Lemma Legacy_particles_stay_visible_witness :
  Legacy_reachable Math_random_half StringToNumber_int (Some "7"%string)
    legacy_started_best_7
  /\ Forall particle_ok (Legacy.particles legacy_started_best_7).
Proof.
  pose (R := Legacy_reachable_jump Math_random_half StringToNumber_int (Some "7"%string)
               (Legacy.initialGame Math_random_half (Some "7"%string))
               (Legacy_reachable_init _ _ _)).
  exact (conj R (proj1 (Legacy_particles_stay_visible Math_random_half StringToNumber_int
                          (Some "7"%string) legacy_started_best_7 R))).
Defined.

(** ** The bird and the particles in the frame without a delta *)

Section EnhancedEarlyJump.

Variable cfg : Enhanced.Config.
Variable rnd : nat -> Q.

Lemma normalizedDt_NaN : NaN.normalizedDt cfg None = None.
Proof. reflexivity. Qed.

(** The delta of the first frame that carries a time stamp is NaN. *)
Lemma first_frame_deltaTime stored t0 t1 :
  NaN.deltaTime (NaN.gameLoop_head cfg rnd (Some t1) (scenery_loaded cfg rnd stored t0))
  = None.
Proof.
  pose proof (scenery_loaded_eq cfg rnd stored t0) as E. cbv zeta in E.
  assert (Hc : Forall (fun c => NaN.CloudN.x c = None)
                 (NaN.clouds (scenery_loaded cfg rnd stored t0)))
    by (rewrite E; apply Forall_map_cloud_at).
  assert (Hm : Forall (fun m => NaN.MountainN.offset m = None)
                 (NaN.mountains (scenery_loaded cfg rnd stored t0)))
    by (rewrite E; repeat constructor).
  assert (Hl : NaN.lastFrameTime (scenery_loaded cfg rnd stored t0) = None)
    by (rewrite E; reflexivity).
  exact (proj1 (gameLoop_head_twice cfg rnd _ t1 t1 Hc Hm Hl)).
Qed.

(** On numbers the update of the bird is the one of [Enhanced]. *)
Lemma bird_integrate_numbers dt b :
  NaN.bird_integrate cfg (Some dt) (bird_of b)
  = bird_of (Enhanced.bird_integrate cfg dt b).
Proof. reflexivity. Qed.

Lemma bird_put_numbers y b :
  NaN.bird_put y (bird_of b) = bird_of (Bird.set_velocity 0 (Bird.set_y y b)).
Proof. reflexivity. Qed.

Lemma bird_update_numbers dt b :
  let bi := Enhanced.bird_integrate cfg dt b in
  NaN.bird_update cfg (Some dt) (bird_of b)
  = (bird_of (bird_bounds cfg bi),
     Qltb (Enhanced.canvas_height cfg - Enhanced.ground_height cfg)
          (Bird.y bi + Bird.height bi)).
Proof.
  intros bi. unfold NaN.bird_update, bird_bounds. cbv zeta.
  rewrite bird_integrate_numbers. fold bi.
  generalize bi. clear bi. intros bi.
  change (NaN.BirdN.y (bird_of bi)) with (Some (Bird.y bi)).
  change (NaN.BirdN.height (bird_of bi)) with (Bird.height bi).
  cbn [NaN.add NaN.lift2 NaN.ltb].
  destruct (Qltb (Enhanced.canvas_height cfg - Enhanced.ground_height cfg)
                 (Bird.y bi + Bird.height bi)).
  - rewrite bird_put_numbers.
    match goal with
    | |- context [bird_of ?bb] => generalize bb; intros b1
    end.
    change (NaN.BirdN.y (bird_of b1)) with (Some (Bird.y b1)).
    cbn [NaN.ltb]. destruct (Qltb (Bird.y b1) 0); reflexivity.
  - change (NaN.BirdN.y (bird_of bi)) with (Some (Bird.y bi)).
    cbn [NaN.ltb]. destruct (Qltb (Bird.y bi) 0); reflexivity.
Qed.

(** With a delta that is NaN the four numbers that [update] writes are
    NaN and neither test fires. *)
Lemma bird_update_NaN_dt b :
  let r := NaN.bird_update cfg None b in
  bird_lost (fst r) /\ NaN.BirdN.velocity (fst r) = None /\ snd r = false.
Proof.
  unfold NaN.bird_update, NaN.bird_integrate, bird_lost. cbv zeta.
  rewrite normalizedDt_NaN.
  destruct b as [x y w h v gr js rot wf mv tv]. destruct v, y, rot, wf; cbn;
    repeat split; reflexivity.
Qed.

(** A bird that has lost its position does not find it again in
    [update], whatever the delta, and never touches the ground. *)
Lemma bird_update_lost dt b :
  bird_lost b ->
  let r := NaN.bird_update cfg dt b in
  bird_lost (fst r) /\ snd r = false.
Proof.
  intros (Hy & Hr & Hw).
  destruct b as [x y w h v gr js rot wf mv tv]. cbn in Hy, Hr, Hw. subst y rot wf.
  unfold NaN.bird_update, NaN.bird_integrate, bird_lost. cbv zeta.
  cbn [NaN.BirdN.y NaN.BirdN.rotation NaN.BirdN.wingFrame NaN.BirdN.velocity
       NaN.BirdN.gravity NaN.BirdN.terminalVelocity NaN.BirdN.height
       NaN.add NaN.sub NaN.mul NaN.rem NaN.lift2 NaN.ltb fst snd].
  repeat split; reflexivity.
Qed.

Lemma bird_jump_lost b : bird_lost b -> bird_lost (NaN.bird_jump b).
Proof. intros H. exact H. Qed.

(** No pipe is hit by a bird whose [y] is NaN: both comparisons of the
    heights are false. *)
Lemma Pipe_collidesWith_lost p b :
  NaN.BirdN.y b = None -> NaN.Pipe_collidesWith cfg p b = false.
Proof.
  intros Hy. unfold NaN.Pipe_collidesWith. cbv zeta. rewrite Hy.
  cbn [NaN.add NaN.sub NaN.lift2 NaN.ltb orb].
  destruct (_ && _); reflexivity.
Qed.

Lemma Pipe_collidesWith_numbers p b g :
  NaN.Pipe_collidesWith cfg p (bird_of b)
  = fst (Enhanced.Pipe_collidesWith cfg rnd p b g).
Proof.
  unfold NaN.Pipe_collidesWith, Enhanced.Pipe_collidesWith. cbv zeta.
  change (NaN.BirdN.y (bird_of b)) with (Some (Bird.y b)).
  change (NaN.BirdN.x (bird_of b)) with (Bird.x b).
  change (NaN.BirdN.width (bird_of b)) with (Bird.width b).
  change (NaN.BirdN.height (bird_of b)) with (Bird.height b).
  cbn [NaN.add NaN.sub NaN.lift2 NaN.ltb].
  destruct (_ && _); [|reflexivity].
  destruct (_ || _); reflexivity.
Qed.

(** The particles. *)
Lemma Particle_update_numbers dt p :
  NaN.Particle_update cfg (Some dt) (particle_of p)
  = particle_of (Enhanced.Particle_update cfg dt p).
Proof. reflexivity. Qed.

Lemma Particle_isDead_numbers p :
  NaN.Particle_isDead (particle_of p) = Enhanced.Particle_isDead p.
Proof. reflexivity. Qed.

Lemma particles_step_numbers dt l :
  NaN.particles_step cfg (Some dt) (List.map particle_of l)
  = List.map particle_of
      (Enhanced.particles_filter cfg dt
         (if (200 <? length l)%nat then Enhanced.slice_last100 l else l)).
Proof.
  unfold NaN.particles_step, Enhanced.particles_filter, Enhanced.slice_last100.
  cbv zeta. rewrite List.length_map.
  assert (E : (if (200 <? length l)%nat
               then drop (length l - 100) (List.map particle_of l)
               else List.map particle_of l)
              = List.map particle_of
                  (if (200 <? length l)%nat then drop (length l - 100) l else l)).
  { destruct (200 <? length l)%nat; [|reflexivity].
    generalize (length l - 100)%nat. intros k. revert l.
    induction k as [|k IH]; intros [|a l]; try reflexivity. exact (IH l). }
  rewrite E.
  generalize (if (200 <? length l)%nat then drop (length l - 100) l else l).
  intros l'. induction l' as [|a l' IH]; [reflexivity|].
  cbn [List.map List.filter].
  rewrite Particle_update_numbers, Particle_isDead_numbers.
  destruct (negb _); cbn [List.map]; rewrite IH; reflexivity.
Qed.

Lemma Particle_update_NaN_dt p :
  let q := NaN.Particle_update cfg None p in
  particle_lost q /\ NaN.ParticleN.x q = None /\ NaN.ParticleN.y q = None
  /\ NaN.ParticleN.vy q = None /\ NaN.Particle_isDead q = false.
Proof.
  unfold NaN.Particle_update, particle_lost, NaN.Particle_isDead. cbv zeta.
  rewrite normalizedDt_NaN.
  destruct p as [x y vx vy gr life decay size color]. destruct x, y, vy, life; cbn;
    repeat split; reflexivity.
Qed.

Lemma Particle_update_lost dt p :
  particle_lost p ->
  particle_lost (NaN.Particle_update cfg dt p)
  /\ NaN.Particle_isDead (NaN.Particle_update cfg dt p) = false.
Proof.
  unfold particle_lost, NaN.Particle_isDead, NaN.Particle_update. cbv zeta.
  intros H. cbn [NaN.ParticleN.life]. rewrite H. split; reflexivity.
Qed.

Lemma filter_all_kept {A} (f : A -> bool) (l : list A) :
  Forall (fun a => f a = true) l -> List.filter f l = l.
Proof.
  induction 1 as [|a l Ha _ IH]; [reflexivity|].
  cbn [List.filter]. rewrite Ha, IH. reflexivity.
Qed.

Lemma particles_step_NaN_dt ps :
  (length ps <= 200)%nat ->
  NaN.particles_step cfg None ps = List.map (NaN.Particle_update cfg None) ps.
Proof.
  intros Hl. unfold NaN.particles_step. cbv zeta.
  assert (E : (200 <? length ps)%nat = false) by (apply Nat.ltb_ge; exact Hl).
  rewrite E. apply filter_all_kept.
  apply List.Forall_forall. intros q Hq. apply List.in_map_iff in Hq.
  destruct Hq as (p & <- & _).
  destruct (Particle_update_NaN_dt p) as (_ & _ & _ & _ & Hd).
  cbv zeta in Hd. rewrite Hd. reflexivity.
Qed.

Lemma particles_step_lost dt ps :
  (length ps <= 200)%nat ->
  Forall particle_lost ps ->
  NaN.particles_step cfg dt ps = List.map (NaN.Particle_update cfg dt) ps
  /\ Forall particle_lost (NaN.particles_step cfg dt ps).
Proof.
  intros Hl Hps. unfold NaN.particles_step. cbv zeta.
  assert (E : (200 <? length ps)%nat = false) by (apply Nat.ltb_ge; exact Hl).
  rewrite E.
  assert (K : List.filter (fun p => negb (NaN.Particle_isDead p))
                (List.map (NaN.Particle_update cfg dt) ps)
              = List.map (NaN.Particle_update cfg dt) ps).
  { apply filter_all_kept. apply List.Forall_forall. intros q Hq.
    apply List.in_map_iff in Hq. destruct Hq as (p & <- & Hp).
    rewrite List.Forall_forall in Hps.
    destruct (Particle_update_lost dt p (Hps p Hp)) as (_ & Hd).
    rewrite Hd. reflexivity. }
  rewrite K. split; [reflexivity|].
  apply List.Forall_forall. intros q Hq.
  apply List.in_map_iff in Hq. destruct Hq as (p & <- & Hp).
  rewrite List.Forall_forall in Hps.
  exact (proj1 (Particle_update_lost dt p (Hps p Hp))).
Qed.

End EnhancedEarlyJump.

(** X23. A jump that is accepted before the first frame with a time stamp
    loses the bird. The delta of that frame is NaN (X13); when the game is
    in the [PLAYING] state it is passed to [bird.update], which then makes
    [y], [velocity], [rotation] and [wingFrame] NaN without touching the
    ground or the ceiling. A bird whose [y], [rotation] and [wingFrame] are
    NaN keeps them NaN in every later [update], whatever the delta, and in
    [jump]; it never touches the ground and no pipe is hit by it. On a bird
    whose numbers are all numbers, [update] and [collidesWith] are those of
    [Enhanced]. *)
Theorem bird_NaN_after_early_jump
  (cfg : Enhanced.Config) (rnd : nat -> Q) (stored : option string) (t0 t1 : Q) :
  let first :=
    NaN.gameLoop_head cfg rnd (Some t1) (scenery_loaded cfg rnd stored t0) in
  (forall b : NaN.BirdN.t,
     let r := NaN.bird_update cfg (NaN.deltaTime first) b in
     bird_lost (fst r) /\ NaN.BirdN.velocity (fst r) = None /\ snd r = false)
  /\ (forall (dt : NaN.num) (b : NaN.BirdN.t),
        bird_lost b ->
        let r := NaN.bird_update cfg dt b in
        bird_lost (fst r) /\ snd r = false)
  /\ (forall b : NaN.BirdN.t, bird_lost b -> bird_lost (NaN.bird_jump b))
  /\ (forall (p : Pipe.t) (b : NaN.BirdN.t),
        bird_lost b -> NaN.Pipe_collidesWith cfg p b = false)
  /\ (forall (dt : Q) (g : Enhanced.Game),
        let bi := Enhanced.bird_integrate cfg dt (Enhanced.bird g) in
        NaN.bird_update cfg (Some dt) (bird_of (Enhanced.bird g))
        = (bird_of (Enhanced.bird (Enhanced.bird_update cfg rnd dt g)),
           Qltb (Enhanced.canvas_height cfg - Enhanced.ground_height cfg)
                (Bird.y bi + Bird.height bi)))
  /\ (forall (p : Pipe.t) (b : Bird.t) (g : Enhanced.Game),
        NaN.Pipe_collidesWith cfg p (bird_of b)
        = fst (Enhanced.Pipe_collidesWith cfg rnd p b g)).
Proof.
  intros first.
  assert (D : NaN.deltaTime first = None)
    by exact (first_frame_deltaTime cfg rnd stored t0 t1).
  split.
  { intros b. rewrite D. exact (bird_update_NaN_dt cfg b). }
  split; [exact (bird_update_lost cfg)|].
  split; [exact bird_jump_lost|].
  split.
  { intros p b (Hy & _). exact (Pipe_collidesWith_lost cfg p b Hy). }
  split.
  { intros dt g bi. rewrite (bird_update_bird cfg rnd dt g).
    exact (bird_update_numbers cfg dt (Enhanced.bird g)). }
  exact (Pipe_collidesWith_numbers cfg rnd).
Qed.

Lemma bird_NaN_after_early_jump_witness :
  let b := bird_of (Enhanced.bird game_started) in
  let r := NaN.bird_update Enhanced.CONFIG None b in
  bird_lost (fst r)
  /\ bird_lost (fst (NaN.bird_update Enhanced.CONFIG (Some 16) (fst r))).
Proof.
  pose proof (bird_NaN_after_early_jump Enhanced.CONFIG Math_random_half None 0 16)
    as (_ & H & _).
  assert (L : bird_lost (fst (NaN.bird_update Enhanced.CONFIG None
                                (bird_of (Enhanced.bird game_started)))))
    by (vm_compute; repeat split; reflexivity).
  exact (conj L (proj1 (H (Some 16) _ L))).
Defined.

(** X24. The particles of a jump that is accepted before the first frame
    with a time stamp never fade. The delta of that frame is NaN (X13);
    with at most 200 particles in the array, the frame keeps every one of
    them and makes its [x], [y], [vy] and [life] NaN: [isDead] is false on
    a life that is NaN. A particle whose life is NaN keeps it NaN in every
    later [update], whatever the delta, and is not dropped by the filter;
    only the cut to the last 100 particles removes it. On particles whose
    numbers are all numbers, the step is the one of [Enhanced]. *)
Theorem particles_NaN_after_early_jump
  (cfg : Enhanced.Config) (rnd : nat -> Q) (stored : option string) (t0 t1 : Q) :
  let first :=
    NaN.gameLoop_head cfg rnd (Some t1) (scenery_loaded cfg rnd stored t0) in
  (forall ps : list NaN.ParticleN.t,
     (length ps <= 200)%nat ->
     let ps' := NaN.particles_step cfg (NaN.deltaTime first) ps in
     ps' = List.map (NaN.Particle_update cfg None) ps
     /\ length ps' = length ps
     /\ Forall (fun q => particle_lost q /\ NaN.ParticleN.x q = None
                         /\ NaN.ParticleN.y q = None /\ NaN.ParticleN.vy q = None)
               ps')
  /\ (forall (dt : NaN.num) (ps : list NaN.ParticleN.t),
        (length ps <= 200)%nat ->
        Forall particle_lost ps ->
        NaN.particles_step cfg dt ps = List.map (NaN.Particle_update cfg dt) ps
        /\ Forall particle_lost (NaN.particles_step cfg dt ps))
  /\ (forall (dt : Q) (l : list Particle.t),
        NaN.particles_step cfg (Some dt) (List.map particle_of l)
        = List.map particle_of
            (Enhanced.particles_filter cfg dt
               (if (200 <? length l)%nat then Enhanced.slice_last100 l else l))).
Proof.
  intros first.
  assert (D : NaN.deltaTime first = None)
    by exact (first_frame_deltaTime cfg rnd stored t0 t1).
  split.
  { intros ps Hl. cbv zeta. rewrite D, (particles_step_NaN_dt cfg ps Hl).
    split; [reflexivity|]. split; [apply List.length_map|].
    apply List.Forall_forall. intros q Hq. apply List.in_map_iff in Hq.
    destruct Hq as (p & <- & _).
    destruct (Particle_update_NaN_dt cfg p) as (H1 & H2 & H3 & H4 & _).
    repeat split; assumption. }
  split; [exact (particles_step_lost cfg)|].
  exact (particles_step_numbers cfg).
Qed.

Lemma particles_NaN_after_early_jump_witness :
  let ps := List.map particle_of (Enhanced.particles game_started) in
  let ps' := NaN.particles_step Enhanced.CONFIG None ps in
  (length ps = 5%nat /\ (length ps <= 200)%nat)
  /\ length ps' = 5%nat
  /\ Forall particle_lost ps'.
Proof.
  assert (H5 : length (List.map particle_of (Enhanced.particles game_started)) = 5%nat)
    by (vm_compute; reflexivity).
  assert (Hl : (length (List.map particle_of (Enhanced.particles game_started)) <= 200)%nat)
    by (rewrite H5; repeat constructor).
  pose proof (proj1 (particles_NaN_after_early_jump
                       Enhanced.CONFIG Math_random_half None 0 16)
                (List.map particle_of (Enhanced.particles game_started)) Hl)
    as (E & L & F).
  rewrite (first_frame_deltaTime Enhanced.CONFIG Math_random_half None 0 16) in L, F.
  split; [exact (conj H5 Hl)|].
  split; [rewrite L; exact H5|].
  exact (List.Forall_impl _ (fun q Hq => proj1 Hq) F).
Defined.
(** * The best score *)

(** ** The best score of [src/game.js] over a frame *)

Section LegacyRecord.

Variable rnd : nat -> Q.
Variable stn : string -> option Q.















End LegacyRecord.


